(* ===== verification/_CoqProject ===== *)
-Q . S2P
Prelude.v
Types.v
Utf8.v
Json.v
JsonSpec.v
Text.v
Marshal.v
KvStore.v
Node.v
Persist.v
DurableJson.v
Membership.v
Snapshot.v
Log.v
Election.v
RaftOps.v
Read.v
Machine.v
Client.v
Kv.v
Http.v
Bench.v
NodeInv.v
LogSpec.v
Durable.v
NodeId.v
Spec.v
SpecInv.v
SpecSafety.v
Network.v
Demo.v
SnapshotSpec.v
MembershipSpec.v
Bounds.v
Divergence.v
CutLog.v
RefineBase.v
RefineOps.v
RefineChange.v
RefineSnapshot.v
Refine.v
ClusterSafety.v
Kept.v
Accessors.v
RunHost.v
Linearizable.v
NodeProps.v
Progress.v
AppendSpec.v
CatchUp.v
Availability.v
ReadSpec.v
FileStore.v
KvSpec.v
KvFindings.v
HttpSpec.v
Faults.v
Grpc.v
Cluster.v
ClusterInv.v
ClusterSpec.v
ClusterDemo.v
Process.v
Findings.v
