(* ===== verification/Prelude.v ===== *)
(** * raft-store: a verification development

    The program is a replicated key-value store in Go.  A node ([raft/]) runs the
    Raft protocol: elections, log replication, snapshots, one-at-a-time membership
    changes, linearizable reads.  Nodes talk over gRPC or, in tests, over an
    in-process network with injected faults.  A key-value server ([kv/]) turns
    Puts into commands of the log and Gets into confirmed reads of its store.  A
    process ([cmd/main.go]) serves it over HTTP and forwards what it cannot answer
    to the leader; [cluster/] runs several nodes in one process with a control
    plane that crashes, isolates, adds and removes them; [cmd/bench] measures it.

    ** What models what

    - [Prelude] (this file): maps of Go, 64-bit integers, lists indexed by
      integers, the tactics and the hint database [raft].
    - [Types], [Node]: the data of raft/node.go, rpc.go, snapshot.go, persist.go
      and membership.go; [RaftNode] is the struct of the same name, with the
      clock, the random source, the goroutines it has started and the calls of
      its peer hook made explicit, and one setter per field.
    - [Persist], [Membership], [Snapshot], [Log], [Election], [RaftOps], [Read]:
      one definition per function of raft/*.go, on the state of one node.  A
      function that releases the mutex is one definition per section
      ([replicateHead], [replicateAppendReply], [requestVoteReply], ...).
    - [Machine]: all of them as one transition function, [runOp], for a node whose
      goroutines and callers interleave in any order.
    - [Client]: the goroutine of Start and the calls that wait, WaitApplied and
      ReadIndex, composed from their sections; what other goroutines do between two
      sections is part of their schedule.  They are written once, against the interface
      [Host] to the place where the node lives: a node on its own, or ([RunHost]) a node
      of a cluster whose run the call extends.  [CatchUp]: the goroutine replicateTo as
      a whole.
    - [Network]: clusters of nodes as steps of nodes and of a network that loses,
      delays, reorders and duplicates messages, with crashes, restarts, nodes that
      are started to join and changes of the membership.  The disks of these nodes
      work: a save never fails there (what a failed one does is in [Findings]).
    - [Faults], [Grpc]: raft/faults.go, the in-process network of raft/rpc.go, and
      raft/grpc.go with the wire form of every message.
    - [Utf8], [Json], [Marshal], [DurableJson], [Text]: what the program uses of
      encoding/json, encoding/base64, unicode/utf8, strings and strconv, on bytes.
    - [FileStore]: FileStorage of raft/persist.go over a file system whose calls
      may fail, stop halfway or lose power.
    - [KvStore], [Kv]: kv/store.go, kv/client_api.go, kv/grpc.go.  [Accessors]:
      the accessors of raft/node.go and Server.Status, which calls them one by one.
    - [Http], [Bench]: cmd/main.go and cmd/bench/main.go.  [Process]: the process
      of cmd/main.go, from its flags to its exit code, with its shutdown.
    - [Cluster]: cluster/cluster.go and cluster/http.go.

    ** What is shown

    - [Spec] states Raft as an abstract protocol over a history of votes and
      messages, in which the members are those the log of a node determines;
      [SpecInv] and [SpecSafety] prove its safety, membership changes included.
      [CutLog] relates a log that a node has compacted to the full one;
      [RefineBase], [RefineOps], [RefineChange], [RefineSnapshot] and [Refine] show
      that every step of a cluster of the real nodes is matched by steps of the
      protocol: compaction, installed snapshots, crashes and restarts, joins and
      membership changes included.  [ClusterSafety] draws the consequences:
      election safety, log matching, leader completeness, one vote per term, and
      one log for a whole run, to which every committed entry belongs and of which
      every state machine has applied a prefix.
      Three things are asked of a run ([safe_run]): an installed snapshot does not
      make a node drop entries that follow it ([safe_installs], vacuous with
      compaction off), a leader that proposes a change has committed an entry of
      its term ([settled_leader]), and a node that was started to join does not
      campaign while it knows only itself ([knows_cluster]); the last two are
      vacuous where the membership does not change.  The code checks none of them,
      and for each [Divergence] has a run that violates it alone and in which two
      nodes commit different entries at one index.
    - [Linearizable], [KvSpec]: in such runs a call of ReadIndex that succeeds covers
      everything committed before it; the store is the history of the applied Puts; a
      call of Get sees every acknowledged Put.  The calls have to be [undisturbed]: the
      term does not change between the check that an entry of the term is committed and
      the reading of the commit index, which the code does not ensure
      ([KvFindings.stale_read]); and the entry of a Put has to be in the log when it is
      acknowledged ([Findings.lost_write_acknowledged]).  Also: what a Put command
      writes, and snapshots of the store.
    - [Kept], [Progress], [Availability]: from every state such a run can reach,
      any group that is a majority as far as its nodes know the members can elect
      a leader by its own steps and, with compaction off, commit a command with it.
    - [Bounds]: terms and indexes grow by at most one with a step of the cluster,
      so they stay within 64 bits; nothing is assumed of the run.
    - [NodeInv], [LogSpec], [Durable], [NodeId], [NodeProps]: what one node
      guarantees against any messages: its invariant, that its disk is current
      after every operation, that a restart brings back what it must not forget,
      when it grants a vote.  InstallSnapshot requests that name no members, which no
      leader builds, are left out where the members matter ([op_ok]).  [AppendSpec],
      [SnapshotSpec], [MembershipSpec], [ReadSpec]: the behaviour of the handlers on
      every branch, with the exact log after an append, that compaction changes nothing
      that can be observed, quorums of consecutive configurations meet, the loops of a
      read end and decide, where election deadlines lie.
    - [CatchUp]: replication to a peer that answers ends, with the log of the leader on
      the peer, entry for entry.
    - [JsonSpec], [Marshal], [DurableJson], [FileStore]: printed JSON is read back;
      the file storage implements the storage a node relies on, also across a
      power loss.  [Grpc]: the wire forms are read back and an RPC that arrives
      does what a direct call does.
    - [Faults]: the injector implements a set of isolated nodes and a set of cut
      pairs.  [HttpSpec]: peer lists are parsed back, requests are forwarded once.
      [ClusterInv], [ClusterSpec]: the invariant of the in-process cluster under
      all its operations, and the recovery of a crashed member.  [Process]: exit
      codes, the order of a shutdown, and the recovery of a process that ends at
      any point.  [Bench]: the report accounts for every Put.
    - Behaviours that differ from what the program means or documents are proved
      as runs: a snapshot that undoes a commit, membership changes that split the
      cluster and a joining node that elects itself ([Divergence]), a lost write
      that is acknowledged and a vote granted unsaved ([Findings]), a stale read and
      a Status that mixes two moments ([KvFindings]), keys and values changed on
      the way ([HttpSpec], [KvSpec]), a Save undone by a power
      loss ([FileStore]), an election timeout that overflows ([ReadSpec]), a replication loop without end ([CatchUp]) and a cluster
      divided by its control plane ([ClusterDemo]).

    ** Conventions

    A Go [int] is a [Z]; its 64 bits are written out where a value leaves the
    process ([int64] in [Grpc] and [Kv], [in64] in the JSON and file theorems) and where
    durations of a configuration are added ([RaftOps], [Persist]), and [Bounds]
    shows that inside the process no index or term leaves them.  Maps are values: the
    program clones the maps it shares.  Logging is left out.
    The random source is a list that a node consumes, the clock a field that the
    environment sets.  Fuel: the loops of [Log] and [Membership] take the number
    of indexes they can visit, which is their fuel by definition; [jvalue] takes
    twice the length of the text and [parse_fuel] shows that more changes nothing;
    [replicateTo] takes a number of rounds, and [replication_catches_up] gives one
    that is enough.  Waiting calls take a schedule and return [None] while they
    still wait.

    ** Not modelled

    The generated code of proto/; sockets, HTTP and gRPC servers and the delivery
    of signals (I/O): what can be listened on, when the signal comes and what an
    HTTP client answers are parameters; the parsing of the command line by package
    flag; times and rates of cmd/bench; the matching of paths by http.ServeMux, but
    for the keys of [/kv/{key}].  The methods of [Cluster] are atomic but for the
    waits of Add and Remove, and read the fields of a Status at once.

    ** Open

    [Availability] with compaction, where a leader may have to send a snapshot
    first. *)
From stdpp Require Export base gmap strings list sorting fin_maps.
From Stdlib Require Export ZArith Lia.
From Stdlib Require Import Strings.Byte.

(** * Go values

    A Go [[]byte] is a list of bytes (a nil slice and an empty slice are the
    same value: the program only asks for [len]); a [map[string]T] is a finite
    map whose missing keys read as the zero value of [T]; a Go [int] is an
    integer of [Z] (see the header for what is shown about its width). *)

Declare Scope go_scope.
Delimit Scope go_scope with go.
Open Scope Z_scope.

Abbreviation bytes := (list Byte.byte).

#[export] Instance byte_eq_decision : EqDecision Byte.byte := Byte.byte_eq_dec.

(** [len(s)] of a slice. *)
Definition slen {A} (l : list A) : Z := Z.of_nat (length l).

(** [s[i]], [None] where Go panics with an index out of range. *)
Definition zlookup {A} (l : list A) (i : Z) : option A :=
  if decide (0 ≤ i) then l !! Z.to_nat i else None.

Notation "l !z i" := (zlookup l i) (at level 20, right associativity) : go_scope.
Open Scope go_scope.

(** [m[k]] on a map with integer, boolean and string values. *)
Definition mapZ (m : gmap string Z) (k : string) : Z := default 0 (m !! k).
Definition mapB (m : gmap string bool) (k : string) : bool := default false (m !! k).
Definition mapS (m : gmap string string) (k : string) : string := default ""%string (m !! k).

(** ** [sort.Strings]: bytewise lexicographic order *)

Definition string_le (a b : string) : Prop := String.leb a b = true.

#[export] Instance string_le_dec a b : Decision (string_le a b).
Proof. unfold string_le. apply _. Defined.

Definition sort_strings (l : list string) : list string := merge_sort string_le l.

(** The keys of a map in the order the program keeps them: collected by a
    [range] loop, then sorted. *)
Definition sorted_keys {A} (m : gmap string A) : list string :=
  sort_strings (elements (dom m)).

#[export] Instance string_le_total : Total string_le.
Proof. intros a b. apply String.leb_total. Qed.

Lemma elem_of_sort_strings x l : x ∈ sort_strings l ↔ x ∈ l.
Proof. unfold sort_strings. by rewrite merge_sort_Permutation. Qed.

Lemma elem_of_sorted_keys {A} x (m : gmap string A) :
  x ∈ sorted_keys m ↔ is_Some (m !! x).
Proof.
  unfold sorted_keys. rewrite elem_of_sort_strings, elem_of_elements.
  by rewrite elem_of_dom.
Qed.

Lemma NoDup_sorted_keys {A} (m : gmap string A) : NoDup (sorted_keys m).
Proof.
  unfold sorted_keys, sort_strings. rewrite merge_sort_Permutation.
  apply NoDup_elements.
Qed.

Lemma Sorted_sorted_keys {A} (m : gmap string A) : Sorted string_le (sorted_keys m).
Proof. apply Sorted_merge_sort, _. Qed.

Lemma length_sorted_keys {A} (m : gmap string A) : length (sorted_keys m) = size m.
Proof.
  unfold sorted_keys, sort_strings. rewrite merge_sort_Permutation.
  change (length (elements (dom m))) with (size (dom m)). apply size_dom.
Qed.

(** [len(m) > 0]. *)
Lemma map_size_pos {A} (m : gmap string A) : (0 < size m)%nat ↔ m ≠ ∅.
Proof. rewrite <- map_size_non_empty_iff. lia. Qed.

(** * Tactics and hints *)

Create HintDb raft.

(** Case analysis on every test the model makes, with the arithmetic cases
    that contradict the context removed. *)
Ltac split_ifs :=
  repeat match goal with
  | |- context [decide ?P] => destruct (decide P)
  | H : context [decide ?P] |- _ => destruct (decide P)
  | |- context [if ?b then _ else _] => let E := fresh "E" in destruct b eqn:E
  end; simplify_eq/=; try done; try lia.

(** Break every conjunction and existential of the context. *)
Ltac break :=
  repeat match goal with
  | H : _ ∧ _ |- _ => destruct H
  | H : ∃ _, _ |- _ => destruct H
  end.

(** * Maps of integers *)

Lemma mapZ_insert m p q v : mapZ (<[p := v]> m) q = if decide (p = q) then v else mapZ m q.
Proof.
  unfold mapZ. case_decide as Hd; [by rewrite Hd, lookup_insert_eq|by rewrite lookup_insert_ne].
Qed.

Lemma mapZ_insert_eq m k v : mapZ (<[k := v]> m) k = v.
Proof. by rewrite mapZ_insert, decide_True. Qed.

(** * Slices *)

Section slices.
Context {A : Type}.
Implicit Types (l : list A) (i : Z).

Lemma slen_nonneg l : 0 ≤ slen l.
Proof. unfold slen. lia. Qed.

Lemma slen_app l1 l2 : slen (l1 ++ l2) = slen l1 + slen l2.
Proof. unfold slen. rewrite length_app. lia. Qed.

Lemma slen_cons x l : slen (x :: l) = 1 + slen l.
Proof. unfold slen. simpl. lia. Qed.

Lemma zlookup_Some l i x :
  l !z i = Some x ↔ 0 ≤ i ∧ l !! Z.to_nat i = Some x.
Proof. unfold zlookup. case_decide; [by split; [|intros []]|]. by split; [|intros []]. Qed.

Lemma zlookup_lt_Some l i x : l !z i = Some x → 0 ≤ i < slen l.
Proof.
  intros [? Hx]%zlookup_Some. apply lookup_lt_Some in Hx. unfold slen. lia.
Qed.

Lemma zlookup_is_Some l i : is_Some (l !z i) ↔ 0 ≤ i < slen l.
Proof.
  split.
  - intros [x Hx]. by eapply zlookup_lt_Some.
  - intros [??]. unfold zlookup. rewrite decide_True by done.
    apply lookup_lt_is_Some. unfold slen in *. lia.
Qed.

Lemma zlookup_None l i : l !z i = None ↔ i < 0 ∨ slen l ≤ i.
Proof.
  rewrite eq_None_not_Some, zlookup_is_Some. lia.
Qed.

Lemma zlookup_nat l (i : nat) : l !z (Z.of_nat i) = l !! i.
Proof. unfold zlookup. rewrite decide_True by lia. by rewrite Nat2Z.id. Qed.

Lemma zlookup_app_l l1 l2 i : i < slen l1 → (l1 ++ l2) !z i = l1 !z i.
Proof.
  intros. unfold zlookup. case_decide; [|done].
  apply lookup_app_l. unfold slen in *. lia.
Qed.

Lemma zlookup_app_r l1 l2 i :
  slen l1 ≤ i → (l1 ++ l2) !z i = l2 !z (i - slen l1).
Proof.
  intros Hi. pose proof (slen_nonneg l1). unfold zlookup.
  rewrite !decide_True by lia. unfold slen in *.
  rewrite lookup_app_r by lia. f_equal. lia.
Qed.

Lemma zlookup_take l n i :
  i < Z.of_nat n → take n l !z i = l !z i.
Proof.
  intros. unfold zlookup. case_decide; [|done].
  apply lookup_take_lt. lia.
Qed.

Lemma zlookup_prefix l1 l2 i x :
  l1 `prefix_of` l2 → l1 !z i = Some x → l2 !z i = Some x.
Proof.
  intros [k ->] Hx. rewrite zlookup_app_l; [done|].
  apply zlookup_lt_Some in Hx. lia.
Qed.

(** ** Prefixes of logs *)

Lemma prefix_le_eq l1 l2 l : 
  l1 `prefix_of` l → l2 `prefix_of` l → (length l1 ≤ length l2)%nat →
  l1 `prefix_of` l2.
Proof.
  intros H1 H2 Hlen. destruct (prefix_weak_total l1 l2 l H1 H2) as [?|[k ->]]; [done|].
  rewrite length_app in Hlen.
  assert (k = []) as -> by (apply nil_length_inv; lia). by rewrite app_nil_r.
Qed.

Lemma take_prefix_mono l n m : (n ≤ m)%nat → take n l `prefix_of` take m l.
Proof.
  intros. replace (take n l) with (take n (take m l)) by
    (rewrite take_take; f_equal; lia).
  apply prefix_take.
Qed.

Lemma take_tail l n : take n (tail l) = tail (take (S n) l).
Proof. destruct l; cbn; [by rewrite take_nil|done]. Qed.

Lemma prefix_take_eq l1 l2 n :
  l1 `prefix_of` l2 → (n ≤ length l1)%nat → take n l1 = take n l2.
Proof. intros [k ->] ?. by rewrite take_app_le. Qed.

Lemma take_prefix_iff l1 l2 n :
  (n ≤ length l2)%nat →
  take n l2 `prefix_of` l1 ↔ (n ≤ length l1)%nat ∧ take n l1 = take n l2.
Proof.
  intros Hn. split.
  - intros Hp. pose proof (prefix_length _ _ Hp) as Hl.
    rewrite length_take_le in Hl by done. split; [done|].
    rewrite <- (prefix_take_eq _ _ n Hp) by (rewrite length_take_le; done).
    by rewrite take_take, Nat.min_id.
  - intros [? <-]. apply prefix_take.
Qed.
End slices.

#[export] Hint Rewrite @slen_app @slen_cons : raft.

(** * Quorums

    Two sets of at least [len/2 + 1] members of the same configuration share a
    member. *)
Lemma quorum_intersect (U X Y : gset string) :
  X ⊆ U → Y ⊆ U →
  Z.of_nat (size U) / 2 + 1 ≤ Z.of_nat (size X) →
  Z.of_nat (size U) / 2 + 1 ≤ Z.of_nat (size Y) →
  ∃ x, x ∈ X ∧ x ∈ Y.
Proof.
  intros HX HY HsX HsY.
  destruct (decide (X ∩ Y = ∅)) as [Hd|Hd].
  - assert (Hsub : X ∪ Y ⊆ U) by set_solver.
    apply subseteq_size in Hsub. rewrite size_union in Hsub by set_solver.
    pose proof (Z.div_mod (Z.of_nat (size U)) 2 ltac:(lia)).
    pose proof (Z.mod_pos_bound (Z.of_nat (size U)) 2 ltac:(lia)). lia.
  - apply set_choose_L in Hd as [x ?]. exists x. set_solver.
Qed.

(** * 64-bit integers *)

(** [int64(x)] and [int(x)]: two's complement, 64 bits. *)
Definition int64 (z : Z) : Z := (z + 2 ^ 63) mod 2 ^ 64 - 2 ^ 63.

Definition in64 (z : Z) : Prop := - 2 ^ 63 ≤ z < 2 ^ 63.

Lemma int64_id z : in64 z → int64 z = z.
Proof. unfold in64, int64. intros H. rewrite Z.mod_small; lia. Qed.

Lemma int64_in z : in64 (int64 z).
Proof. unfold in64, int64. pose proof (Z.mod_pos_bound (z + 2 ^ 63) (2 ^ 64)). lia. Qed.

Lemma int64_twice z : in64 z → int64 (int64 z) = z.
Proof. intros H. by rewrite !(int64_id _ H). Qed.
