(* ===== verification/Types.v ===== *)
(** The data of package [raft]: roles, errors, log entries, membership changes,
    RPC arguments and replies, the durable state, the configuration, the
    transports, and the interfaces a node is given ([Storage], the apply
    callback and the [Snapshotter]). *)
From S2P Require Import Prelude.
Open Scope Z_scope.
Open Scope go_scope.

(** ** Roles and errors (raft/node.go, raft/membership.go) *)

Inductive State := Follower | Candidate | Leader.

#[export] Instance State_eq_dec : EqDecision State.
Proof. solve_decision. Defined.

(** [State.String]. *)
Definition State_String (s : State) : string :=
  match s with
  | Follower => "follower"
  | Candidate => "candidate"
  | Leader => "leader"
  end.

Inductive Error :=
  | ErrNotLeader | ErrTimeout | ErrStaleLeader | ErrStopped | ErrUnreachable
  | ErrAlreadyMember | ErrNotMember | ErrConfigInProgress | ErrLastMember
  | ErrRemoveLeader
  | ErrNew (msg : string).

#[export] Instance Error_eq_dec : EqDecision Error.
Proof. solve_decision. Defined.

(** Go's [(T, error)] results. *)
Inductive result (A : Type) := Ok (a : A) | Err (e : Error).
Arguments Ok {A} a.
Arguments Err {A} e.

(** ** The log (raft/node.go, raft/membership.go) *)

Definition ChangeAdd : string := "add".
Definition ChangeRemove : string := "remove".

Record MembershipChange := MkChange {
  ch_Type : string;
  ch_ID : string;
  ch_Addr : string;
  ch_HTTP : string;
  ch_Peers : gmap string string;
  ch_HTTPAddrs : gmap string string;
}.

#[export] Instance MembershipChange_eq_dec : EqDecision MembershipChange.
Proof. solve_decision. Defined.

Record LogEntry := MkEntry {
  e_Term : Z;
  e_Index : Z;
  e_Command : bytes;
  e_Change : option MembershipChange;
}.

#[export] Instance LogEntry_eq_dec : EqDecision LogEntry.
Proof. solve_decision. Defined.

(** [LogEntry{}], the zero value; also the dummy every log starts with. *)
Definition zeroEntry : LogEntry := MkEntry 0 0 [] None.

(** A dummy entry that stands for a snapshot: [LogEntry{Term: t, Index: i}]. *)
Definition dummyEntry (t i : Z) : LogEntry := MkEntry t i [] None.

Record ApplyMsg := MkApplyMsg { am_Index : Z; am_Command : bytes }.

(** ** RPC messages (raft/rpc.go, raft/snapshot.go) *)

Record RequestVoteRequest := MkVoteReq {
  rv_Term : Z;
  rv_CandidateID : string;
  rv_LastLogIndex : Z;
  rv_LastLogTerm : Z;
}.

Record RequestVoteResponse := MkVoteResp {
  rvr_Term : Z;
  rvr_VoteGranted : bool;
}.

Record AppendEntriesRequest := MkAppendReq {
  ae_Term : Z;
  ae_LeaderID : string;
  ae_PrevLogIndex : Z;
  ae_PrevLogTerm : Z;
  ae_Entries : list LogEntry;
  ae_LeaderCommit : Z;
}.

Record AppendEntriesResponse := MkAppendResp {
  aer_Term : Z;
  aer_Success : bool;
}.

Record InstallSnapshotRequest := MkInstallReq {
  is_Term : Z;
  is_LeaderID : string;
  is_LastIncludedIndex : Z;
  is_LastIncludedTerm : Z;
  is_Data : bytes;
  is_Peers : gmap string string;
  is_HTTP : gmap string string;
}.

Record InstallSnapshotResponse := MkInstallResp { isr_Term : Z }.

(** ** Durable state (raft/persist.go) *)

Record DurableState := MkDurable {
  ds_CurrentTerm : Z;
  ds_VotedFor : string;
  ds_Log : list LogEntry;
  ds_Snapshot : bytes;
  ds_SnapshotPeers : gmap string string;
  ds_SnapshotHTTP : gmap string string;
}.

(** [DurableState{}]: what [Load] returns when there is no file. *)
Definition zeroDurable : DurableState := MkDurable 0 "" [] [] ∅ ∅.

(** What a node observes of its [Storage]: the state the last successful [Save]
    left, whether [Load] fails, and the outcomes of the coming [Save] calls
    ([true] is an error; every later call succeeds). *)
Record Storage := MkStorage {
  st_Disk : DurableState;
  st_LoadErr : bool;
  st_SaveErrs : list bool;
}.

(** ** Transports (raft/rpc.go, raft/faults.go, raft/grpc.go)

    The part of a transport that a node changes: the dial addresses and the
    cached connections of a [GRPCTransport], which a [FilterTransport] forwards
    to; a [memoryTransport] has no addresses. *)
Inductive Transport :=
  | MemoryTransport
  | GRPCTransport (addrs : gmap string string) (conns : gset string)
  | FilterTransport (from : string) (inner : Transport).

(** ** Configuration (raft/node.go) *)

Record Config := MkConfig {
  cfg_ID : string;
  cfg_PeerAddrs : gmap string string;
  cfg_ElectionTimeoutMin : Z;
  cfg_ElectionTimeoutMax : Z;
  cfg_HeartbeatInterval : Z;
  cfg_Storage : option Storage;
  cfg_Snapshotter : bool;
  cfg_SnapshotThreshold : Z;
  cfg_HTTPAddrs : gmap string string;
  cfg_Join : bool;
}.

(** [time.Millisecond] in nanoseconds. *)
Definition Millisecond : Z := 1000000.

(** The literal of [DefaultConfig]; the other fields are the zero values. *)
Definition DefaultConfig (id : string) (peerAddrs : gmap string string) : Config :=
  MkConfig id peerAddrs (150 * Millisecond) (300 * Millisecond)
    (50 * Millisecond) None false 32 ∅ false.

(** ** The replicated state machine

    The [ApplyFunc] and the [Snapshotter] a node is given both act on one state
    machine; [None] is an error of [Snapshot] or [Restore], which leaves the
    machine as it was. *)
Class StateMachine (S : Type) := {
  sm_apply : ApplyMsg → S → S;
  sm_snapshot : S → option bytes;
  sm_restore : bytes → S → option S;
}.

(** What the node relies on: the machines a run reaches are closed under apply
    and restore, and a snapshot is not empty and restores the machine it was
    taken from, whatever the machine it is restored into. *)
Class StateMachineLaws (S : Type) `{!StateMachine S} := {
  sm_ok : S → Prop;
  sm_apply_ok : ∀ m s, sm_ok s → sm_ok (sm_apply m s);
  sm_snapshot_nonempty : ∀ s b, sm_snapshot s = Some b → b ≠ [];
  sm_restore_snapshot : ∀ s s0 b,
    sm_ok s → sm_snapshot s = Some b → sm_restore b s0 = Some s;
}.

(** A goroutine a node has started. *)
Inductive Goroutine :=
  | GoReplicateTo (peer : string)
  | GoSendRequestVote (peer : string) (req : RequestVoteRequest).
