(* ===== verification/Utf8.v ===== *)
(** Go strings as byte sequences and their UTF-8 reading (package unicode/utf8 of
    the Go library), for the JSON texts the program writes and reads.

    Texts are lists of byte codes in [Z]; [text_of_bytes] and [text_of_string]
    give the codes of a [[]byte] and of a [string]. *)
From Stdlib Require Import ZifyBool Ascii.
From S2P Require Import Prelude.
Open Scope Z_scope.
Open Scope go_scope.

Abbreviation text := (list Z).

(** Every code is a byte. *)
Definition is_text (t : text) : Prop := Forall (λ z, 0 ≤ z < 256) t.

Definition code_of_byte (b : Byte.byte) : Z := Z.of_N (Byte.to_N b).
Definition byte_of_code (z : Z) : Byte.byte :=
  default Byte.x00 (Byte.of_N (Z.to_N (z mod 256))).

Definition code_of_ascii (a : ascii) : Z := Z.of_N (N_of_ascii a).
Definition ascii_of_code (z : Z) : ascii := ascii_of_N (Z.to_N (z mod 256)).

Definition text_of_bytes (b : bytes) : text := map code_of_byte b.
Definition bytes_of_text (t : text) : bytes := map byte_of_code t.

Definition text_of_string (s : string) : text := map code_of_ascii (String.list_ascii_of_string s).
Definition string_of_text (t : text) : string := String.string_of_list_ascii (map ascii_of_code t).

(** ** Conversions are inverse *)

Lemma code_of_byte_range b : 0 ≤ code_of_byte b < 256.
Proof. unfold code_of_byte. pose proof (Byte.to_N_bounded b). lia. Qed.

Lemma code_of_ascii_range a : 0 ≤ code_of_ascii a < 256.
Proof. unfold code_of_ascii. pose proof (N_ascii_bounded a). lia. Qed.

Lemma byte_of_code_of_byte b : byte_of_code (code_of_byte b) = b.
Proof.
  unfold byte_of_code. rewrite Z.mod_small by apply code_of_byte_range.
  unfold code_of_byte. by rewrite N2Z.id, Byte.of_to_N.
Qed.

Lemma code_of_byte_of_code z : 0 ≤ z < 256 → code_of_byte (byte_of_code z) = z.
Proof.
  intros Hz. unfold byte_of_code, code_of_byte. rewrite Z.mod_small by lia.
  destruct (Byte.of_N (Z.to_N z)) as [b|] eqn:E.
  - apply Byte.to_of_N in E. simpl. lia.
  - apply Byte.of_N_None_iff in E. lia.
Qed.

Lemma ascii_of_code_of_ascii a : ascii_of_code (code_of_ascii a) = a.
Proof.
  unfold ascii_of_code. rewrite Z.mod_small by apply code_of_ascii_range.
  unfold code_of_ascii. by rewrite N2Z.id, ascii_N_embedding.
Qed.

Lemma code_of_ascii_of_code z : 0 ≤ z < 256 → code_of_ascii (ascii_of_code z) = z.
Proof.
  intros Hz. unfold ascii_of_code, code_of_ascii. rewrite Z.mod_small by lia.
  rewrite N_ascii_embedding by lia. lia.
Qed.

Lemma map_inverse {A B} (f : A → B) (g : B → A) (P : A → Prop) l :
  (∀ x, P x → g (f x) = x) → Forall P l → map g (map f l) = l.
Proof.
  intros H. induction 1 as [|x l Hx Hl IH]; [done|]. cbn. by rewrite H, IH.
Qed.

Lemma bytes_of_text_of_bytes b : bytes_of_text (text_of_bytes b) = b.
Proof.
  apply (map_inverse _ _ (λ _, True)); [|by apply Forall_true].
  intros x _. apply byte_of_code_of_byte.
Qed.

Lemma text_of_bytes_of_text t : is_text t → text_of_bytes (bytes_of_text t) = t.
Proof. apply map_inverse, code_of_byte_of_code. Qed.

Lemma string_of_text_of_string s : string_of_text (text_of_string s) = s.
Proof.
  unfold string_of_text, text_of_string.
  rewrite (map_inverse code_of_ascii ascii_of_code (λ _, True)).
  - apply String.string_of_list_ascii_of_string.
  - intros x _. apply ascii_of_code_of_ascii.
  - by apply Forall_true.
Qed.

Lemma text_of_string_of_text t : is_text t → text_of_string (string_of_text t) = t.
Proof.
  intros Ht. unfold string_of_text, text_of_string.
  rewrite String.list_ascii_of_string_of_list_ascii. by apply map_inverse with (P := λ z, 0 ≤ z < 256);
    [apply code_of_ascii_of_code|].
Qed.

Lemma text_of_string_is_text s : is_text (text_of_string s).
Proof.
  apply Forall_fmap, Forall_true. intros a. apply code_of_ascii_range.
Qed.

Lemma text_of_bytes_is_text b : is_text (text_of_bytes b).
Proof.
  apply Forall_fmap, Forall_true. intros a. apply code_of_byte_range.
Qed.

Lemma is_text_app t1 t2 : is_text (t1 ++ t2) ↔ is_text t1 ∧ is_text t2.
Proof. apply Forall_app. Qed.

Lemma is_text_concat ts : Forall is_text ts → is_text (concat ts).
Proof. induction 1; cbn; [constructor|]. by apply is_text_app. Qed.

(** Texts that are written out are compared by computation. *)
Lemma is_text_by t : forallb (λ z, (0 <=? z) && (z <? 256)) t = true → is_text t.
Proof.
  intros H. apply Forall_forall. intros z Hz.
  rewrite forallb_forall in H. specialize (H z ltac:(by apply list_elem_of_In)). lia.
Qed.

(** ** Runes: [utf8.DecodeRune], repeated *)

Definition seq2 (b0 b1 : Z) : bool :=
  (0xC2 <=? b0) && (b0 <=? 0xDF) && (0x80 <=? b1) && (b1 <=? 0xBF).

Definition seq3 (b0 b1 b2 : Z) : bool :=
  (0xE0 <=? b0) && (b0 <=? 0xEF) &&
  ((if b0 =? 0xE0 then 0xA0 else 0x80) <=? b1) &&
  (b1 <=? (if b0 =? 0xED then 0x9F else 0xBF)) &&
  (0x80 <=? b2) && (b2 <=? 0xBF).

Definition seq4 (b0 b1 b2 b3 : Z) : bool :=
  (0xF0 <=? b0) && (b0 <=? 0xF4) &&
  ((if b0 =? 0xF0 then 0x90 else 0x80) <=? b1) &&
  (b1 <=? (if b0 =? 0xF4 then 0x8F else 0xBF)) &&
  (0x80 <=? b2) && (b2 <=? 0xBF) && (0x80 <=? b3) && (b3 <=? 0xBF).

(** A rune with the bytes that encode it, or one byte that is not UTF-8. *)
Inductive chunk := Rune (bs : text) | BadByte (b : Z).

Fixpoint chunks (s : text) : list chunk :=
  match s with
  | [] => []
  | b0 :: s1 =>
      if b0 <? 0x80 then Rune [b0] :: chunks s1
      else
        let bad := BadByte b0 :: chunks s1 in
        match s1 with
        | [] => bad
        | b1 :: s2 =>
            if seq2 b0 b1 then Rune [b0; b1] :: chunks s2
            else match s2 with
            | [] => bad
            | b2 :: s3 =>
                if seq3 b0 b1 b2 then Rune [b0; b1; b2] :: chunks s3
                else match s3 with
                | [] => bad
                | b3 :: s4 =>
                    if seq4 b0 b1 b2 b3 then Rune [b0; b1; b2; b3] :: chunks s4
                    else bad
                end
            end
        end
  end.

(** The bytes of U+FFFD, which stands for a byte that is not UTF-8. *)
Definition replacement : text := [0xEF; 0xBF; 0xBD].

Definition cleanChunk (c : chunk) : text :=
  match c with Rune bs => bs | BadByte _ => replacement end.

(** The text with every bad byte replaced. *)
Definition clean (s : text) : text := concat (map cleanChunk (chunks s)).

(** [utf8.Valid]. *)
Definition validChunk (c : chunk) : bool :=
  match c with Rune _ => true | BadByte _ => false end.

Definition valid_utf8 (s : text) : bool := forallb validChunk (chunks s).

(** What a chunk of a text can be. *)
Inductive rune_bytes : text → Prop :=
  | rune1 b0 : b0 < 0x80 → rune_bytes [b0]
  | rune2 b0 b1 : seq2 b0 b1 = true → rune_bytes [b0; b1]
  | rune3 b0 b1 b2 : seq3 b0 b1 b2 = true → rune_bytes [b0; b1; b2]
  | rune4 b0 b1 b2 b3 : seq4 b0 b1 b2 b3 = true → rune_bytes [b0; b1; b2; b3].

Definition is_chunk (c : chunk) : Prop :=
  match c with Rune bs => rune_bytes bs | BadByte b => 0x80 ≤ b end.

(** Induction on a text chunk by chunk. *)
Lemma chunks_ind (P : text → Prop) :
  P [] →
  (∀ bs s, rune_bytes bs → chunks (bs ++ s) = Rune bs :: chunks s → P s → P (bs ++ s)) →
  (∀ b s, 0x80 ≤ b → chunks (b :: s) = BadByte b :: chunks s → P s → P (b :: s)) →
  ∀ s, P s.
Proof.
  intros H0 Hr Hb s.
  remember (length s) as k eqn:Ek. assert (length s ≤ k)%nat as Hk by lia. clear Ek.
  revert s Hk. induction k as [|k IH]; intros s Hk.
  { destruct s; [done|]. cbn in Hk. lia. }
  destruct s as [|b0 s1]; [done|]. cbn [length] in Hk.
  destruct (b0 <? 0x80) eqn:E0.
  { apply (Hr [b0] s1); [constructor; lia|cbn; by rewrite E0|apply IH; lia]. }
  assert (Hbad : chunks (b0 :: s1) = BadByte b0 :: chunks s1 → P (b0 :: s1))
    by (intros; apply Hb; [lia|done|apply IH; lia]).
  destruct s1 as [|b1 s2]; [apply Hbad; cbn; by rewrite E0|].
  destruct (seq2 b0 b1) eqn:E2.
  { apply (Hr [b0; b1] s2); [by constructor|cbn; by rewrite E0, E2|].
    apply IH. cbn in Hk. lia. }
  destruct s2 as [|b2 s3]; [apply Hbad; cbn; by rewrite E0, E2|].
  destruct (seq3 b0 b1 b2) eqn:E3.
  { apply (Hr [b0; b1; b2] s3); [by constructor|cbn; by rewrite E0, E2, E3|].
    apply IH. cbn in Hk. lia. }
  destruct s3 as [|b3 s4]; [apply Hbad; cbn; by rewrite E0, E2, E3|].
  destruct (seq4 b0 b1 b2 b3) eqn:E4.
  { apply (Hr [b0; b1; b2; b3] s4); [by constructor|cbn; by rewrite E0, E2, E3, E4|].
    apply IH. cbn in Hk. lia. }
  apply Hbad. cbn. by rewrite E0, E2, E3, E4.
Qed.

(** ** Cleaning *)

(** The lead byte decides the length, so the tests exclude each other. *)
Lemma seq3_not_seq2 b0 b1 b2 b1' : seq3 b0 b1 b2 = true → seq2 b0 b1' = false.
Proof. unfold seq2, seq3. lia. Qed.

Lemma seq4_not_seq2 b0 b1 b2 b3 b1' : seq4 b0 b1 b2 b3 = true → seq2 b0 b1' = false.
Proof. unfold seq2, seq4. lia. Qed.

Lemma seq4_not_seq3 b0 b1 b2 b3 b1' b2' :
  seq4 b0 b1 b2 b3 = true → seq3 b0 b1' b2' = false.
Proof. unfold seq3, seq4. lia. Qed.

Lemma seq2_lead b0 b1 : seq2 b0 b1 = true → (b0 <? 0x80) = false.
Proof. unfold seq2. lia. Qed.

Lemma seq3_lead b0 b1 b2 : seq3 b0 b1 b2 = true → (b0 <? 0x80) = false.
Proof. unfold seq3. lia. Qed.

Lemma seq4_lead b0 b1 b2 b3 : seq4 b0 b1 b2 b3 = true → (b0 <? 0x80) = false.
Proof. unfold seq4. lia. Qed.

Lemma chunks_rune bs s : rune_bytes bs → chunks (bs ++ s) = Rune bs :: chunks s.
Proof.
  destruct 1 as [b0 H|b0 b1 H|b0 b1 b2 H|b0 b1 b2 b3 H]; cbn.
  - destruct (b0 <? 0x80) eqn:E; [done|lia].
  - by rewrite (seq2_lead _ _ H), H.
  - by rewrite (seq3_lead _ _ _ H), (seq3_not_seq2 _ _ _ _ H), H.
  - by rewrite (seq4_lead _ _ _ _ H), (seq4_not_seq2 _ _ _ _ _ H),
      (seq4_not_seq3 _ _ _ _ _ _ H), H.
Qed.

Lemma chunks_are_chunks s : Forall is_chunk (chunks s).
Proof.
  induction s as [|bs s Hbs Hc IH|b s Hb Hc IH] using chunks_ind; [constructor|..];
    rewrite Hc; by constructor.
Qed.

Lemma replacement_rune : rune_bytes replacement.
Proof. by constructor. Qed.

(** A concatenation of runes is read back as these runes. *)
Lemma chunks_concat bss :
  Forall rune_bytes bss → chunks (concat bss) = map Rune bss.
Proof.
  induction 1 as [|bs bss Hbs _ IH]; [done|]. cbn. by rewrite chunks_rune, IH.
Qed.

Lemma cleanChunk_rune c : is_chunk c → rune_bytes (cleanChunk c).
Proof. destruct c; [done|]. intros _. apply replacement_rune. Qed.

Lemma chunks_clean s : chunks (clean s) = map (Rune ∘ cleanChunk) (chunks s).
Proof.
  unfold clean. rewrite chunks_concat, map_map; [done|].
  apply Forall_fmap. eapply Forall_impl; [apply chunks_are_chunks|].
  intros c. apply cleanChunk_rune.
Qed.

Lemma clean_valid s : valid_utf8 (clean s) = true.
Proof. unfold valid_utf8. rewrite chunks_clean. by induction (chunks s). Qed.

Lemma concat_chunks s : valid_utf8 s = true → clean s = s.
Proof.
  unfold valid_utf8, clean.
  induction s as [|bs s Hbs Hc IH|b s Hb Hc IH] using chunks_ind; [done|..];
    rewrite Hc; cbn; [|done].
  intros H. by rewrite IH.
Qed.

(** Cleaning changes exactly the texts that are not UTF-8. *)
Lemma clean_id_iff s : clean s = s ↔ valid_utf8 s = true.
Proof.
  split; [intros <-; apply clean_valid|apply concat_chunks].
Qed.

Lemma clean_text s : is_text s → is_text (clean s).
Proof.
  induction s as [|bs s Hbs Hc IH|b s Hb Hc IH] using chunks_ind; unfold clean in *;
    [done|..]; rewrite Hc; cbn.
  - intros [H1 H2]%is_text_app. apply is_text_app. by auto.
  - intros [_ Ht]%Forall_cons. apply (is_text_app replacement). split; [by apply is_text_by|by auto].
Qed.

(** Texts of ASCII characters are UTF-8. *)
Lemma ascii_valid s : Forall (λ z, z < 0x80) s → valid_utf8 s = true.
Proof.
  induction 1 as [|b s Hb _ IH]; [done|]. unfold valid_utf8 in *.
  change (b :: s) with ([b] ++ s). by rewrite chunks_rune by by constructor.
Qed.

(** Strings. *)
Definition valid_string (s : string) : Prop := valid_utf8 (text_of_string s) = true.

#[export] Instance valid_string_dec s : Decision (valid_string s).
Proof. unfold valid_string. apply _. Defined.

(** The string with every bad byte replaced by U+FFFD. *)
Definition clean_string (s : string) : string := string_of_text (clean (text_of_string s)).

Lemma clean_string_valid s : valid_string (clean_string s).
Proof.
  unfold valid_string, clean_string.
  rewrite text_of_string_of_text by apply clean_text, text_of_string_is_text.
  apply clean_valid.
Qed.

Lemma clean_string_id s : valid_string s → clean_string s = s.
Proof.
  intros H. unfold clean_string. rewrite concat_chunks by done.
  apply string_of_text_of_string.
Qed.

Lemma clean_string_id_iff s : clean_string s = s ↔ valid_string s.
Proof. split; [intros <-; apply clean_string_valid|apply clean_string_id]. Qed.
