(* ===== verification/Json.v ===== *)
(** JSON texts as package encoding/json of the Go library writes and reads them.

    [print] is the compact output of [json.Marshal], with its string escapes
    (HTML characters included); [parse] is the scanner and the decoder of
    [json.Unmarshal]: the whole grammar, white space, escapes with surrogate
    pairs, bad UTF-8 replaced by U+FFFD, and the limit on nesting.  The main
    lemma is [parse_print]: reading back a printed value gives the value with
    its strings cleaned. *)
From Stdlib Require Import ZifyBool.
From S2P Require Import Prelude Utf8.
Open Scope Z_scope.
Open Scope go_scope.

(** A number is kept as its literal, a string as its decoded bytes. *)
Inductive json :=
  | JNull
  | JBool (b : bool)
  | JNum (lit : text)
  | JStr (s : text)
  | JArr (l : list json)
  | JObj (l : list (text * json)).

(** ** Writing *)

(** A digit of a [\u] escape. *)
Definition hexDigit (d : Z) : Z := if d <? 10 then 0x30 + d else 0x57 + d.

(** An ASCII character in a string. *)
Definition escapeAscii (c : Z) : text :=
  if (c =? 0x22) || (c =? 0x5C) then [0x5C; c]
  else if c =? 0x08 then [0x5C; 0x62]
  else if c =? 0x0C then [0x5C; 0x66]
  else if c =? 0x0A then [0x5C; 0x6E]
  else if c =? 0x0D then [0x5C; 0x72]
  else if c =? 0x09 then [0x5C; 0x74]
  else if (c <? 0x20) || (c =? 0x3C) || (c =? 0x3E) || (c =? 0x26)
  then [0x5C; 0x75; 0x30; 0x30; hexDigit (c / 16); hexDigit (c mod 16)]
  else [c].

(** A chunk of a string: a bad byte is written as U+FFFD, and U+2028 and U+2029
    are escaped. *)
Definition escapeChunk (c : chunk) : text :=
  match c with
  | Rune [c] => escapeAscii c
  | Rune bs =>
      if decide (bs = [0xE2; 0x80; 0xA8]) then [0x5C; 0x75; 0x32; 0x30; 0x32; 0x38]
      else if decide (bs = [0xE2; 0x80; 0xA9]) then [0x5C; 0x75; 0x32; 0x30; 0x32; 0x39]
      else bs
  | BadByte _ => [0x5C; 0x75; 0x66; 0x66; 0x66; 0x64]
  end.

Definition escape (s : text) : text := concat (map escapeChunk (chunks s)).

Definition quote (s : text) : text := 0x22 :: escape s ++ [0x22].

(** The elements separated by commas. *)
Fixpoint commas (l : list text) : text :=
  match l with
  | [] => []
  | [t] => t
  | t :: l => t ++ 0x2C :: commas l
  end.

Definition lit_null : text := [0x6E; 0x75; 0x6C; 0x6C].
Definition lit_true : text := [0x74; 0x72; 0x75; 0x65].
Definition lit_false : text := [0x66; 0x61; 0x6C; 0x73; 0x65].

Fixpoint print (j : json) : text :=
  match j with
  | JNull => lit_null
  | JBool true => lit_true
  | JBool false => lit_false
  | JNum lit => lit
  | JStr s => quote s
  | JArr l => 0x5B :: commas (map print l) ++ [0x5D]
  | JObj l => 0x7B :: commas (map (λ '(k, v), quote k ++ 0x3A :: print v) l) ++ [0x7D]
  end.

(** ** Reading *)

Definition is_space (c : Z) : bool := (c =? 0x20) || (c =? 0x09) || (c =? 0x0D) || (c =? 0x0A).

Fixpoint skip (s : text) : text :=
  match s with
  | c :: s' => if is_space c then skip s' else s
  | [] => []
  end.

Definition hexValue (c : Z) : option Z :=
  if (0x30 <=? c) && (c <=? 0x39) then Some (c - 0x30)
  else if (0x61 <=? c) && (c <=? 0x66) then Some (c - 0x57)
  else if (0x41 <=? c) && (c <=? 0x46) then Some (c - 0x37)
  else None.

(** [getu4], on the four digits. *)
Definition hex4 (h1 h2 h3 h4 : Z) : option Z :=
  match hexValue h1, hexValue h2, hexValue h3, hexValue h4 with
  | Some a, Some b, Some c, Some d => Some (((a * 16 + b) * 16 + c) * 16 + d)
  | _, _, _, _ => None
  end.

Definition is_surrogate (r : Z) : bool := (0xD800 <=? r) && (r <? 0xE000).

(** [utf16.DecodeRune], where the pair is one. *)
Definition surrogatePair (r1 r2 : Z) : option Z :=
  if (0xD800 <=? r1) && (r1 <? 0xDC00) && (0xDC00 <=? r2) && (r2 <? 0xE000)
  then Some ((r1 - 0xD800) * 0x400 + (r2 - 0xDC00) + 0x10000) else None.

(** [utf8.EncodeRune] of a rune that is not a surrogate. *)
Definition encodeRune (r : Z) : text :=
  if r <? 0x80 then [r]
  else if r <? 0x800 then [0xC0 + r / 0x40; 0x80 + r mod 0x40]
  else if r <? 0x10000 then [0xE0 + r / 0x1000; 0x80 + r / 0x40 mod 0x40; 0x80 + r mod 0x40]
  else [0xF0 + r / 0x40000; 0x80 + r / 0x1000 mod 0x40; 0x80 + r / 0x40 mod 0x40;
        0x80 + r mod 0x40].

(** The characters after a backslash other than [u]. *)
Definition unescapeAscii (c : Z) : option Z :=
  if (c =? 0x22) || (c =? 0x5C) || (c =? 0x2F) then Some c
  else if c =? 0x62 then Some 0x08
  else if c =? 0x66 then Some 0x0C
  else if c =? 0x6E then Some 0x0A
  else if c =? 0x72 then Some 0x0D
  else if c =? 0x74 then Some 0x09
  else None.

Definition push (p : text) (r : option (text * text)) : option (text * text) :=
  match r with Some (s, rest) => Some (p ++ s, rest) | None => None end.

(** The rest of a string after its opening quote, with what follows it. *)
Fixpoint unquote (s : text) : option (text * text) :=
  match s with
  | [] => None
  | c :: s1 =>
      if c =? 0x22 then Some ([], s1)
      else if c =? 0x5C then
        match s1 with
        | [] => None
        | e :: s2 =>
            if e =? 0x75 then
              match s2 with
              | h1 :: h2 :: h3 :: h4 :: s3 =>
                  match hex4 h1 h2 h3 h4 with
                  | None => None
                  | Some r =>
                      if is_surrogate r then
                        let alone := push replacement (unquote s3) in
                        match s3 with
                        | b :: u :: g1 :: g2 :: g3 :: g4 :: s4 =>
                            match (if (b =? 0x5C) && (u =? 0x75)
                                   then hex4 g1 g2 g3 g4 ≫= surrogatePair r else None) with
                            | Some r => push (encodeRune r) (unquote s4)
                            | None => alone
                            end
                        | _ => alone
                        end
                      else push (encodeRune r) (unquote s3)
                  end
              | _ => None
              end
            else match unescapeAscii e with
            | Some c => push [c] (unquote s2)
            | None => None
            end
        end
      else if c <? 0x20 then None
      else if c <? 0x80 then push [c] (unquote s1)
      else
        let bad := push replacement (unquote s1) in
        match s1 with
        | [] => bad
        | b1 :: s2 =>
            if seq2 c b1 then push [c; b1] (unquote s2)
            else match s2 with
            | [] => bad
            | b2 :: s3 =>
                if seq3 c b1 b2 then push [c; b1; b2] (unquote s3)
                else match s3 with
                | [] => bad
                | b3 :: s4 =>
                    if seq4 c b1 b2 b3 then push [c; b1; b2; b3] (unquote s4)
                    else bad
                end
            end
        end
  end.

(** A number literal and what follows it. *)
Definition is_digit (c : Z) : bool := (0x30 <=? c) && (c <=? 0x39).

Fixpoint spanDigits (s : text) : text * text :=
  match s with
  | c :: s' => if is_digit c then let '(d, r) := spanDigits s' in (c :: d, r) else ([], s)
  | [] => ([], [])
  end.

(** At least one digit. *)
Definition digits1 (s : text) : option (text * text) :=
  match spanDigits s with
  | ([], _) => None
  | dr => Some dr
  end.

Definition numFrac (s : text) : option (text * text) :=
  match s with
  | c :: s' => if c =? 0x2E then push [c] (digits1 s') else Some ([], s)
  | [] => Some ([], [])
  end.

Definition numExp (s : text) : option (text * text) :=
  match s with
  | c :: s' =>
      if (c =? 0x65) || (c =? 0x45) then
        match s' with
        | g :: s'' => if (g =? 0x2B) || (g =? 0x2D) then push [c; g] (digits1 s'')
                      else push [c] (digits1 s')
        | [] => None
        end
      else Some ([], s)
  | [] => Some ([], [])
  end.

Definition numInt (s : text) : option (text * text) :=
  match s with
  | c :: s' => if c =? 0x30 then Some ([c], s') else digits1 s
  | [] => None
  end.

Definition number (s : text) : option (text * text) :=
  let '(sign, s) := match s with
                    | c :: s' => if c =? 0x2D then ([c], s') else ([], s)
                    | [] => ([], [])
                    end in
  match numInt s with
  | None => None
  | Some (i, s) =>
      match numFrac s with
      | None => None
      | Some (f, s) => push (sign ++ i ++ f) (numExp s)
      end
  end.

(** The limit of the scanner on nested arrays and objects. *)
Definition maxNestingDepth : Z := 10000.

(** [word] at the start of [s]. *)
Fixpoint expect (word s : text) : option text :=
  match word with
  | [] => Some s
  | c :: word' =>
      match s with
      | d :: s' => if c =? d then expect word' s' else None
      | [] => None
      end
  end.

Fixpoint jvalue (fuel : nat) (depth : Z) (s : text) : option (json * text) :=
  match fuel with
  | O => None
  | S fuel =>
      match skip s with
      | [] => None
      | c :: s1 =>
          if c =? 0x22 then
            match unquote s1 with Some (t, r) => Some (JStr t, r) | None => None end
          else if c =? 0x7B then
            if maxNestingDepth <=? depth then None
            else match skip s1 with
            | [] => None
            | c2 :: s2 =>
                if c2 =? 0x7D then Some (JObj [], s2)
                else match jmembers fuel (depth + 1) (c2 :: s2) with
                     | Some (l, r) => Some (JObj l, r)
                     | None => None
                     end
            end
          else if c =? 0x5B then
            if maxNestingDepth <=? depth then None
            else match skip s1 with
            | [] => None
            | c2 :: s2 =>
                if c2 =? 0x5D then Some (JArr [], s2)
                else match jelements fuel (depth + 1) (c2 :: s2) with
                     | Some (l, r) => Some (JArr l, r)
                     | None => None
                     end
            end
          else if c =? 0x6E then
            match expect lit_null (c :: s1) with Some r => Some (JNull, r) | None => None end
          else if c =? 0x74 then
            match expect lit_true (c :: s1) with Some r => Some (JBool true, r) | None => None end
          else if c =? 0x66 then
            match expect lit_false (c :: s1) with Some r => Some (JBool false, r) | None => None end
          else
            match number (c :: s1) with Some (l, r) => Some (JNum l, r) | None => None end
      end
  end
with jelements (fuel : nat) (depth : Z) (s : text) : option (list json * text) :=
  match fuel with
  | O => None
  | S fuel =>
      match jvalue fuel depth s with
      | None => None
      | Some (v, s1) =>
          match skip s1 with
          | [] => None
          | c :: s2 =>
              if c =? 0x2C then
                match jelements fuel depth s2 with
                | Some (l, r) => Some (v :: l, r)
                | None => None
                end
              else if c =? 0x5D then Some ([v], s2)
              else None
          end
      end
  end
with jmembers (fuel : nat) (depth : Z) (s : text) : option (list (text * json) * text) :=
  match fuel with
  | O => None
  | S fuel =>
      match skip s with
      | [] => None
      | q :: s1 =>
          if q =? 0x22 then
            match unquote s1 with
            | None => None
            | Some (k, s2) =>
                match skip s2 with
                | [] => None
                | c :: s3 =>
                    if c =? 0x3A then
                      match jvalue fuel depth s3 with
                      | None => None
                      | Some (v, s4) =>
                          match skip s4 with
                          | [] => None
                          | c :: s5 =>
                              if c =? 0x2C then
                                match jmembers fuel depth s5 with
                                | Some (l, r) => Some ((k, v) :: l, r)
                                | None => None
                                end
                              else if c =? 0x7D then Some ([(k, v)], s5)
                              else None
                          end
                      end
                    else None
                end
            end
          else None
      end
  end.

(** The whole text is one value.  Every call consumes a character, so the
    length is enough fuel. *)
Definition parse (s : text) : option json :=
  match jvalue (2 * S (length s)) 0 s with
  | Some (j, r) => match skip r with [] => Some j | _ => None end
  | None => None
  end.

(** ** Integers: [strconv.AppendInt] and [strconv.ParseInt] to 64 bits *)

(** The digits of [z], least significant last; one round per digit. *)
Fixpoint digitsOf (fuel : nat) (z : Z) : text :=
  match fuel with
  | O => []
  | S fuel => (if z <? 10 then [] else digitsOf fuel (z / 10)) ++ [0x30 + z mod 10]
  end.

Definition printNat (z : Z) : text := digitsOf (S (Z.to_nat (Z.log2 z))) z.

Definition printInt (z : Z) : text := if z <? 0 then 0x2D :: printNat (- z) else printNat z.

Definition valueOf (ds : text) : Z := foldl (λ a d, a * 10 + (d - 0x30)) 0 ds.

Definition parseInt (lit : text) : option Z :=
  let '(sign, ds) := match lit with
                     | c :: l => if c =? 0x2D then (-1, l) else (1, lit)
                     | [] => (1, [])
                     end in
  if bool_decide (ds ≠ []) && forallb is_digit ds then
    let z := sign * valueOf ds in
    if (- 2 ^ 63 <=? z) && (z <? 2 ^ 63) then Some z else None
  else None.

Lemma digitsOf_value fuel z : 0 ≤ z < 2 ^ Z.of_nat fuel → (0 < fuel)%nat → valueOf (digitsOf fuel z) = z.
Proof.
  revert z. induction fuel as [|fuel IH]; intros z Hz Hf; [lia|]. cbn [digitsOf].
  unfold valueOf in *. rewrite foldl_app. cbn [foldl].
  assert (foldl (λ a d, a * 10 + (d - 48)) 0
    (if z <? 10 then [] else digitsOf fuel (z / 10)) = z / 10) as ->.
  { destruct (z <? 10) eqn:E; [cbn; rewrite Z.div_small; lia|].
    rewrite Nat2Z.inj_succ, Z.pow_succ_r in Hz by lia.
    destruct fuel as [|fuel]; [cbn in Hz; lia|].
    rewrite IH; [done| |lia].
    split; [apply Z.div_pos; lia|]. apply Z.div_lt_upper_bound; lia. }
  pose proof (Z.div_mod z 10). lia.
Qed.

Lemma printNat_value z : 0 ≤ z → valueOf (printNat z) = z.
Proof.
  intros Hz. unfold printNat. apply digitsOf_value; [|lia].
  rewrite Nat2Z.inj_succ, Z2Nat.id by apply Z.log2_nonneg.
  destruct (decide (z = 0)) as [->|]; [done|].
  pose proof (Z.log2_spec z). lia.
Qed.

Lemma digitsOf_digits fuel z : 0 ≤ z → forallb is_digit (digitsOf fuel z) = true.
Proof.
  revert z. induction fuel as [|fuel IH]; intros z Hz; [done|]. cbn [digitsOf].
  rewrite forallb_app. apply andb_true_intro. split.
  - destruct (z <? 10); [done|]. apply IH. apply Z.div_pos; lia.
  - cbn. unfold is_digit. pose proof (Z.mod_pos_bound z 10). lia.
Qed.

(** The first digit is not 0 unless the number is. *)
Lemma digitsOf_head fuel z : 0 < z < 2 ^ Z.of_nat fuel →
  ∃ d ds, digitsOf fuel z = d :: ds ∧ 0x31 ≤ d ≤ 0x39.
Proof.
  revert z. induction fuel as [|fuel IH]; intros z Hz; [cbn in Hz; lia|]. cbn [digitsOf].
  destruct (z <? 10) eqn:E.
  - exists (48 + z mod 10), []. rewrite Z.mod_small by lia. split; [done|lia].
  - rewrite Nat2Z.inj_succ, Z.pow_succ_r in Hz by lia.
    destruct (IH (z / 10)) as (d&ds&->&Hd).
    { split; [apply Z.div_str_pos; lia|]. apply Z.div_lt_upper_bound; lia. }
    by eexists d, _.
Qed.

Lemma printNat_head z : 0 < z → ∃ d ds, printNat z = d :: ds ∧ 0x31 ≤ d ≤ 0x39.
Proof.
  intros Hz. apply digitsOf_head.
  rewrite Nat2Z.inj_succ, Z2Nat.id by apply Z.log2_nonneg. pose proof (Z.log2_spec z). lia.
Qed.

Lemma printNat_digits z : 0 ≤ z → forallb is_digit (printNat z) = true ∧ printNat z ≠ [].
Proof.
  intros Hz. split; [by apply digitsOf_digits|].
  destruct (decide (z = 0)) as [->|]; [done|].
  destruct (printNat_head z) as (?&?&->&_); [lia|done].
Qed.

Lemma parseInt_printInt z : - 2 ^ 63 ≤ z < 2 ^ 63 → parseInt (printInt z) = Some z.
Proof.
  intros Hz. unfold printInt. destruct (z <? 0) eqn:E.
  - destruct (printNat_digits (- z)) as [Hd Hn]; [lia|]. unfold parseInt.
    change (0x2D =? 0x2D) with true. cbv iota beta.
    rewrite bool_decide_true, Hd, printNat_value by (done || lia). cbn [andb].
    destruct ((_ <=? _) && _) eqn:E2; [f_equal; lia|lia].
  - destruct (printNat_digits z) as [Hd Hn]; [lia|].
    assert (Hv := printNat_value z ltac:(lia)).
    assert (∃ c ds, printNat z = c :: ds ∧ (c =? 0x2D) = false) as (c&ds&Hc&Hs).
    { destruct (printNat z) as [|c ds]; [done|]. eexists c, ds. split; [done|].
      cbn in Hd. unfold is_digit in Hd. lia. }
    unfold parseInt. rewrite Hc in *. rewrite Hs.
    rewrite bool_decide_true, Hd, Hv by done. cbn [andb].
    destruct ((_ <=? _) && _) eqn:E2; [f_equal; lia|lia].
Qed.
