(* ===== verification/JsonSpec.v ===== *)
(** JSON texts read back: a printed value is parsed to the value with its strings
    cleaned, and the fuel of the parser is enough. *)
From Stdlib Require Import ZifyBool.
From S2P Require Import Prelude Utf8 Json.
Open Scope Z_scope.
Open Scope go_scope.

(** ** Strings *)

Lemma unquote_ascii c rest : 0 ≤ c < 0x80 → unquote (escapeAscii c ++ rest) = push [c] (unquote rest).
Proof.
  intros Hc. assert (c ∈ seqZ 0 128) as Hin by (apply elem_of_seqZ; lia). clear Hc.
  vm_compute in Hin.
  repeat (apply elem_of_cons in Hin as [->|Hin]; [reflexivity|]). by apply elem_of_nil in Hin.
Qed.

(** Bytes from 0x80 on are neither quotes, nor escapes, nor control characters. *)
Lemma unquote_high c : 0x80 ≤ c →
  (c =? 0x22) = false ∧ (c =? 0x5C) = false ∧ (c <? 0x20) = false ∧ (c <? 0x80) = false.
Proof. lia. Qed.

Lemma unquote_rune bs rest :
  rune_bytes bs → (∀ c, head bs = Some c → 0x80 ≤ c) → unquote (bs ++ rest) = push bs (unquote rest).
Proof.
  intros Hr Hh.
  assert (∃ c s1, bs = c :: s1) as (c&s1&E) by (destruct Hr; eauto).
  specialize (Hh c ltac:(by rewrite E)). destruct (unquote_high c Hh) as (H1&H2&H3&H4). clear Hh.
  destruct Hr as [b0 H|b0 b1 H|b0 b1 b2 H|b0 b1 b2 b3 H]; injection E as <- <-;
    cbn [app unquote]; rewrite H1, H2, H3, H4.
  - lia.
  - by rewrite H.
  - by rewrite (seq3_not_seq2 _ _ _ _ H), H.
  - by rewrite (seq4_not_seq2 _ _ _ _ _ H), (seq4_not_seq3 _ _ _ _ _ _ H), H.
Qed.

Lemma rune_bytes_high bs : rune_bytes bs → (1 < length bs)%nat → ∀ c, head bs = Some c → 0x80 ≤ c.
Proof.
  destruct 1 as [b0 H|b0 b1 H|b0 b1 b2 H|b0 b1 b2 b3 H]; cbn; intros Hl c [= <-]; [lia|..].
  - apply seq2_lead in H. lia.
  - apply seq3_lead in H. lia.
  - apply seq4_lead in H. lia.
Qed.

Lemma unquote_chunk c rest :
  is_chunk c → is_text (cleanChunk c) →
  unquote (escapeChunk c ++ rest) = push (cleanChunk c) (unquote rest).
Proof.
  destruct c as [bs|b]; cbn [is_chunk cleanChunk]; intros Hc Ht; [|reflexivity].
  destruct (decide (length bs = 1%nat)) as [Hl|Hl].
  - destruct bs as [|c [|]]; try done. apply Forall_cons in Ht as [Ht _].
    inversion Hc; subst. apply unquote_ascii. lia.
  - assert (1 < length bs)%nat as Hl' by (inversion Hc; subst; cbn in *; lia).
    assert (escapeChunk (Rune bs) =
      if decide (bs = [0xE2; 0x80; 0xA8]) then [0x5C; 0x75; 0x32; 0x30; 0x32; 0x38]
      else if decide (bs = [0xE2; 0x80; 0xA9]) then [0x5C; 0x75; 0x32; 0x30; 0x32; 0x39]
      else bs) as -> by (destruct bs as [|? [|]]; [done|cbn in Hl'; lia|done]).
    destruct (decide (bs = _)) as [->|]; [reflexivity|].
    destruct (decide (bs = _)) as [->|]; [reflexivity|].
    apply unquote_rune; [done|]. by apply rune_bytes_high.
Qed.

Lemma push_app p q r : push p (push q r) = push (p ++ q) r.
Proof. destruct r as [[??]|]; cbn; [by rewrite app_assoc|done]. Qed.

Lemma unquote_escape s rest :
  is_text s → unquote (escape s ++ rest) = push (clean s) (unquote rest).
Proof.
  intros Ht. apply clean_text in Ht. unfold escape, clean in *.
  pose proof (chunks_are_chunks s) as Hc. revert Ht Hc.
  induction (chunks s) as [|c cs IH]; cbn; intros Ht Hc.
  - by destruct (unquote rest) as [[??]|].
  - apply is_text_app in Ht as [Ht1 Ht2]. apply Forall_cons in Hc as [Hc1 Hc2].
    rewrite <- app_assoc, unquote_chunk by done. rewrite IH by done. apply push_app.
Qed.

(** A quoted string is read back clean. *)
Lemma unquote_quote s rest :
  is_text s → unquote (escape s ++ 0x22 :: rest) = Some (clean s, rest).
Proof. intros Ht. rewrite unquote_escape by done. cbn. by rewrite app_nil_r. Qed.

(** ** Numbers *)

(** What can follow a value in a printed text. *)
Definition ends (rest : text) : Prop :=
  match rest with [] => True | c :: _ => c = 0x2C ∨ c = 0x5D ∨ c = 0x7D ∨ c = 0x0A end.

Lemma spanDigits_app ds rest :
  forallb is_digit ds = true → ends rest → spanDigits (ds ++ rest) = (ds, rest).
Proof.
  intros Hd Hr. induction ds as [|c ds IH]; cbn in *.
  - destruct rest as [|c rest]; [done|]. cbn in *. unfold is_digit.
    destruct ((0x30 <=? c) && (c <=? 0x39)) eqn:E; [lia|done].
  - apply andb_prop in Hd as [Hc Hd]. by rewrite Hc, IH.
Qed.

Lemma numTail_ends rest : ends rest → numFrac rest = Some ([], rest) ∧ numExp rest = Some ([], rest).
Proof.
  destruct rest as [|c rest]; [done|]. cbn. intros Hc.
  destruct (c =? 0x2E) eqn:E1; [lia|]. destruct ((c =? 0x65) || (c =? 0x45)) eqn:E2; [lia|done].
Qed.

Lemma numInt_printNat z rest : 0 ≤ z → ends rest → numInt (printNat z ++ rest) = Some (printNat z, rest).
Proof.
  intros Hz Hr. destruct (decide (z = 0)) as [->|Hz0]; [done|].
  destruct (printNat_head z) as (d&ds&E&Hd); [lia|].
  destruct (printNat_digits z Hz) as [Hds _]. rewrite E in *. cbn [app numInt].
  destruct (d =? 0x30) eqn:E0; [lia|]. unfold digits1.
  change (d :: ds ++ rest) with ((d :: ds) ++ rest). by rewrite spanDigits_app.
Qed.

(** An integer literal is read as it was printed. *)
Lemma number_printInt z rest : ends rest → number (printInt z ++ rest) = Some (printInt z, rest).
Proof.
  intros Hr. destruct (numTail_ends rest Hr) as [Hf He].
  unfold number, printInt. destruct (z <? 0) eqn:Ez.
  - cbn [app]. change (0x2D =? 0x2D) with true. cbv iota beta.
    rewrite numInt_printNat, Hf, He by (done || lia). cbn. by rewrite !app_nil_r.
  - destruct (printNat_digits z) as [Hd Hn]; [lia|].
    pose proof (numInt_printNat z rest ltac:(lia) Hr) as Hi.
    destruct (printNat z) as [|c ds] eqn:E; [done|]. cbn [app] in *.
    cbn in Hd. unfold is_digit in Hd. destruct (c =? 0x2D) eqn:Ec; [lia|].
    rewrite Hi, Hf, He. cbn. by rewrite !app_nil_r.
Qed.

(** ** Values *)

(** Induction on values, through the lists. *)
Lemma json_rect' (P : json → Prop) :
  P JNull → (∀ b, P (JBool b)) → (∀ l, P (JNum l)) → (∀ s, P (JStr s)) →
  (∀ l, Forall P l → P (JArr l)) → (∀ l, Forall (λ kv, P kv.2) l → P (JObj l)) →
  ∀ j, P j.
Proof.
  intros Hn Hb Hm Hs Ha Ho. fix IH 1. intros [| | | |l|l]; [done|auto..| |].
  - apply Ha. induction l; constructor; [apply IH|done].
  - apply Ho. induction l as [|[k v] l]; constructor; [apply IH|done].
Qed.

Definition textb (t : text) : bool := forallb (λ z, (0 <=? z) && (z <? 256)) t.

(** The values the program prints: texts of bytes and integers. *)
Fixpoint printable (j : json) : bool :=
  match j with
  | JNull | JBool _ => true
  | JNum lit => match parseInt lit with Some z => bool_decide (printInt z = lit) | None => false end
  | JStr s => textb s
  | JArr l => forallb printable l
  | JObj l => forallb (λ '(k, v), textb k && printable v) l
  end.

Fixpoint jdepth (j : json) : Z :=
  match j with
  | JArr l => 1 + foldr (λ v, Z.max (jdepth v)) 0 l
  | JObj l => 1 + foldr (λ '(_, v), Z.max (jdepth v)) 0 l
  | _ => 0
  end.

(** The fuel that reading the printed value takes. *)
Fixpoint jneed (j : json) : nat :=
  match j with
  | JArr l => S (foldr (λ v n, S (jneed v + n)) O l)
  | JObj l => S (foldr (λ '(_, v) n, S (jneed v + n)) O l)
  | _ => 1%nat
  end.

(** The value with its strings cleaned. *)
Fixpoint jclean (j : json) : json :=
  match j with
  | JStr s => JStr (clean s)
  | JArr l => JArr (map jclean l)
  | JObj l => JObj (map (λ '(k, v), (clean k, jclean v)) l)
  | _ => j
  end.

Lemma textb_is_text t : textb t = true → is_text t.
Proof. apply is_text_by. Qed.

(** A printed value starts a value: not with a space, and not with a bracket
    that closes. *)
Lemma print_head j : printable j = true →
  ∃ c t, print j = c :: t ∧ is_space c = false ∧ (c =? 0x5D) = false ∧ (c =? 0x7D) = false.
Proof.
  destruct j as [|[]|lit|s|l|l]; cbn; try by eexists _, _.
  destruct (parseInt lit) as [z|]; [|done]. intros Hz%bool_decide_eq_true. subst lit.
  unfold printInt. destruct (z <? 0) eqn:E; [by eexists _, _|].
  destruct (printNat_digits z) as [Hd Hn]; [lia|].
  destruct (printNat z) as [|c ds]; [done|]. exists c, ds. cbn in Hd.
  unfold is_digit, is_space in *. repeat split; lia.
Qed.

Lemma skip_head c t : is_space c = false → skip (c :: t) = c :: t.
Proof. intros H. cbn. by rewrite H. Qed.

Lemma skip_print j rest : printable j = true → skip (print j ++ rest) = print j ++ rest.
Proof.
  intros H. destruct (print_head j H) as (c&t&->&Hs&_). by apply skip_head.
Qed.

Definition reads (j : json) : Prop :=
  printable j = true → ∀ fuel d rest,
  (jneed j ≤ fuel)%nat → d + jdepth j ≤ maxNestingDepth → ends rest →
  jvalue fuel d (print j ++ rest) = Some (jclean j, rest).

(** Reading the elements of an array and the members of an object. *)
Lemma jelements_print l : Forall reads l → l ≠ [] → forallb printable l = true →
  ∀ fuel d rest,
  (foldr (λ v n, S (jneed v + n)) O l ≤ fuel)%nat →
  d + foldr (λ v, Z.max (jdepth v)) 0 l ≤ maxNestingDepth →
  jelements fuel d (commas (map print l) ++ 0x5D :: rest) = Some (map jclean l, rest).
Proof.
  induction 1 as [|j l Hj Hl IH]; [done|]. cbn [forallb foldr map].
  intros _ [Hp Hps]%andb_prop fuel d rest Hf Hd.
  destruct fuel as [|fuel]; [lia|]. cbn [jelements].
  destruct l as [|j2 l].
  - cbn [map commas] in *. rewrite Hj; [|done|lia|lia|cbn; auto].
    change (skip (0x5D :: rest)) with (0x5D :: rest). done.
  - change (commas (print j :: map print (j2 :: l)))
      with (print j ++ 0x2C :: commas (map print (j2 :: l))).
    rewrite <- app_assoc. cbn [app].
    rewrite Hj; [|done|lia|lia|cbn; auto].
    set (r := commas _ ++ _). change (skip (0x2C :: r)) with (0x2C :: r).
    change (0x2C =? 0x2C) with true. cbv iota. subst r. by rewrite IH by (done || lia).
Qed.

Lemma jmembers_print l : Forall (λ kv, reads kv.2) l → l ≠ [] →
  forallb (λ '(k, v), textb k && printable v) l = true →
  ∀ fuel d rest,
  (foldr (λ '(_, v) n, S (jneed v + n)) O l ≤ fuel)%nat →
  d + foldr (λ '(_, v), Z.max (jdepth v)) 0 l ≤ maxNestingDepth →
  jmembers fuel d (commas (map (λ '(k, v), quote k ++ 0x3A :: print v) l) ++ 0x7D :: rest) =
    Some (map (λ '(k, v), (clean k, jclean v)) l, rest).
Proof.
  induction 1 as [|[k j] l Hj Hl IH]; [done|]. cbn [forallb foldr map snd] in *.
  intros _ [[Hk Hp]%andb_prop Hps]%andb_prop fuel d rest Hf Hd. apply textb_is_text in Hk.
  destruct fuel as [|fuel]; [lia|].
  assert (Hstep : ∀ more, ends more →
    jmembers (S fuel) d ((quote k ++ 0x3A :: print j) ++ more) =
    match skip more with
    | [] => None
    | c :: s5 =>
        if c =? 0x2C then
          match jmembers fuel d s5 with
          | Some (l, r) => Some ((clean k, jclean j) :: l, r)
          | None => None
          end
        else if c =? 0x7D then Some ([(clean k, jclean j)], s5)
        else None
    end).
  { intros more Hm. unfold quote. cbn [app]. rewrite <- !app_assoc. cbn [app jmembers].
    rewrite skip_head by done. change (0x22 =? 0x22) with true. cbv iota.
    rewrite unquote_quote by done. rewrite skip_head by done.
    change (0x3A =? 0x3A) with true. cbv iota. by rewrite Hj by (done || lia). }
  destruct l as [|kj2 l].
  - cbn [map commas]. rewrite Hstep by (cbn; auto). done.
  - change (commas _) with ((quote k ++ 0x3A :: print j) ++ 0x2C ::
      commas (map (λ '(k, v), quote k ++ 0x3A :: print v) (kj2 :: l))).
    rewrite <- (app_assoc (quote k ++ 0x3A :: print j)), Hstep by (cbn; auto).
    cbn [app]. rewrite skip_head by done. change (0x2C =? 0x2C) with true. cbv iota.
    by rewrite IH by (done || lia).
Qed.

(** The first character of an integer selects the number branch. *)
Lemma jvalue_number lit fuel d rest : printable (JNum lit) = true → ends rest →
  jvalue (S fuel) d (lit ++ rest) = Some (JNum lit, rest).
Proof.
  intros Hp Hr. cbn in Hp. destruct (parseInt lit) as [z|]; [|done].
  apply bool_decide_eq_true in Hp. subst lit.
  assert (∃ c t, printInt z = c :: t ∧ (c = 0x2D ∨ is_digit c = true)) as (c&t&E&Hc).
  { unfold printInt. destruct (z <? 0) eqn:Ez; [by eauto|].
    destruct (printNat_digits z) as [Hd Hn]; [lia|].
    destruct (printNat z) as [|c ds]; [done|]. cbn in Hd. eexists c, ds. split; [done|].
    right. lia. }
  pose proof (number_printInt z rest Hr) as Hn. rewrite E in *. cbn [app] in *.
  cbn [jvalue]. unfold is_digit in Hc. rewrite skip_head by (unfold is_space; lia).
  replace (c =? 0x22) with false by lia. replace (c =? 0x7B) with false by lia.
  replace (c =? 0x5B) with false by lia. replace (c =? 0x6E) with false by lia.
  replace (c =? 0x74) with false by lia. replace (c =? 0x66) with false by lia.
  by rewrite Hn.
Qed.

Lemma commas_head l t1 rest : head l = Some t1 → ∃ more, commas l ++ rest = t1 ++ more.
Proof.
  destruct l as [|t [|t2 l]]; intros [= <-]; [by eexists|].
  exists (0x2C :: commas (t2 :: l) ++ rest). cbn [commas]. by rewrite <- app_assoc.
Qed.

Lemma foldr_max_nonneg {A} (f : A → Z) l : 0 ≤ foldr (λ v, Z.max (f v)) 0 l.
Proof. induction l; cbn; lia. Qed.

Lemma jdepth_nonneg j : 0 ≤ jdepth j.
Proof.
  destruct j as [| | | |l|l]; cbn -[Z.add]; try lia.
  - pose proof (foldr_max_nonneg jdepth l). lia.
  - assert (0 ≤ foldr (λ '(_, v), Z.max (jdepth v)) 0 l); [|lia].
    induction l as [|[??]]; cbn; lia.
Qed.

Lemma jvalue_print j : reads j.
Proof.
  induction j as [|b|lit|s|l IH|l IH] using json_rect'; intros Hp fuel d rest Hf Hd Hr;
    (destruct fuel as [|fuel]; [cbn in Hf; lia|]).
  - reflexivity.
  - by destruct b.
  - by apply jvalue_number.
  - cbn [print quote app jvalue]. rewrite skip_head by done.
    change (0x22 =? 0x22) with true. cbv iota. rewrite <- app_assoc. cbn [app].
    rewrite unquote_quote; [done|by apply textb_is_text].
  - cbn [print app jvalue jdepth jneed printable jclean] in *. rewrite skip_head by done.
    change (0x5B =? 0x22) with false. change (0x5B =? 0x7B) with false.
    change (0x5B =? 0x5B) with true. cbv iota.
    pose proof (foldr_max_nonneg jdepth l).
    replace (maxNestingDepth <=? d) with false by lia.
    destruct l as [|j l]; [done|]. rewrite <- app_assoc. cbn [app].
    assert (Hj : printable j = true) by (cbn in Hp; lia).
    destruct (commas_head (map print (j :: l)) (print j) (0x5D :: rest) eq_refl) as [more Em].
    destruct (print_head j Hj) as (c&t&Ec&Hs&H5&_). rewrite Ec in Em. cbn [app] in Em.
    pose proof (jelements_print (j :: l) IH ltac:(done) Hp fuel (d + 1) rest
      ltac:(lia) ltac:(lia)) as He.
    rewrite Em in *. rewrite skip_head by done. by rewrite H5, He.
  - cbn [print app jvalue jdepth jneed printable jclean] in *. rewrite skip_head by done.
    change (0x7B =? 0x22) with false. change (0x7B =? 0x7B) with true. cbv iota.
    pose proof (jdepth_nonneg (JObj l)) as Hd0. cbn [jdepth] in Hd0.
    assert (0 ≤ foldr (λ '(_, v), Z.max (jdepth v)) 0 l) by (clear; induction l as [|[??]]; cbn; lia).
    replace (maxNestingDepth <=? d) with false by lia.
    destruct l as [|[k j] l]; [done|]. rewrite <- app_assoc. cbn [app].
    destruct (commas_head (map (λ '(k, v), quote k ++ 0x3A :: print v) ((k, j) :: l))
      (quote k ++ 0x3A :: print j) (0x7D :: rest) eq_refl) as [more Em].
    unfold quote at 2 in Em. cbn [app] in Em.
    pose proof (jmembers_print ((k, j) :: l) IH ltac:(done) Hp fuel (d + 1) rest
      ltac:(lia) ltac:(lia)) as He.
    rewrite Em in *. rewrite skip_head by done. change (0x22 =? 0x7D) with false. cbv iota.
    by rewrite He.
Qed.

(** ** Whole texts *)

Lemma length_commas l : (foldr (λ t n, S (length t) + n) 0 l ≤ S (length (commas l)))%nat.
Proof.
  induction l as [|t [|t2 l] IH]; [cbn; lia|cbn; lia|].
  cbn [foldr commas] in *. rewrite length_app. cbn [length]. lia.
Qed.

Lemma jneed_print j : printable j = true → (jneed j + 1 ≤ 2 * length (print j))%nat.
Proof.
  induction j as [|b|lit|s|l IH|l IH] using json_rect'; intros Hp.
  - cbn. lia.
  - destruct b; cbn; lia.
  - destruct (print_head _ Hp) as (c&t&E&_). cbn in E |- *. rewrite E. cbn. lia.
  - cbn. lia.
  - cbn [print jneed length printable] in *. rewrite length_app. cbn [length].
    pose proof (length_commas (map print l)) as Hl.
    enough (foldr (λ v n, S (jneed v + n)) 0 l ≤
      2 * foldr (λ t n, S (length t) + n) 0 (map print l))%nat by lia.
    clear Hl. induction IH as [|j l Hj _ IHl]; [done|]. cbn [forallb map foldr] in *.
    apply andb_prop in Hp as [Hp1 Hp2]. specialize (Hj Hp1). specialize (IHl Hp2). lia.
  - cbn [print jneed length printable] in *. rewrite length_app. cbn [length].
    set (f := λ '(k, v), quote k ++ 0x3A :: print v).
    pose proof (length_commas (map f l)) as Hl.
    enough (foldr (λ '(_, v) n, S (jneed v + n)) 0 l ≤
      2 * foldr (λ t n, S (length t) + n) 0 (map f l))%nat by lia.
    clear Hl. induction IH as [|[k j] l Hj _ IHl]; [done|]. cbn [forallb map foldr snd] in *.
    apply andb_prop in Hp as [[Hk Hp1]%andb_prop Hp2]. specialize (Hj Hp1).
    specialize (IHl Hp2). unfold f at 1. rewrite length_app. cbn [length]. lia.
Qed.

(** A printed value is read back, with its strings cleaned. *)
Lemma parse_print j :
  printable j = true → jdepth j ≤ maxNestingDepth → parse (print j) = Some (jclean j).
Proof.
  intros Hp Hd. unfold parse. pose proof (jneed_print j Hp).
  pose proof (jvalue_print j Hp (2 * S (length (print j)))%nat 0 [] ltac:(lia) ltac:(lia) I) as H'.
  rewrite app_nil_r in H'. by rewrite H'.
Qed.

(** ** The fuel is enough *)

Lemma push_Some p r t rest : push p r = Some (t, rest) → ∃ t', r = Some (t', rest).
Proof. destruct r as [[??]|]; cbn; [|done]. intros [= _ <-]. by eexists. Qed.

Lemma length_unquote s t r : unquote s = Some (t, r) → (length r < length s)%nat.
Proof.
  enough (∀ k s t r, (length s ≤ k)%nat → unquote s = Some (t, r) → (length r < length s)%nat)
    by eauto.
  clear s t r. intros k. induction k as [|k IH]; intros s t r Hk H.
  { destruct s; [done|]. cbn in Hk. lia. }
  destruct s as [|c s]; [done|]. cbn [unquote] in H. cbn [length] in *.
  repeat case_match; simplify_eq; try lia;
    apply push_Some in H as [t' H]; apply IH in H; cbn in *; lia.
Qed.

Lemma length_skip s : (length (skip s) ≤ length s)%nat.
Proof. induction s as [|c s IH]; [done|]. cbn. destruct (is_space c); cbn; lia. Qed.

Lemma skip_cons s c r : skip s = c :: r → (length r < length s)%nat.
Proof. intros H. pose proof (length_skip s) as Hl. rewrite H in Hl. cbn in Hl. lia. Qed.

Lemma length_expect w s r : expect w s = Some r → length s = (length w + length r)%nat.
Proof.
  revert s. induction w as [|c w IH]; intros s; cbn; [by intros [= ->]|].
  destruct s as [|d s]; [done|]. destruct (c =? d); [|done]. intros H%IH. cbn. lia.
Qed.

Lemma length_spanDigits s d r : spanDigits s = (d, r) → length s = (length d + length r)%nat.
Proof.
  revert d r. induction s as [|c s IH]; cbn; intros d r; [by intros [= <- <-]|].
  destruct (is_digit c); [|by intros [= <- <-]].
  destruct (spanDigits s) as [d' r']. intros [= <- <-]. specialize (IH d' r' eq_refl). cbn. lia.
Qed.

Lemma length_digits1 s d r : digits1 s = Some (d, r) → (length r < length s)%nat.
Proof.
  unfold digits1. destruct (spanDigits s) as [[|c d'] r'] eqn:E; [done|].
  apply length_spanDigits in E. intros [= _ <-]. cbn in E. lia.
Qed.

Lemma length_number s l r : number s = Some (l, r) → (length r < length s)%nat.
Proof.
  unfold number.
  assert (∀ s i r, numInt s = Some (i, r) → (length r < length s)%nat) as Hi.
  { intros [|c t] i r'; [done|]. cbn [numInt]. destruct (c =? 0x30); [intros [= _ <-]; cbn; lia|].
    apply length_digits1. }
  assert (∀ s f r, numFrac s = Some (f, r) → (length r ≤ length s)%nat) as Hf.
  { intros [|c t] f r'; cbn [numFrac]; [by intros [= _ <-]|].
    destruct (c =? 0x2E); [|by intros [= _ <-]].
    intros [t' H]%push_Some. apply length_digits1 in H. cbn. lia. }
  assert (∀ s e r, numExp s = Some (e, r) → (length r ≤ length s)%nat) as He.
  { intros [|c [|g t]] e r'; cbn [numExp]; [by intros [= _ <-]|..];
      (destruct ((c =? _) || _); [|by intros [= _ <-]]); [done|].
    destruct ((g =? _) || _); intros [t' H]%push_Some; apply length_digits1 in H; cbn in *; lia. }
  destruct s as [|c s]; [done|].
  destruct (c =? 0x2D); cbv iota beta;
    (destruct (numInt _) as [[i s1]|] eqn:E1; [|done]);
    (destruct (numFrac s1) as [[f s2]|] eqn:E2; [|done]);
    intros [t' H]%push_Some; apply Hi in E1; apply Hf in E2; apply He in H; cbn in *; lia.
Qed.

(** Every reader consumes text. *)
Lemma length_jvalue fuel :
  (∀ d s j r, jvalue fuel d s = Some (j, r) → (length r < length s)%nat) ∧
  (∀ d s l r, jelements fuel d s = Some (l, r) → (length r < length s)%nat) ∧
  (∀ d s l r, jmembers fuel d s = Some (l, r) → (length r < length s)%nat).
Proof.
  induction fuel as [|fuel (IHv&IHe&IHm)]; [done|].
  split_and!; intros d s j r H; cbn [jvalue jelements jmembers] in H;
    repeat case_match; simplify_eq; try done;
    repeat match goal with
    | H : skip _ = _ :: _ |- _ => apply skip_cons in H
    | H : unquote _ = Some _ |- _ => apply length_unquote in H
    | H : expect _ _ = Some _ |- _ => apply length_expect in H
    | H : number _ = Some _ |- _ => apply length_number in H
    | H : jvalue _ _ _ = Some _ |- _ => apply IHv in H
    | H : jelements _ _ _ = Some _ |- _ => apply IHe in H
    | H : jmembers _ _ _ = Some _ |- _ => apply IHm in H
    end; cbn in *; lia.
Qed.

(** More fuel than twice the length changes nothing. *)
Lemma jvalue_fuel f1 : ∀ d s f2,
  ((2 * length s + 1 ≤ f1)%nat → (2 * length s + 1 ≤ f2)%nat → jvalue f1 d s = jvalue f2 d s) ∧
  ((2 * length s + 2 ≤ f1)%nat → (2 * length s + 2 ≤ f2)%nat →
     jelements f1 d s = jelements f2 d s) ∧
  ((2 * length s + 2 ≤ f1)%nat → (2 * length s + 2 ≤ f2)%nat →
     jmembers f1 d s = jmembers f2 d s).
Proof.
  induction f1 as [|f1 IH]; intros d s f2; [split_and!; lia|].
  destruct f2 as [|f2]; [split_and!; lia|].
  split_and!; intros H1 H2; cbn [jvalue jelements jmembers].
  - destruct (skip s) as [|c s1] eqn:Es; [done|]. apply skip_cons in Es.
    destruct (skip s1) as [|c2 s2] eqn:Es1; [done|]. apply skip_cons in Es1.
    destruct (IH (d + 1) (c2 :: s2) f2) as (_&He&Hm). cbn [length] in *.
    by rewrite He, Hm by lia.
  - destruct (IH d s f2) as (Hv&_&_). rewrite <- Hv by lia.
    destruct (jvalue f1 d s) as [[v s1]|] eqn:Ev; [|done].
    apply (length_jvalue f1) in Ev.
    destruct (skip s1) as [|c s2] eqn:Es; [done|]. apply skip_cons in Es.
    destruct (IH d s2 f2) as (_&He&_). by rewrite He by lia.
  - destruct (skip s) as [|c s1] eqn:Es; [done|]. apply skip_cons in Es.
    destruct (unquote s1) as [[k s2]|] eqn:Eq; [|done]. apply length_unquote in Eq.
    destruct (skip s2) as [|c3 s3] eqn:Es2; [done|]. apply skip_cons in Es2.
    destruct (IH d s3 f2) as (Hv&_&_). rewrite <- Hv by lia.
    destruct (jvalue f1 d s3) as [[v s4]|] eqn:Ev; [|done].
    apply (length_jvalue f1) in Ev.
    destruct (skip s4) as [|c5 s5] eqn:Es4; [done|]. apply skip_cons in Es4.
    destruct (IH d s5 f2) as (_&_&Hm). by rewrite Hm by lia.
Qed.

(** So [parse] reads what any larger amount of fuel reads. *)
Lemma parse_fuel s fuel : (2 * S (length s) ≤ fuel)%nat →
  parse s = match jvalue fuel 0 s with
            | Some (j, r) => match skip r with [] => Some j | _ => None end
            | None => None
            end.
Proof.
  intros Hf. unfold parse. destruct (jvalue_fuel (2 * S (length s)) 0 s fuel) as (Hv&_&_).
  by rewrite Hv by lia.
Qed.

(** ** What is read is UTF-8 *)

(** Every string of a value is UTF-8. *)
Definition text_ok (t : text) : bool := valid_utf8 t && textb t.

Fixpoint jvalid (j : json) : bool :=
  match j with
  | JStr s => text_ok s
  | JArr l => forallb jvalid l
  | JObj l => forallb (λ '(k, v), text_ok k && jvalid v) l
  | _ => true
  end.

Lemma textb_app t1 t2 : textb (t1 ++ t2) = textb t1 && textb t2.
Proof. apply forallb_app. Qed.

Lemma text_ok_push p t : rune_bytes p → textb p = true → text_ok t = true → text_ok (p ++ t) = true.
Proof.
  unfold text_ok, valid_utf8. intros Hp Ht H. rewrite chunks_rune, textb_app by done.
  cbn [forallb validChunk]. by rewrite Ht.
Qed.

Lemma hexValue_range c v : hexValue c = Some v → 0 ≤ v < 16.
Proof. unfold hexValue. repeat case_match; intros [= <-]; lia. Qed.

Lemma hex4_range h1 h2 h3 h4 r : hex4 h1 h2 h3 h4 = Some r → 0 ≤ r < 0x10000.
Proof.
  unfold hex4. repeat case_match; intros [= <-].
  repeat match goal with H : hexValue _ = Some _ |- _ => apply hexValue_range in H end. lia.
Qed.

Lemma surrogatePair_range r1 r2 r : surrogatePair r1 r2 = Some r → 0x10000 ≤ r < 0x110000.
Proof. unfold surrogatePair. case_match; intros [= <-]. lia. Qed.

Lemma encodeRune_ok r : 0 ≤ r < 0x110000 → is_surrogate r = false →
  rune_bytes (encodeRune r) ∧ textb (encodeRune r) = true.
Proof.
  unfold is_surrogate, encodeRune. intros Hr Hs.
  destruct (r <? 0x80) eqn:E1; [split; [apply rune1|cbn]; lia|].
  destruct (r <? 0x800) eqn:E2.
  { split; [apply rune2; unfold seq2|cbn]; Z.div_mod_to_equations; lia. }
  destruct (r <? 0x10000) eqn:E3.
  { split; [apply rune3; unfold seq3; case_match; case_match|cbn]; Z.div_mod_to_equations; lia. }
  split; [apply rune4; unfold seq4; case_match; case_match|cbn]; Z.div_mod_to_equations; lia.
Qed.

Lemma encodeRune_pair h1 h2 h3 h4 r r' :
  hex4 h1 h2 h3 h4 ≫= surrogatePair r = Some r' →
  rune_bytes (encodeRune r') ∧ textb (encodeRune r') = true.
Proof.
  destruct (hex4 h1 h2 h3 h4) as [r2|]; [|done]. cbn. intros H%surrogatePair_range.
  apply encodeRune_ok; [lia|]. unfold is_surrogate. lia.
Qed.

Lemma unescapeAscii_ok e c : unescapeAscii e = Some c → rune_bytes [c] ∧ textb [c] = true.
Proof.
  unfold unescapeAscii. repeat case_match; intros [= <-]; (split; [apply rune1|cbn]; lia).
Qed.

Lemma textb_cons c t : textb (c :: t) = true ↔ 0 ≤ c < 256 ∧ textb t = true.
Proof. cbn. unfold textb. lia. Qed.

(** What a string reads, and what follows it, are bytes when the text is, and
    the string is UTF-8. *)
Lemma unquote_valid s t r :
  textb s = true → unquote s = Some (t, r) → text_ok t = true ∧ textb r = true.
Proof.
  enough (∀ k s t r, (length s ≤ k)%nat → textb s = true → unquote s = Some (t, r) →
    text_ok t = true ∧ textb r = true) by eauto.
  clear s t r. intros k. induction k as [|k IH]; intros s t r Hk Ht H.
  { destruct s; [done|]. cbn in Hk. lia. }
  assert (Hpush : ∀ p s', (length s' ≤ k)%nat → textb s' = true → rune_bytes p → textb p = true →
    push p (unquote s') = Some (t, r) → text_ok t = true ∧ textb r = true).
  { intros p s' Hl Hs' Hp Hpt. destruct (unquote s') as [[t' r']|] eqn:E; [|done].
    intros [= <- <-]. destruct (IH _ _ _ Hl Hs' E). split; [by apply text_ok_push|done]. }
  destruct s as [|c s]; [done|]. cbn [unquote] in H. cbn [length] in *.
  repeat case_match; simplify_eq; try done;
    repeat match goal with H : textb (_ :: _) = true |- _ => apply textb_cons in H as [? ?] end;
    first [done | eapply Hpush; [..|exact H]]; clear H;
    try solve [cbn in *; lia | done | apply replacement_rune | by constructor
      | constructor; lia | repeat (apply textb_cons; split; [lia|]); done
      | eapply unescapeAscii_ok; eassumption].
  all: match goal with
    | H : is_surrogate ?r = false, H' : hex4 _ _ _ _ = Some ?r |- context [encodeRune ?r] =>
        apply hex4_range in H'; apply encodeRune_ok; [lia|done]
    | _ => idtac
    end.
  all: repeat case_match; simplify_eq; eapply encodeRune_pair; eassumption.
Qed.

Lemma textb_skip s : textb s = true → textb (skip s) = true.
Proof.
  induction s as [|c s IH]; [done|]. intros H. cbn [skip]. destruct (is_space c); [|done].
  apply textb_cons in H as [_ H]. by apply IH.
Qed.

(** The readers that consume a prefix leave a suffix. *)
Lemma textb_suffix r s : r `suffix_of` s → textb s = true → textb r = true.
Proof. intros [k ->]. rewrite textb_app. by intros [_ ?]%andb_prop. Qed.

Lemma expect_suffix w s r : expect w s = Some r → r `suffix_of` s.
Proof.
  revert s. induction w as [|c w IH]; intros s; cbn; [by intros [= ->]|].
  destruct s as [|d s]; [done|]. destruct (c =? d); [|done]. intros H%IH. by apply suffix_cons_r.
Qed.

Lemma spanDigits_suffix s d r : spanDigits s = (d, r) → r `suffix_of` s.
Proof.
  revert d r. induction s as [|c s IH]; cbn; intros d r; [by intros [= _ <-]|].
  destruct (is_digit c); [|by intros [= _ <-]].
  destruct (spanDigits s) as [d' r']. intros [= _ <-]. by apply suffix_cons_r, (IH d').
Qed.

Lemma digits1_suffix s d r : digits1 s = Some (d, r) → r `suffix_of` s.
Proof.
  unfold digits1. destruct (spanDigits s) as [[|c d'] r'] eqn:E; [done|]. intros [= _ <-].
  by eapply spanDigits_suffix.
Qed.

Lemma push_digits1_suffix p s t r : push p (digits1 s) = Some (t, r) → r `suffix_of` s.
Proof. intros [t' H]%push_Some. by eapply digits1_suffix. Qed.

Lemma number_suffix s l r : number s = Some (l, r) → r `suffix_of` s.
Proof.
  unfold number.
  assert (∀ s i r, numInt s = Some (i, r) → r `suffix_of` s) as Hi.
  { intros [|c t] i r'; [done|]. cbn [numInt].
    destruct (c =? 0x30); [intros [= _ <-]; by apply suffix_cons_r|]. apply digits1_suffix. }
  assert (∀ s f r, numFrac s = Some (f, r) → r `suffix_of` s) as Hf.
  { intros [|c t] f r'; cbn [numFrac]; [by intros [= _ <-]|].
    destruct (c =? 0x2E); [|by intros [= _ <-]].
    intros H%push_digits1_suffix. by apply suffix_cons_r. }
  assert (∀ s e r, numExp s = Some (e, r) → r `suffix_of` s) as He.
  { intros [|c [|g t]] e r'; cbn [numExp]; [by intros [= _ <-]|..];
      (destruct ((c =? _) || _); [|by intros [= _ <-]]); [done|].
    destruct ((g =? _) || _); intros H%push_digits1_suffix; [by do 2 apply suffix_cons_r|].
    by apply suffix_cons_r. }
  destruct s as [|c s]; [done|].
  destruct (c =? 0x2D); cbv iota beta;
    (destruct (numInt _) as [[i s1]|] eqn:E1; [|done]);
    (destruct (numFrac s1) as [[f s2]|] eqn:E2; [|done]);
    intros [t' H]%push_Some; apply Hi in E1; apply Hf in E2; apply He in H;
    pose proof (transitivity H (transitivity E2 E1)); [by apply suffix_cons_r|done].
Qed.

Lemma jvalue_valid fuel :
  (∀ d s j r, textb s = true → jvalue fuel d s = Some (j, r) → jvalid j = true ∧ textb r = true) ∧
  (∀ d s l r, textb s = true → jelements fuel d s = Some (l, r) →
     forallb jvalid l = true ∧ textb r = true) ∧
  (∀ d s l r, textb s = true → jmembers fuel d s = Some (l, r) →
     forallb (λ '(k, v), text_ok k && jvalid v) l = true ∧ textb r = true).
Proof.
  induction fuel as [|fuel (IHv&IHe&IHm)]; [done|].
  assert (Hskip : ∀ s c r, skip s = c :: r → textb s = true → textb (c :: r) = true ∧ textb r = true).
  { intros s c r E H%textb_skip. rewrite E in H. split; [done|]. by apply textb_cons in H as [_ H]. }
  split_and!; intros d s j r Ht H; cbn [jvalue jelements jmembers] in H;
    repeat (case_match; simplify_eq; try done;
      repeat match goal with
      | H : skip ?s = _ :: _, Ht : textb ?s = true |- _ =>
          destruct (Hskip _ _ _ H Ht); clear H
      | H : unquote ?s = Some _, Ht : textb ?s = true |- _ =>
          destruct (unquote_valid _ _ _ Ht H); clear H
      | H : expect _ _ = Some _ |- _ => apply expect_suffix in H
      | H : number _ = Some _ |- _ => apply number_suffix in H
      | H : jvalue _ _ ?s = Some _, Ht : textb ?s = true |- _ =>
          destruct (IHv _ _ _ _ Ht H); clear H
      | H : jelements _ _ ?s = Some _, Ht : textb ?s = true |- _ =>
          destruct (IHe _ _ _ _ Ht H); clear H
      | H : jmembers _ _ ?s = Some _, Ht : textb ?s = true |- _ =>
          destruct (IHm _ _ _ _ Ht H); clear H
      end); cbn [jvalid forallb]; split; try done;
    first [by eapply textb_suffix | by repeat match goal with |- _ && _ = true => apply andb_true_intro; split end].
Qed.

(** Every string of a parsed value is UTF-8. *)
Lemma parse_valid s j : textb s = true → parse s = Some j → jvalid j = true.
Proof.
  intros Ht. unfold parse. destruct (jvalue _ 0 s) as [[j' r]|] eqn:E; [|done].
  destruct (skip r); [|done]. intros [= <-].
  by apply (proj1 (jvalue_valid _) _ _ _ _ Ht) in E as [? _].
Qed.

(** ** What is printed are bytes *)

Lemma escapeAscii_text c : 0 ≤ c < 0x80 → textb (escapeAscii c) = true.
Proof.
  intros Hc. assert (c ∈ seqZ 0 128) as Hin by (apply elem_of_seqZ; lia). clear Hc.
  vm_compute in Hin.
  repeat (apply elem_of_cons in Hin as [->|Hin]; [reflexivity|]). by apply elem_of_nil in Hin.
Qed.

Lemma escapeChunk_text c : is_chunk c → textb (cleanChunk c) = true → textb (escapeChunk c) = true.
Proof.
  destruct c as [bs|b]; [|done]. intros Hc Ht. cbn [cleanChunk is_chunk] in *.
  destruct bs as [|c [|c2 bs]]; cbn [escapeChunk]; [done| |repeat case_decide; done].
  apply textb_cons in Ht as [Ht _]. inversion Hc; subst. apply escapeAscii_text. lia.
Qed.

Lemma textb_of_is_text t : is_text t → textb t = true.
Proof.
  intros Ht. apply forallb_forall. intros z Hz%list_elem_of_In.
  eapply Forall_forall in Ht; [|done]. cbn in Ht. lia.
Qed.

Lemma escape_text s : textb s = true → textb (escape s) = true.
Proof.
  intros Ht%textb_is_text%clean_text%textb_of_is_text. unfold escape, clean in *.
  pose proof (chunks_are_chunks s) as Hc. revert Ht Hc.
  induction (chunks s) as [|c cs IH]; [done|]. cbn [map concat]. rewrite !textb_app.
  intros [H1 H2]%andb_prop [Hc Hcs]%Forall_cons. apply andb_true_intro.
  split; [by apply escapeChunk_text|by apply IH].
Qed.

Lemma commas_text l : Forall (λ t, textb t = true) l → textb (commas l) = true.
Proof.
  induction 1 as [|t [|t2 l] Ht Hl IH]; [done|done|]. cbn [commas] in *.
  rewrite textb_app, Ht. by apply textb_cons.
Qed.

Lemma quote_text s : textb s = true → textb (quote s) = true.
Proof. intros Ht. apply textb_cons. split; [lia|]. by rewrite textb_app, escape_text. Qed.

Lemma parseInt_text lit z : parseInt lit = Some z → textb lit = true.
Proof.
  assert (∀ ds, forallb is_digit ds = true → textb ds = true) as Hd.
  { induction ds as [|d ds IH]; [done|]. cbn. unfold is_digit. intros [? ?]%andb_prop.
    apply andb_true_intro. split; [lia|auto]. }
  unfold parseInt. destruct lit as [|c l]; [done|].
  destruct (c =? 0x2D) eqn:Ec; case_match eqn:E; try done; apply andb_prop in E as [_ E];
    apply Hd in E; intros _; [|done]. apply textb_cons. split; [lia|done].
Qed.

Lemma print_text j : printable j = true → textb (print j) = true.
Proof.
  induction j as [|b|lit|s|l IH|l IH] using json_rect'; cbn [printable print].
  - done.
  - by destruct b.
  - destruct (parseInt lit) eqn:E; [|done]. intros _. by eapply parseInt_text.
  - apply quote_text.
  - intros Hp. apply textb_cons. split; [lia|]. rewrite textb_app. apply andb_true_intro.
    split; [|done]. apply commas_text, Forall_fmap.
    induction IH as [|j l Hj _ IHl]; [constructor|]. cbn in Hp. apply andb_prop in Hp as [??].
    constructor; [by apply Hj|by apply IHl].
  - intros Hp. apply textb_cons. split; [lia|]. rewrite textb_app. apply andb_true_intro.
    split; [|done]. apply commas_text, Forall_fmap.
    induction IH as [|[k j] l Hj _ IHl]; [constructor|]. cbn in Hp, Hj.
    apply andb_prop in Hp as [[??]%andb_prop ?].
    constructor; [|by apply IHl]. change (textb (quote k ++ 0x3A :: print j) = true).
    rewrite textb_app, quote_text by done. cbn [andb].
    apply textb_cons. split; [lia|by apply Hj].
Qed.
