(* ===== verification/Text.v ===== *)
(** The functions of packages strings, strconv and net/url of the Go library that
    cmd/main.go and cluster/cluster.go use, on texts. *)
From Stdlib Require Import ZifyBool.
From S2P Require Import Prelude Utf8 Json JsonSpec.
Open Scope Z_scope.
Open Scope go_scope.

(** ** [strings.TrimSpace] *)

(** White space as [unicode.IsSpace] has it. *)
Definition spaceChunk (c : chunk) : bool :=
  match c with
  | Rune [c] => ((0x09 <=? c) && (c <=? 0x0D)) || (c =? 0x20)
  | Rune [b0; b1] => (b0 =? 0xC2) && ((b1 =? 0x85) || (b1 =? 0xA0))
  | Rune [b0; b1; b2] =>
      ((b0 =? 0xE1) && (b1 =? 0x9A) && (b2 =? 0x80)) ||
      ((b0 =? 0xE2) && (b1 =? 0x80) &&
        ((b2 <=? 0x8A) || (b2 =? 0xA8) || (b2 =? 0xA9) || (b2 =? 0xAF))) ||
      ((b0 =? 0xE2) && (b1 =? 0x81) && (b2 =? 0x9F)) ||
      ((b0 =? 0xE3) && (b1 =? 0x80) && (b2 =? 0x80))
  | _ => false
  end.

Definition chunkBytes (c : chunk) : text :=
  match c with Rune bs => bs | BadByte b => [b] end.

Fixpoint dropSpaces (cs : list chunk) : list chunk :=
  match cs with
  | c :: cs' => if spaceChunk c then dropSpaces cs' else cs
  | [] => []
  end.

Definition TrimSpace (t : text) : text :=
  concat (map chunkBytes (reverse (dropSpaces (reverse (dropSpaces (chunks t)))))).

(** ** [strings.Split] and [strings.Cut] with a separator of one byte *)

Fixpoint Cut (sep : Z) (t : text) : text * option text :=
  match t with
  | [] => ([], None)
  | c :: t' =>
      if c =? sep then ([], Some t')
      else let '(before, after) := Cut sep t' in (c :: before, after)
  end.

Fixpoint Split (sep : Z) (t : text) : list text :=
  match t with
  | [] => [[]]
  | c :: t' =>
      if c =? sep then [] :: Split sep t'
      else match Split sep t' with
      | p :: ps => (c :: p) :: ps
      | [] => [[c]]
      end
  end.

(** ** [strconv.Atoi] *)

Definition Atoi (t : text) : option Z :=
  match t with
  | c :: t' =>
      let ds := if (c =? 0x2B) || (c =? 0x2D) then t' else t in
      if bool_decide (ds ≠ []) && forallb is_digit ds then
        let z := if c =? 0x2D then - valueOf ds else valueOf ds in
        if (- 2 ^ 63 <=? z) && (z <? 2 ^ 63) then Some z else None
      else None
  | [] => None
  end.

(** ** Percent escapes of a URL path *)

Fixpoint unescape (t : text) : option text :=
  match t with
  | [] => Some []
  | c :: t' =>
      if c =? 0x25 then
        match t' with
        | h1 :: h2 :: t'' =>
            match hexValue h1, hexValue h2, unescape t'' with
            | Some a, Some b, Some r => Some (a * 16 + b :: r)
            | _, _, _ => None
            end
        | _ => None
        end
      else match unescape t' with Some r => Some (c :: r) | None => None end
  end.

(** ** Lemmas *)

Lemma Cut_none sep t : sep ∉ t → Cut sep t = (t, None).
Proof.
  induction t as [|c t IH]; intros H; [done|]. apply not_elem_of_cons in H as [Hc Ht].
  cbn. replace (c =? sep) with false by lia. by rewrite IH.
Qed.

Lemma Cut_at sep t rest : sep ∉ t → Cut sep (t ++ sep :: rest) = (t, Some rest).
Proof.
  induction t as [|c t IH]; intros H; cbn; [by rewrite Z.eqb_refl|].
  apply not_elem_of_cons in H as [Hc Ht]. replace (c =? sep) with false by lia. by rewrite IH.
Qed.

Lemma Split_none sep t : sep ∉ t → Split sep t = [t].
Proof.
  induction t as [|c t IH]; intros H; [done|]. apply not_elem_of_cons in H as [Hc Ht].
  cbn. replace (c =? sep) with false by lia. by rewrite IH.
Qed.

Lemma Split_at sep t rest : sep ∉ t → Split sep (t ++ sep :: rest) = t :: Split sep rest.
Proof.
  induction t as [|c t IH]; intros H; cbn; [by rewrite Z.eqb_refl|].
  apply not_elem_of_cons in H as [Hc Ht]. replace (c =? sep) with false by lia. by rewrite IH.
Qed.

Lemma unescape_plain t : 0x25 ∉ t → unescape t = Some t.
Proof.
  induction t as [|c t IH]; intros H; [done|]. apply not_elem_of_cons in H as [Hc Ht].
  cbn. replace (c =? 0x25) with false by lia. by rewrite IH.
Qed.

Lemma concat_chunkBytes t : concat (map chunkBytes (chunks t)) = t.
Proof.
  induction t as [|bs t Hbs Hc IH|b t Hb Hc IH] using chunks_ind; [done|..];
    rewrite Hc; cbn [map concat chunkBytes]; by rewrite IH.
Qed.

(** A text that does not start or end with white space is not changed. *)
Definition trimmed (t : text) : Prop :=
  (∀ c, head (chunks t) = Some c → spaceChunk c = false) ∧
  (∀ c, last (chunks t) = Some c → spaceChunk c = false).

Lemma dropSpaces_id cs : (∀ c, head cs = Some c → spaceChunk c = false) → dropSpaces cs = cs.
Proof. destruct cs as [|c cs]; [done|]. intros H. cbn. by rewrite (H c). Qed.

Lemma TrimSpace_id t : trimmed t → TrimSpace t = t.
Proof.
  intros [H1 H2]. unfold TrimSpace. rewrite (dropSpaces_id (chunks t)) by done.
  rewrite dropSpaces_id by (intros c; rewrite head_reverse; apply H2).
  rewrite reverse_involutive. apply concat_chunkBytes.
Qed.
