(* ===== verification/Marshal.v ===== *)
(** The Go values the program marshals, as JSON values: strings, integers, byte
    slices, string maps and structs, with the rules of encoding/json for reading
    them back (a field name matches up to case, [null] leaves a value as it is,
    a value of another type is an error). *)
From Stdlib Require Import ZifyBool.
From S2P Require Import Prelude Utf8 Json JsonSpec.
Open Scope Z_scope.
Open Scope go_scope.

(** ** Strings *)

Definition jstring (s : string) : json := JStr (text_of_string s).

(** Reading into a string that holds [old]. *)
Definition getString (old : string) (j : json) : option string :=
  match j with
  | JStr t => Some (string_of_text t)
  | JNull => Some old
  | _ => None
  end.

Lemma getString_jstring old s : getString old (jclean (jstring s)) = Some (clean_string s).
Proof. done. Qed.

(** ** Integers *)

Definition jint (z : Z) : json := JNum (printInt z).

Definition getInt (old : Z) (j : json) : option Z :=
  match j with
  | JNum lit => parseInt lit
  | JNull => Some old
  | _ => None
  end.

Lemma getInt_jint old z : - 2 ^ 63 ≤ z < 2 ^ 63 → getInt old (jclean (jint z)) = Some z.
Proof. apply parseInt_printInt. Qed.

Lemma printable_jint z : - 2 ^ 63 ≤ z < 2 ^ 63 → printable (jint z) = true.
Proof.
  intros Hz. cbn [printable jint]. rewrite parseInt_printInt by done. by apply bool_decide_true.
Qed.

(** ** String maps: the keys in order *)

Definition jmember (k v : string) : text * json := (text_of_string k, jstring v).

Definition jmap (m : gmap string string) : json :=
  JObj (map (λ k, jmember k (mapS m k)) (sorted_keys m)).

Definition putMember (m : option (gmap string string)) (kv : text * json) :
    option (gmap string string) :=
  match m, getString "" (kv.2) with
  | Some m, Some v => Some (<[string_of_text (kv.1) := v]> m)
  | _, _ => None
  end.

Definition getMap (old : gmap string string) (j : json) : option (gmap string string) :=
  match j with
  | JObj l => foldl putMember (Some old) l
  | JNull => Some ∅
  | _ => None
  end.

(** The maps that JSON can carry. *)
Definition valid_map (m : gmap string string) : Prop :=
  map_Forall (λ k v, valid_string k ∧ valid_string v) m.

#[export] Instance valid_map_dec m : Decision (valid_map m).
Proof. apply map_Forall_dec. apply _. Defined.

Lemma putMembers_jmembers (m m0 : gmap string string) ks :
  Forall (λ k, is_Some (m !! k)) ks → valid_map m →
  foldl putMember (Some m0)
    (map (λ '(k, v), (clean k, jclean v)) (map (λ k, jmember k (mapS m k)) ks)) =
  Some (foldl (λ acc k, <[k := mapS m k]> acc) m0 ks).
Proof.
  intros Hks Hm. revert m0. induction Hks as [|k ks [v Hk] _ IH]; intros m0; [done|].
  destruct (Hm k v Hk) as [Hvk Hvv]. cbn [map foldl jmember].
  assert (mapS m k = v) as -> by (unfold mapS; by rewrite Hk).
  unfold putMember at 2. cbn [fst snd]. rewrite getString_jstring.
  change (string_of_text (clean (text_of_string k))) with (clean_string k).
  rewrite !clean_string_id by done. apply IH.
Qed.

(** Inserting the members of a map in any order gives the map. *)
Lemma foldl_insert_mapS (m m0 : gmap string string) ks i :
  foldl (λ acc k, <[k := mapS m k]> acc) m0 ks !! i =
  if decide (i ∈ ks) then Some (mapS m i) else m0 !! i.
Proof.
  revert m0. induction ks as [|k ks IH]; intros m0; [done|]. cbn [foldl]. rewrite IH.
  destruct (decide (i ∈ ks)) as [Hi|Hi].
  - by rewrite decide_True by by right.
  - destruct (decide (i = k)) as [->|Hne].
    + by rewrite lookup_insert_eq, decide_True by by left.
    + rewrite lookup_insert_ne by done. rewrite decide_False; [done|].
      by intros [|]%elem_of_cons.
Qed.

Lemma getMap_jmap m : valid_map m → getMap ∅ (jclean (jmap m)) = Some m.
Proof.
  intros Hm. cbn [jmap jclean getMap].
  rewrite putMembers_jmembers; [|apply Forall_forall; intros k; by rewrite elem_of_sorted_keys|done].
  f_equal. apply map_eq. intros i. rewrite foldl_insert_mapS. unfold mapS.
  destruct (m !! i) as [v|] eqn:E.
  - by rewrite decide_True by (apply elem_of_sorted_keys; eauto).
  - rewrite decide_False; [by rewrite lookup_empty|].
    rewrite elem_of_sorted_keys, E. by intros [? ?].
Qed.

Lemma printable_jstring s : printable (jstring s) = true.
Proof. apply textb_of_is_text, text_of_string_is_text. Qed.

Lemma printable_jmap m : printable (jmap m) = true.
Proof.
  cbn [jmap printable]. apply forallb_forall. intros [k v] Hin.
  apply in_map_iff in Hin as (x&[= <- <-]&_).
  change (textb (text_of_string x)) with (printable (jstring x)).
  by rewrite !printable_jstring.
Qed.

Lemma jdepth_members (l : list (text * json)) d :
  0 ≤ d → Forall (λ kv, jdepth kv.2 ≤ d) l →
  jdepth (JObj l) ≤ 1 + d.
Proof.
  intros Hd. cbn [jdepth]. induction 1 as [|[k v] l Hv _ IH]; cbn [foldr] in *; [lia|].
  cbn in Hv. lia.
Qed.

Lemma jdepth_jmap m : jdepth (jmap m) ≤ 1.
Proof.
  apply (jdepth_members _ 0); [lia|]. apply Forall_fmap, Forall_true. done.
Qed.


(** ** Struct fields: a name matches up to case *)

(** The upper case of a rune, and the two other runes that fold to an ASCII
    letter (U+017F and U+212A). *)
Definition foldChunk (c : chunk) : chunk :=
  match c with
  | Rune [c] => Rune [if (0x61 <=? c) && (c <=? 0x7A) then c - 0x20 else c]
  | Rune bs =>
      if decide (bs = [0xC5; 0xBF]) then Rune [0x53]
      else if decide (bs = [0xE2; 0x84; 0xAA]) then Rune [0x4B]
      else Rune bs
  | BadByte b => BadByte b
  end.

#[export] Instance chunk_eq_dec : EqDecision chunk.
Proof. solve_decision. Defined.

Definition fieldIs (name : string) (key : text) : bool :=
  bool_decide (map foldChunk (chunks key) = map foldChunk (chunks (text_of_string name))).

(** A member of a JSON object with an ASCII field name. *)
Definition jfield (name : string) (j : json) : text * json := (text_of_string name, j).

(** ** Byte slices: base64 *)

(** The letter of a 6-bit value and back. *)
Definition b64char (v : Z) : Z :=
  if v <? 26 then 0x41 + v
  else if v <? 52 then 0x61 + (v - 26)
  else if v <? 62 then 0x30 + (v - 52)
  else if v =? 62 then 0x2B else 0x2F.

Definition b64value (c : Z) : option Z :=
  if (0x41 <=? c) && (c <=? 0x5A) then Some (c - 0x41)
  else if (0x61 <=? c) && (c <=? 0x7A) then Some (c - 0x61 + 26)
  else if (0x30 <=? c) && (c <=? 0x39) then Some (c - 0x30 + 52)
  else if c =? 0x2B then Some 62
  else if c =? 0x2F then Some 63
  else None.

Fixpoint b64encode (b : text) : text :=
  match b with
  | x :: y :: z :: b' =>
      let v := (x * 256 + y) * 256 + z in
      [b64char (v / 262144); b64char (v / 4096 mod 64); b64char (v / 64 mod 64);
       b64char (v mod 64)] ++ b64encode b'
  | [x; y] =>
      let v := (x * 256 + y) * 256 in
      [b64char (v / 262144); b64char (v / 4096 mod 64); b64char (v / 64 mod 64); 0x3D]
  | [x] =>
      let v := x * 65536 in
      [b64char (v / 262144); b64char (v / 4096 mod 64); 0x3D; 0x3D]
  | [] => []
  end.

(** [StdEncoding.Decode]: line ends are skipped, padding is required and ends
    the text. *)
Definition b64digits (s : text) : text := filter (λ c, c ≠ 0x0A ∧ c ≠ 0x0D) s.

Fixpoint b64groups (s : text) : option text :=
  match s with
  | [] => Some []
  | c1 :: c2 :: c3 :: c4 :: s' =>
      match b64value c1, b64value c2 with
      | Some v1, Some v2 =>
          match b64value c3, b64value c4 with
          | Some v3, Some v4 =>
              match b64groups s' with
              | Some b =>
                  let v := ((v1 * 64 + v2) * 64 + v3) * 64 + v4 in
                  Some (v / 65536 :: v / 256 mod 256 :: v mod 256 :: b)
              | None => None
              end
          | Some v3, None =>
              if (c4 =? 0x3D) && bool_decide (s' = []) then
                let v := ((v1 * 64 + v2) * 64 + v3) * 64 in
                Some [v / 65536; v / 256 mod 256]
              else None
          | None, _ =>
              if (c3 =? 0x3D) && (c4 =? 0x3D) && bool_decide (s' = []) then
                let v := (v1 * 64 + v2) * 4096 in Some [v / 65536]
              else None
          end
      | _, _ => None
      end
  | _ => None
  end.

Definition b64decode (s : text) : option text := b64groups (b64digits s).

Lemma b64value_char v : 0 ≤ v < 64 → b64value (b64char v) = Some v.
Proof.
  intros Hv. unfold b64char, b64value. repeat case_match; try lia; f_equal; lia.
Qed.

Lemma b64char_range v : 0 ≤ v < 64 → 0x2B ≤ b64char v < 0x80 ∧ b64char v ≠ 0x3D.
Proof. intros Hv. unfold b64char. repeat case_match; lia. Qed.

(** The letters are ASCII, not line ends and not the padding. *)
Lemma b64encode_ascii b : is_text b → Forall (λ c, 0x2B ≤ c < 0x80) (b64encode b).
Proof.
  enough (∀ k b, (length b ≤ k)%nat → is_text b → Forall (λ c, 0x2B ≤ c < 0x80) (b64encode b))
    by eauto.
  clear b. intros k. induction k as [|k IH]; intros b Hk Hb; [by destruct b; [constructor|cbn in Hk; lia]|].
  destruct b as [|x [|y [|z b]]]; cbn [b64encode]; [constructor|..];
    unfold is_text in *;
    repeat match goal with H : Forall _ (_ :: _) |- _ => apply Forall_cons in H as [? H] end;
    cbn [app]; repeat (apply Forall_cons; split);
    try (apply Forall_nil; done); try lia;
    try (apply b64char_range; Z.div_mod_to_equations; lia).
  apply IH; [cbn in Hk; lia|done].
Qed.

Lemma b64groups_encode b : is_text b → b64groups (b64encode b) = Some b.
Proof.
  enough (∀ k b, (length b ≤ k)%nat → is_text b → b64groups (b64encode b) = Some b) by eauto.
  clear b. intros k. induction k as [|k IH]; intros b Hk Hb; [by destruct b; [|cbn in Hk; lia]|].
  destruct b as [|x [|y [|z b]]]; [done|..]; cbn [b64encode];
    unfold is_text in *;
    repeat match goal with H : Forall _ (_ :: _) |- _ => apply Forall_cons in H as [? H] end;
    cbn [b64groups app];
    rewrite !b64value_char by (Z.div_mod_to_equations; lia).
  - change (b64value 0x3D) with (@None Z). cbn [andb bool_decide]. change (0x3D =? 0x3D) with true.
    rewrite bool_decide_true by done. cbn [andb]. f_equal. f_equal. Z.div_mod_to_equations; lia.
  - change (b64value 0x3D) with (@None Z). change (0x3D =? 0x3D) with true.
    rewrite bool_decide_true by done. cbn [andb]. f_equal. f_equal; [|f_equal]; Z.div_mod_to_equations; lia.
  - rewrite IH; [|cbn in Hk; lia|done].
    f_equal. f_equal; [|f_equal; [|f_equal]]; Z.div_mod_to_equations; lia.
Qed.

Lemma filter_all {A} (P : A → Prop) `{∀ x, Decision (P x)} l : Forall P l → filter P l = l.
Proof. induction 1 as [|x l Hx _ IH]; [done|]. by rewrite filter_cons_True, IH. Qed.

Lemma b64decode_encode b : is_text b → b64decode (b64encode b) = Some b.
Proof.
  intros Hb. unfold b64decode, b64digits. rewrite filter_all; [by apply b64groups_encode|].
  eapply Forall_impl; [by apply b64encode_ascii|]. cbn. lia.
Qed.

(** A [[]byte] is a base64 string; a nil slice is written as [null] and an array
    of numbers is read too. *)
Definition jbytes (b : bytes) : json := JStr (b64encode (text_of_bytes b)).

Definition getByte (j : json) : option Z :=
  match j with
  | JNull => Some 0
  | JNum lit =>
      match parseInt lit with
      | Some z => if forallb is_digit lit && (z <? 256) then Some z else None
      | None => None
      end
  | _ => None
  end.

Definition getBytes (j : json) : option bytes :=
  match j with
  | JStr s => bytes_of_text <$> b64decode s
  | JArr l => bytes_of_text <$> mapM getByte l
  | JNull => Some []
  | _ => None
  end.

Lemma getBytes_jbytes b : getBytes (jclean (jbytes b)) = Some b.
Proof.
  cbn [jbytes jclean getBytes]. pose proof (b64encode_ascii _ (text_of_bytes_is_text b)) as Ha.
  rewrite concat_chunks, b64decode_encode by
    (apply text_of_bytes_is_text || (apply ascii_valid; eapply Forall_impl; [exact Ha|cbn; lia])).
  cbn. by rewrite bytes_of_text_of_bytes.
Qed.

Lemma printable_jbytes b : printable (jbytes b) = true.
Proof.
  apply textb_of_is_text. eapply Forall_impl; [apply b64encode_ascii, text_of_bytes_is_text|].
  cbn. lia.
Qed.
