(* ===== verification/KvStore.v ===== *)
(** kv/store.go, and the command of kv/client_api.go with the callback that
    applies it: the replicated map, its snapshots and its commands as JSON.
    [Store_machine] is the state machine a node is given by [NewServer];
    [Store_laws] discharges what the node relies on. *)
From S2P Require Import Prelude Types Utf8 Json JsonSpec Marshal.
Open Scope Z_scope.
Open Scope go_scope.

(** ** The store *)

(** The [data] of a [Store]; the mutex makes every operation one function. *)
Abbreviation Store := (gmap string string).

Definition NewStore : Store := ∅.

Definition Put (key value : string) (s : Store) : Store := <[key := value]> s.

(** [None] is [ok = false]. *)
Definition Get (key : string) (s : Store) : option string := s !! key.

Definition Len (s : Store) : Z := Z.of_nat (size s).

(** The loops that copy a map, key by key into an empty one. *)
Definition Clone (s : Store) : gmap string string := map_fold (λ k v out, <[k := v]> out) ∅ s.

Definition Replace (m : gmap string string) (s : Store) : Store :=
  map_fold (λ k v data, <[k := v]> data) ∅ m.

(** [json.Marshal] of a string map does not fail. *)
Definition Snapshot (s : Store) : bytes := bytes_of_text (print (jmap (Clone s))).

(** [json.Unmarshal], with the error of a text that is not JSON. *)
Definition unmarshal {A} (get : json → option A) (data : bytes) : option A :=
  match parse (text_of_bytes data) with
  | Some j => get j
  | None => None
  end.

(** [None] is the error, which leaves the store as it was. *)
Definition Restore (data : bytes) (s : Store) : option Store :=
  if decide (data = []) then Some (Replace ∅ s)
  else match unmarshal (getMap ∅) data with
  | Some m => Some (Replace m s)
  | None => None
  end.

(** ** Commands *)

Record Command := MkCommand { c_Op : string; c_Key : string; c_Value : string }.

Definition opPut : string := "Put".

Definition jcommand (c : Command) : json :=
  JObj [jfield "op" (jstring (c_Op c)); jfield "key" (jstring (c_Key c));
        jfield "value" (jstring (c_Value c))].

(** [json.Marshal(Command{...})]. *)
Definition marshalCommand (c : Command) : bytes := bytes_of_text (print (jcommand c)).

Definition putField (c : option Command) (kv : text * json) : option Command :=
  match c with
  | None => None
  | Some c =>
      let '(k, v) := kv in
      if fieldIs "op" k then
        (λ x, MkCommand x (c_Key c) (c_Value c)) <$> getString (c_Op c) v
      else if fieldIs "key" k then
        (λ x, MkCommand (c_Op c) x (c_Value c)) <$> getString (c_Key c) v
      else if fieldIs "value" k then
        (λ x, MkCommand (c_Op c) (c_Key c) x) <$> getString (c_Value c) v
      else Some c
  end.

Definition getCommand (j : json) : option Command :=
  match j with
  | JObj l => foldl putField (Some (MkCommand "" "" "")) l
  | JNull => Some (MkCommand "" "" "")
  | _ => None
  end.

(** [json.Unmarshal(msg.Command, &cmd)]. *)
Definition unmarshalCommand (data : bytes) : option Command := unmarshal getCommand data.

Definition onApply (msg : ApplyMsg) (s : Store) : Store :=
  if decide (am_Command msg = []) then s
  else match unmarshalCommand (am_Command msg) with
  | None => s
  | Some cmd => if decide (c_Op cmd = opPut) then Put (c_Key cmd) (c_Value cmd) s else s
  end.

(** The callbacks [NewServer] installs. *)
#[export] Instance Store_machine : StateMachine Store := {
  sm_apply := onApply;
  sm_snapshot s := Some (Snapshot s);
  sm_restore := Restore;
}.

(** ** Lemmas *)

Lemma Clone_id s : Clone s = s.
Proof.
  unfold Clone. apply (map_fold_weak_ind (λ r m, r = m)); [done|].
  by intros k v m r _ ->.
Qed.

Lemma Replace_id m s : Replace m s = m.
Proof. apply Clone_id. Qed.

(** Reading what was written. *)
Lemma unmarshal_print {A} (get : json → option A) j :
  printable j = true → jdepth j ≤ maxNestingDepth →
  unmarshal get (bytes_of_text (print j)) = get (jclean j).
Proof.
  intros Hp Hd. unfold unmarshal.
  rewrite text_of_bytes_of_text by by apply textb_is_text, print_text.
  by rewrite parse_print.
Qed.

(** A snapshot restores the store it was taken from. *)
Lemma Restore_Snapshot s s0 : valid_map s → Restore (Snapshot s) s0 = Some s.
Proof.
  intros Hs. unfold Restore, Snapshot. rewrite Clone_id.
  rewrite decide_False by done.
  rewrite unmarshal_print by (apply printable_jmap || (pose proof (jdepth_jmap s); unfold maxNestingDepth; lia)).
  rewrite getMap_jmap by done. by rewrite Replace_id.
Qed.

(** A command comes back with its strings cleaned. *)
Lemma unmarshal_marshalCommand c :
  unmarshalCommand (marshalCommand c) =
  Some (MkCommand (clean_string (c_Op c)) (clean_string (c_Key c)) (clean_string (c_Value c))).
Proof.
  unfold unmarshalCommand, marshalCommand. rewrite unmarshal_print.
  - cbn [jcommand jclean map jfield getCommand foldl]. reflexivity.
  - cbn [jcommand printable forallb jfield]. rewrite !printable_jstring. reflexivity.
  - done.
Qed.

(** Applying the command of a Put. *)
Lemma onApply_put i key value s :
  onApply (MkApplyMsg i (marshalCommand (MkCommand opPut key value))) s =
  <[clean_string key := clean_string value]> s.
Proof.
  unfold onApply. cbn [am_Command]. rewrite decide_False by done.
  rewrite unmarshal_marshalCommand. done.
Qed.

(** ** The laws a node relies on *)

(** The strings of a parsed value are UTF-8. *)
Lemma getString_valid old j x :
  jvalid j = true → valid_string old → getString old j = Some x → valid_string x.
Proof.
  destruct j as [| | |t| |]; try done; cbn; intros Hj Ho [= <-]; [done|].
  apply andb_prop in Hj as [Hv Ht]. unfold valid_string.
  by rewrite text_of_string_of_text by by apply textb_is_text.
Qed.

Definition valid_command (c : Command) : Prop :=
  valid_string (c_Op c) ∧ valid_string (c_Key c) ∧ valid_string (c_Value c).

Lemma getCommand_valid j c : jvalid j = true → getCommand j = Some c → valid_command c.
Proof.
  destruct j as [| | | | |l]; try done; cbn [jvalid getCommand].
  { by intros _ [= <-]. }
  assert (Hz : valid_command (MkCommand "" "" "")) by done. revert Hz.
  generalize (MkCommand "" "" ""). induction l as [|[k v] l IH]; intros c0 Hc Hl.
  { by intros [= <-]. }
  cbn [forallb] in Hl. apply andb_prop in Hl as [[_ Hv]%andb_prop Hl].
  cbn [foldl]. destruct (putField (Some c0) (k, v)) as [c1|] eqn:E; cycle 1.
  { clear. induction l; [done|]. cbn. done. }
  apply IH; [|done]. destruct Hc as (H1&H2&H3). unfold putField in E.
  repeat case_match; simplify_eq; try done.
  all: apply fmap_Some in E as (x&Hx&->); apply getString_valid in Hx; [|done..].
  all: by split_and!.
Qed.

Lemma unmarshalCommand_valid b c : unmarshalCommand b = Some c → valid_command c.
Proof.
  unfold unmarshalCommand, unmarshal. destruct (parse (text_of_bytes b)) as [j|] eqn:E; [|done].
  apply parse_valid in E; [|apply textb_of_is_text, text_of_bytes_is_text].
  by apply getCommand_valid.
Qed.

Lemma onApply_valid m s : valid_map s → valid_map (onApply m s).
Proof.
  intros Hs. unfold onApply. case_decide; [done|].
  destruct (unmarshalCommand (am_Command m)) as [c|] eqn:E; [|done]. case_decide; [|done].
  apply unmarshalCommand_valid in E as (_&?&?). by apply map_Forall_insert_2.
Qed.

#[export] Instance Store_laws : StateMachineLaws Store.
Proof.
  refine {| sm_ok := valid_map |}.
  - exact onApply_valid.
  - by intros s b [= <-].
  - intros s s0 b Hs [= <-]. by apply Restore_Snapshot.
Defined.

Lemma NewStore_ok : sm_ok NewStore.
Proof. apply map_Forall_empty. Qed.
