(* ===== verification/Node.v ===== *)
(** The state of a [RaftNode] (raft/node.go), one field per field of the struct,
    and the log accessors of raft/log.go.

    Four fields stand for what a node is given from outside: [machine] is the
    state machine behind the apply callback and the [Snapshotter] ([applySet]
    and [snapshotterSet] say whether they are installed), [clock] is what
    [time.Now] returns, [rng] holds the coming values of the random source, and
    [spawned] and [hookCalls] record the goroutines started and the calls of the
    peer hook.  [stopped] says that [stopCh] is closed.  Every operation below
    runs with the mutex held, so it is one function on this record. *)
From S2P Require Import Prelude Types.
Open Scope Z_scope.
Open Scope go_scope.

Record RaftNode (M : Type) := MkNode {
  nodeID : string;
  peerAddrs : gmap string string;
  peerHTTP : gmap string string;
  peerIDs : list string;
  basePeers : gmap string string;
  baseHTTP : gmap string string;
  joining : bool;
  peerHook : bool;
  transport : option Transport;
  applySet : bool;
  storage : option Storage;
  snapshotterSet : bool;
  snapshotThreshold : Z;
  snapshot : bytes;
  electionTimeoutMin : Z;
  electionTimeoutMax : Z;
  heartbeatInterval : Z;
  state : State;
  currentTerm : Z;
  votedFor : string;
  log : list LogEntry;
  commitIndex : Z;
  lastApplied : Z;
  nextIndex : gmap string Z;
  matchIndex : gmap string Z;
  replicating : gmap string bool;
  votesReceived : gmap string bool;
  leaderID : string;
  electionDeadline : Z;
  nextHeartbeat : Z;
  stopped : bool;
  machine : M;
  clock : Z;
  rng : list Z;
  spawned : list Goroutine;
  hookCalls : list (gmap string string * gmap string string);
}.
Arguments MkNode {M}.
Arguments nodeID {M} _.
Arguments peerAddrs {M} _.
Arguments peerHTTP {M} _.
Arguments peerIDs {M} _.
Arguments basePeers {M} _.
Arguments baseHTTP {M} _.
Arguments joining {M} _.
Arguments peerHook {M} _.
Arguments transport {M} _.
Arguments applySet {M} _.
Arguments storage {M} _.
Arguments snapshotterSet {M} _.
Arguments snapshotThreshold {M} _.
Arguments snapshot {M} _.
Arguments electionTimeoutMin {M} _.
Arguments electionTimeoutMax {M} _.
Arguments heartbeatInterval {M} _.
Arguments state {M} _.
Arguments currentTerm {M} _.
Arguments votedFor {M} _.
Arguments log {M} _.
Arguments commitIndex {M} _.
Arguments lastApplied {M} _.
Arguments nextIndex {M} _.
Arguments matchIndex {M} _.
Arguments replicating {M} _.
Arguments votesReceived {M} _.
Arguments leaderID {M} _.
Arguments electionDeadline {M} _.
Arguments nextHeartbeat {M} _.
Arguments stopped {M} _.
Arguments machine {M} _.
Arguments clock {M} _.
Arguments rng {M} _.
Arguments spawned {M} _.
Arguments hookCalls {M} _.

(** ** Field updates *)

Section setters.
Context {M : Type}.
Implicit Types n : RaftNode M.

Definition set_nodeID (v : string) n : RaftNode M :=
  MkNode v (peerAddrs n) (peerHTTP n) (peerIDs n) (basePeers n) (baseHTTP
    n) (joining n) (peerHook n) (transport n) (applySet n) (storage n)
    (snapshotterSet n) (snapshotThreshold n) (snapshot n)
    (electionTimeoutMin n) (electionTimeoutMax n) (heartbeatInterval n)
    (state n) (currentTerm n) (votedFor n) (log n) (commitIndex n)
    (lastApplied n) (nextIndex n) (matchIndex n) (replicating n)
    (votesReceived n) (leaderID n) (electionDeadline n) (nextHeartbeat n)
    (stopped n) (machine n) (clock n) (rng n) (spawned n) (hookCalls n).
Definition set_peerAddrs (v : gmap string string) n : RaftNode M :=
  MkNode (nodeID n) v (peerHTTP n) (peerIDs n) (basePeers n) (baseHTTP n)
    (joining n) (peerHook n) (transport n) (applySet n) (storage n)
    (snapshotterSet n) (snapshotThreshold n) (snapshot n)
    (electionTimeoutMin n) (electionTimeoutMax n) (heartbeatInterval n)
    (state n) (currentTerm n) (votedFor n) (log n) (commitIndex n)
    (lastApplied n) (nextIndex n) (matchIndex n) (replicating n)
    (votesReceived n) (leaderID n) (electionDeadline n) (nextHeartbeat n)
    (stopped n) (machine n) (clock n) (rng n) (spawned n) (hookCalls n).
Definition set_peerHTTP (v : gmap string string) n : RaftNode M :=
  MkNode (nodeID n) (peerAddrs n) v (peerIDs n) (basePeers n) (baseHTTP n)
    (joining n) (peerHook n) (transport n) (applySet n) (storage n)
    (snapshotterSet n) (snapshotThreshold n) (snapshot n)
    (electionTimeoutMin n) (electionTimeoutMax n) (heartbeatInterval n)
    (state n) (currentTerm n) (votedFor n) (log n) (commitIndex n)
    (lastApplied n) (nextIndex n) (matchIndex n) (replicating n)
    (votesReceived n) (leaderID n) (electionDeadline n) (nextHeartbeat n)
    (stopped n) (machine n) (clock n) (rng n) (spawned n) (hookCalls n).
Definition set_peerIDs (v : list string) n : RaftNode M :=
  MkNode (nodeID n) (peerAddrs n) (peerHTTP n) v (basePeers n) (baseHTTP
    n) (joining n) (peerHook n) (transport n) (applySet n) (storage n)
    (snapshotterSet n) (snapshotThreshold n) (snapshot n)
    (electionTimeoutMin n) (electionTimeoutMax n) (heartbeatInterval n)
    (state n) (currentTerm n) (votedFor n) (log n) (commitIndex n)
    (lastApplied n) (nextIndex n) (matchIndex n) (replicating n)
    (votesReceived n) (leaderID n) (electionDeadline n) (nextHeartbeat n)
    (stopped n) (machine n) (clock n) (rng n) (spawned n) (hookCalls n).
Definition set_basePeers (v : gmap string string) n : RaftNode M :=
  MkNode (nodeID n) (peerAddrs n) (peerHTTP n) (peerIDs n) v (baseHTTP n)
    (joining n) (peerHook n) (transport n) (applySet n) (storage n)
    (snapshotterSet n) (snapshotThreshold n) (snapshot n)
    (electionTimeoutMin n) (electionTimeoutMax n) (heartbeatInterval n)
    (state n) (currentTerm n) (votedFor n) (log n) (commitIndex n)
    (lastApplied n) (nextIndex n) (matchIndex n) (replicating n)
    (votesReceived n) (leaderID n) (electionDeadline n) (nextHeartbeat n)
    (stopped n) (machine n) (clock n) (rng n) (spawned n) (hookCalls n).
Definition set_baseHTTP (v : gmap string string) n : RaftNode M :=
  MkNode (nodeID n) (peerAddrs n) (peerHTTP n) (peerIDs n) (basePeers n) v
    (joining n) (peerHook n) (transport n) (applySet n) (storage n)
    (snapshotterSet n) (snapshotThreshold n) (snapshot n)
    (electionTimeoutMin n) (electionTimeoutMax n) (heartbeatInterval n)
    (state n) (currentTerm n) (votedFor n) (log n) (commitIndex n)
    (lastApplied n) (nextIndex n) (matchIndex n) (replicating n)
    (votesReceived n) (leaderID n) (electionDeadline n) (nextHeartbeat n)
    (stopped n) (machine n) (clock n) (rng n) (spawned n) (hookCalls n).
Definition set_joining (v : bool) n : RaftNode M :=
  MkNode (nodeID n) (peerAddrs n) (peerHTTP n) (peerIDs n) (basePeers n)
    (baseHTTP n) v (peerHook n) (transport n) (applySet n) (storage n)
    (snapshotterSet n) (snapshotThreshold n) (snapshot n)
    (electionTimeoutMin n) (electionTimeoutMax n) (heartbeatInterval n)
    (state n) (currentTerm n) (votedFor n) (log n) (commitIndex n)
    (lastApplied n) (nextIndex n) (matchIndex n) (replicating n)
    (votesReceived n) (leaderID n) (electionDeadline n) (nextHeartbeat n)
    (stopped n) (machine n) (clock n) (rng n) (spawned n) (hookCalls n).
Definition set_peerHook (v : bool) n : RaftNode M :=
  MkNode (nodeID n) (peerAddrs n) (peerHTTP n) (peerIDs n) (basePeers n)
    (baseHTTP n) (joining n) v (transport n) (applySet n) (storage n)
    (snapshotterSet n) (snapshotThreshold n) (snapshot n)
    (electionTimeoutMin n) (electionTimeoutMax n) (heartbeatInterval n)
    (state n) (currentTerm n) (votedFor n) (log n) (commitIndex n)
    (lastApplied n) (nextIndex n) (matchIndex n) (replicating n)
    (votesReceived n) (leaderID n) (electionDeadline n) (nextHeartbeat n)
    (stopped n) (machine n) (clock n) (rng n) (spawned n) (hookCalls n).
Definition set_transport (v : option Transport) n : RaftNode M :=
  MkNode (nodeID n) (peerAddrs n) (peerHTTP n) (peerIDs n) (basePeers n)
    (baseHTTP n) (joining n) (peerHook n) v (applySet n) (storage n)
    (snapshotterSet n) (snapshotThreshold n) (snapshot n)
    (electionTimeoutMin n) (electionTimeoutMax n) (heartbeatInterval n)
    (state n) (currentTerm n) (votedFor n) (log n) (commitIndex n)
    (lastApplied n) (nextIndex n) (matchIndex n) (replicating n)
    (votesReceived n) (leaderID n) (electionDeadline n) (nextHeartbeat n)
    (stopped n) (machine n) (clock n) (rng n) (spawned n) (hookCalls n).
Definition set_applySet (v : bool) n : RaftNode M :=
  MkNode (nodeID n) (peerAddrs n) (peerHTTP n) (peerIDs n) (basePeers n)
    (baseHTTP n) (joining n) (peerHook n) (transport n) v (storage n)
    (snapshotterSet n) (snapshotThreshold n) (snapshot n)
    (electionTimeoutMin n) (electionTimeoutMax n) (heartbeatInterval n)
    (state n) (currentTerm n) (votedFor n) (log n) (commitIndex n)
    (lastApplied n) (nextIndex n) (matchIndex n) (replicating n)
    (votesReceived n) (leaderID n) (electionDeadline n) (nextHeartbeat n)
    (stopped n) (machine n) (clock n) (rng n) (spawned n) (hookCalls n).
Definition set_storage (v : option Storage) n : RaftNode M :=
  MkNode (nodeID n) (peerAddrs n) (peerHTTP n) (peerIDs n) (basePeers n)
    (baseHTTP n) (joining n) (peerHook n) (transport n) (applySet n) v
    (snapshotterSet n) (snapshotThreshold n) (snapshot n)
    (electionTimeoutMin n) (electionTimeoutMax n) (heartbeatInterval n)
    (state n) (currentTerm n) (votedFor n) (log n) (commitIndex n)
    (lastApplied n) (nextIndex n) (matchIndex n) (replicating n)
    (votesReceived n) (leaderID n) (electionDeadline n) (nextHeartbeat n)
    (stopped n) (machine n) (clock n) (rng n) (spawned n) (hookCalls n).
Definition set_snapshotterSet (v : bool) n : RaftNode M :=
  MkNode (nodeID n) (peerAddrs n) (peerHTTP n) (peerIDs n) (basePeers n)
    (baseHTTP n) (joining n) (peerHook n) (transport n) (applySet n)
    (storage n) v (snapshotThreshold n) (snapshot n) (electionTimeoutMin
    n) (electionTimeoutMax n) (heartbeatInterval n) (state n) (currentTerm
    n) (votedFor n) (log n) (commitIndex n) (lastApplied n) (nextIndex n)
    (matchIndex n) (replicating n) (votesReceived n) (leaderID n)
    (electionDeadline n) (nextHeartbeat n) (stopped n) (machine n) (clock
    n) (rng n) (spawned n) (hookCalls n).
Definition set_snapshotThreshold (v : Z) n : RaftNode M :=
  MkNode (nodeID n) (peerAddrs n) (peerHTTP n) (peerIDs n) (basePeers n)
    (baseHTTP n) (joining n) (peerHook n) (transport n) (applySet n)
    (storage n) (snapshotterSet n) v (snapshot n) (electionTimeoutMin n)
    (electionTimeoutMax n) (heartbeatInterval n) (state n) (currentTerm n)
    (votedFor n) (log n) (commitIndex n) (lastApplied n) (nextIndex n)
    (matchIndex n) (replicating n) (votesReceived n) (leaderID n)
    (electionDeadline n) (nextHeartbeat n) (stopped n) (machine n) (clock
    n) (rng n) (spawned n) (hookCalls n).
Definition set_snapshot (v : bytes) n : RaftNode M :=
  MkNode (nodeID n) (peerAddrs n) (peerHTTP n) (peerIDs n) (basePeers n)
    (baseHTTP n) (joining n) (peerHook n) (transport n) (applySet n)
    (storage n) (snapshotterSet n) (snapshotThreshold n) v
    (electionTimeoutMin n) (electionTimeoutMax n) (heartbeatInterval n)
    (state n) (currentTerm n) (votedFor n) (log n) (commitIndex n)
    (lastApplied n) (nextIndex n) (matchIndex n) (replicating n)
    (votesReceived n) (leaderID n) (electionDeadline n) (nextHeartbeat n)
    (stopped n) (machine n) (clock n) (rng n) (spawned n) (hookCalls n).
Definition set_electionTimeoutMin (v : Z) n : RaftNode M :=
  MkNode (nodeID n) (peerAddrs n) (peerHTTP n) (peerIDs n) (basePeers n)
    (baseHTTP n) (joining n) (peerHook n) (transport n) (applySet n)
    (storage n) (snapshotterSet n) (snapshotThreshold n) (snapshot n) v
    (electionTimeoutMax n) (heartbeatInterval n) (state n) (currentTerm n)
    (votedFor n) (log n) (commitIndex n) (lastApplied n) (nextIndex n)
    (matchIndex n) (replicating n) (votesReceived n) (leaderID n)
    (electionDeadline n) (nextHeartbeat n) (stopped n) (machine n) (clock
    n) (rng n) (spawned n) (hookCalls n).
Definition set_electionTimeoutMax (v : Z) n : RaftNode M :=
  MkNode (nodeID n) (peerAddrs n) (peerHTTP n) (peerIDs n) (basePeers n)
    (baseHTTP n) (joining n) (peerHook n) (transport n) (applySet n)
    (storage n) (snapshotterSet n) (snapshotThreshold n) (snapshot n)
    (electionTimeoutMin n) v (heartbeatInterval n) (state n) (currentTerm
    n) (votedFor n) (log n) (commitIndex n) (lastApplied n) (nextIndex n)
    (matchIndex n) (replicating n) (votesReceived n) (leaderID n)
    (electionDeadline n) (nextHeartbeat n) (stopped n) (machine n) (clock
    n) (rng n) (spawned n) (hookCalls n).
Definition set_heartbeatInterval (v : Z) n : RaftNode M :=
  MkNode (nodeID n) (peerAddrs n) (peerHTTP n) (peerIDs n) (basePeers n)
    (baseHTTP n) (joining n) (peerHook n) (transport n) (applySet n)
    (storage n) (snapshotterSet n) (snapshotThreshold n) (snapshot n)
    (electionTimeoutMin n) (electionTimeoutMax n) v (state n) (currentTerm
    n) (votedFor n) (log n) (commitIndex n) (lastApplied n) (nextIndex n)
    (matchIndex n) (replicating n) (votesReceived n) (leaderID n)
    (electionDeadline n) (nextHeartbeat n) (stopped n) (machine n) (clock
    n) (rng n) (spawned n) (hookCalls n).
Definition set_state (v : State) n : RaftNode M :=
  MkNode (nodeID n) (peerAddrs n) (peerHTTP n) (peerIDs n) (basePeers n)
    (baseHTTP n) (joining n) (peerHook n) (transport n) (applySet n)
    (storage n) (snapshotterSet n) (snapshotThreshold n) (snapshot n)
    (electionTimeoutMin n) (electionTimeoutMax n) (heartbeatInterval n) v
    (currentTerm n) (votedFor n) (log n) (commitIndex n) (lastApplied n)
    (nextIndex n) (matchIndex n) (replicating n) (votesReceived n)
    (leaderID n) (electionDeadline n) (nextHeartbeat n) (stopped n)
    (machine n) (clock n) (rng n) (spawned n) (hookCalls n).
Definition set_currentTerm (v : Z) n : RaftNode M :=
  MkNode (nodeID n) (peerAddrs n) (peerHTTP n) (peerIDs n) (basePeers n)
    (baseHTTP n) (joining n) (peerHook n) (transport n) (applySet n)
    (storage n) (snapshotterSet n) (snapshotThreshold n) (snapshot n)
    (electionTimeoutMin n) (electionTimeoutMax n) (heartbeatInterval n)
    (state n) v (votedFor n) (log n) (commitIndex n) (lastApplied n)
    (nextIndex n) (matchIndex n) (replicating n) (votesReceived n)
    (leaderID n) (electionDeadline n) (nextHeartbeat n) (stopped n)
    (machine n) (clock n) (rng n) (spawned n) (hookCalls n).
Definition set_votedFor (v : string) n : RaftNode M :=
  MkNode (nodeID n) (peerAddrs n) (peerHTTP n) (peerIDs n) (basePeers n)
    (baseHTTP n) (joining n) (peerHook n) (transport n) (applySet n)
    (storage n) (snapshotterSet n) (snapshotThreshold n) (snapshot n)
    (electionTimeoutMin n) (electionTimeoutMax n) (heartbeatInterval n)
    (state n) (currentTerm n) v (log n) (commitIndex n) (lastApplied n)
    (nextIndex n) (matchIndex n) (replicating n) (votesReceived n)
    (leaderID n) (electionDeadline n) (nextHeartbeat n) (stopped n)
    (machine n) (clock n) (rng n) (spawned n) (hookCalls n).
Definition set_log (v : list LogEntry) n : RaftNode M :=
  MkNode (nodeID n) (peerAddrs n) (peerHTTP n) (peerIDs n) (basePeers n)
    (baseHTTP n) (joining n) (peerHook n) (transport n) (applySet n)
    (storage n) (snapshotterSet n) (snapshotThreshold n) (snapshot n)
    (electionTimeoutMin n) (electionTimeoutMax n) (heartbeatInterval n)
    (state n) (currentTerm n) (votedFor n) v (commitIndex n) (lastApplied
    n) (nextIndex n) (matchIndex n) (replicating n) (votesReceived n)
    (leaderID n) (electionDeadline n) (nextHeartbeat n) (stopped n)
    (machine n) (clock n) (rng n) (spawned n) (hookCalls n).
Definition set_commitIndex (v : Z) n : RaftNode M :=
  MkNode (nodeID n) (peerAddrs n) (peerHTTP n) (peerIDs n) (basePeers n)
    (baseHTTP n) (joining n) (peerHook n) (transport n) (applySet n)
    (storage n) (snapshotterSet n) (snapshotThreshold n) (snapshot n)
    (electionTimeoutMin n) (electionTimeoutMax n) (heartbeatInterval n)
    (state n) (currentTerm n) (votedFor n) (log n) v (lastApplied n)
    (nextIndex n) (matchIndex n) (replicating n) (votesReceived n)
    (leaderID n) (electionDeadline n) (nextHeartbeat n) (stopped n)
    (machine n) (clock n) (rng n) (spawned n) (hookCalls n).
Definition set_lastApplied (v : Z) n : RaftNode M :=
  MkNode (nodeID n) (peerAddrs n) (peerHTTP n) (peerIDs n) (basePeers n)
    (baseHTTP n) (joining n) (peerHook n) (transport n) (applySet n)
    (storage n) (snapshotterSet n) (snapshotThreshold n) (snapshot n)
    (electionTimeoutMin n) (electionTimeoutMax n) (heartbeatInterval n)
    (state n) (currentTerm n) (votedFor n) (log n) (commitIndex n) v
    (nextIndex n) (matchIndex n) (replicating n) (votesReceived n)
    (leaderID n) (electionDeadline n) (nextHeartbeat n) (stopped n)
    (machine n) (clock n) (rng n) (spawned n) (hookCalls n).
Definition set_nextIndex (v : gmap string Z) n : RaftNode M :=
  MkNode (nodeID n) (peerAddrs n) (peerHTTP n) (peerIDs n) (basePeers n)
    (baseHTTP n) (joining n) (peerHook n) (transport n) (applySet n)
    (storage n) (snapshotterSet n) (snapshotThreshold n) (snapshot n)
    (electionTimeoutMin n) (electionTimeoutMax n) (heartbeatInterval n)
    (state n) (currentTerm n) (votedFor n) (log n) (commitIndex n)
    (lastApplied n) v (matchIndex n) (replicating n) (votesReceived n)
    (leaderID n) (electionDeadline n) (nextHeartbeat n) (stopped n)
    (machine n) (clock n) (rng n) (spawned n) (hookCalls n).
Definition set_matchIndex (v : gmap string Z) n : RaftNode M :=
  MkNode (nodeID n) (peerAddrs n) (peerHTTP n) (peerIDs n) (basePeers n)
    (baseHTTP n) (joining n) (peerHook n) (transport n) (applySet n)
    (storage n) (snapshotterSet n) (snapshotThreshold n) (snapshot n)
    (electionTimeoutMin n) (electionTimeoutMax n) (heartbeatInterval n)
    (state n) (currentTerm n) (votedFor n) (log n) (commitIndex n)
    (lastApplied n) (nextIndex n) v (replicating n) (votesReceived n)
    (leaderID n) (electionDeadline n) (nextHeartbeat n) (stopped n)
    (machine n) (clock n) (rng n) (spawned n) (hookCalls n).
Definition set_replicating (v : gmap string bool) n : RaftNode M :=
  MkNode (nodeID n) (peerAddrs n) (peerHTTP n) (peerIDs n) (basePeers n)
    (baseHTTP n) (joining n) (peerHook n) (transport n) (applySet n)
    (storage n) (snapshotterSet n) (snapshotThreshold n) (snapshot n)
    (electionTimeoutMin n) (electionTimeoutMax n) (heartbeatInterval n)
    (state n) (currentTerm n) (votedFor n) (log n) (commitIndex n)
    (lastApplied n) (nextIndex n) (matchIndex n) v (votesReceived n)
    (leaderID n) (electionDeadline n) (nextHeartbeat n) (stopped n)
    (machine n) (clock n) (rng n) (spawned n) (hookCalls n).
Definition set_votesReceived (v : gmap string bool) n : RaftNode M :=
  MkNode (nodeID n) (peerAddrs n) (peerHTTP n) (peerIDs n) (basePeers n)
    (baseHTTP n) (joining n) (peerHook n) (transport n) (applySet n)
    (storage n) (snapshotterSet n) (snapshotThreshold n) (snapshot n)
    (electionTimeoutMin n) (electionTimeoutMax n) (heartbeatInterval n)
    (state n) (currentTerm n) (votedFor n) (log n) (commitIndex n)
    (lastApplied n) (nextIndex n) (matchIndex n) (replicating n) v
    (leaderID n) (electionDeadline n) (nextHeartbeat n) (stopped n)
    (machine n) (clock n) (rng n) (spawned n) (hookCalls n).
Definition set_leaderID (v : string) n : RaftNode M :=
  MkNode (nodeID n) (peerAddrs n) (peerHTTP n) (peerIDs n) (basePeers n)
    (baseHTTP n) (joining n) (peerHook n) (transport n) (applySet n)
    (storage n) (snapshotterSet n) (snapshotThreshold n) (snapshot n)
    (electionTimeoutMin n) (electionTimeoutMax n) (heartbeatInterval n)
    (state n) (currentTerm n) (votedFor n) (log n) (commitIndex n)
    (lastApplied n) (nextIndex n) (matchIndex n) (replicating n)
    (votesReceived n) v (electionDeadline n) (nextHeartbeat n) (stopped n)
    (machine n) (clock n) (rng n) (spawned n) (hookCalls n).
Definition set_electionDeadline (v : Z) n : RaftNode M :=
  MkNode (nodeID n) (peerAddrs n) (peerHTTP n) (peerIDs n) (basePeers n)
    (baseHTTP n) (joining n) (peerHook n) (transport n) (applySet n)
    (storage n) (snapshotterSet n) (snapshotThreshold n) (snapshot n)
    (electionTimeoutMin n) (electionTimeoutMax n) (heartbeatInterval n)
    (state n) (currentTerm n) (votedFor n) (log n) (commitIndex n)
    (lastApplied n) (nextIndex n) (matchIndex n) (replicating n)
    (votesReceived n) (leaderID n) v (nextHeartbeat n) (stopped n)
    (machine n) (clock n) (rng n) (spawned n) (hookCalls n).
Definition set_nextHeartbeat (v : Z) n : RaftNode M :=
  MkNode (nodeID n) (peerAddrs n) (peerHTTP n) (peerIDs n) (basePeers n)
    (baseHTTP n) (joining n) (peerHook n) (transport n) (applySet n)
    (storage n) (snapshotterSet n) (snapshotThreshold n) (snapshot n)
    (electionTimeoutMin n) (electionTimeoutMax n) (heartbeatInterval n)
    (state n) (currentTerm n) (votedFor n) (log n) (commitIndex n)
    (lastApplied n) (nextIndex n) (matchIndex n) (replicating n)
    (votesReceived n) (leaderID n) (electionDeadline n) v (stopped n)
    (machine n) (clock n) (rng n) (spawned n) (hookCalls n).
Definition set_stopped (v : bool) n : RaftNode M :=
  MkNode (nodeID n) (peerAddrs n) (peerHTTP n) (peerIDs n) (basePeers n)
    (baseHTTP n) (joining n) (peerHook n) (transport n) (applySet n)
    (storage n) (snapshotterSet n) (snapshotThreshold n) (snapshot n)
    (electionTimeoutMin n) (electionTimeoutMax n) (heartbeatInterval n)
    (state n) (currentTerm n) (votedFor n) (log n) (commitIndex n)
    (lastApplied n) (nextIndex n) (matchIndex n) (replicating n)
    (votesReceived n) (leaderID n) (electionDeadline n) (nextHeartbeat n)
    v (machine n) (clock n) (rng n) (spawned n) (hookCalls n).
Definition set_machine (v : M) n : RaftNode M :=
  MkNode (nodeID n) (peerAddrs n) (peerHTTP n) (peerIDs n) (basePeers n)
    (baseHTTP n) (joining n) (peerHook n) (transport n) (applySet n)
    (storage n) (snapshotterSet n) (snapshotThreshold n) (snapshot n)
    (electionTimeoutMin n) (electionTimeoutMax n) (heartbeatInterval n)
    (state n) (currentTerm n) (votedFor n) (log n) (commitIndex n)
    (lastApplied n) (nextIndex n) (matchIndex n) (replicating n)
    (votesReceived n) (leaderID n) (electionDeadline n) (nextHeartbeat n)
    (stopped n) v (clock n) (rng n) (spawned n) (hookCalls n).
Definition set_clock (v : Z) n : RaftNode M :=
  MkNode (nodeID n) (peerAddrs n) (peerHTTP n) (peerIDs n) (basePeers n)
    (baseHTTP n) (joining n) (peerHook n) (transport n) (applySet n)
    (storage n) (snapshotterSet n) (snapshotThreshold n) (snapshot n)
    (electionTimeoutMin n) (electionTimeoutMax n) (heartbeatInterval n)
    (state n) (currentTerm n) (votedFor n) (log n) (commitIndex n)
    (lastApplied n) (nextIndex n) (matchIndex n) (replicating n)
    (votesReceived n) (leaderID n) (electionDeadline n) (nextHeartbeat n)
    (stopped n) (machine n) v (rng n) (spawned n) (hookCalls n).
Definition set_rng (v : list Z) n : RaftNode M :=
  MkNode (nodeID n) (peerAddrs n) (peerHTTP n) (peerIDs n) (basePeers n)
    (baseHTTP n) (joining n) (peerHook n) (transport n) (applySet n)
    (storage n) (snapshotterSet n) (snapshotThreshold n) (snapshot n)
    (electionTimeoutMin n) (electionTimeoutMax n) (heartbeatInterval n)
    (state n) (currentTerm n) (votedFor n) (log n) (commitIndex n)
    (lastApplied n) (nextIndex n) (matchIndex n) (replicating n)
    (votesReceived n) (leaderID n) (electionDeadline n) (nextHeartbeat n)
    (stopped n) (machine n) (clock n) v (spawned n) (hookCalls n).
Definition set_spawned (v : list Goroutine) n : RaftNode M :=
  MkNode (nodeID n) (peerAddrs n) (peerHTTP n) (peerIDs n) (basePeers n)
    (baseHTTP n) (joining n) (peerHook n) (transport n) (applySet n)
    (storage n) (snapshotterSet n) (snapshotThreshold n) (snapshot n)
    (electionTimeoutMin n) (electionTimeoutMax n) (heartbeatInterval n)
    (state n) (currentTerm n) (votedFor n) (log n) (commitIndex n)
    (lastApplied n) (nextIndex n) (matchIndex n) (replicating n)
    (votesReceived n) (leaderID n) (electionDeadline n) (nextHeartbeat n)
    (stopped n) (machine n) (clock n) (rng n) v (hookCalls n).
Definition set_hookCalls (v : list (gmap string string * gmap string string)) n : RaftNode M :=
  MkNode (nodeID n) (peerAddrs n) (peerHTTP n) (peerIDs n) (basePeers n)
    (baseHTTP n) (joining n) (peerHook n) (transport n) (applySet n)
    (storage n) (snapshotterSet n) (snapshotThreshold n) (snapshot n)
    (electionTimeoutMin n) (electionTimeoutMax n) (heartbeatInterval n)
    (state n) (currentTerm n) (votedFor n) (log n) (commitIndex n)
    (lastApplied n) (nextIndex n) (matchIndex n) (replicating n)
    (votesReceived n) (leaderID n) (electionDeadline n) (nextHeartbeat n)
    (stopped n) (machine n) (clock n) (rng n) (spawned n) v.
End setters.

(** ** Log accessors (raft/log.go) *)

Section accessors.
Context {M : Type}.
Implicit Types n : RaftNode M.

(** [n.log[0]] and [n.log[len(n.log)-1]].  Go panics on an empty slice; the log
    is never empty ([NodeInv.wf_log]), and the zero entry stands for the panic. *)
Definition firstEntry n : LogEntry := default zeroEntry (head (log n)).
Definition lastEntry n : LogEntry := default zeroEntry (last (log n)).

Definition lastLogIndexLocked n : Z := e_Index (lastEntry n).
Definition lastLogTermLocked n : Z := e_Term (lastEntry n).
Definition lastIncludedIndexLocked n : Z := e_Index (firstEntry n).
Definition lastIncludedTermLocked n : Z := e_Term (firstEntry n).

Definition sliceIndexLocked n (raftIndex : Z) : Z :=
  raftIndex - e_Index (firstEntry n).

Definition entryAtLocked n (raftIndex : Z) : option LogEntry :=
  let si := sliceIndexLocked n raftIndex in
  if decide (si < 0 ∨ slen (log n) ≤ si) then None else log n !z si.

Definition termAtLocked n (raftIndex : Z) : option Z :=
  match entryAtLocked n raftIndex with
  | None => None
  | Some e => Some (e_Term e)
  end.

Definition majority n : Z := slen (peerIDs n) / 2 + 1.

Definition isVoterLocked n : bool := bool_decide (is_Some (peerAddrs n !! nodeID n)).

(** [n.log = append(n.log, e)]. *)
Definition appendLog (e : LogEntry) n : RaftNode M := set_log (log n ++ [e]) n.
End accessors.

(** [n.nextIndex[p] = v] and the like. *)
Section map_updates.
Context {M : Type}.
Implicit Types n : RaftNode M.

Definition put_nextIndex (p : string) (v : Z) n := set_nextIndex (<[p := v]> (nextIndex n)) n.
Definition put_matchIndex (p : string) (v : Z) n := set_matchIndex (<[p := v]> (matchIndex n)) n.
Definition put_replicating (p : string) (v : bool) n :=
  set_replicating (<[p := v]> (replicating n)) n.
Definition put_votesReceived (p : string) (v : bool) n :=
  set_votesReceived (<[p := v]> (votesReceived n)) n.

(** [go f()]: the goroutine is started, to run after the mutex is released. *)
Definition go (g : Goroutine) n := set_spawned (spawned n ++ [g]) n.
End map_updates.
