(* ===== verification/Persist.v ===== *)
(** raft/persist.go as a node uses it: [Save] and [Load] of its [Storage], and
    [persistLocked]; with the timer reset of raft/election.go and
    [becomeFollowerLocked] of raft/node.go, which every handler shares. *)
From S2P Require Import Prelude Types Node.
Open Scope Z_scope.
Open Scope go_scope.

(** [Storage.Save]: an error leaves what was stored. *)
Definition Save (st : DurableState) (s : Storage) : Storage :=
  match st_SaveErrs s with
  | true :: errs => MkStorage (st_Disk s) (st_LoadErr s) errs
  | false :: errs => MkStorage st (st_LoadErr s) errs
  | [] => MkStorage st (st_LoadErr s) []
  end.

(** [Storage.Load]. *)
Definition Load (s : Storage) : option DurableState :=
  if st_LoadErr s then None else Some (st_Disk s).

Section persist.
Context {M : Type}.
Implicit Types n : RaftNode M.

(** The [DurableState] literal of [persistLocked]. *)
Definition durableOf n : DurableState :=
  MkDurable (currentTerm n) (votedFor n) (log n) (snapshot n) (basePeers n)
    (baseHTTP n).

Definition persistLocked n : RaftNode M :=
  match storage n with
  | None => n
  | Some s => set_storage (Some (Save (durableOf n) s)) n
  end.

(** [n.rng.Int63n(span)]: the next value of the source, below [span]. *)
Definition int63n (span : Z) (src : list Z) : Z * list Z :=
  match src with
  | [] => (0, [])
  | r :: src' => (r mod span, src')
  end.

(** Durations are 64-bit integers. *)
Definition resetElectionTimerLocked n : RaftNode M :=
  let span := int64 (electionTimeoutMax n - electionTimeoutMin n) in
  let '(jitter, src) :=
    if decide (span > 0) then int63n span (rng n) else (0, rng n) in
  set_electionDeadline (clock n + int64 (electionTimeoutMin n + jitter)) (set_rng src n).

Definition becomeFollowerLocked (term : Z) (leader : string) n : RaftNode M :=
  let n :=
    if decide (term > currentTerm n)
    then persistLocked (set_votedFor "" (set_currentTerm term n))
    else n in
  set_leaderID leader (set_state Follower n).

(** What HandleAppendEntries and HandleInstallSnapshot do first when the term of
    the request is not old: follow its leader. *)
Definition acceptLeader (term : Z) (leader : string) n : RaftNode M :=
  let n := if decide (term > currentTerm n ∨ state n ≠ Follower)
           then becomeFollowerLocked term leader n else n in
  set_joining false (resetElectionTimerLocked (set_leaderID leader n)).

(** ** Shapes: which fields an operation can change *)

Lemma persistLocked_shape n : ∃ s, persistLocked n = set_storage s n.
Proof.
  unfold persistLocked. destruct (storage n) eqn:E; [by eauto|].
  exists None. rewrite <- E. by destruct n.
Qed.

Lemma resetElectionTimerLocked_shape n :
  ∃ d r, resetElectionTimerLocked n = set_electionDeadline d (set_rng r n).
Proof.
  unfold resetElectionTimerLocked. case_decide; [destruct (int63n _ _)|]; eauto.
Qed.

(** The election deadline lies between the two configured timeouts. *)
Lemma resetElectionTimerLocked_bounds n :
  0 ≤ electionTimeoutMin n < electionTimeoutMax n → in64 (electionTimeoutMax n) →
  let d := electionDeadline (resetElectionTimerLocked n) in
  clock n + electionTimeoutMin n ≤ d < clock n + electionTimeoutMax n.
Proof.
  intros Hlt [_ Hmax]. unfold resetElectionTimerLocked, int63n.
  rewrite (int64_id (_ - _)) by (unfold in64; lia). rewrite decide_True by lia.
  destruct (rng n) as [|r ?]; cbn -[int64 Z.pow]; [rewrite int64_id; unfold in64; lia|].
  pose proof (Z.mod_pos_bound r (electionTimeoutMax n - electionTimeoutMin n)).
  rewrite int64_id; unfold in64; lia.
Qed.

(** A node whose [Save] succeeds has its term, vote and log on disk. *)
Lemma persistLocked_disk n s :
  storage n = Some s → st_SaveErrs s = [] →
  storage (persistLocked n) = Some (MkStorage (durableOf n) (st_LoadErr s) []).
Proof.
  intros Hs He. unfold persistLocked, Save. by rewrite Hs, He.
Qed.
End persist.
