(* ===== verification/DurableJson.v ===== *)
(** The JSON form of a [DurableState] (raft/persist.go) with its log entries
    (raft/node.go) and membership changes (raft/membership.go): the field tags of
    the structs, [omitempty] included, and reading them back. *)
From S2P Require Import Prelude Types Utf8 Json JsonSpec Marshal.
Open Scope Z_scope.
Open Scope go_scope.

(** ** Structs as tables of fields *)

(** Reading the members of an object into a struct: a member is read by the
    first field whose name matches, and other members are ignored. *)
Definition readMember {T} (fields : list (string * (T → json → option T)))
    (acc : option T) (kv : text * json) : option T :=
  match acc with
  | None => None
  | Some x =>
      match find (λ f, fieldIs (f.1) (kv.1)) fields with
      | Some f => f.2 x (kv.2)
      | None => Some x
      end
  end.

Definition readStruct {T} (fields : list (string * (T → json → option T))) (old : T) (j : json) :
    option T :=
  match j with
  | JObj l => foldl (readMember fields) (Some old) l
  | JNull => Some old
  | _ => None
  end.

(** A member that [omitempty] leaves out when the value is empty. *)
Definition omitempty (empty : bool) (name : string) (j : json) : list (text * json) :=
  if empty then [] else [jfield name j].

Definition emptyMap (m : gmap string string) : bool := bool_decide (size m = 0%nat).

(** ** Membership changes *)

Definition jchange (ch : MembershipChange) : json :=
  JObj (jfield "type" (jstring (ch_Type ch)) :: jfield "id" (jstring (ch_ID ch)) ::
    omitempty (bool_decide (ch_Addr ch = ""%string)) "addr" (jstring (ch_Addr ch)) ++
    omitempty (bool_decide (ch_HTTP ch = ""%string)) "http" (jstring (ch_HTTP ch)) ++
    omitempty (emptyMap (ch_Peers ch)) "peers" (jmap (ch_Peers ch)) ++
    omitempty (emptyMap (ch_HTTPAddrs ch)) "http_addrs" (jmap (ch_HTTPAddrs ch))).

Definition changeFields : list (string * (MembershipChange → json → option MembershipChange)) := [
  ("type", λ c j, (λ x, MkChange x (ch_ID c) (ch_Addr c) (ch_HTTP c) (ch_Peers c) (ch_HTTPAddrs c))
    <$> getString (ch_Type c) j);
  ("id", λ c j, (λ x, MkChange (ch_Type c) x (ch_Addr c) (ch_HTTP c) (ch_Peers c) (ch_HTTPAddrs c))
    <$> getString (ch_ID c) j);
  ("addr", λ c j, (λ x, MkChange (ch_Type c) (ch_ID c) x (ch_HTTP c) (ch_Peers c) (ch_HTTPAddrs c))
    <$> getString (ch_Addr c) j);
  ("http", λ c j, (λ x, MkChange (ch_Type c) (ch_ID c) (ch_Addr c) x (ch_Peers c) (ch_HTTPAddrs c))
    <$> getString (ch_HTTP c) j);
  ("peers", λ c j, (λ x, MkChange (ch_Type c) (ch_ID c) (ch_Addr c) (ch_HTTP c) x (ch_HTTPAddrs c))
    <$> getMap (ch_Peers c) j);
  ("http_addrs", λ c j, (λ x, MkChange (ch_Type c) (ch_ID c) (ch_Addr c) (ch_HTTP c) (ch_Peers c) x)
    <$> getMap (ch_HTTPAddrs c) j)]%string.

Definition zeroChange : MembershipChange := MkChange "" "" "" "" ∅ ∅.

(** Into a pointer: [null] makes it nil, an object is read into what it points
    to, or into a new struct. *)
Definition getChange (old : option MembershipChange) (j : json) : option (option MembershipChange) :=
  match j with
  | JNull => Some None
  | _ => Some <$> readStruct changeFields (default zeroChange old) j
  end.

(** ** Log entries *)

Definition jentry (e : LogEntry) : json :=
  JObj (jfield "Term" (jint (e_Term e)) :: jfield "Index" (jint (e_Index e)) ::
    omitempty (bool_decide (e_Command e = [])) "Command" (jbytes (e_Command e)) ++
    match e_Change e with
    | None => []
    | Some ch => [jfield "Change" (jchange ch)]
    end).

Definition entryFields : list (string * (LogEntry → json → option LogEntry)) := [
  ("Term", λ e j, (λ x, MkEntry x (e_Index e) (e_Command e) (e_Change e)) <$> getInt (e_Term e) j);
  ("Index", λ e j, (λ x, MkEntry (e_Term e) x (e_Command e) (e_Change e)) <$> getInt (e_Index e) j);
  ("Command", λ e j, (λ x, MkEntry (e_Term e) (e_Index e) x (e_Change e)) <$> getBytes j);
  ("Change", λ e j, (λ x, MkEntry (e_Term e) (e_Index e) (e_Command e) x)
    <$> getChange (e_Change e) j)]%string.

(** ** The durable state *)

(** A log is a slice: an empty one is nil, as the program has it. *)
Definition jlog (l : list LogEntry) : json :=
  match l with [] => JNull | _ => JArr (map jentry l) end.

Definition getLog (j : json) : option (list LogEntry) :=
  match j with
  | JNull => Some []
  | JArr l => mapM (readStruct entryFields zeroEntry) l
  | _ => None
  end.

Definition jdurable (st : DurableState) : json :=
  JObj (jfield "current_term" (jint (ds_CurrentTerm st)) ::
    jfield "voted_for" (jstring (ds_VotedFor st)) :: jfield "log" (jlog (ds_Log st)) ::
    omitempty (bool_decide (ds_Snapshot st = [])) "snapshot" (jbytes (ds_Snapshot st)) ++
    omitempty (emptyMap (ds_SnapshotPeers st)) "snapshot_peers" (jmap (ds_SnapshotPeers st)) ++
    omitempty (emptyMap (ds_SnapshotHTTP st)) "snapshot_http" (jmap (ds_SnapshotHTTP st))).

Definition durableFields : list (string * (DurableState → json → option DurableState)) := [
  ("current_term", λ d j, (λ x, MkDurable x (ds_VotedFor d) (ds_Log d) (ds_Snapshot d)
    (ds_SnapshotPeers d) (ds_SnapshotHTTP d)) <$> getInt (ds_CurrentTerm d) j);
  ("voted_for", λ d j, (λ x, MkDurable (ds_CurrentTerm d) x (ds_Log d) (ds_Snapshot d)
    (ds_SnapshotPeers d) (ds_SnapshotHTTP d)) <$> getString (ds_VotedFor d) j);
  ("log", λ d j, (λ x, MkDurable (ds_CurrentTerm d) (ds_VotedFor d) x (ds_Snapshot d)
    (ds_SnapshotPeers d) (ds_SnapshotHTTP d)) <$> getLog j);
  ("snapshot", λ d j, (λ x, MkDurable (ds_CurrentTerm d) (ds_VotedFor d) (ds_Log d) x
    (ds_SnapshotPeers d) (ds_SnapshotHTTP d)) <$> getBytes j);
  ("snapshot_peers", λ d j, (λ x, MkDurable (ds_CurrentTerm d) (ds_VotedFor d) (ds_Log d)
    (ds_Snapshot d) x (ds_SnapshotHTTP d)) <$> getMap (ds_SnapshotPeers d) j);
  ("snapshot_http", λ d j, (λ x, MkDurable (ds_CurrentTerm d) (ds_VotedFor d) (ds_Log d)
    (ds_Snapshot d) (ds_SnapshotPeers d) x) <$> getMap (ds_SnapshotHTTP d) j)]%string.

Definition getDurable (j : json) : option DurableState := readStruct durableFields zeroDurable j.

(** ** What JSON can carry *)

Definition valid_change (ch : MembershipChange) : Prop :=
  valid_string (ch_Type ch) ∧ valid_string (ch_ID ch) ∧ valid_string (ch_Addr ch) ∧
  valid_string (ch_HTTP ch) ∧ valid_map (ch_Peers ch) ∧ valid_map (ch_HTTPAddrs ch).

Definition valid_entry (e : LogEntry) : Prop :=
  in64 (e_Term e) ∧ in64 (e_Index e) ∧ (∀ ch, e_Change e = Some ch → valid_change ch).

Definition valid_durable (st : DurableState) : Prop :=
  in64 (ds_CurrentTerm st) ∧ valid_string (ds_VotedFor st) ∧ Forall valid_entry (ds_Log st) ∧
  valid_map (ds_SnapshotPeers st) ∧ valid_map (ds_SnapshotHTTP st).

(** ** Reading back *)

Section read.
Context {T : Type} (fields : list (string * (T → json → option T))).

(** What the members of an object, read back from its text, make of a struct. *)
Definition readBack (x : T) (l : list (text * json)) : option T :=
  foldl (readMember fields) (Some x) (map (λ '(k, v), (clean k, jclean v)) l).

Lemma readStruct_back x l : readStruct fields x (jclean (JObj l)) = readBack x l.
Proof. done. Qed.

Lemma readBack_cons x name j f y l z :
  find (λ f, fieldIs (f.1) (clean (text_of_string name))) fields = Some f →
  f.2 x (jclean j) = Some y → readBack y l = Some z → readBack x (jfield name j :: l) = Some z.
Proof. intros Hf Hy Hz. unfold readBack. cbn [map foldl readMember jfield fst snd]. by rewrite Hf, Hy. Qed.

(** A field that was left out keeps its zero value, which is the empty one. *)
Lemma readBack_omit x (b : bool) name j f y l z :
  find (λ f, fieldIs (f.1) (clean (text_of_string name))) fields = Some f →
  (b = true → x = y) → f.2 x (jclean j) = Some y → readBack y l = Some z →
  readBack x (omitempty b name j ++ l) = Some z.
Proof.
  intros Hf Hb Hy Hz. destruct b; cbn [omitempty app]; [by rewrite Hb|by eapply readBack_cons].
Qed.

Lemma readBack_nil x : readBack x [] = Some x.
Proof. done. Qed.
End read.

Lemma getString_clean old s : valid_string s → getString old (jclean (jstring s)) = Some s.
Proof. intros Hs. by rewrite getString_jstring, clean_string_id. Qed.

Lemma emptyMap_true m : emptyMap m = true → m = ∅.
Proof. intros H%bool_decide_eq_true. by apply map_size_empty_iff. Qed.

(** Read the next field with the lemma [H] about its value. *)
Ltac read_cons H :=
  eapply readBack_cons; [reflexivity|cbn [snd]; rewrite H by done; reflexivity|].
Ltac read_omit H E :=
  eapply readBack_omit; [reflexivity| |cbn [snd]; rewrite H by done; reflexivity|];
  [cbn; intros Hempty; apply E in Hempty; by subst|].

Lemma empty_string_true s : bool_decide (s = ""%string) = true → s = ""%string.
Proof. by intros ?%bool_decide_eq_true. Qed.

Lemma empty_bytes_true (b : bytes) : bool_decide (b = []) = true → b = [].
Proof. by intros ?%bool_decide_eq_true. Qed.

Lemma getChange_jchange ch :
  valid_change ch → getChange None (jclean (jchange ch)) = Some (Some ch).
Proof.
  destruct ch as [ty id ad ht ps hs]. intros (H1&H2&H3&H4&H5&H6).
  cbn [ch_Type ch_ID ch_Addr ch_HTTP ch_Peers ch_HTTPAddrs] in *.
  change (Some <$> readBack changeFields zeroChange
    (jfield "type" (jstring ty) :: jfield "id" (jstring id) ::
     omitempty (bool_decide (ad = ""%string)) "addr" (jstring ad) ++
     omitempty (bool_decide (ht = ""%string)) "http" (jstring ht) ++
     omitempty (emptyMap ps) "peers" (jmap ps) ++
     omitempty (emptyMap hs) "http_addrs" (jmap hs)) = Some (Some (MkChange ty id ad ht ps hs))).
  rewrite <- (app_nil_r (omitempty (emptyMap hs) _ _)).
  assert (∀ x y : option MembershipChange, x = y → Some <$> x = Some <$> y) as Hs by congruence.
  apply (Hs _ (Some _)).
  read_cons getString_clean. read_cons getString_clean.
  read_omit getString_clean empty_string_true. read_omit getString_clean empty_string_true.
  read_omit getMap_jmap emptyMap_true. read_omit getMap_jmap emptyMap_true. apply readBack_nil.
Qed.

Lemma readEntry_jentry e :
  valid_entry e → readStruct entryFields zeroEntry (jclean (jentry e)) = Some e.
Proof.
  destruct e as [t i c ch]. intros (H1&H2&H3). cbn [e_Term e_Index e_Change] in *.
  unfold in64 in *. unfold jentry. cbn [e_Term e_Index e_Command e_Change].
  rewrite readStruct_back. read_cons getInt_jint. read_cons getInt_jint.
  read_omit getBytes_jbytes empty_bytes_true. cbn [e_Term e_Index e_Command e_Change zeroEntry].
  destruct ch as [ch|]; [|done]. specialize (H3 ch eq_refl).
  read_cons getChange_jchange. done.
Qed.

Lemma getLog_jlog l : Forall valid_entry l → getLog (jclean (jlog l)) = Some l.
Proof.
  intros Hl. destruct l as [|e l]; [done|]. cbn [jlog jclean getLog]. rewrite map_map.
  apply mapM_Some, Forall2_fmap_l, Forall_Forall2_diag.
  eapply Forall_impl; [exact Hl|]. intros x Hx. by apply readEntry_jentry.
Qed.

Lemma getDurable_jdurable st : valid_durable st → getDurable (jclean (jdurable st)) = Some st.
Proof.
  destruct st as [t v l sn ps hs]. intros (H1&H2&H3&H4&H5). unfold in64 in H1.
  cbn [ds_CurrentTerm ds_VotedFor ds_Log ds_Snapshot ds_SnapshotPeers ds_SnapshotHTTP] in *.
  unfold getDurable, jdurable.
  cbn [ds_CurrentTerm ds_VotedFor ds_Log ds_Snapshot ds_SnapshotPeers ds_SnapshotHTTP].
  rewrite readStruct_back. rewrite <- (app_nil_r (omitempty (emptyMap hs) _ _)).
  read_cons getInt_jint. read_cons getString_clean. read_cons getLog_jlog.
  read_omit getBytes_jbytes empty_bytes_true.
  read_omit getMap_jmap emptyMap_true. read_omit getMap_jmap emptyMap_true. apply readBack_nil.
Qed.

(** ** The text is one that the parser reads *)

(** A value that prints and nests at most [d] deep. *)
Definition fits (d : Z) (j : json) : Prop := printable j = true ∧ jdepth j ≤ d.

Lemma fits_field d name j : fits d j → textb (text_of_string name) = true ∧ fits d j.
Proof. split; [apply textb_of_is_text, text_of_string_is_text|done]. Qed.

Lemma fits_object d l :
  0 ≤ d → Forall (λ kv, textb (kv.1) = true ∧ fits d (kv.2)) l → fits (1 + d) (JObj l).
Proof.
  intros Hd Hl. split.
  - cbn [printable]. apply forallb_forall. intros [k v] Hin%list_elem_of_In.
    eapply Forall_forall in Hl as (Hk&Hv&_); [|exact Hin]. cbn [fst snd] in *. by rewrite Hk, Hv.
  - apply jdepth_members; [done|]. eapply Forall_impl; [exact Hl|]. by intros [k v] (_&_&?).
Qed.

Lemma fits_array d l : 0 ≤ d → Forall (fits d) l → fits (1 + d) (JArr l).
Proof.
  intros Hd Hl. split; cbn [printable jdepth].
  - apply forallb_forall. intros v Hin%list_elem_of_In.
    by eapply Forall_forall in Hl as [? _]; [|exact Hin].
  - induction Hl as [|v l [_ Hv] _ IH]; cbn [foldr]; lia.
Qed.

Lemma fits_omit d (b : bool) name j l :
  fits d j → Forall (λ kv, textb (kv.1) = true ∧ fits d (kv.2)) l →
  Forall (λ kv, textb (kv.1) = true ∧ fits d (kv.2)) (omitempty b name j ++ l).
Proof. intros Hj Hl. destruct b; cbn; [done|]. constructor; [by apply fits_field|done]. Qed.

Lemma fits_cons d name j l :
  fits d j → Forall (λ kv, textb (kv.1) = true ∧ fits d (kv.2)) l →
  Forall (λ kv, textb (kv.1) = true ∧ fits d (kv.2)) (jfield name j :: l).
Proof. intros Hj Hl. constructor; [by apply fits_field|done]. Qed.

Lemma fits_string d s : 0 ≤ d → fits d (jstring s).
Proof. intros. split; [apply printable_jstring|done]. Qed.

Lemma fits_bytes d b : 0 ≤ d → fits d (jbytes b).
Proof. intros. split; [apply printable_jbytes|done]. Qed.

Lemma fits_int d z : 0 ≤ d → in64 z → fits d (jint z).
Proof. intros. split; [by apply printable_jint|done]. Qed.

Lemma fits_map d m : 1 ≤ d → fits d (jmap m).
Proof. intros. split; [apply printable_jmap|]. pose proof (jdepth_jmap m). lia. Qed.

Lemma fits_change ch : fits 2 (jchange ch).
Proof.
  apply (fits_object 1); [lia|]. rewrite <- (app_nil_r (omitempty (emptyMap (ch_HTTPAddrs ch)) _ _)).
  do 2 (apply fits_cons; [by apply fits_string|]).
  repeat apply fits_omit; try by apply fits_string. all: try by apply fits_map. constructor.
Qed.

Lemma fits_entry e : valid_entry e → fits 3 (jentry e).
Proof.
  intros (?&?&_). apply (fits_object 2); [lia|]. apply fits_cons; [by apply fits_int|].
  apply fits_cons; [by apply fits_int|]. apply fits_omit; [by apply fits_bytes|].
  destruct (e_Change e) as [ch|]; [|constructor]. apply fits_cons; [apply fits_change|constructor].
Qed.

Lemma fits_durable st : valid_durable st → fits 5 (jdurable st).
Proof.
  intros (?&?&Hl&?&?). apply (fits_object 4); [lia|].
  rewrite <- (app_nil_r (omitempty (emptyMap (ds_SnapshotHTTP st)) _ _)).
  apply fits_cons; [by apply fits_int|]. apply fits_cons; [by apply fits_string|].
  apply fits_cons; [|repeat apply fits_omit; [by apply fits_bytes|by apply fits_map|by apply fits_map|constructor]].
  unfold jlog. destruct (ds_Log st); [done|]. apply (fits_array 3); [lia|].
  apply Forall_fmap. eapply Forall_impl; [exact Hl|]. apply fits_entry.
Qed.
