(* ===== verification/Membership.v ===== *)
(** raft/membership.go: the configuration a node derives from its base
    membership and the change entries of its log.  Maps are values here, so
    [cloneStringMap] is the identity and needs no definition. *)
From S2P Require Import Prelude Types Node Persist.
Open Scope Z_scope.
Open Scope go_scope.

(** [applyChange], which updates both maps in place. *)
Definition applyChange (peers httpAddrs : gmap string string)
    (ch : MembershipChange) : gmap string string * gmap string string :=
  if decide (0 < size (ch_Peers ch))%nat then (ch_Peers ch, ch_HTTPAddrs ch)
  else if decide (ch_Type ch = ChangeAdd) then
    (<[ch_ID ch := ch_Addr ch]> peers,
     if decide (ch_HTTP ch = ""%string) then httpAddrs
     else <[ch_ID ch := ch_HTTP ch]> httpAddrs)
  else if decide (ch_Type ch = ChangeRemove) then
    (delete (ch_ID ch) peers, delete (ch_ID ch) httpAddrs)
  else (peers, httpAddrs).

(** One round of the loops over [n.log[1:]]. *)
Definition applyEntry (m : gmap string string * gmap string string)
    (e : LogEntry) : gmap string string * gmap string string :=
  match e_Change e with
  | None => m
  | Some ch => applyChange (m.1) (m.2) ch
  end.

Definition applyEntries (m : gmap string string * gmap string string)
    (es : list LogEntry) : gmap string string * gmap string string :=
  foldl applyEntry m es.

Arguments applyEntries : simpl never.

(** The entries a loop that breaks at the first [e.Index > index] visits. *)
Fixpoint entriesUpTo (index : Z) (es : list LogEntry) : list LogEntry :=
  match es with
  | [] => []
  | e :: es' => if decide (e_Index e > index) then [] else e :: entriesUpTo index es'
  end.

(** [GRPCTransport.SetPeerAddr] and [FilterTransport.SetPeerAddr]. *)
Fixpoint SetPeerAddr (pid addr : string) (t : Transport) : Transport :=
  match t with
  | MemoryTransport => MemoryTransport
  | GRPCTransport addrs conns =>
      if decide (mapS addrs pid = addr) then GRPCTransport addrs conns
      else GRPCTransport (<[pid := addr]> addrs) (conns ∖ {[pid]})
  | FilterTransport from inner => FilterTransport from (SetPeerAddr pid addr inner)
  end.

(** [NewGRPCTransport], and [Close] of the transports that have it. *)
Definition NewGRPCTransport (addrs : gmap string string) : Transport := GRPCTransport addrs ∅.

Fixpoint Close (t : Transport) : Transport :=
  match t with
  | MemoryTransport => MemoryTransport
  | GRPCTransport addrs conns => GRPCTransport addrs ∅
  | FilterTransport from inner => FilterTransport from (Close inner)
  end.

Section membership.
Context {M : Type}.
Implicit Types n : RaftNode M.

Definition rebuildPeerIDsLocked n : RaftNode M :=
  set_peerIDs (sorted_keys (peerAddrs n)) n.

Definition rebuildMembershipLocked n : RaftNode M :=
  let '(peers, httpAddrs) :=
    applyEntries (basePeers n, baseHTTP n) (tail (log n)) in
  rebuildPeerIDsLocked (set_peerHTTP httpAddrs (set_peerAddrs peers n)).

Definition membershipAtLocked (index : Z) n :
    gmap string string * gmap string string :=
  applyEntries (basePeers n, baseHTTP n) (entriesUpTo index (tail (log n))).

(** The loop of [hasUncommittedConfigLocked] from [idx] on; [fuel] is the number
    of indexes up to [last]. *)
Fixpoint uncommittedConfigFrom (fuel : nat) (idx : Z) n : bool :=
  match fuel with
  | O => false
  | S fuel' =>
      match entryAtLocked n idx with
      | Some (MkEntry _ _ _ (Some _)) => true
      | _ => uncommittedConfigFrom fuel' (idx + 1) n
      end
  end.

Definition hasUncommittedConfigLocked n : bool :=
  uncommittedConfigFrom (Z.to_nat (lastLogIndexLocked n - commitIndex n))
    (commitIndex n + 1) n.

(** One round of [ensurePeerTrackingLocked]. *)
Definition ensurePeer (last snap : Z) n (p : string) : RaftNode M :=
  match nextIndex n !! p with
  | Some _ => n
  | None =>
      let next := if decide (snap > 0) then snap
                  else if decide (last + 1 < 1) then 1 else last + 1 in
      put_matchIndex p 0 (put_nextIndex p next n)
  end.

Definition ensurePeerTrackingLocked n : RaftNode M :=
  foldl (ensurePeer (lastLogIndexLocked n) (lastIncludedIndexLocked n)) n (peerIDs n).

Definition notifyPeersLocked n : RaftNode M :=
  let n :=
    match transport n with
    | None => n
    | Some t => set_transport (Some (map_fold SetPeerAddr t (peerAddrs n))) n
    end in
  if peerHook n
  then set_hookCalls (hookCalls n ++ [(peerAddrs n, peerHTTP n)]) n
  else n.

(** ** Lemmas *)

Lemma applyEntries_app m es1 es2 :
  applyEntries m (es1 ++ es2) = applyEntries (applyEntries m es1) es2.
Proof. apply foldl_app. Qed.

Lemma applyEntries_no_change m es :
  Forall (λ e, e_Change e = None) es → applyEntries m es = m.
Proof.
  unfold applyEntries. revert m. induction es as [|e es IH]; intros m He; [done|].
  apply Forall_cons in He as [He Hes]. cbn [foldl]. unfold applyEntry at 2.
  rewrite He. by apply IH.
Qed.

Lemma entriesUpTo_split index es1 es2 :
  Forall (λ e, e_Index e ≤ index) es1 →
  (∀ e, head es2 = Some e → index < e_Index e) →
  entriesUpTo index (es1 ++ es2) = es1.
Proof.
  intros H1 H2. induction es1 as [|e es1 IH]; simpl.
  - destruct es2 as [|e es2]; [done|]. simpl.
    rewrite decide_True; [done|]. specialize (H2 e eq_refl). lia.
  - apply Forall_cons in H1 as [? ?]. rewrite decide_False by lia. by rewrite IH.
Qed.

Lemma rebuildMembershipLocked_eq n :
  rebuildMembershipLocked n =
  let m := applyEntries (basePeers n, baseHTTP n) (tail (log n)) in
  set_peerIDs (sorted_keys m.1) (set_peerHTTP (m.2) (set_peerAddrs (m.1) n)).
Proof.
  unfold rebuildMembershipLocked, rebuildPeerIDsLocked.
  by destruct (applyEntries _ _).
Qed.

Lemma notifyPeersLocked_shape n :
  ∃ t h, notifyPeersLocked n = set_hookCalls h (set_transport t n).
Proof.
  unfold notifyPeersLocked. destruct (transport n) as [t|] eqn:Et; cbn;
    destruct (peerHook n).
  - by eexists _, _.
  - exists (Some (map_fold SetPeerAddr t (peerAddrs n))), (hookCalls n).
    by destruct n.
  - exists None, (hookCalls n ++ [(peerAddrs n, peerHTTP n)]). destruct n; cbn in *.
    by subst.
  - exists None, (hookCalls n). destruct n; cbn in *. by subst.
Qed.

Lemma ensurePeerTrackingLocked_shape n :
  ∃ x m, ensurePeerTrackingLocked n = set_matchIndex m (set_nextIndex x n).
Proof.
  unfold ensurePeerTrackingLocked.
  generalize (lastLogIndexLocked n), (lastIncludedIndexLocked n). intros last snap.
  generalize (peerIDs n). intros ps.
  enough (∀ x m, ∃ x' m',
    foldl (ensurePeer last snap) (set_matchIndex m (set_nextIndex x n)) ps =
      set_matchIndex m' (set_nextIndex x' n)) as H.
  { destruct (H (nextIndex n) (matchIndex n)) as (x&m&E). exists x, m.
    rewrite <- E. f_equal. by destruct n. }
  induction ps as [|p ps IH]; intros x m; simpl; [by eauto|].
  assert (∃ x1 m1, ensurePeer last snap (set_matchIndex m (set_nextIndex x n)) p =
    set_matchIndex m1 (set_nextIndex x1 n)) as (x1&m1&->); [|apply IH].
  unfold ensurePeer. cbn. destruct (x !! p); by eauto.
Qed.
End membership.
