(* ===== verification/Snapshot.v ===== *)
(** raft/snapshot.go: compaction of the log into a snapshot of the state
    machine, and the InstallSnapshot RPC.  [cloneEntries] copies, so it is the
    identity on values. *)
From S2P Require Import Prelude Types Node Persist Membership.
Open Scope Z_scope.
Open Scope go_scope.

Section snapshot.
Context {M : Type} `{!StateMachine M}.
Implicit Types n : RaftNode M.

Definition installSnapshotRequestLocked n : InstallSnapshotRequest :=
  MkInstallReq (currentTerm n) (nodeID n) (lastIncludedIndexLocked n)
    (lastIncludedTermLocked n) (snapshot n) (basePeers n) (baseHTTP n).

Definition compactLocked (index : Z) n : RaftNode M :=
  if decide (index ≤ lastIncludedIndexLocked n) then n
  else match entryAtLocked n index with
  | None => n
  | Some e =>
      match sm_snapshot (machine n) with
      | None => n
      | Some data =>
          let si := sliceIndexLocked n index in
          if decide (si < 0 ∨ slen (log n) ≤ si) then n
          else
            let '(peers, httpAddrs) := membershipAtLocked index n in
            let suffix := drop (Z.to_nat (si + 1)) (log n) in
            let n := set_log (dummyEntry (e_Term e) index :: suffix) n in
            let n := set_snapshot data n in
            let n := set_baseHTTP httpAddrs (set_basePeers peers n) in
            let n := rebuildMembershipLocked n in
            let n := notifyPeersLocked n in
            persistLocked n
      end
  end.

Definition maybeCompactLocked n : RaftNode M :=
  if negb (snapshotterSet n) || bool_decide (snapshotThreshold n ≤ 0) then n
  else
    let applied := lastApplied n - lastIncludedIndexLocked n in
    if decide (applied < snapshotThreshold n) then n
    else compactLocked (lastApplied n) n.

(** [n.snapshotter.Restore(b)]; an error is logged. *)
Definition restoreMachine (b : bytes) n : RaftNode M :=
  match sm_restore b (machine n) with
  | None => n
  | Some s => set_machine s n
  end.

(** The configuration a snapshot carries, when it carries one. *)
Definition adoptMembers (req : InstallSnapshotRequest) n : RaftNode M :=
  if decide (0 < size (is_Peers req))%nat
  then notifyPeersLocked (rebuildMembershipLocked
         (set_baseHTTP (is_HTTP req) (set_basePeers (is_Peers req) n)))
  else n.

(** The part of HandleInstallSnapshot that replaces log, snapshot and machine. *)
Definition adoptSnapshot (req : InstallSnapshotRequest) n : RaftNode M :=
  let n := set_log [dummyEntry (is_LastIncludedTerm req) (is_LastIncludedIndex req)] n in
  let n := set_snapshot (is_Data req) n in
  let n := adoptMembers req n in
  let n := if snapshotterSet n && bool_decide (snapshot n ≠ [])
           then restoreMachine (snapshot n) n else n in
  let n := set_lastApplied (is_LastIncludedIndex req) n in
  let n := if decide (commitIndex n < is_LastIncludedIndex req)
           then set_commitIndex (is_LastIncludedIndex req) n else n in
  persistLocked n.

Definition HandleInstallSnapshot (req : InstallSnapshotRequest) n :
    RaftNode M * InstallSnapshotResponse :=
  if decide (is_Term req < currentTerm n) then (n, MkInstallResp (currentTerm n))
  else
    let n := acceptLeader (is_Term req) (is_LeaderID req) n in
    let resp := MkInstallResp (currentTerm n) in
    if decide (is_LastIncludedIndex req ≤ lastIncludedIndexLocked n) then (n, resp)
    else (adoptSnapshot req n, resp).

Definition restoreSnapshotLocked n : RaftNode M :=
  if negb (snapshotterSet n) || bool_decide (snapshot n = []) then n
  else match sm_restore (snapshot n) (machine n) with
  | None => n
  | Some s =>
      let n := set_machine s n in
      let snapIdx := lastIncludedIndexLocked n in
      let n := if decide (lastApplied n < snapIdx) then set_lastApplied snapIdx n else n in
      if decide (commitIndex n < snapIdx) then set_commitIndex snapIdx n else n
  end.

Definition SetSnapshotter n : RaftNode M :=
  restoreSnapshotLocked (set_snapshotterSet true n).

Definition SnapshotIndex n : Z := lastIncludedIndexLocked n.

Definition LogLen n : Z := if decide (slen (log n) = 0) then 0 else slen (log n) - 1.
End snapshot.
