(* ===== verification/Log.v ===== *)
(** raft/log.go: replication.  [replicateTo] is a goroutine that alternates
    between sections under the mutex and an RPC; each section is one function
    here and says whether the loop goes on.  HandleAppendEntries, the commit
    rule and the apply loop follow. *)
From S2P Require Import Prelude Types Node Persist Membership Snapshot.
Open Scope Z_scope.
Open Scope go_scope.

Section replication.
Context {M : Type} `{!StateMachine M}.
Implicit Types n : RaftNode M.

(** One round of [broadcastAppendEntriesLocked]. *)
Definition broadcastTo n (peer : string) : RaftNode M :=
  if decide (peer = nodeID n) then n
  else if mapB (replicating n) peer then n
  else go (GoReplicateTo peer) (put_replicating peer true n).

Definition broadcastAppendEntriesLocked n : RaftNode M :=
  match transport n with
  | None => n
  | Some _ => foldl broadcastTo n (peerIDs n)
  end.

(** ** The commit rule and the apply loop *)

(** [count] of [advanceCommitLocked]: the peers whose [matchIndex] reaches [idx]. *)
Definition replicatedOn n (idx : Z) : Z :=
  slen (filter (λ p, idx ≤ mapZ (matchIndex n) p) (peerIDs n)).

(** The loop [for idx := last; idx > n.commitIndex; idx--]; [fuel] is the number
    of indexes above [commitIndex]. *)
Fixpoint advanceCommitFrom (fuel : nat) (idx : Z) n : RaftNode M :=
  match fuel with
  | O => n
  | S fuel' =>
      if decide (termAtLocked n idx = Some (currentTerm n)) then
        if decide (majority n ≤ replicatedOn n idx) then set_commitIndex idx n
        else advanceCommitFrom fuel' (idx - 1) n
      else advanceCommitFrom fuel' (idx - 1) n
  end.

Definition advanceCommitLocked n : RaftNode M :=
  let last := lastLogIndexLocked n in
  advanceCommitFrom (Z.to_nat (last - commitIndex n)) last n.

(** The loop [for n.lastApplied < n.commitIndex]; each round applies one entry,
    so [fuel] is the distance. *)
Fixpoint applyLoop (fuel : nat) n : RaftNode M :=
  match fuel with
  | O => n
  | S fuel' =>
      let next := lastApplied n + 1 in
      match entryAtLocked n next with
      | None => n
      | Some e =>
          let n := set_lastApplied next n in
          let n := if applySet n && bool_decide (e_Change e = None)
                   then set_machine (sm_apply (MkApplyMsg next (e_Command e)) (machine n)) n
                   else n in
          applyLoop fuel' n
      end
  end.

Definition applyCommittedLocked n : RaftNode M :=
  maybeCompactLocked (applyLoop (Z.to_nat (commitIndex n - lastApplied n)) n).

(** ** The leader: [replicateTo] *)

Definition shouldInstallSnapshotLocked (peer : string) n : bool :=
  let snap := lastIncludedIndexLocked n in
  bool_decide (snap > 0 ∧ mapZ (nextIndex n) peer ≤ snap).

Definition makeAppendRequestLocked (peer : string) n :
    RaftNode M * option AppendEntriesRequest :=
  let next := mapZ (nextIndex n) peer in
  let snap := lastIncludedIndexLocked n in
  if decide (next ≤ snap) then (n, None)
  else
    let last := lastLogIndexLocked n in
    let '(n, next) := if decide (next > last + 1)
                      then (put_nextIndex peer (last + 1) n, last + 1) else (n, next) in
    let prevIndex := next - 1 in
    match termAtLocked n prevIndex with
    | None => (n, None)
    | Some prevTerm =>
        let start := sliceIndexLocked n next in
        let start := if decide (start < 1) then 1 else start in
        let start := if decide (start > slen (log n)) then slen (log n) else start in
        let entries := drop (Z.to_nat start) (log n) in
        (n, Some (MkAppendReq (currentTerm n) (nodeID n) prevIndex prevTerm entries
                    (commitIndex n)))
    end.

(** The RPC the loop of [replicateTo] is about to send, or its end. *)
Inductive ReplicateStep :=
  | ReplicateReturn
  | ReplicateInstall (req : InstallSnapshotRequest) (term : Z)
  | ReplicateAppend (req : AppendEntriesRequest) (term : Z).

(** The section at the head of the loop. *)
Definition replicateHead (peer : string) n : RaftNode M * ReplicateStep :=
  if decide (state n ≠ Leader) then (n, ReplicateReturn)
  else if shouldInstallSnapshotLocked peer n then
    (n, ReplicateInstall (installSnapshotRequestLocked n) (currentTerm n))
  else
    let '(n, req) := makeAppendRequestLocked peer n in
    match req with
    | None => (n, ReplicateReturn)
    | Some req => (n, ReplicateAppend req (currentTerm n))
    end.

(** The section after an InstallSnapshot reply; [true] continues the loop. *)
Definition replicateInstallReply (peer : string) (req : InstallSnapshotRequest)
    (term : Z) (resp : InstallSnapshotResponse) n : RaftNode M * bool :=
  if decide (state n ≠ Leader ∨ currentTerm n ≠ term) then (n, false)
  else if decide (isr_Term resp > currentTerm n) then
    (resetElectionTimerLocked (becomeFollowerLocked (isr_Term resp) "" n), false)
  else
    let n := put_matchIndex peer (is_LastIncludedIndex req) n in
    let n := put_nextIndex peer (is_LastIncludedIndex req + 1) n in
    let n := advanceCommitLocked n in
    let n := applyCommittedLocked n in
    (n, bool_decide (lastLogIndexLocked n > mapZ (matchIndex n) peer)).

(** The section after an AppendEntries reply; [true] continues the loop. *)
Definition replicateAppendReply (peer : string) (req : AppendEntriesRequest)
    (term : Z) (resp : AppendEntriesResponse) n : RaftNode M * bool :=
  if decide (state n ≠ Leader ∨ currentTerm n ≠ term) then (n, false)
  else if decide (aer_Term resp > currentTerm n) then
    (resetElectionTimerLocked (becomeFollowerLocked (aer_Term resp) "" n), false)
  else if aer_Success resp then
    let n := put_matchIndex peer (ae_PrevLogIndex req + slen (ae_Entries req)) n in
    let n := put_nextIndex peer (mapZ (matchIndex n) peer + 1) n in
    let n := advanceCommitLocked n in
    let n := applyCommittedLocked n in
    (n, bool_decide (lastLogIndexLocked n > mapZ (matchIndex n) peer))
  else
    let snap := lastIncludedIndexLocked n in
    let next := mapZ (nextIndex n) peer in
    (if decide (next > snap + 1) then put_nextIndex peer (next - 1) n
     else if decide (snap > 0) then put_nextIndex peer snap n
     else if decide (next > 1) then put_nextIndex peer (next - 1) n
     else n, true).

(** The deferred function of [replicateTo]. *)
Definition replicateDone (peer : string) n : RaftNode M := put_replicating peer false n.

(** ** The follower: HandleAppendEntries *)

(** The entries [appendEntriesLocked] builds: renumbered from [startIndex]. *)
Fixpoint renumber (startIndex : Z) (entries : list LogEntry) : list LogEntry :=
  match entries with
  | [] => []
  | e :: es =>
      MkEntry (e_Term e) startIndex (e_Command e) (e_Change e) :: renumber (startIndex + 1) es
  end.

Definition appendEntriesLocked (entries : list LogEntry) (startIndex : Z) n : RaftNode M :=
  set_log (log n ++ renumber startIndex entries) n.

(** The loop over [req.Entries]: [entries] is [req.Entries[i:]] and [idx] is
    [req.PrevLogIndex + 1 + i]; the flag is [logDirty]. *)
Fixpoint reconcile (entries : list LogEntry) (idx : Z) n : RaftNode M * bool :=
  match entries with
  | [] => (n, false)
  | e :: es =>
      match entryAtLocked n idx with
      | Some existing =>
          if decide (e_Term existing ≠ e_Term e) then
            let si := sliceIndexLocked n idx in
            let si := if decide (si < 1) then 1 else si in
            let n := set_log (take (Z.to_nat si) (log n)) n in
            (appendEntriesLocked (e :: es) idx n, true)
          else reconcile es (idx + 1) n
      | None => (appendEntriesLocked (e :: es) idx n, true)
      end
  end.

(** The update of [commitIndex] from [req.LeaderCommit]. *)
Definition followCommit (leaderCommit : Z) n : RaftNode M :=
  if decide (leaderCommit > commitIndex n) then
    let last := lastLogIndexLocked n in
    let n := set_commitIndex leaderCommit n in
    let n := if decide (commitIndex n > last) then set_commitIndex last n else n in
    applyCommittedLocked n
  else n.

Definition HandleAppendEntries (req : AppendEntriesRequest) n :
    RaftNode M * AppendEntriesResponse :=
  if decide (ae_Term req < currentTerm n) then (n, MkAppendResp (currentTerm n) false)
  else
    let n := acceptLeader (ae_Term req) (ae_LeaderID req) n in
    let term := currentTerm n in
    let refuse := (n, MkAppendResp term false) in
    if decide (ae_PrevLogIndex req < lastIncludedIndexLocked n) then refuse
    else match entryAtLocked n (ae_PrevLogIndex req) with
    | None => refuse
    | Some prev =>
        if decide (e_Term prev ≠ ae_PrevLogTerm req) then refuse
        else
          let '(n, logDirty) := reconcile (ae_Entries req) (ae_PrevLogIndex req + 1) n in
          let n := if logDirty : bool
                   then persistLocked (notifyPeersLocked (rebuildMembershipLocked n)) else n in
          let n := followCommit (ae_LeaderCommit req) n in
          (n, MkAppendResp term true)
    end.
End replication.
