(* ===== verification/Election.v ===== *)
(** raft/election.go, with [becomeLeaderLocked] of raft/node.go: campaigning,
    counting votes and granting them.  [sendRequestVote] is a goroutine with one
    section under the mutex, after the reply. *)
From S2P Require Import Prelude Types Node Persist Membership Snapshot Log.
Open Scope Z_scope.
Open Scope go_scope.

Section election.
Context {M : Type} `{!StateMachine M}.
Implicit Types n : RaftNode M.

(** The part of [becomeLeaderLocked] that makes the node a leader, up to the
    save of its no-op entry. *)
Definition elected n : RaftNode M :=
  let n := set_leaderID (nodeID n) (set_state Leader n) in
  let last := lastLogIndexLocked n in
  let n := set_nextIndex (foldl (λ m p, <[p := last + 1]> m) ∅ (peerIDs n)) n in
  let n := set_matchIndex (foldl (λ m p, <[p := 0]> m) ∅ (peerIDs n)) n in
  let n := set_replicating ∅ n in
  let noop := MkEntry (currentTerm n) (last + 1) [] None in
  let n := appendLog noop n in
  let n := put_matchIndex (nodeID n) (e_Index noop) n in
  let n := put_nextIndex (nodeID n) (e_Index noop + 1) n in
  let n := set_nextHeartbeat 0 n in
  persistLocked n.

Definition becomeLeaderLocked n : RaftNode M :=
  let n := elected n in
  let n := advanceCommitLocked n in
  let n := applyCommittedLocked n in
  broadcastAppendEntriesLocked n.

(** One round of the loop that starts the vote requests. *)
Definition requestVoteFrom (req : RequestVoteRequest) n (peer : string) : RaftNode M :=
  if decide (peer = nodeID n) then n else go (GoSendRequestVote peer req) n.

(** The request of an election. *)
Definition voteRequest n : RequestVoteRequest :=
  MkVoteReq (currentTerm n) (nodeID n) (lastLogIndexLocked n) (lastLogTermLocked n).

(** The part of [startElectionLocked] that makes the node a candidate. *)
Definition becomeCandidate n : RaftNode M :=
  let n := set_state Candidate n in
  let n := set_currentTerm (currentTerm n + 1) n in
  let n := set_votedFor (nodeID n) n in
  let n := set_leaderID "" n in
  let n := set_votesReceived {[nodeID n := true]} n in
  let n := resetElectionTimerLocked n in
  persistLocked n.

Definition startElectionLocked n : RaftNode M :=
  if joining n || negb (isVoterLocked n) then resetElectionTimerLocked n
  else
    let n := becomeCandidate n in
    let req := voteRequest n in
    if decide (majority n ≤ Z.of_nat (size (votesReceived n))) then becomeLeaderLocked n
    else foldl (requestVoteFrom req) n (peerIDs n).

(** The section of [sendRequestVote] after the reply. *)
Definition requestVoteReply (peer : string) (req : RequestVoteRequest)
    (resp : RequestVoteResponse) n : RaftNode M :=
  if decide (rvr_Term resp > currentTerm n) then
    resetElectionTimerLocked (becomeFollowerLocked (rvr_Term resp) "" n)
  else if decide (state n ≠ Candidate ∨ currentTerm n ≠ rv_Term req) then n
  else if negb (rvr_VoteGranted resp) then n
  else
    let n := put_votesReceived peer true n in
    if decide (majority n ≤ Z.of_nat (size (votesReceived n))) then becomeLeaderLocked n
    else n.

Definition isLogUpToDateLocked (lastLogIndex lastLogTerm : Z) n : bool :=
  let myTerm := lastLogTermLocked n in
  let myIndex := lastLogIndexLocked n in
  if decide (lastLogTerm ≠ myTerm) then bool_decide (lastLogTerm > myTerm)
  else bool_decide (myIndex ≤ lastLogIndex).

Definition HandleRequestVote (req : RequestVoteRequest) n :
    RaftNode M * RequestVoteResponse :=
  if decide (rv_Term req < currentTerm n) then (n, MkVoteResp (currentTerm n) false)
  else
    let n := if decide (rv_Term req > currentTerm n)
             then becomeFollowerLocked (rv_Term req) "" n else n in
    let term := currentTerm n in
    let upToDate := isLogUpToDateLocked (rv_LastLogIndex req) (rv_LastLogTerm req) n in
    let canVote := bool_decide (votedFor n = ""%string ∨ votedFor n = rv_CandidateID req) in
    if canVote && upToDate then
      let n := set_votedFor (rv_CandidateID req) n in
      let n := resetElectionTimerLocked n in
      let n := persistLocked n in
      (n, MkVoteResp term true)
    else (n, MkVoteResp term false).
End election.
