(* ===== verification/RaftOps.v ===== *)
(** The entry points of raft/node.go and raft/membership.go: construction,
    the ticker, proposals of commands and of membership changes, and the loop of
    [WaitApplied]. *)
From S2P Require Import Prelude Types Node Persist Membership Snapshot Log Election.
Open Scope Z_scope.
Open Scope go_scope.

Section ops.
Context {M : Type} `{!StateMachine M}.
Implicit Types n : RaftNode M.

(** The [RaftNode] literal of [NewNode], with the defaults of the timeouts, which
    are 64-bit integers; [m] is the state machine behind the snapshotter and [src]
    the random source. *)
Definition freshNode (cfg : Config) (m : M) (src : list Z) : RaftNode M :=
  let tmin := if decide (cfg_ElectionTimeoutMin cfg ≤ 0) then 150 * Millisecond
              else cfg_ElectionTimeoutMin cfg in
  let tmax := if decide (cfg_ElectionTimeoutMax cfg ≤ tmin) then int64 (tmin + 150 * Millisecond)
              else cfg_ElectionTimeoutMax cfg in
  let hb := if decide (cfg_HeartbeatInterval cfg ≤ 0) then 50 * Millisecond
            else cfg_HeartbeatInterval cfg in
  {| nodeID := cfg_ID cfg;
     peerAddrs := cfg_PeerAddrs cfg; peerHTTP := cfg_HTTPAddrs cfg;
     peerIDs := sorted_keys (cfg_PeerAddrs cfg);
     basePeers := cfg_PeerAddrs cfg; baseHTTP := cfg_HTTPAddrs cfg;
     joining := cfg_Join cfg; peerHook := false; transport := None;
     applySet := false; storage := cfg_Storage cfg;
     snapshotterSet := cfg_Snapshotter cfg;
     snapshotThreshold := cfg_SnapshotThreshold cfg; snapshot := [];
     electionTimeoutMin := tmin; electionTimeoutMax := tmax; heartbeatInterval := hb;
     state := Follower; currentTerm := 0; votedFor := ""; log := [zeroEntry];
     commitIndex := 0; lastApplied := 0;
     nextIndex := ∅; matchIndex := ∅; replicating := ∅; votesReceived := ∅;
     leaderID := ""; electionDeadline := 0; nextHeartbeat := 0; stopped := false;
     machine := m; clock := 0; rng := src; spawned := []; hookCalls := [] |}.

(** The test of [NewNode] that a loaded state is not the zero state. *)
Definition durableUsed (st : DurableState) : bool :=
  bool_decide (ds_CurrentTerm st ≠ 0 ∨ ds_VotedFor st ≠ ""%string ∨ ds_Log st ≠ [] ∨
               ds_Snapshot st ≠ [] ∨ (0 < size (ds_SnapshotPeers st))%nat).

(** The part of [NewNode] that adopts a loaded state: first the saved fields, *)
Definition loadDurable (st : DurableState) n : RaftNode M :=
  let n := set_votedFor (ds_VotedFor st) (set_currentTerm (ds_CurrentTerm st) n) in
  let n := if bool_decide (ds_Log st ≠ []) then set_log (ds_Log st) n else n in
  let n := set_snapshot (ds_Snapshot st) n in
  if decide (0 < size (ds_SnapshotPeers st))%nat
  then set_baseHTTP (ds_SnapshotHTTP st) (set_basePeers (ds_SnapshotPeers st) n)
  else n.

(** then the indexes a snapshot stands for, *)
Definition startAtSnapshot n : RaftNode M :=
  if bool_decide (snapshot n ≠ [] ∧ log n ≠ [])
  then let snapIdx := e_Index (firstEntry n) in
       set_commitIndex snapIdx (set_lastApplied snapIdx n)
  else n.

(** then the state machine and the membership. *)
Definition restoreDurable (st : DurableState) n : RaftNode M :=
  let n := loadDurable st n in
  let n := startAtSnapshot n in
  let n := restoreSnapshotLocked n in
  let n := rebuildMembershipLocked n in
  if decide (slen (peerIDs n) > 1) then set_joining false n else n.

Definition NewNode (cfg : Config) (m : M) (src : list Z) : RaftNode M :=
  let n := freshNode cfg m src in
  match cfg_Storage cfg with
  | None => n
  | Some s =>
      match Load s with
      | None => n
      | Some st => if durableUsed st then restoreDurable st n else n
      end
  end.

Definition SetTransport (t : Transport) n : RaftNode M := set_transport (Some t) n.
Definition SetApply n : RaftNode M := set_applySet true n.
Definition SetPeerHook n : RaftNode M := set_peerHook true n.

(** The section of [Start] before the ticker goroutine. *)
Definition Start n : RaftNode M := resetElectionTimerLocked n.

(** [Stop] closes [stopCh] once. *)
Definition Stop n : RaftNode M := if stopped n then n else set_stopped true n.

Definition tick n : RaftNode M :=
  let now := clock n in
  let n :=
    match state n with
    | Follower | Candidate =>
        if negb (joining n) && isVoterLocked n && bool_decide (electionDeadline n ≤ now)
        then startElectionLocked n else n
    | Leader =>
        if decide (nextHeartbeat n ≤ now)
        then broadcastAppendEntriesLocked (set_nextHeartbeat (now + heartbeatInterval n) n)
        else n
    end in
  applyCommittedLocked n.

(** What a leader does after it has appended and recorded the entry at [index]. *)
Definition recordOwn (index : Z) n : RaftNode M :=
  let n := put_matchIndex (nodeID n) index n in
  let n := put_nextIndex (nodeID n) (index + 1) n in
  let n := advanceCommitLocked n in
  let n := applyCommittedLocked n in
  broadcastAppendEntriesLocked n.

Definition Propose (cmd : bytes) n : RaftNode M * result (Z * Z) :=
  if stopped n then (n, Err ErrStopped)
  else if decide (state n ≠ Leader) then (n, Err ErrNotLeader)
  else
    let index := lastLogIndexLocked n + 1 in
    let term := currentTerm n in
    let n := appendLog (MkEntry term index cmd None) n in
    let n := persistLocked n in
    (recordOwn index n, Ok (index, term)).

(** The maps of the [switch] of [proposeChangeLocked], or its error. *)
Definition changedPeers (ch : MembershipChange) n :
    result (gmap string string * gmap string string) :=
  if decide (ch_Type ch = ChangeAdd) then
    if decide (is_Some (peerAddrs n !! ch_ID ch)) then Err ErrAlreadyMember
    else Ok (<[ch_ID ch := ch_Addr ch]> (peerAddrs n),
             if decide (ch_HTTP ch = ""%string) then peerHTTP n
             else <[ch_ID ch := ch_HTTP ch]> (peerHTTP n))
  else if decide (ch_Type ch = ChangeRemove) then
    if decide (peerAddrs n !! ch_ID ch = None) then Err ErrNotMember
    else if decide (ch_ID ch = nodeID n) then Err ErrRemoveLeader
    else if decide (slen (peerIDs n) ≤ 1) then Err ErrLastMember
    else Ok (delete (ch_ID ch) (peerAddrs n), delete (ch_ID ch) (peerHTTP n))
  else Err (ErrNew "unknown membership change").

Definition proposeChangeLocked (ch : MembershipChange) n : RaftNode M * result Z :=
  if stopped n then (n, Err ErrStopped)
  else if decide (state n ≠ Leader) then (n, Err ErrNotLeader)
  else if hasUncommittedConfigLocked n then (n, Err ErrConfigInProgress)
  else match changedPeers ch n with
  | Err e => (n, Err e)
  | Ok (newPeers, newHTTP) =>
      let index := lastLogIndexLocked n + 1 in
      let cp := MkChange (ch_Type ch) (ch_ID ch) (ch_Addr ch) (ch_HTTP ch) newPeers newHTTP in
      let n := appendLog (MkEntry (currentTerm n) index [] (Some cp)) n in
      let n := rebuildMembershipLocked n in
      let n := ensurePeerTrackingLocked n in
      let n := notifyPeersLocked n in
      let n := persistLocked n in
      (recordOwn index n, Ok index)
  end.

Definition AddServer (pid addr httpAddr : string) n : RaftNode M * result Z :=
  if decide (pid = ""%string ∨ addr = ""%string)
  then (n, Err (ErrNew "id and raft address required"))
  else proposeChangeLocked (MkChange ChangeAdd pid addr httpAddr ∅ ∅) n.

Definition RemoveServer (pid : string) n : RaftNode M * result Z :=
  if decide (pid = ""%string) then (n, Err (ErrNew "id required"))
  else proposeChangeLocked (MkChange ChangeRemove pid "" "" ∅ ∅) n.

(** [WaitApplied] is a [select] loop: what it sees at each round is that
    [stopCh] is closed, that the timer fired, or a tick, at which it looks at the
    node under the mutex.  [None] is a loop that is still waiting. *)
Inductive WaitEvent := WaitStop | WaitTimer | WaitTick (n : RaftNode M).

Definition waitPoll (index : Z) n : option (result unit) :=
  if decide (index ≤ lastApplied n) then Some (Ok tt)
  else if decide (state n ≠ Leader ∧ commitIndex n < index) then Some (Err ErrNotLeader)
  else None.

Fixpoint WaitApplied (index : Z) (evs : list WaitEvent) : option (result unit) :=
  match evs with
  | [] => None
  | WaitStop :: _ => Some (Err ErrStopped)
  | WaitTimer :: _ => Some (Err ErrTimeout)
  | WaitTick n :: evs' =>
      match waitPoll index n with
      | Some r => Some r
      | None => WaitApplied index evs'
      end
  end.

(** ** Read-only accessors *)

Definition IsLeader n : bool := bool_decide (state n = Leader).

Definition LeaderAddr n : string :=
  if decide (leaderID n = ""%string) then "" else mapS (peerAddrs n) (leaderID n).

Definition PeerAddr (pid : string) n : string := mapS (peerAddrs n) pid.
Definition PeerHTTP (pid : string) n : string := mapS (peerHTTP n) pid.
End ops.
