(* ===== verification/Read.v ===== *)
(** raft/read.go: ReadIndex and its leadership confirmation. *)
From S2P Require Import Prelude Types Node Persist Membership Snapshot Log Election RaftOps.
Open Scope Z_scope.
Open Scope go_scope.

Section read.
Context {M : Type} `{!StateMachine M}.
Implicit Types n : RaftNode M.

Definition committedCurrentTermLocked n : bool :=
  match termAtLocked n (commitIndex n) with
  | Some term => bool_decide (term = currentTerm n)
  | None => false
  end.

(** One round of [waitCurrentTermCommitted] under the mutex: the error it
    returns, success, or another round. *)
Definition waitCommittedPoll n : RaftNode M * option (result unit) :=
  if decide (state n ≠ Leader) then (n, Some (Err ErrNotLeader))
  else if committedCurrentTermLocked n then (n, Some (Ok tt))
  else (broadcastAppendEntriesLocked n, None).

(** The section of [ReadIndex] that fixes the read index and the term. *)
Definition readIndexStart n : result (Z * Z) :=
  if decide (state n ≠ Leader) then Err ErrNotLeader
  else Ok (commitIndex n, currentTerm n).

Definition confirmHeartbeatLocked n : AppendEntriesRequest :=
  MkAppendReq (currentTerm n) (nodeID n) (lastLogIndexLocked n) (lastLogTermLocked n) []
    (commitIndex n).

(** The first section of [confirmLeadership]: the majority and the peers asked. *)
Definition confirmStart (term : Z) n : result (Z * list string) :=
  if decide (state n ≠ Leader ∨ currentTerm n ≠ term) then Err ErrNotLeader
  else Ok (majority n, filter (λ p, p ≠ nodeID n) (peerIDs n)).

(** The two sections of [sendConfirmHeartbeat]: [None] sends [false]. *)
Definition confirmSend (term : Z) n : option AppendEntriesRequest :=
  if decide (state n ≠ Leader ∨ currentTerm n ≠ term ∨ transport n = None) then None
  else Some (confirmHeartbeatLocked n).

Definition confirmReply (term : Z) (resp : AppendEntriesResponse) n : RaftNode M * bool :=
  if decide (aer_Term resp > currentTerm n) then
    (resetElectionTimerLocked (becomeFollowerLocked (aer_Term resp) "" n), false)
  else (n, bool_decide (state n = Leader ∧ currentTerm n = term)).
End read.

(** The [select] loop of [confirmLeadership]: each event is the closed [stopCh],
    the timer, or a result of one heartbeat.  [None] is still waiting. *)
Inductive ConfirmEvent := ConfirmStop | ConfirmTimer | ConfirmResult (ok : bool).

Fixpoint confirmLoop (majority acks pending : Z) (evs : list ConfirmEvent) :
    option (result unit) :=
  if decide (majority ≤ acks) then Some (Ok tt)
  else match evs with
  | [] => None
  | ConfirmStop :: _ => Some (Err ErrStopped)
  | ConfirmTimer :: _ => Some (Err ErrTimeout)
  | ConfirmResult ok :: evs' =>
      let pending := pending - 1 in
      let acks := if ok then acks + 1 else acks in
      if decide (majority ≤ acks) then Some (Ok tt)
      else if decide (acks + pending < majority) then Some (Err ErrStaleLeader)
      else confirmLoop majority acks pending evs'
  end.

(** [confirmLeadership] after its first section. *)
Definition confirmLeadership (majority : Z) (peers : list string)
    (evs : list ConfirmEvent) : option (result unit) :=
  confirmLoop majority 1 (slen peers) evs.
