(* ===== verification/Machine.v ===== *)
(** A node as one transition function: the operations that run with the mutex
    held, from the RPC handlers, the goroutines, the ticker and the callers of
    the package, and what happens to the environment of a node between them. *)
From S2P Require Import Prelude Types Node Persist Membership Snapshot Log Election RaftOps Read.
Open Scope Z_scope.
Open Scope go_scope.

Inductive NodeOp :=
  | OpTick
  | OpHandleRequestVote (req : RequestVoteRequest)
  | OpHandleAppendEntries (req : AppendEntriesRequest)
  | OpHandleInstallSnapshot (req : InstallSnapshotRequest)
  | OpVoteReply (peer : string) (req : RequestVoteRequest) (resp : RequestVoteResponse)
  | OpReplicateHead (peer : string)
  | OpInstallReply (peer : string) (req : InstallSnapshotRequest) (term : Z)
      (resp : InstallSnapshotResponse)
  | OpAppendReply (peer : string) (req : AppendEntriesRequest) (term : Z)
      (resp : AppendEntriesResponse)
  | OpReplicateDone (peer : string)
  | OpPropose (cmd : bytes)
  | OpAddServer (pid addr httpAddr : string)
  | OpRemoveServer (pid : string)
  | OpWaitCommitted
  | OpConfirmReply (term : Z) (resp : AppendEntriesResponse)
  | OpStart
  | OpStop
  | OpEnv (now : Z) (src : list Z).

Definition runOp {M} `{!StateMachine M} (op : NodeOp) (n : RaftNode M) : RaftNode M :=
  match op with
  | OpTick => tick n
  | OpHandleRequestVote req => (HandleRequestVote req n).1
  | OpHandleAppendEntries req => (HandleAppendEntries req n).1
  | OpHandleInstallSnapshot req => (HandleInstallSnapshot req n).1
  | OpVoteReply peer req resp => requestVoteReply peer req resp n
  | OpReplicateHead peer => (replicateHead peer n).1
  | OpInstallReply peer req term resp => (replicateInstallReply peer req term resp n).1
  | OpAppendReply peer req term resp => (replicateAppendReply peer req term resp n).1
  | OpReplicateDone peer => replicateDone peer n
  | OpPropose cmd => (Propose cmd n).1
  | OpAddServer pid addr http => (AddServer pid addr http n).1
  | OpRemoveServer pid => (RemoveServer pid n).1
  | OpWaitCommitted => (waitCommittedPoll n).1
  | OpConfirmReply term resp => (confirmReply term resp n).1
  | OpStart => Start n
  | OpStop => Stop n
  | OpEnv now src => set_rng src (set_clock now n)
  end.

(** A sequence of operations. *)
Definition runOps {M} `{!StateMachine M} (ops : list NodeOp) (n : RaftNode M) : RaftNode M :=
  foldl (λ n op, runOp op n) n ops.
