(* ===== verification/Client.v ===== *)
(** The calls of package [raft] that wait: WaitApplied (raft/node.go) and
    ReadIndex with its two loops (raft/read.go), composed from their sections.

    A call releases the mutex between its sections; what the other goroutines do
    meanwhile is part of its schedule.  The calls are written once, against the
    interface [Host] to the place where the node lives: a node on its own
    ([node_host], where the others are operations of [Machine]) or a node of a
    cluster (the runs of [RunHost]).  [None] is a call that is still waiting when
    the schedule ends. *)
From S2P Require Import Prelude Types Node Persist Membership Snapshot Log Election RaftOps Read Machine.
Open Scope Z_scope.
Open Scope go_scope.

(** Where a call finds its node.  [H] is the state of the place, [E] what others
    do between two sections, [R] a reply to a heartbeat that the call has sent.
    The sections that change the node are operations of the place; the others
    only look at [hostNode]. *)
Class Host (M H E R : Type) := MkHost {
  hostNode : H → RaftNode M;
  hostOthers : E → H → H;
  hostPoll : H → H * option (result unit);
  hostConfirm : Z → R → H → H * bool;
  hostPropose : bytes → H → H * result (Z * Z);
  hostHooks : H → H * list (gmap string string * gmap string string);
}.

(** A node on its own. *)
#[export] Instance node_host {M} `{!StateMachine M} :
    Host M (RaftNode M) (list NodeOp) AppendEntriesResponse := {
  hostNode n := n;
  hostOthers ops n := runOps ops n;
  hostPoll n := waitCommittedPoll n;
  hostConfirm term resp n := confirmReply term resp n;
  hostPropose cmd n := Propose cmd n;
  hostHooks n := (set_hookCalls [] n, hookCalls n);
}.

(** What ends a [select]: the closed [stopCh], the timer, or the ticker after
    the operations of the other goroutines. *)
Inductive WakeOf (E : Type) := WakeStop | WakeTimer | WakeTick (others : E).
Arguments WakeStop {E}.
Arguments WakeTimer {E}.
Arguments WakeTick {E} others.

(** What the loop of [confirmLeadership] receives: a heartbeat that could not be
    sent or was not answered, or an answer, each after other operations. *)
Inductive ConfirmWakeOf (E R : Type) :=
  | ConfirmWakeStop
  | ConfirmWakeTimer
  | ConfirmNoAnswer (others : E)
  | ConfirmAnswer (others : E) (resp : R).
Arguments ConfirmWakeStop {E R}.
Arguments ConfirmWakeTimer {E R}.
Arguments ConfirmNoAnswer {E R} others.
Arguments ConfirmAnswer {E R} others resp.

(** The schedule of a ReadIndex call: the wakes of its two waits, what others do
    in the gaps between its sections, and whether the deadline has passed at its
    two looks at the clock. *)
Record ReadScheduleOf (E R : Type) := MkReadSchedule {
  rs_commit : list (WakeOf E);
  rs_before_index : E;
  rs_late1 : bool;
  rs_before_confirm : E;
  rs_confirm : list (ConfirmWakeOf E R);
  rs_late2 : bool;
  rs_apply : list (WakeOf E);
  rs_before_check : E;
}.
Arguments MkReadSchedule {E R}.
Arguments rs_commit {E R} _.
Arguments rs_before_index {E R} _.
Arguments rs_late1 {E R} _.
Arguments rs_before_confirm {E R} _.
Arguments rs_confirm {E R} _.
Arguments rs_late2 {E R} _.
Arguments rs_apply {E R} _.
Arguments rs_before_check {E R} _.

(** The schedules of a call on a node on its own. *)
Abbreviation Wake := (WakeOf (list NodeOp)).
Abbreviation ConfirmWake := (ConfirmWakeOf (list NodeOp) AppendEntriesResponse).
Abbreviation ReadSchedule := (ReadScheduleOf (list NodeOp) AppendEntriesResponse).

(** A round of the loop of [run], after the operations of the other goroutines:
    the branch of its [select] that is taken. *)
Inductive RunWake := RunStop (others : list NodeOp) | RunTick (others : list NodeOp).

(** The goroutine of [Start]: the node it leaves and whether it has returned.
    The branch of the closed [stopCh] can be taken once the node is stopped; the
    ticker's can be taken even then, when both are ready. *)
Fixpoint run {M} `{!StateMachine M} (ws : list RunWake) (n : RaftNode M) : RaftNode M * bool :=
  match ws with
  | [] => (n, false)
  | RunStop ops :: ws' =>
      let n := runOps ops n in
      if stopped n then (n, true) else run ws' n
  | RunTick ops :: ws' => run ws' (tick (runOps ops n))
  end.

(** The last look of [ReadIndex]. *)
Definition stillLeader {M} (n : RaftNode M) : result unit :=
  if decide (state n ≠ Leader) then Err ErrNotLeader else Ok tt.

(** A call as a function of the place: the state it leaves and its result. *)
Definition Call {H : Type} (A : Type) : Type := H → H * option (result A).

Definition ret {H A : Type} (a : A) : Call (H := H) A := λ h, (h, Some (Ok a)).
Definition fail {H A : Type} (e : Error) : Call (H := H) A := λ h, (h, Some (Err e)).

Definition andThen {H A B : Type} (c : Call A) (k : A → Call B) : Call B := λ h : H,
  match c h with
  | (h', Some (Ok a)) => k a h'
  | (h', Some (Err e)) => (h', Some (Err e))
  | (h', None) => (h', None)
  end.

Section client.
Context {M H E R : Type} `{HH : !Host M H E R}.
Implicit Types (n : RaftNode M) (h : H).

(** A section that only looks at the node, and what others do between sections. *)
Definition look {A} (f : RaftNode M → result A) : Call A := λ h, (h, Some (f (hostNode h))).
Definition others (ops : E) : Call unit := λ h, (hostOthers ops h, Some (Ok tt)).

(** [WaitApplied] along a schedule. *)
Fixpoint waitApplied (index : Z) (ws : list (WakeOf E)) : Call unit := λ h,
  match ws with
  | [] => (h, None)
  | WakeStop :: _ => (h, Some (Err ErrStopped))
  | WakeTimer :: _ => (h, Some (Err ErrTimeout))
  | WakeTick ops :: ws' =>
      let h := hostOthers ops h in
      match waitPoll index (hostNode h) with
      | Some r => (h, Some r)
      | None => waitApplied index ws' h
      end
  end.

Fixpoint waitCurrentTermCommitted (ws : list (WakeOf E)) : Call unit := λ h,
  let '(h, r) := hostPoll h in
  match r with
  | Some r => (h, Some r)
  | None =>
      match ws with
      | [] => (h, None)
      | WakeStop :: _ => (h, Some (Err ErrStopped))
      | WakeTimer :: _ => (h, Some (Err ErrTimeout))
      | WakeTick ops :: ws' => waitCurrentTermCommitted ws' (hostOthers ops h)
      end
  end.

(** The loop [for acks < majority] of [confirmLeadership]. *)
Fixpoint confirmRun (term majority acks pending : Z) (ws : list (ConfirmWakeOf E R)) :
    Call unit := λ h,
  if decide (majority ≤ acks) then (h, Some (Ok tt))
  else
    let received (h : H) (ok : bool) (ws' : list (ConfirmWakeOf E R)) :=
      let pending := pending - 1 in
      let acks := if ok then acks + 1 else acks in
      if decide (majority ≤ acks) then (h, Some (Ok tt))
      else if decide (acks + pending < majority) then (h, Some (Err ErrStaleLeader))
      else confirmRun term majority acks pending ws' h in
    match ws with
    | [] => (h, None)
    | ConfirmWakeStop :: _ => (h, Some (Err ErrStopped))
    | ConfirmWakeTimer :: _ => (h, Some (Err ErrTimeout))
    | ConfirmNoAnswer ops :: ws' => received (hostOthers ops h) false ws'
    | ConfirmAnswer ops resp :: ws' =>
        let '(h, ok) := hostConfirm term resp (hostOthers ops h) in received h ok ws'
    end.

Definition confirmLeadershipCall (term : Z) (ws : list (ConfirmWakeOf E R)) : Call unit :=
  andThen (look (confirmStart term)) (λ '(majority, peers),
    confirmRun term majority 1 (slen peers) ws).

Definition ReadIndex (s : ReadScheduleOf E R) : Call Z :=
  andThen (waitCurrentTermCommitted (rs_commit s)) (λ _,
  andThen (others (rs_before_index s)) (λ _,
  andThen (look readIndexStart) (λ '(readIndex, term),
  if rs_late1 s then fail ErrTimeout else
  andThen (others (rs_before_confirm s)) (λ _,
  andThen (confirmLeadershipCall term (rs_confirm s)) (λ _,
  if rs_late2 s then fail ErrTimeout else
  andThen (waitApplied readIndex (rs_apply s)) (λ _,
  andThen (others (rs_before_check s)) (λ _,
  andThen (look stillLeader) (λ _, ret readIndex)))))))).

(** ** Lemmas *)

Lemma andThen_ok {A B} (c : Call A) (k : A → Call B) h h' b :
  andThen c k h = (h', Some (Ok b)) →
  ∃ h1 a, c h = (h1, Some (Ok a)) ∧ k a h1 = (h', Some (Ok b)).
Proof.
  unfold andThen. destruct (c h) as [h1 [[a|e]|]]; [|done..]. intros E'. by exists h1, a.
Qed.

(** The results of the heartbeats as the loop receives them. *)
Fixpoint received (term : Z) (ws : list (ConfirmWakeOf E R)) h : list ConfirmEvent :=
  match ws with
  | [] => []
  | ConfirmWakeStop :: ws' => ConfirmStop :: received term ws' h
  | ConfirmWakeTimer :: ws' => ConfirmTimer :: received term ws' h
  | ConfirmNoAnswer ops :: ws' => ConfirmResult false :: received term ws' (hostOthers ops h)
  | ConfirmAnswer ops resp :: ws' =>
      let '(h, ok) := hostConfirm term resp (hostOthers ops h) in
      ConfirmResult ok :: received term ws' h
  end.

(** The loop of the call decides as [confirmLoop] does on what it receives, *)
Lemma confirmRun_loop term majority acks pending ws h :
  (confirmRun term majority acks pending ws h).2 =
    confirmLoop majority acks pending (received term ws h).
Proof.
  revert acks pending h. induction ws as [|[| |ops|ops resp] ws IH]; intros acks pending h;
    cbn [confirmRun received]; try (cbn [confirmLoop]; case_decide; done).
  - cbn [confirmLoop]. case_decide; [done|]. cbn zeta. repeat case_decide; done.
  - destruct (hostConfirm term resp (hostOthers ops h)) as [h1 ok]. cbn [confirmLoop].
    case_decide; [done|]. cbn zeta. repeat case_decide; try done; apply IH.
Qed.

(** and so does the call after its first section. *)
Lemma confirmLeadershipCall_decides term ws h :
  (confirmLeadershipCall term ws h).2 =
    match confirmStart term (hostNode h) with
    | Err e => Some (Err e)
    | Ok (majority, peers) => confirmLeadership majority peers (received term ws h)
    end.
Proof.
  unfold confirmLeadershipCall, andThen, look.
  destruct (confirmStart term (hostNode h)) as [[majority peers]|e]; [|done].
  apply confirmRun_loop.
Qed.

(** What a ReadIndex call that succeeds has seen: the states between its
    sections, and what each section found there. *)
Lemma ReadIndex_ok s h h' idx :
  ReadIndex s h = (h', Some (Ok idx)) →
  ∃ h1 term majority peers h4 h5,
    waitCurrentTermCommitted (rs_commit s) h = (h1, Some (Ok tt)) ∧
    let h2 := hostOthers (rs_before_index s) h1 in
    readIndexStart (hostNode h2) = Ok (idx, term) ∧
    let h3 := hostOthers (rs_before_confirm s) h2 in
    confirmStart term (hostNode h3) = Ok (majority, peers) ∧
    confirmRun term majority 1 (slen peers) (rs_confirm s) h3 = (h4, Some (Ok tt)) ∧
    waitApplied idx (rs_apply s) h4 = (h5, Some (Ok tt)) ∧
    h' = hostOthers (rs_before_check s) h5 ∧ state (hostNode h') = Leader.
Proof.
  unfold ReadIndex. intros (h1&[]&E1&E2)%andThen_ok.
  apply andThen_ok in E2 as (h2&[]&[= <-]&E3).
  apply andThen_ok in E3 as (h2'&[idx' term]&[= <- Hstart]&E4).
  destruct (rs_late1 s); [done|]. apply andThen_ok in E4 as (h3&[]&[= <-]&E5).
  apply andThen_ok in E5 as (h4&[]&E5&E6). apply andThen_ok in E5 as (h3'&[mj ps]&[= <- Hc]&E5).
  destruct (rs_late2 s); [done|]. apply andThen_ok in E6 as (h5&[]&E6&E7).
  apply andThen_ok in E7 as (h6&[]&[= <-]&E8). apply andThen_ok in E8 as (h7&[]&[= <- Hl]&[= <- <-]).
  exists h1, term, mj, ps, h4, h5. split_and!; try done.
  unfold stillLeader in Hl. case_decide as Hd; [done|]. by destruct (state _); try (exfalso; apply Hd).
Qed.
End client.

Section client_node.
Context {M : Type} `{!StateMachine M}.
Implicit Types n : RaftNode M.

(** The schedule of a wait is what [WaitApplied] sees. *)
Fixpoint seen (ws : list Wake) n : list (@WaitEvent M) :=
  match ws with
  | [] => []
  | WakeStop :: ws' => WaitStop :: seen ws' n
  | WakeTimer :: ws' => WaitTimer :: seen ws' n
  | WakeTick ops :: ws' => WaitTick (runOps ops n) :: seen ws' (runOps ops n)
  end.

Lemma waitApplied_seen index ws n : (waitApplied index ws n).2 = WaitApplied index (seen ws n).
Proof.
  revert n. induction ws as [|[| |ops] ws IH]; intros n; [done..|]. cbn.
  destruct (waitPoll index (runOps ops n)); [done|apply IH].
Qed.

Lemma waitApplied_ok index ws n n' :
  waitApplied index ws n = (n', Some (Ok tt)) →
  index ≤ lastApplied n' ∧ ∃ ops, n' = runOps ops n.
Proof.
  revert n. induction ws as [|[| |ops] ws IH]; intros n; [done..|]. cbn.
  destruct (waitPoll index (runOps ops n)) as [r|] eqn:E.
  - intros [= <- ->]. unfold waitPoll in E. split; [|by exists ops].
    case_decide; [done|]. case_decide; done.
  - intros [Hle [ops' ->]]%IH. split; [done|]. exists (ops ++ ops').
    unfold runOps. by rewrite foldl_app.
Qed.

(** The goroutine adds nothing to the operations of a node, and returns only
    when the node is stopped. *)
Lemma run_spec ws n :
  (∃ ops, (run ws n).1 = runOps ops n) ∧ ((run ws n).2 = true → stopped (run ws n).1 = true).
Proof.
  revert n. induction ws as [|[ops|ops] ws IH]; intros n; cbn.
  - split; [by exists []|done].
  - destruct (stopped (runOps ops n)) eqn:E; [split; [by exists ops|done]|].
    destruct (IH (runOps ops n)) as [(ops'&->) ?]. split; [|done].
    exists (ops ++ ops'). unfold runOps. by rewrite foldl_app.
  - destruct (IH (tick (runOps ops n))) as [(ops'&->) ?]. split; [|done].
    exists (ops ++ OpTick :: ops'). unfold runOps. by rewrite foldl_app.
Qed.
End client_node.
