(* ===== verification/Kv.v ===== *)
(** kv/client_api.go and kv/grpc.go: the client-facing server of a node.

    The store of the server is the state machine of its node: [NewServer] hands
    [onApply] and the store to the node.  As in [Client], what other goroutines
    do between the sections of a call is part of its schedule, and the calls are
    written against the [Host] of the node. *)
From S2P Require Import Prelude Types Node Persist Membership Snapshot Log Election RaftOps Read Machine Client Utf8 Json Marshal KvStore.
Open Scope Z_scope.
Open Scope go_scope.

(** ** Errors *)

(** The texts of the errors of package [raft]. *)
Definition Error_Error (e : Error) : string :=
  match e with
  | ErrNotLeader => "not leader"
  | ErrTimeout => "timeout"
  | ErrStaleLeader => "stale leader"
  | ErrStopped => "node stopped"
  | ErrUnreachable => "peer unreachable"
  | ErrAlreadyMember => "already a member"
  | ErrNotMember => "not a member"
  | ErrConfigInProgress => "uncommitted membership change"
  | ErrLastMember => "cannot remove the last member"
  | ErrRemoveLeader => "cannot remove the leader; pick a follower"
  | ErrNew msg => msg
  end.

Inductive KvError :=
  | ErrEmptyKey
  | NotLeaderError (LeaderID LeaderAddr LeaderHTTP : string)
  | RaftError (e : Error).

(** [Error()] of an error of the server. *)
Definition KvError_Error (e : KvError) : string :=
  match e with
  | ErrEmptyKey => "empty key"
  | NotLeaderError LeaderID LeaderAddr LeaderHTTP =>
      if decide (LeaderID = ""%string) then "not leader (unknown leader)"
      else if decide (LeaderHTTP ≠ ""%string)
      then "not leader; try " +:+ LeaderID +:+ " (" +:+ LeaderHTTP +:+ ")"
      else if decide (LeaderAddr ≠ ""%string)
      then "not leader; try " +:+ LeaderID +:+ " (" +:+ LeaderAddr +:+ ")"
      else "not leader; try " +:+ LeaderID
  | RaftError e => Error_Error e
  end.

(** ** The server *)

(** The server of a node that lives at [srv_raft]. *)
Record ServerOf (H : Type) := MkServer {
  srv_raft : H;
  srv_timeout : Z;
  srv_httpAddrs : gmap string string;
}.
Arguments MkServer {H}.
Arguments srv_raft {H} _.
Arguments srv_timeout {H} _.
Arguments srv_httpAddrs {H} _.

(** The server of a node on its own. *)
Abbreviation Server := (ServerOf (RaftNode Store)).

Definition with_raft {H} (h : H) (s : ServerOf H) : ServerOf H :=
  MkServer h (srv_timeout s) (srv_httpAddrs s).

(** [node]'s state machine is the store given with it. *)
Definition NewServer (node : RaftNode Store) : Server :=
  MkServer (SetSnapshotter (SetApply node)) (3000 * Millisecond) ∅.

Definition SetTimeout {H} (d : Z) (s : ServerOf H) : ServerOf H :=
  MkServer (srv_raft s) d (srv_httpAddrs s).

Definition SetHTTPAddrs {H} (addrs : gmap string string) (s : ServerOf H) : ServerOf H :=
  MkServer (srv_raft s) (srv_timeout s) addrs.

Definition httpAddr {H} (pid : string) (s : ServerOf H) : string :=
  if decide (pid = ""%string) then "" else mapS (srv_httpAddrs s) pid.

Definition OwnHTTP (s : Server) : string := httpAddr (nodeID (srv_raft s)) s.

(** The result of a call: none yet, a value or an error. *)
Abbreviation Outcome A := (option (A + KvError)).

Section server.
Context {H E R : Type} `{HH : !Host Store H E R}.
Implicit Types s : ServerOf H.

(** The node as the server finds it. *)
Definition srvNode s : RaftNode Store := hostNode (srv_raft s).

(** The peer hook that both kinds of process install: each call of it since the
    last look sets the HTTP addresses. *)
Definition runHooks s : ServerOf H :=
  let '(h, calls) := hostHooks (srv_raft s) in
  foldl (λ s call, SetHTTPAddrs (call.2) s) (with_raft h s) calls.

(** What other goroutines do to the node between two sections. *)
Definition meanwhile (ops : E) s : ServerOf H :=
  runHooks (with_raft (hostOthers ops (srv_raft s)) s).

(** Its two looks at the node may see different states. *)
Definition notLeader (ops : E) s : ServerOf H * KvError :=
  let lid := leaderID (srvNode s) in
  let s := meanwhile ops s in
  (s, NotLeaderError lid (LeaderAddr (srvNode s)) (httpAddr lid s)).

(** An error of package [raft], as the server returns it. *)
Definition raftFailure {A} (e : Error) (ops : E) s : ServerOf H * Outcome A :=
  if decide (e = ErrNotLeader) then let '(s, e) := notLeader ops s in (s, Some (inr e))
  else (s, Some (inr (RaftError e))).

(** A call of package [raft] in the server. *)
Definition callRaft {A} (c : Call A) s : ServerOf H * option (result A) :=
  let '(h, r) := c (srv_raft s) in (runHooks (with_raft h s), r).

Definition Put (key value : string) (gap : E) (ws : list (WakeOf E)) (late : E) s :
    ServerOf H * Outcome unit :=
  if decide (key = ""%string) then (s, Some (inr ErrEmptyKey))
  else if negb (IsLeader (srvNode s)) then
    let '(s, e) := notLeader late s in (s, Some (inr e))
  else
    let body := marshalCommand (MkCommand opPut key value) in
    let s := meanwhile gap s in
    let '(h, r) := hostPropose body (srv_raft s) in
    let s := with_raft h s in
    match r with
    | Err e => raftFailure e late s
    | Ok (idx, _) =>
        let '(s, r) := callRaft (waitApplied idx ws) s in
        match r with
        | None => (s, None)
        | Some (Err e) => raftFailure e late s
        | Some (Ok _) => (s, Some (inl tt))
        end
    end.

Definition Get (key : string) (sched : ReadScheduleOf E R) (late : E) s :
    ServerOf H * Outcome (option string) :=
  let '(s, r) := callRaft (ReadIndex sched) s in
  match r with
  | None => (s, None)
  | Some (Err e) => raftFailure e late s
  | Some (Ok _) =>
      let s := meanwhile late s in
      (s, Some (inl (KvStore.Get key (machine (srvNode s)))))
  end.

Lemma runHooks_raft s : srv_raft (runHooks s) = (hostHooks (srv_raft s)).1.
Proof.
  unfold runHooks. destruct (hostHooks (srv_raft s)) as [h calls].
  change h with (srv_raft (with_raft h s)) at 2. generalize (with_raft h s). clear s h.
  induction calls as [|c calls IH]; intros s; [done|]. cbn. by rewrite IH.
Qed.

Lemma meanwhile_raft ops s :
  srv_raft (meanwhile ops s) = (hostHooks (hostOthers ops (srv_raft s))).1.
Proof. unfold meanwhile. by rewrite runHooks_raft. Qed.

Lemma raftFailure_fails {A} e ops s s' (a : A) : raftFailure e ops s ≠ (s', Some (inl a)).
Proof. unfold raftFailure. case_decide; [|done]. by destruct (notLeader ops s). Qed.

(** What a Put that succeeds has done: a leader was asked, it accepted the
    command, and the index of the command was waited for. *)
Lemma Put_ok key value gap ws late s s' :
  Put key value gap ws late s = (s', Some (inl tt)) →
  IsLeader (srvNode s) = true ∧
  ∃ h2 idx t h3,
    hostPropose (marshalCommand (MkCommand opPut key value)) (srv_raft (meanwhile gap s)) =
      (h2, Ok (idx, t)) ∧
    waitApplied idx ws h2 = (h3, Some (Ok tt)) ∧ srv_raft s' = (hostHooks h3).1.
Proof.
  unfold Put. generalize (marshalCommand (MkCommand opPut key value)). intros body.
  case_decide; [done|]. destruct (IsLeader (srvNode s)); cbn [negb]; [|by destruct (notLeader late s)].
  destruct (hostPropose body (srv_raft (meanwhile gap s))) as [h2 [[idx t]|e]];
    [|by intros ?%raftFailure_fails].
  unfold callRaft. cbn [srv_raft with_raft]. destruct (waitApplied idx ws h2) as [h3 [[[]|e]|]] eqn:Ew;
    [|by intros ?%raftFailure_fails|done].
  intros [= <-]. split; [done|]. exists h2, idx, t, h3. split_and!; [done..|]. apply runHooks_raft.
Qed.

(** A Get that succeeds answers from the store after a ReadIndex that succeeded. *)
Lemma Get_ok key sched late s s' r :
  Get key sched late s = (s', Some (inl r)) →
  ∃ h1 idx, ReadIndex sched (srv_raft s) = (h1, Some (Ok idx)) ∧
    srv_raft s' = (hostHooks (hostOthers late (hostHooks h1).1)).1 ∧
    r = KvStore.Get key (machine (srvNode s')).
Proof.
  unfold Get, callRaft. destruct (ReadIndex sched (srv_raft s)) as [h1 [[idx|e]|]];
    [|by intros ?%raftFailure_fails|done].
  intros [= <- <-]. exists h1, idx. split_and!; [done| |done].
  rewrite meanwhile_raft. by rewrite runHooks_raft.
Qed.
End server.

(** ** Status *)

Record Status := MkStatus {
  ss_ID : string; ss_State : string; ss_Term : Z; ss_LeaderID : string;
  ss_LeaderAddr : string; ss_LeaderHTTP : string; ss_VotedFor : string;
  ss_CommitIndex : Z; ss_LastApplied : Z; ss_LastLogIndex : Z; ss_SnapshotIndex : Z;
  ss_LogLen : Z; ss_KVSize : Z; ss_Peers : list string;
}.

(** [Server.Status].  Each field is read in a section of its own; here they are
    read from one state of the node. *)
Definition getStatus (s : Server) : Status :=
  let n := srv_raft s in
  MkStatus (nodeID n) (State_String (state n)) (currentTerm n) (leaderID n) (LeaderAddr n)
    (httpAddr (leaderID n) s) (votedFor n) (commitIndex n) (lastApplied n)
    (lastLogIndexLocked n) (SnapshotIndex n) (LogLen n) (Len (machine n)) (peerIDs n).

(** ** The gRPC service (kv/grpc.go) *)

Record PbGetResponse := MkPbGet {
  pg_Ok : bool; pg_Value : string; pg_Found : bool; pg_Error : string;
  pg_LeaderId : string; pg_LeaderAddr : string;
}.

Record PbPutResponse := MkPbPut {
  pp_Ok : bool; pp_Error : string; pp_LeaderId : string; pp_LeaderAddr : string;
}.

Definition redirectGet (e : KvError) : PbGetResponse :=
  match e with
  | NotLeaderError lid addr _ => MkPbGet false "" false (KvError_Error e) lid addr
  | _ => MkPbGet false "" false (KvError_Error e) "" ""
  end.

(** The reply of the Get method to an outcome of [Get]. *)
Definition grpcGet (r : option string + KvError) : PbGetResponse :=
  match r with
  | inr e => redirectGet e
  | inl None => MkPbGet true "" false "" "" ""
  | inl (Some v) => MkPbGet true v true "" "" ""
  end.

(** The reply of the Put method to an outcome of [Put]. *)
Definition grpcPut (r : unit + KvError) : PbPutResponse :=
  match r with
  | inr (NotLeaderError lid addr http as e) => MkPbPut false (KvError_Error e) lid addr
  | inr e => MkPbPut false (KvError_Error e) "" ""
  | inl _ => MkPbPut true "" "" ""
  end.

Record PbStatusResponse := MkPbStatus {
  ps_Id : string; ps_State : string; ps_Term : Z; ps_LeaderId : string; ps_LeaderAddr : string;
  ps_VotedFor : string; ps_CommitIndex : Z; ps_LastApplied : Z; ps_LastLogIndex : Z;
  ps_SnapshotIndex : Z; ps_LogLen : Z; ps_KvSize : Z; ps_Peers : list string;
}.

(** The reply of the Status method. *)
Definition grpcStatus (st : Status) : PbStatusResponse :=
  MkPbStatus (ss_ID st) (ss_State st) (int64 (ss_Term st)) (ss_LeaderID st) (ss_LeaderAddr st)
    (ss_VotedFor st) (int64 (ss_CommitIndex st)) (int64 (ss_LastApplied st))
    (int64 (ss_LastLogIndex st)) (int64 (ss_SnapshotIndex st)) (int64 (ss_LogLen st))
    (int64 (ss_KVSize st)) (ss_Peers st).
