(* ===== verification/Http.v ===== *)
(** cmd/main.go: the command line's peer lists, how a node process is started,
    and the HTTP front end of a key-value server with its forwarding of requests
    from a follower to the leader.

    A request is what its handler reads of it; the exchange with the leader is
    the parameter [send].  The routes are those of [http.ServeMux]. *)
From Stdlib Require Import ZifyBool.
From S2P Require Import Prelude Types Utf8 Json JsonSpec Marshal DurableJson KvStore Text Node Persist Membership Snapshot Log Election RaftOps Read Machine Client Kv.
Open Scope Z_scope.
Open Scope go_scope.

(** ** [parsePeers] *)

(** One round of the loop, on a part between commas. *)
Definition parsePart (out : gmap string string) (part : text) : gmap string string :=
  let part := TrimSpace part in
  match part with
  | [] => out
  | _ =>
      match Cut 0x3D part with
      | (_, None) => out
      | (pid, Some addr) =>
          <[string_of_text (TrimSpace pid) := string_of_text (TrimSpace addr)]> out
      end
  end.

Definition parsePeers (s : string) : gmap string string :=
  let t := TrimSpace (text_of_string s) in
  match t with
  | [] => ∅
  | _ => foldl parsePart ∅ (Split 0x2C t)
  end.

(** ** Starting a node process *)

(** The flags of the command line. *)
Record Flags := MkFlags {
  fl_id : string; fl_raftAddr : string; fl_httpAddr : string; fl_peers : string;
  fl_httpPeers : string; fl_dev : bool; fl_data : string; fl_dataRoot : string; fl_join : bool;
}.

(** The maps [main] hands to [runNode]. *)
Definition mainPeers (fl : Flags) : gmap string string :=
  let peerAddrs := parsePeers (fl_peers fl) in
  let peerAddrs := if decide (size peerAddrs = 0%nat) then {[fl_id fl := fl_raftAddr fl]}
                   else peerAddrs in
  match peerAddrs !! fl_id fl with
  | Some _ => peerAddrs
  | None => <[fl_id fl := fl_raftAddr fl]> peerAddrs
  end.

Definition mainHTTP (fl : Flags) : gmap string string :=
  let httpAddrs := parsePeers (fl_httpPeers fl) in
  if decide (fl_httpAddr fl = ""%string) then httpAddrs
  else <[fl_id fl := fl_httpAddr fl]> httpAddrs.

(** The directory of [runNode]. *)
Definition dataDir (fl : Flags) : string :=
  if decide (fl_data fl = ""%string) then "data/" +:+ fl_id fl else fl_data fl.

(** [startNode] up to [node.Start]: [st] is what the data directory holds and
    [src] the random source. *)
Definition startNode (fl : Flags) (st : Storage) (src : list Z) : Server :=
  let peerAddrs := mainPeers fl in
  let httpAddrs := mainHTTP fl in
  let cfg := DefaultConfig (fl_id fl) peerAddrs in
  let cfg := MkConfig (cfg_ID cfg) (cfg_PeerAddrs cfg) (cfg_ElectionTimeoutMin cfg)
    (cfg_ElectionTimeoutMax cfg) (cfg_HeartbeatInterval cfg) (Some st) true
    (cfg_SnapshotThreshold cfg) httpAddrs (fl_join fl) in
  let kvSrv := SetHTTPAddrs httpAddrs (NewServer (NewNode cfg NewStore src)) in
  let node := SetTransport (NewGRPCTransport peerAddrs) (srv_raft kvSrv) in
  with_raft (Start (SetPeerHook node)) kvSrv.

(** ** Replies *)

Record Reply := MkReply { rp_Status : Z; rp_ContentType : string; rp_Body : text }.

Definition StatusOK : Z := 200.
Definition StatusBadRequest : Z := 400.
Definition StatusNotFound : Z := 404.
Definition StatusInternalServerError : Z := 500.
Definition StatusServiceUnavailable : Z := 503.

(** [json.NewEncoder(w).Encode(v)] ends the text with a newline; the keys of a
    map are in order. *)
Definition writeJSON (status : Z) (j : json) : Reply :=
  MkReply status "application/json" (print j ++ [0x0A]).

Definition writeErr (e : KvError) : Reply :=
  match e with
  | NotLeaderError lid addr http =>
      writeJSON StatusServiceUnavailable (JObj [
        jfield "error" (jstring "not_leader"); jfield "leader_addr" (jstring addr);
        jfield "leader_http" (jstring http); jfield "leader_id" (jstring lid);
        jfield "ok" (JBool false)])
  | RaftError ErrStaleLeader | RaftError ErrTimeout =>
      writeJSON StatusServiceUnavailable (JObj [
        jfield "error" (jstring "stale_leader"); jfield "ok" (JBool false)])
  | _ =>
      writeJSON StatusInternalServerError (JObj [
        jfield "error" (jstring (KvError_Error e)); jfield "ok" (JBool false)])
  end.

(** ** Forwarding *)

(** What a handler reads of a request: the method, the decoded path, the header
    [X-Raft-Forwarded] and the content type. *)
Record Request := MkRequest {
  rq_Method : string; rq_Path : text; rq_Forwarded : string; rq_ContentType : string;
}.

(** The request sent to the leader: its host, the path and query of its URL as
    text, its headers and its body. *)
Record Forwarded := MkForwarded {
  fw_Method : string; fw_Host : string; fw_URL : text; fw_Header : string;
  fw_ContentType : string; fw_Body : option bytes;
}.

(** A control character in a URL is an error. *)
Definition isControl (c : Z) : bool := (c <? 0x20) || (c =? 0x7F).

(** [url.Parse] of ["http://" + host + rest], for a host without special
    characters: the path before it is unescaped, or an error. *)
Definition parseURL (rest : text) : option text :=
  let '(u, fragment) := Cut 0x23 rest in
  if existsb isControl u then None
  else if decide (unescape (default [] fragment) = None) then None
  else
    let '(path, _) := Cut 0x3F u in
    match unescape path with Some _ => Some path | None => None end.

(** The guards of [forwardToLeader]: the address it forwards to. *)
Definition forwardAddr (r : Request) (s : Server) (e : KvError) : option string :=
  match e with
  | NotLeaderError _ _ http =>
      if decide (http = ""%string) then None
      else if decide (rq_Forwarded r ≠ ""%string) then None
      else if decide (OwnHTTP s ≠ ""%string ∧ OwnHTTP s = http) then None
      else Some http
  | _ => None
  end.

(** [None] is [false]: the request was not handled. *)
Definition forwardToLeader (send : Forwarded → option Reply) (r : Request) (s : Server)
    (e : KvError) (body : option bytes) : option Reply :=
  match forwardAddr r s e with
  | None => None
  | Some http =>
      match parseURL (rq_Path r) with
      | None => None
      | Some path =>
          send (MkForwarded (rq_Method r) http path "1" (rq_ContentType r) body)
      end
  end.

(** ** Handlers *)

(** The handler of [GET /kv/{key}] on the outcome of [Get]. *)
Definition getReply (send : Forwarded → option Reply) (r : Request) (key : string) (s : Server)
    (outcome : option string + KvError) : Reply :=
  match outcome with
  | inr e => match forwardToLeader send r s e None with
             | Some reply => reply
             | None => writeErr e
             end
  | inl None => writeJSON StatusNotFound (JObj [
      jfield "found" (JBool false); jfield "key" (jstring key)])
  | inl (Some v) => writeJSON StatusOK (JObj [
      jfield "found" (JBool true); jfield "key" (jstring key); jfield "value" (jstring v)])
  end.

(** [io.LimitReader(r.Body, 1<<20)]. *)
Definition maxBody : Z := 1048576.

Definition limitBody (body : bytes) : bytes := take (Z.to_nat maxBody) body.

(** The handler of [PUT /kv/{key}] before and after [Put]: the value it puts,
    and its reply. *)
Definition putValue (body : bytes) : string := string_of_text (text_of_bytes (limitBody body)).

Definition putReply (send : Forwarded → option Reply) (r : Request) (key : string) (body : bytes)
    (s : Server) (outcome : unit + KvError) : Reply :=
  match outcome with
  | inr e => match forwardToLeader send r s e (Some (limitBody body)) with
             | Some reply => reply
             | None => writeErr e
             end
  | inl _ => writeJSON StatusOK (JObj [jfield "key" (jstring key); jfield "ok" (JBool true)])
  end.

(** ** The handlers of [httpMux] *)

(** [http.Error]. *)
Definition httpError (status : Z) (msg : string) : Reply :=
  MkReply status "text/plain; charset=utf-8" (text_of_string msg ++ [0x0A]).

Definition handleHealth : Reply :=
  MkReply StatusOK "text/plain; charset=utf-8" (text_of_string "ok" ++ [0x0A]).

(** The JSON form of a [kv.Status]. *)
Definition jstatus (st : Status) : json :=
  JObj (jfield "id" (jstring (ss_ID st)) :: jfield "state" (jstring (ss_State st)) ::
    jfield "term" (jint (ss_Term st)) :: jfield "leader_id" (jstring (ss_LeaderID st)) ::
    omitempty (bool_decide (ss_LeaderAddr st = ""%string)) "leader_addr" (jstring (ss_LeaderAddr st)) ++
    omitempty (bool_decide (ss_LeaderHTTP st = ""%string)) "leader_http" (jstring (ss_LeaderHTTP st)) ++
    [jfield "voted_for" (jstring (ss_VotedFor st)); jfield "commit_index" (jint (ss_CommitIndex st));
     jfield "last_applied" (jint (ss_LastApplied st));
     jfield "last_log_index" (jint (ss_LastLogIndex st));
     jfield "snapshot_index" (jint (ss_SnapshotIndex st)); jfield "log_len" (jint (ss_LogLen st));
     jfield "kv_size" (jint (ss_KVSize st)); jfield "peers" (JArr (map jstring (ss_Peers st)))]).

Definition handleStatus (s : Server) : Reply := writeJSON StatusOK (jstatus (getStatus s)).

(** [None] is a handler whose call of the server still waits. *)
Definition handleGet (send : Forwarded → option Reply) (r : Request) (key : string)
    (sched : ReadSchedule) (late : list NodeOp) (s : Server) : Server * option Reply :=
  let '(s, outcome) := Get key sched late s in
  (s, getReply send r key s <$> outcome).

(** The body is what the client sends, or the error of reading it. *)
Definition handlePut (send : Forwarded → option Reply) (r : Request) (key : string)
    (body : bytes + string) (gap : list NodeOp) (ws : list Wake) (late : list NodeOp) (s : Server) :
    Server * option Reply :=
  match body with
  | inr err => (s, Some (httpError StatusBadRequest err))
  | inl b =>
      let '(s, outcome) := Put key (putValue b) gap ws late s in
      (s, putReply send r key b s <$> outcome)
  end.

(** The key [http.ServeMux] takes from a path [/kv/{key}]: one segment, decoded;
    other paths are not routed to the handlers (a path that is not clean is
    redirected). *)
Definition prefixKv : text := [0x2F; 0x6B; 0x76; 0x2F].

Fixpoint stripPrefix (p t : text) : option text :=
  match p, t with
  | [], _ => Some t
  | c :: p', d :: t' => if c =? d then stripPrefix p' t' else None
  | _, [] => None
  end.

Definition routeKey (path : text) : option text :=
  match stripPrefix prefixKv path with
  | Some k =>
      if bool_decide (k = [] ∨ k = [0x2E] ∨ k = [0x2E; 0x2E] ∨ 0x2F ∈ k) then None
      else unescape k
  | None => None
  end.

(** The key the leader's handler sees when a request for [key] is forwarded. *)
Definition forwardedKey (key : text) : option text :=
  match parseURL (prefixKv ++ key) with
  | Some path => routeKey path
  | None => None
  end.
