(* ===== verification/Bench.v ===== *)
(** cmd/bench/main.go: finding the leader through the status endpoint and
    counting the Puts that succeed, with the rows of the report.  Times and rates
    are left out; the HTTP client is a parameter, which gives the body or the
    status code of a response, or [None] for an error. *)
From S2P Require Import Prelude Types Utf8 Json JsonSpec Marshal DurableJson KvStore Text Node Persist Membership Snapshot Log Election RaftOps Read Machine Client Kv Http.
Open Scope Z_scope.
Open Scope go_scope.

(** ** The leader *)

(** The anonymous struct of [leaderHTTP]. *)
Record BenchStatus := MkBenchStatus { bs_State : string; bs_LeaderHTTP : string }.

Definition benchFields : list (string * (BenchStatus → json → option BenchStatus)) := [
  ("state", λ st j, (λ x, MkBenchStatus x (bs_LeaderHTTP st)) <$> getString (bs_State st) j);
  ("leader_http", λ st j, MkBenchStatus (bs_State st) <$> getString (bs_LeaderHTTP st) j)]%string.

(** [json.NewDecoder(r).Decode]: the first value of the text. *)
Definition decode {A} (get : json → option A) (s : text) : option A :=
  match jvalue (2 * S (length s)) 0 s with
  | Some (j, _) => get j
  | None => None
  end.

Definition leaderHTTP (get : string → option text) (base : string) : option string :=
  match get (base +:+ "/status") with
  | None => None
  | Some body =>
      match decode (readStruct benchFields (MkBenchStatus "" "")) body with
      | None => None
      | Some st =>
          if decide (bs_State st = "leader"%string) then Some base
          else if decide (bs_LeaderHTTP st = ""%string) then None
          else if String.prefix "http://" (bs_LeaderHTTP st)
                  || String.prefix "https://" (bs_LeaderHTTP st)
          then Some (bs_LeaderHTTP st)
          else Some ("http://" +:+ bs_LeaderHTTP st)
      end
  end.

(** One look per HTTP client of the list, until the deadline. *)
Fixpoint waitLeader (gets : list (string → option text)) (base : string) : option string :=
  match gets with
  | [] => None
  | get :: gets' =>
      match leaderHTTP get base with
      | Some addr => if decide (addr = ""%string) then waitLeader gets' base else Some addr
      | None => waitLeader gets' base
      end
  end.

(** ** Puts *)

(** Whether [put] succeeds: [send] answers the URL and the body. *)
Definition put (send : string → string → option Z) (leader key val : string) : bool :=
  match send (leader +:+ "/kv/" +:+ key) val with
  | Some status => bool_decide (status = StatusOK)
  | None => false
  end.

Record row := MkRow { r_ok : Z; r_fail : Z }.

Definition count (r : row) (done : bool) : row :=
  if done then MkRow (r_ok r + 1) (r_fail r) else MkRow (r_ok r) (r_fail r + 1).

Definition seqKey (i : nat) : string := "seq-" +:+ string_of_text (printInt (Z.of_nat i)).
Definition concKey (conc : Z) (i : nat) : string :=
  "c" +:+ string_of_text (printInt conc) +:+ "-" +:+ string_of_text (printInt (Z.of_nat i)).

Definition runSequential (send : string → string → option Z) (leader : string) (n : nat) : row :=
  foldl (λ r i, count r (put send leader (seqKey i) "v")) (MkRow 0 0) (seq 0 n).

(** The workers take the numbers from a channel: [order] is the order in which
    their Puts end. *)
Definition runConcurrent (send : string → string → option Z) (leader : string) (conc : Z)
    (order : list nat) : row :=
  foldl (λ r i, count r (put send leader (concKey conc i) "v")) (MkRow 0 0) order.

(** ** main

    The leader is awaited, then a sequential run and one run for each number of
    clients; the labels are those of the printed rows.  [None] is exit code 1. *)
Definition clientCounts : list Z := [4; 8; 16; 32].

Definition concLabel (c : Z) : string :=
  "concurrent " +:+ string_of_text (printInt c) +:+ " clients".

Definition main (gets : list (string → option text)) (send : string → string → option Z)
    (base : string) (seqN : nat) (order : Z → list nat) : option (list (string * row)) :=
  match waitLeader gets base with
  | None => None
  | Some leader =>
      Some (("sequential (1 client)"%string, runSequential send leader seqN) ::
            map (λ c, (concLabel c, runConcurrent send leader c (order c))) clientCounts)
  end.

(** ** What they find *)

Lemma readBack_skip {T} (fields : list (string * (T → json → option T))) x name j l :
  find (λ f, fieldIs (f.1) (clean (text_of_string name))) fields = None →
  readBack fields x (jfield name j :: l) = readBack fields x l.
Proof. intros Hf. unfold readBack. cbn [map foldl readMember jfield fst snd]. by rewrite Hf. Qed.

Lemma readBack_skip_omit {T} (fields : list (string * (T → json → option T))) x (b : bool) name j l :
  find (λ f, fieldIs (f.1) (clean (text_of_string name))) fields = None →
  readBack fields x (omitempty b name j ++ l) = readBack fields x l.
Proof. intros Hf. destruct b; [done|]. by apply readBack_skip. Qed.

(** The numbers of a status fit a Go [int]. *)
Definition status_fits (st : Status) : Prop :=
  in64 (ss_Term st) ∧ in64 (ss_CommitIndex st) ∧ in64 (ss_LastApplied st) ∧
  in64 (ss_LastLogIndex st) ∧ in64 (ss_SnapshotIndex st) ∧ in64 (ss_LogLen st) ∧
  in64 (ss_KVSize st).

Lemma fits_status st : status_fits st → fits 2 (jstatus st).
Proof.
  intros (?&?&?&?&?&?&?). apply (fits_object 1); [lia|].
  do 4 (apply fits_cons; [first [by apply fits_string|by apply fits_int]|]).
  do 2 (apply fits_omit; [by apply fits_string|]).
  do 7 (apply fits_cons; [first [by apply fits_string|by apply fits_int]|]).
  apply fits_cons; [|constructor]. apply (fits_array 0); [done|].
  apply Forall_fmap, Forall_true. intros x. by apply fits_string.
Qed.

(** A JSON reply is decoded to what was encoded. *)
Lemma decode_writeJSON {A} (get : json → option A) d status j :
  d ≤ maxNestingDepth → fits d j → decode get (rp_Body (writeJSON status j)) = get (jclean j).
Proof.
  intros Hd [Hp Hj]. unfold decode, writeJSON. cbn [rp_Body].
  pose proof (jneed_print j Hp) as Hn.
  assert (He : ends [0x0A]) by (right; right; by right).
  rewrite (jvalue_print j Hp); [done| |lia|done]. rewrite length_app. cbn [length]. lia.
Qed.

Lemma read_bench st :
  valid_string (ss_State st) → valid_string (ss_LeaderHTTP st) →
  readStruct benchFields (MkBenchStatus "" "") (jclean (jstatus st)) =
  Some (MkBenchStatus (ss_State st) (ss_LeaderHTTP st)).
Proof.
  destruct st as [id sta term lid laddr lhttp vf ci la ll si len size peers].
  cbn [ss_State ss_LeaderHTTP]. intros H1 H2. unfold jstatus.
  cbn [ss_ID ss_State ss_Term ss_LeaderID ss_LeaderAddr ss_LeaderHTTP].
  rewrite readStruct_back. rewrite readBack_skip by reflexivity.
  read_cons getString_clean. rewrite readBack_skip by reflexivity. rewrite readBack_skip by reflexivity.
  rewrite readBack_skip_omit by reflexivity. read_omit getString_clean empty_string_true.
  rewrite !readBack_skip by reflexivity. apply readBack_nil.
Qed.

Lemma State_String_leader x : State_String x = "leader"%string ↔ x = Leader.
Proof. by destruct x. Qed.

Lemma State_String_valid x : valid_string (State_String x).
Proof. by destruct x. Qed.

(** The benchmark finds the leader that a node's status reports: the node itself
    when it leads, otherwise the HTTP address it knows of its leader, and none
    when it knows none. *)
Theorem bench_finds_leader base (s : Server) :
  status_fits (getStatus s) → valid_string (ss_LeaderHTTP (getStatus s)) →
  leaderHTTP (λ _, Some (rp_Body (handleStatus s))) base =
  if IsLeader (srv_raft s) then Some base
  else let http := httpAddr (leaderID (srv_raft s)) s in
       if decide (http = ""%string) then None
       else if String.prefix "http://" http || String.prefix "https://" http then Some http
       else Some ("http://" +:+ http).
Proof.
  intros Hf Hv. unfold leaderHTTP, handleStatus.
  rewrite (decode_writeJSON _ 2 StatusOK); [|by unfold maxNestingDepth|by apply fits_status].
  rewrite read_bench; [|apply State_String_valid|done]. cbn [bs_State bs_LeaderHTTP].
  unfold IsLeader. cbn [getStatus ss_State ss_LeaderHTTP].
  destruct (decide (state (srv_raft s) = Leader)) as [E|E].
  - rewrite decide_True by (by apply State_String_leader). by rewrite bool_decide_eq_true_2.
  - rewrite decide_False by (by rewrite State_String_leader). by rewrite bool_decide_eq_false_2.
Qed.

Lemma foldl_count (f : nat → bool) l r :
  let r' := foldl (λ r i, count r (f i)) r l in
  r_ok r' = r_ok r + slen (filter (λ i, f i = true) l) ∧
  r_ok r' + r_fail r' = r_ok r + r_fail r + slen l.
Proof.
  revert r. unfold slen. induction l as [|i l IH]; intros r; cbn zeta; [cbn; lia|]. cbn [foldl].
  specialize (IH (count r (f i))). cbn zeta in IH. rewrite filter_cons.
  unfold count in *. destruct (f i) eqn:E; [rewrite decide_True by done|rewrite decide_False by done];
    cbn [length r_ok r_fail] in *; lia.
Qed.

(** Every Put is counted once, whatever the order in which the workers end: a
    concurrent run counts what a sequential one with the same keys would. *)
Theorem bench_counts send leader conc n order :
  order ≡ₚ seq 0 n →
  let r := runConcurrent send leader conc order in
  r_ok r + r_fail r = Z.of_nat n ∧
  r = runConcurrent send leader conc (seq 0 n).
Proof.
  intros Hp. cbn zeta. unfold runConcurrent.
  pose proof (foldl_count (λ i, put send leader (concKey conc i) "v") order (MkRow 0 0)) as H1.
  pose proof (foldl_count (λ i, put send leader (concKey conc i) "v") (seq 0 n) (MkRow 0 0)) as H2.
  cbn zeta in H1, H2. unfold slen in *. pose proof (length_seq n 0) as Hl.
  pose proof (Permutation_length Hp) as Hlen.
  assert (Hfl : length (filter (λ i, put send leader (concKey conc i) "v" = true) order) =
    length (filter (λ i, put send leader (concKey conc i) "v" = true) (seq 0 n))) by (by rewrite Hp).
  rewrite Hfl, Hlen in H1.
  destruct (foldl _ (MkRow 0 0) order) as [o1 f1]. destruct (foldl _ (MkRow 0 0) (seq 0 n)) as [o2 f2].
  cbn [r_ok r_fail] in *. split; [lia|]. f_equal; lia.
Qed.

(** The report of the benchmark: when a leader is found, five rows, each of which
    accounts for every Put of its run, none counted twice, however the clients of
    a level interleave. *)
Theorem bench_report gets send base seqN concN order rows :
  (∀ c, order c ≡ₚ seq 0 concN) → main gets send base seqN order = Some rows →
  length rows = 5%nat ∧
  ∀ k l r, rows !! k = Some (l, r) →
    r_ok r + r_fail r = Z.of_nat (if decide (k = 0)%nat then seqN else concN).
Proof.
  intros Ho. unfold main. destruct (waitLeader gets base) as [leader|]; [|done].
  intros [= <-]. split; [done|].
  assert (Hc : ∀ (f : nat → bool) l, r_ok (foldl (λ r i, count r (f i)) (MkRow 0 0) l) +
    r_fail (foldl (λ r i, count r (f i)) (MkRow 0 0) l) = slen l).
  { intros f l. destruct (foldl_count f l (MkRow 0 0)) as [_ H]. cbn [r_ok r_fail] in H. lia. }
  assert (Hlen : ∀ c, slen (order c) = Z.of_nat concN).
  { intros c. unfold slen. by rewrite (Ho c), length_seq. }
  intros [|k] l r H.
  - injection H as <- <-. rewrite decide_True by done. unfold runSequential.
    rewrite (Hc (λ i, put send leader (seqKey i) "v")). unfold slen. by rewrite length_seq.
  - rewrite decide_False by done.
    change (((λ c, (concLabel c, runConcurrent send leader c (order c))) <$> clientCounts) !! k = Some (l, r)) in H.
    apply list_lookup_fmap_Some in H as (c&E&_). injection E as -> ->. unfold runConcurrent. by rewrite (Hc (λ i, put send leader (concKey c i) "v")).
Qed.
