(* ===== verification/NodeInv.v ===== *)
(** The well-formedness invariant of a node and its preservation by every
    operation: the log is not empty and numbered without gaps from its dummy
    entry, and the configuration in use is the one the base membership and the
    log determine. *)
From S2P Require Import Prelude Types Node Persist Membership Snapshot Log Election RaftOps Read Machine.
Open Scope Z_scope.
Open Scope go_scope.

(** ** Logs without gaps *)

Definition contiguous (l : list LogEntry) : Prop :=
  l ≠ [] ∧ ∀ i e, l !! i = Some e →
    e_Index e = e_Index (default zeroEntry (head l)) + Z.of_nat i.

Lemma contiguous_singleton e : contiguous [e].
Proof.
  split; [done|]. intros i e' H. apply list_lookup_singleton_Some in H as [-> ->].
  simpl. lia.
Qed.

Lemma contiguous_take l k : (0 < k)%nat → contiguous l → contiguous (take k l).
Proof.
  intros Hk [Hne H]. destruct l as [|e0 l]; [done|]. destruct k; [lia|].
  split; [done|]. intros i e Hi. apply (H i e).
  by eapply prefix_lookup_Some; [|apply (prefix_take _ (S k))].
Qed.

Lemma contiguous_snoc l e :
  contiguous l →
  e_Index e = e_Index (default zeroEntry (head l)) + slen l →
  contiguous (l ++ [e]).
Proof.
  intros [Hne H] He. destruct l as [|e0 l]; [done|]. split; [done|].
  intros i e' Hi. apply lookup_app_Some in Hi as [Hi|[Hle Hi]]; [by apply (H i)|].
  apply list_lookup_singleton_Some in Hi as [Hi ->]. rewrite He.
  unfold slen. cbn [head default app] in *. f_equal. lia.
Qed.

Lemma contiguous_renumber l es :
  contiguous l →
  contiguous (l ++ renumber (e_Index (default zeroEntry (head l)) + slen l) es).
Proof.
  revert l. induction es as [|e es IH]; intros l Hl; simpl.
  - by rewrite app_nil_r.
  - set (x := MkEntry _ _ _ _). rewrite cons_middle, app_assoc.
    pose proof (contiguous_snoc l x Hl eq_refl) as Hx.
    specialize (IH _ Hx). revert IH. rewrite slen_app.
    destruct Hl as [Hne _]. destruct l as [|e0 l]; [done|].
    cbn [head default app]. by rewrite Z.add_assoc.
Qed.

(** Close [wf_node n'] from [H : wf_node n] when [n'] differs from [n] only in
    fields the invariant does not read. *)
Ltac wf_frame H :=
  let H1 := fresh in let H2 := fresh in let H3 := fresh in
  destruct H as [H1 H2 H3]; split; [exact H1|exact H2|exact H3].

Section inv.
Context {M : Type} `{!StateMachine M}.
Implicit Types n : RaftNode M.

Definition wf_log n : Prop := contiguous (log n).

(** The configuration in use is the one the log determines. *)
Definition wf_members n : Prop :=
  (peerAddrs n, peerHTTP n) = applyEntries (basePeers n, baseHTTP n) (tail (log n)) ∧
  peerIDs n = sorted_keys (peerAddrs n).

(** The invariant; without [full] it says less of the configuration, which an
    InstallSnapshot request that names no members leaves as it was. *)
Record wf_nodeB (full : bool) n : Prop := {
  wf_node_log : wf_log n;
  wf_node_members : if full then wf_members n else peerIDs n = sorted_keys (peerAddrs n);
  wf_node_applied : lastIncludedIndexLocked n ≤ lastApplied n;
}.
Arguments wf_node_log {full} n _.
Arguments wf_node_members {full} n _.
Arguments wf_node_applied {full} n _.

(** ** Reading a well-formed log *)

Lemma wf_log_last n :
  wf_log n → lastLogIndexLocked n = lastIncludedIndexLocked n + slen (log n) - 1.
Proof.
  intros [Hne H]. unfold lastLogIndexLocked, lastEntry, lastIncludedIndexLocked, firstEntry.
  destruct (last (log n)) as [e|] eqn:E.
  - rewrite last_lookup in E. apply H in E. simpl. rewrite E. unfold slen.
    destruct (log n); [done|]. simpl. lia.
  - by apply last_None in E.
Qed.

Lemma wf_log_nonempty n : wf_log n → 0 < slen (log n).
Proof. intros [Hne _]. unfold slen. destruct (log n); [done|]. simpl. lia. Qed.

Lemma entryAtLocked_eq n idx :
  entryAtLocked n idx = log n !z (idx - lastIncludedIndexLocked n).
Proof.
  unfold entryAtLocked, sliceIndexLocked. fold (lastIncludedIndexLocked n).
  case_decide as Hd; [|done]. symmetry. apply zlookup_None. lia.
Qed.

Lemma entryAtLocked_range n idx :
  wf_log n →
  is_Some (entryAtLocked n idx) ↔ lastIncludedIndexLocked n ≤ idx ≤ lastLogIndexLocked n.
Proof.
  intros Hwf. rewrite entryAtLocked_eq, zlookup_is_Some, (wf_log_last n Hwf). lia.
Qed.

Lemma entryAtLocked_index n idx e :
  wf_log n → entryAtLocked n idx = Some e → e_Index e = idx.
Proof.
  intros [Hne H]. rewrite entryAtLocked_eq. intros [? Hi]%zlookup_Some.
  apply H in Hi. unfold lastIncludedIndexLocked, firstEntry in *. lia.
Qed.

(** ** Shapes of the loops *)

Lemma broadcast_shape n :
  ∃ r s, broadcastAppendEntriesLocked n = set_spawned s (set_replicating r n).
Proof.
  unfold broadcastAppendEntriesLocked.
  assert (Hid : n = set_spawned (spawned n) (set_replicating (replicating n) n))
    by (by destruct n).
  destruct (transport n); [|by eexists _, _].
  enough (∀ ps r s, ∃ r' s',
    foldl broadcastTo (set_spawned s (set_replicating r n)) ps =
      set_spawned s' (set_replicating r' n)) as H by (rewrite Hid; apply H).
  induction ps as [|p ps IH]; intros r s; simpl; [by eauto|].
  unfold broadcastTo at 2. cbn. case_decide; [apply IH|].
  destruct (mapB r p); [apply IH|].
  apply (IH (<[p := true]> r) (s ++ [GoReplicateTo p])).
Qed.

Lemma advanceCommitFrom_shape fuel idx n :
  ∃ c, advanceCommitFrom fuel idx n = set_commitIndex c n.
Proof.
  assert (Hid : n = set_commitIndex (commitIndex n) n) by (by destruct n).
  revert idx. induction fuel as [|fuel IH]; intros idx; simpl; [by eauto|].
  repeat case_decide; eauto.
Qed.

Lemma advanceCommitLocked_shape n : ∃ c, advanceCommitLocked n = set_commitIndex c n.
Proof. apply advanceCommitFrom_shape. Qed.

Lemma applyLoop_shape fuel n :
  ∃ a m, lastApplied n ≤ a ∧ applyLoop fuel n = set_machine m (set_lastApplied a n).
Proof.
  revert n. induction fuel as [|fuel IH]; intros n; simpl.
  - exists (lastApplied n), (machine n). split; [done|]. by destruct n.
  - destruct (entryAtLocked n (lastApplied n + 1)) as [e|].
    + match goal with |- context [applyLoop fuel ?n'] => destruct (IH n') as (a&m&Ha&->) end.
      exists a, m. destruct (_ && _); cbn in *; (split; [lia|done]).
    + exists (lastApplied n), (machine n). split; [done|]. by destruct n.
Qed.

(** ** Preservation by the shared parts *)

Context {full : bool}.

Lemma wf_persist n : wf_nodeB full n → wf_nodeB full (persistLocked n).
Proof. intros H. destruct (persistLocked_shape n) as [s ->]. wf_frame H. Qed.

Lemma wf_reset n : wf_nodeB full n → wf_nodeB full (resetElectionTimerLocked n).
Proof. intros H. destruct (resetElectionTimerLocked_shape n) as (d&r&->). wf_frame H. Qed.

Lemma wf_notify n : wf_nodeB full n → wf_nodeB full (notifyPeersLocked n).
Proof. intros H. destruct (notifyPeersLocked_shape n) as (t&h&->). wf_frame H. Qed.

Lemma wf_ensure n : wf_nodeB full n → wf_nodeB full (ensurePeerTrackingLocked n).
Proof. intros H. destruct (ensurePeerTrackingLocked_shape n) as (x&m&->). wf_frame H. Qed.

Lemma wf_broadcast n : wf_nodeB full n → wf_nodeB full (broadcastAppendEntriesLocked n).
Proof. intros H. destruct (broadcast_shape n) as (r&s&->). wf_frame H. Qed.

Lemma wf_advance n : wf_nodeB full n → wf_nodeB full (advanceCommitLocked n).
Proof. intros H. destruct (advanceCommitLocked_shape n) as [c ->]. wf_frame H. Qed.

Lemma wf_applyLoop fuel n : wf_nodeB full n → wf_nodeB full (applyLoop fuel n).
Proof.
  intros [H1 H2 H3]. destruct (applyLoop_shape fuel n) as (a&m&Ha&->).
  split; [done|done|]. unfold lastIncludedIndexLocked, firstEntry in *. cbn in *. lia.
Qed.

Lemma wf_becomeFollower t l n : wf_nodeB full n → wf_nodeB full (becomeFollowerLocked t l n).
Proof.
  intros H. unfold becomeFollowerLocked. case_decide.
  - match goal with |- context [persistLocked ?x] =>
      destruct (persistLocked_shape x) as [s ->] end. wf_frame H.
  - wf_frame H.
Qed.

(** Rebuilding the membership makes it agree with the log, whatever it was. *)
Lemma wf_rebuild n :
  wf_log n → lastIncludedIndexLocked n ≤ lastApplied n →
  wf_nodeB full (rebuildMembershipLocked n).
Proof.
  intros Hl Ha. rewrite rebuildMembershipLocked_eq. cbn zeta.
  split; [done| |done]. destruct full; [|done]. split; cbn; [by destruct (applyEntries _ _)|done].
Qed.

(** Appending an entry without a change keeps the configuration. *)
Lemma wf_appendLog e n :
  wf_nodeB full n → e_Change e = None → e_Index e = lastLogIndexLocked n + 1 →
  wf_nodeB full (appendLog e n).
Proof.
  intros [H1 Hm H3] Hc Hi. rewrite (wf_log_last n H1) in Hi.
  assert (Hl : wf_log (appendLog e n)).
  { apply contiguous_snoc; [done|].
    unfold lastIncludedIndexLocked, firstEntry in Hi. lia. }
  destruct (log n) as [|e0 l] eqn:El; [by destruct H1|].
  split; [done| |].
  - destruct full; [|done]. destruct Hm as [H2 H2']. split; [|done]. unfold appendLog. cbn.
    rewrite El in *. cbn. cbn in H2. rewrite applyEntries_app, <- H2.
    unfold applyEntries. cbn. unfold applyEntry. by rewrite Hc.
  - unfold appendLog, lastIncludedIndexLocked, firstEntry in *. cbn in *.
    rewrite El in *. done.
Qed.

(** ** Compaction *)

(** The base membership of a compacted log together with the suffix gives the
    configuration of the whole log. *)
Lemma membershipAt_split n index :
  wf_log n → lastIncludedIndexLocked n ≤ index ≤ lastLogIndexLocked n →
  let k := Z.to_nat (index - lastIncludedIndexLocked n) in
  membershipAtLocked index n =
    applyEntries (basePeers n, baseHTTP n) (take k (tail (log n))).
Proof.
  intros Hwf Hr k. unfold membershipAtLocked. f_equal.
  rewrite <- (take_drop k (tail (log n))) at 1.
  rewrite (wf_log_last n Hwf) in Hr. destruct Hwf as [Hne Hc].
  unfold lastIncludedIndexLocked, firstEntry in *.
  destruct (log n) as [|e0 l] eqn:El; [done|]. cbn in *.
  apply entriesUpTo_split.
  - apply Forall_lookup_2. intros i e Hi. apply lookup_take_Some in Hi as [Hi ?].
    specialize (Hc (S i) e Hi). lia.
  - intros e He. rewrite head_lookup, lookup_drop in He.
    rewrite Nat.add_0_r in He. specialize (Hc (S k) e He). lia.
Qed.

Lemma wf_compact index n :
  wf_nodeB full n → index ≤ lastApplied n → wf_nodeB full (compactLocked index n).
Proof.
  intros Hwf Hap. unfold compactLocked. case_decide as Hlt; [done|].
  destruct (entryAtLocked n index) as [e|] eqn:Ee; [|done].
  destruct (sm_snapshot (machine n)) as [data|]; [|done]. case_decide; [done|].
  destruct (membershipAtLocked index n) as [peers http].
  apply wf_persist, wf_notify, wf_rebuild; [|exact Hap].
  pose proof (wf_node_log _ Hwf) as [Hne Hc].
  split; [done|]. cbn [log set_log set_snapshot set_basePeers set_baseHTTP head default].
  intros [|i] e' Hi; [simplify_eq/=; lia|].
  - change (drop (Z.to_nat (sliceIndexLocked n index + 1)) (log n) !! i = Some e') in Hi.
    rewrite lookup_drop in Hi. apply Hc in Hi. rewrite Hi.
    unfold sliceIndexLocked, lastIncludedIndexLocked in *.
    unfold firstEntry in *. cbn. lia.
Qed.

Lemma wf_maybeCompact n : wf_nodeB full n → wf_nodeB full (maybeCompactLocked n).
Proof.
  intros H. unfold maybeCompactLocked. destruct (_ || _); [done|].
  case_decide; [done|]. by apply wf_compact.
Qed.

Lemma wf_applyCommitted n : wf_nodeB full n → wf_nodeB full (applyCommittedLocked n).
Proof. intros H. by apply wf_maybeCompact, wf_applyLoop. Qed.
End inv.
Arguments wf_node_log {M full} n _.
Arguments wf_node_members {M full} n _.
Arguments wf_node_applied {M full} n _.

#[export] Hint Resolve wf_persist wf_reset wf_notify wf_ensure wf_broadcast wf_advance
  wf_becomeFollower wf_applyCommitted : raft.

(** ** The reconciliation loop of HandleAppendEntries *)

Section reconcile.
Context {M : Type} `{!StateMachine M} {full : bool}.
Implicit Types n : RaftNode M.

Lemma length_renumber idx es : length (renumber idx es) = length es.
Proof. revert idx. induction es as [|e es IH]; intros idx; cbn; [done|]. by rewrite IH. Qed.

(** What the loop over the entries of a request leaves: nothing changes when
    every entry is already there with its term; otherwise the log is cut at the
    first entry that is missing or differs, and the rest of the request follows. *)
Lemma reconcile_spec es idx n :
  wf_log n → lastIncludedIndexLocked n < idx ≤ lastLogIndexLocked n + 1 →
  let present j e := ∃ x, entryAtLocked n (idx + Z.of_nat j) = Some x ∧ e_Term x = e_Term e in
  (reconcile es idx n = (n, false) ∧ ∀ j e, es !! j = Some e → present j e) ∨
  (∃ k e, es !! k = Some e ∧ ¬ present k e ∧
     (∀ j e', (j < k)%nat → es !! j = Some e' → present j e') ∧
     idx + Z.of_nat k ≤ lastLogIndexLocked n + 1 ∧
     reconcile es idx n =
       (set_log (take (Z.to_nat (idx + Z.of_nat k - lastIncludedIndexLocked n)) (log n) ++
                 renumber (idx + Z.of_nat k) (drop k es)) n, true)).
Proof.
  intros Hwf. revert idx. induction es as [|e es IH]; intros idx Hidx present.
  { left. by split. }
  cbn [reconcile]. destruct (entryAtLocked n idx) as [x|] eqn:Ex.
  - assert (Hlast : idx ≤ lastLogIndexLocked n).
    { apply (entryAtLocked_range n idx Hwf). by eexists. }
    case_decide as Ht.
    + right. exists 0%nat, e. rewrite Z.add_0_r. split_and!; [done| |lia..|].
      { intros (y&Hy&?). rewrite Z.add_0_r, Ex in Hy. by simplify_eq. }
      rewrite decide_False; [done|].
      unfold sliceIndexLocked, lastIncludedIndexLocked in *. lia.
    + destruct (IH (idx + 1) ltac:(lia)) as [[Hr Hp]|(k&e'&Hk&Hn&Hp&Hle&Hr)].
      * left. split; [done|]. intros [|j] e' Hj; cbn in Hj.
        { simplify_eq. exists x. rewrite Z.add_0_r. split; [done|]. lia. }
        destruct (Hp j e' Hj) as (y&Hy&?). exists y. split; [|done].
        by rewrite Nat2Z.inj_succ, Z.add_succ_r, <- Z.add_succ_l.
      * right. exists (S k), e'.
        replace (idx + Z.of_nat (S k)) with (idx + 1 + Z.of_nat k) by lia.
        split_and!; [done| | |lia|exact Hr].
        { intros (y&Hy&?). apply Hn. exists y. split; [|done].
          by rewrite Nat2Z.inj_succ, Z.add_succ_r, <- Z.add_succ_l in Hy. }
        intros [|j] e'' Hj He; cbn in He.
        { simplify_eq. exists x. rewrite Z.add_0_r. split; [done|]. lia. }
        destruct (Hp j e'' ltac:(lia) He) as (y&Hy&?). exists y. split; [|done].
        by rewrite Nat2Z.inj_succ, Z.add_succ_r, <- Z.add_succ_l.
  - right. exists 0%nat, e. rewrite Z.add_0_r. split_and!; [done| |lia..|].
    { intros (y&Hy&?). by rewrite Z.add_0_r, Ex in Hy. }
    unfold appendEntriesLocked. rewrite take_ge; [done|].
    rewrite (wf_log_last n Hwf) in Hidx. apply eq_None_not_Some in Ex.
    rewrite entryAtLocked_range, (wf_log_last n Hwf) in Ex by done.
    unfold slen in *. lia.
Qed.

(** Any request leaves a log without gaps and the same dummy entry. *)
Lemma reconcile_wf es idx n :
  wf_log n → lastIncludedIndexLocked n < idx ≤ lastLogIndexLocked n + 1 →
  ∃ l d, reconcile es idx n = (set_log l n, d) ∧ contiguous l ∧ head l = head (log n) ∧
    (d = false → l = log n).
Proof.
  intros Hwf Hidx.
  destruct (reconcile_spec es idx n Hwf Hidx) as [[-> _]|(k&e&_&_&_&Hle&->)].
  - exists (log n), false. split_and!; [|done..]. by destruct n.
  - eexists _, true. split; [done|].
    set (c := Z.to_nat _). assert (0 < c)%nat by lia.
    assert (Hc : (c ≤ length (log n))%nat).
    { rewrite (wf_log_last n Hwf) in Hle. unfold slen in *. lia. }
    pose proof Hwf as [Hne _].
    assert (Hh : head (take c (log n)) = head (log n)) by (destruct (log n), c; done || lia).
    split_and!; [|by destruct (log n), c; (done || lia)|done].
    replace (idx + Z.of_nat k) with
      (e_Index (default zeroEntry (head (take c (log n)))) + slen (take c (log n))).
    { by apply contiguous_renumber, contiguous_take. }
    rewrite Hh. unfold slen. rewrite length_take_le by done.
    unfold lastIncludedIndexLocked, firstEntry in *. lia.
Qed.

Lemma wf_acceptLeader t l n : wf_nodeB full n → wf_nodeB full (acceptLeader t l n).
Proof.
  intros H. unfold acceptLeader.
  assert (H' : wf_nodeB full (if decide (t > currentTerm n ∨ state n ≠ Follower)
    then becomeFollowerLocked t l n else n)) by (case_decide; eauto with raft).
  revert H'. generalize (if decide (t > currentTerm n ∨ state n ≠ Follower)
    then becomeFollowerLocked t l n else n). intros n' H'.
  assert (H'' : wf_nodeB full (set_leaderID l n')) by (wf_frame H').
  wf_frame (wf_reset _ H'').
Qed.

Lemma wf_followCommit c n : wf_nodeB full n → wf_nodeB full (followCommit c n).
Proof.
  intros H. unfold followCommit. case_decide; [|done]. apply wf_applyCommitted.
  case_decide; wf_frame H.
Qed.

Lemma wf_HandleAppendEntries req n : wf_nodeB full n → wf_nodeB full (HandleAppendEntries req n).1.
Proof.
  intros H. unfold HandleAppendEntries. case_decide; [done|].
  pose proof (wf_acceptLeader (ae_Term req) (ae_LeaderID req) n H) as Ha. revert Ha.
  generalize (acceptLeader (ae_Term req) (ae_LeaderID req) n). clear H. intros n0 Ha.
  case_decide as Hlt; [done|].
  destruct (entryAtLocked n0 (ae_PrevLogIndex req)) as [prev|] eqn:Ep; [|done].
  case_decide; [done|].
  assert (Hr : lastIncludedIndexLocked n0 ≤ ae_PrevLogIndex req ≤ lastLogIndexLocked n0).
  { apply entryAtLocked_range; [apply Ha|by eexists]. }
  destruct (reconcile_wf (ae_Entries req) (ae_PrevLogIndex req + 1) n0 (wf_node_log _ Ha)
    ltac:(lia)) as (l&d&->&Hl&Hh&Hd). cbn. apply wf_followCommit.
  destruct d; [|rewrite Hd by done; by destruct n0].
  apply wf_persist, wf_notify, wf_rebuild; [done|].
  pose proof (wf_node_applied _ Ha). unfold lastIncludedIndexLocked, firstEntry in *.
  cbn in *. by rewrite Hh.
Qed.

Lemma wf_restoreMachine b n : wf_nodeB full n → wf_nodeB full (restoreMachine b n).
Proof. intros H. unfold restoreMachine. case_match; wf_frame H. Qed.

Lemma restoreMachine_shape b n : ∃ s, restoreMachine b n = set_machine s n.
Proof.
  unfold restoreMachine. case_match; [by eauto|]. exists (machine n). by destruct n.
Qed.

(** After [adoptMembers] the configuration agrees with a log that is only a
    dummy entry. *)
Lemma adoptMembers_spec req n e :
  log n = [e] → is_Peers req ≠ ∅ →
  ∃ t h, adoptMembers req n =
    set_hookCalls h (set_transport t (set_peerIDs (sorted_keys (is_Peers req))
      (set_peerHTTP (is_HTTP req) (set_peerAddrs (is_Peers req)
        (set_baseHTTP (is_HTTP req) (set_basePeers (is_Peers req) n)))))).
Proof.
  intros Hl Hp. unfold adoptMembers. rewrite decide_True by (by apply map_size_pos).
  match goal with |- context [notifyPeersLocked ?x] =>
    destruct (notifyPeersLocked_shape x) as (t&h&->) end.
  exists t, h. rewrite rebuildMembershipLocked_eq. cbn. by rewrite Hl.
Qed.

(** What a node looks like after it has adopted a snapshot. *)
Lemma adoptSnapshot_shape req n :
  is_Peers req ≠ ∅ →
  ∃ t h s, adoptSnapshot req n =
    persistLocked (set_commitIndex (Z.max (commitIndex n) (is_LastIncludedIndex req))
    (set_lastApplied (is_LastIncludedIndex req) (set_machine s
    (set_hookCalls h (set_transport t (set_peerIDs (sorted_keys (is_Peers req))
    (set_peerHTTP (is_HTTP req) (set_peerAddrs (is_Peers req)
    (set_baseHTTP (is_HTTP req) (set_basePeers (is_Peers req)
    (set_snapshot (is_Data req)
    (set_log [dummyEntry (is_LastIncludedTerm req) (is_LastIncludedIndex req)] n)))))))))))).
Proof.
  intros Hp. unfold adoptSnapshot.
  set (n1 := set_snapshot _ _).
  destruct (adoptMembers_spec req n1 _ eq_refl Hp) as (t&h&->).
  set (n2 := set_hookCalls h _).
  assert (∃ s, (if snapshotterSet n2 && bool_decide (snapshot n2 ≠ [])
    then restoreMachine (snapshot n2) n2 else n2) = set_machine s n2) as [s ->].
  { destruct (_ && _); [apply restoreMachine_shape|]. exists (machine n2). by destruct n. }
  exists t, h, s. f_equal. cbn. case_decide.
  - by rewrite Z.max_r by lia.
  - rewrite Z.max_l by lia. by destruct n.
Qed.

(** A snapshot that names no members leaves the configuration as it was. *)
Lemma wf_adoptSnapshot req n :
  peerIDs n = sorted_keys (peerAddrs n) → (full = true → is_Peers req ≠ ∅) →
  wf_nodeB full (adoptSnapshot req n).
Proof.
  intros Hids Hp. destruct (decide (is_Peers req = ∅)) as [He|Hne].
  - assert (Hf : full = false) by (destruct full; [by destruct (Hp eq_refl)|done]).
    assert (Hs : ¬ (0 < size (is_Peers req))%nat) by (rewrite map_size_pos; tauto).
    unfold adoptSnapshot, adoptMembers. rewrite (decide_False (P := (0 < size _)%nat) _ _ Hs).
    apply wf_persist. set (n1 := set_snapshot _ _).
    assert (∃ s, (if snapshotterSet n1 && bool_decide (snapshot n1 ≠ [])
      then restoreMachine (snapshot n1) n1 else n1) = set_machine s n1) as [s ->].
    { destruct (_ && _); [apply restoreMachine_shape|]. exists (machine n1). by destruct n. }
    case_decide; (split; [apply contiguous_singleton|by rewrite Hf|done]).
  - destruct (adoptSnapshot_shape req n Hne) as (t&h&s&->).
    apply wf_persist. split; [apply contiguous_singleton|by destruct full|done].
Qed.

Lemma wf_HandleInstallSnapshot req n :
  wf_nodeB full n → (full = true → is_Peers req ≠ ∅) →
  wf_nodeB full (HandleInstallSnapshot req n).1.
Proof.
  intros H Hp. unfold HandleInstallSnapshot. case_decide; [done|].
  pose proof (wf_acceptLeader (is_Term req) (is_LeaderID req) n H) as Ha.
  case_decide; [done|]. cbn [fst]. apply wf_adoptSnapshot; [|done].
  destruct Ha as [_ Hm _]. by destruct full; [destruct Hm|].
Qed.
End reconcile.

#[export] Hint Resolve wf_HandleAppendEntries wf_followCommit : raft.

(** ** Every operation *)

Section operations.
Context {M : Type} `{!StateMachine M} {full : bool}.
Implicit Types n : RaftNode M.

Lemma wf_elected n : wf_nodeB full n → wf_nodeB full (elected n).
Proof.
  intros H. unfold elected. apply wf_persist.
  set (n1 := set_leaderID _ _). set (e := MkEntry _ _ _ _).
  assert (H' : wf_nodeB full (appendLog e n1)) by (apply wf_appendLog; [wf_frame H|done|done]).
  wf_frame H'.
Qed.

Lemma wf_becomeLeader n : wf_nodeB full n → wf_nodeB full (becomeLeaderLocked n).
Proof. intros H. by apply wf_broadcast, wf_applyCommitted, wf_advance, wf_elected. Qed.

Lemma requestVotes_shape req ps n :
  ∃ s, foldl (requestVoteFrom req) n ps = set_spawned s n.
Proof.
  revert n. induction ps as [|p ps IH]; intros n; cbn.
  - exists (spawned n). by destruct n.
  - unfold requestVoteFrom at 2. case_decide; [apply IH|].
    destruct (IH (go (GoSendRequestVote p req) n)) as [s ->]. by exists s.
Qed.

Lemma wf_becomeCandidate n : wf_nodeB full n → wf_nodeB full (becomeCandidate n).
Proof. intros H. unfold becomeCandidate. apply wf_persist, wf_reset. wf_frame H. Qed.

Lemma wf_startElection n : wf_nodeB full n → wf_nodeB full (startElectionLocked n).
Proof.
  intros H. unfold startElectionLocked. destruct (_ || _); [by apply wf_reset|].
  pose proof (wf_becomeCandidate n H) as Hc. revert Hc.
  generalize (becomeCandidate n). intros c Hc. case_decide; [by apply wf_becomeLeader|].
  destruct (requestVotes_shape (voteRequest c) (peerIDs c) c) as [s ->]. wf_frame Hc.
Qed.

Lemma wf_HandleRequestVote req n : wf_nodeB full n → wf_nodeB full (HandleRequestVote req n).1.
Proof.
  intros H. unfold HandleRequestVote. case_decide; [done|].
  assert (H' : wf_nodeB full (if decide (rv_Term req > currentTerm n)
    then becomeFollowerLocked (rv_Term req) "" n else n)) by (case_decide; eauto with raft).
  revert H'. generalize (if decide (rv_Term req > currentTerm n)
    then becomeFollowerLocked (rv_Term req) "" n else n). intros n' H'.
  destruct (_ && _); cbn [fst]; [|done]. apply wf_persist, wf_reset. wf_frame H'.
Qed.

Lemma wf_requestVoteReply peer req resp n :
  wf_nodeB full n → wf_nodeB full (requestVoteReply peer req resp n).
Proof.
  intros H. unfold requestVoteReply. case_decide; [eauto with raft|].
  case_decide; [done|]. destruct (negb _); [done|].
  case_decide; [apply wf_becomeLeader|]; wf_frame H.
Qed.

Lemma wf_tick n : wf_nodeB full n → wf_nodeB full (tick n).
Proof.
  intros H. unfold tick. apply wf_applyCommitted. destruct (state n).
  1,2: destruct (_ && _); [by apply wf_startElection|done].
  case_decide; [|done]. apply wf_broadcast. wf_frame H.
Qed.

Lemma wf_recordOwn i n : wf_nodeB full n → wf_nodeB full (recordOwn i n).
Proof.
  intros H. unfold recordOwn. apply wf_broadcast, wf_applyCommitted, wf_advance.
  wf_frame H.
Qed.

Lemma wf_Propose cmd n : wf_nodeB full n → wf_nodeB full (Propose cmd n).1.
Proof.
  intros H. unfold Propose. destruct (stopped n); [done|]. case_decide; [done|].
  by apply wf_recordOwn, wf_persist, wf_appendLog.
Qed.

Lemma wf_proposeChange ch n : wf_nodeB full n → wf_nodeB full (proposeChangeLocked ch n).1.
Proof.
  intros H. unfold proposeChangeLocked. destruct (stopped n); [done|].
  case_decide; [done|]. destruct (hasUncommittedConfigLocked n); [done|].
  destruct (changedPeers ch n) as [[peers http]|]; [|done]. cbn [fst].
  apply wf_recordOwn, wf_persist, wf_notify, wf_ensure, wf_rebuild.
  - apply contiguous_snoc; [apply H|]. cbn.
    rewrite (wf_log_last n (wf_node_log _ H)).
    unfold lastIncludedIndexLocked, firstEntry. lia.
  - pose proof (wf_node_applied _ H). pose proof (wf_node_log _ H) as [? _].
    unfold lastIncludedIndexLocked, firstEntry, appendLog in *. cbn in *.
    by destruct (log n).
Qed.

Lemma wf_replicateHead peer n : wf_nodeB full n → wf_nodeB full (replicateHead peer n).1.
Proof.
  intros H. unfold replicateHead. case_decide; [done|].
  destruct (shouldInstallSnapshotLocked peer n); [done|].
  assert (H' : wf_nodeB full (makeAppendRequestLocked peer n).1).
  { unfold makeAppendRequestLocked. repeat case_decide; [done|..]; case_match; wf_frame H. }
  destruct (makeAppendRequestLocked peer n) as [n' [r|]]; exact H'.
Qed.

Lemma wf_replicateReply peer m x n :
  wf_nodeB full n →
  wf_nodeB full (applyCommittedLocked (advanceCommitLocked (put_nextIndex peer x (put_matchIndex peer m n)))).
Proof. intros H. apply wf_applyCommitted, wf_advance. wf_frame H. Qed.

Lemma wf_replicateInstallReply peer req term resp n :
  wf_nodeB full n → wf_nodeB full (replicateInstallReply peer req term resp n).1.
Proof.
  intros H. unfold replicateInstallReply. case_decide; [done|].
  case_decide; cbn [fst]; [eauto with raft|]. by apply wf_replicateReply.
Qed.

Lemma wf_replicateAppendReply peer req term resp n :
  wf_nodeB full n → wf_nodeB full (replicateAppendReply peer req term resp n).1.
Proof.
  intros H. unfold replicateAppendReply. case_decide; [done|].
  case_decide; cbn [fst]; [eauto with raft|].
  destruct (aer_Success resp); cbn [fst]; [by apply wf_replicateReply|].
  repeat case_decide; wf_frame H.
Qed.

(** The requests a node may be sent: a snapshot names the members it is for. *)
Definition op_ok (op : NodeOp) : Prop :=
  match op with
  | OpHandleInstallSnapshot req => is_Peers req ≠ ∅
  | _ => True
  end.

Lemma wfB_runOp op n : wf_nodeB full n → (full = true → op_ok op) → wf_nodeB full (runOp op n).
Proof.
  intros H Hop. destruct op; cbn [runOp].
  - by apply wf_tick.
  - by apply wf_HandleRequestVote.
  - by apply wf_HandleAppendEntries.
  - by apply wf_HandleInstallSnapshot.
  - by apply wf_requestVoteReply.
  - by apply wf_replicateHead.
  - by apply wf_replicateInstallReply.
  - by apply wf_replicateAppendReply.
  - wf_frame H.
  - by apply wf_Propose.
  - unfold AddServer. case_decide; [done|]. by apply wf_proposeChange.
  - unfold RemoveServer. case_decide; [done|]. by apply wf_proposeChange.
  - unfold waitCommittedPoll. case_decide; [done|]. case_match; [done|]. by apply wf_broadcast.
  - unfold confirmReply. case_decide; cbn [fst]; eauto with raft.
  - by apply wf_reset.
  - unfold Stop. case_match; wf_frame H.
  - wf_frame H.
Qed.

Lemma wfB_runOps ops n :
  wf_nodeB full n → (full = true → Forall op_ok ops) → wf_nodeB full (runOps ops n).
Proof.
  revert n. induction ops as [|op ops IH]; intros n H Ho; cbn; [done|].
  apply IH; [apply wfB_runOp; [done|]|]; intros Hf; by destruct (Forall_cons_1 _ _ _ (Ho Hf)).
Qed.

Lemma wf_fresh cfg (m : M) src : wf_nodeB full (freshNode cfg m src).
Proof. split; [apply contiguous_singleton|by destruct full|done]. Qed.
End operations.

(** The whole invariant. *)
Abbreviation wf_node := (wf_nodeB true).

Lemma wf_runOp {M} `{!StateMachine M} op (n : RaftNode M) :
  wf_node n → op_ok op → wf_node (runOp op n).
Proof. intros. by apply wfB_runOp. Qed.

Lemma wf_runOps {M} `{!StateMachine M} ops (n : RaftNode M) :
  wf_node n → Forall op_ok ops → wf_node (runOps ops n).
Proof. intros. by apply wfB_runOps. Qed.
