(* ===== verification/LogSpec.v ===== *)
(** Functional behaviour of raft/log.go on a well-formed node: the commit rule,
    the apply loop and the request a leader builds for a peer. *)
From S2P Require Import Prelude Types Node Persist Membership Snapshot Log Election RaftOps Read Machine NodeInv.
Open Scope Z_scope.
Open Scope go_scope.

Section log_spec.
Context {M : Type} `{!StateMachine M}.
Implicit Types n : RaftNode M.

(** ** The commit rule *)

(** Index [idx] may be committed: its entry is of the current term and a
    majority has it. *)
Definition committable n (idx : Z) : Prop :=
  termAtLocked n idx = Some (currentTerm n) ∧ majority n ≤ replicatedOn n idx.

Lemma advanceCommitFrom_spec fuel idx n :
  (advanceCommitFrom fuel idx n = n ∧
     ∀ j, idx - Z.of_nat fuel < j ≤ idx → ¬ committable n j) ∨
  (∃ c, idx - Z.of_nat fuel < c ≤ idx ∧ committable n c ∧
     (∀ j, c < j ≤ idx → ¬ committable n j) ∧
     advanceCommitFrom fuel idx n = set_commitIndex c n).
Proof.
  revert idx. induction fuel as [|fuel IH]; intros idx.
  { left. split; [done|]. intros; lia. }
  cbn [advanceCommitFrom].
  assert (Hno : ¬ committable n idx → advanceCommitFrom (S fuel) idx n = advanceCommitFrom fuel (idx - 1) n).
  { intros Hc. cbn. case_decide; [|done]. case_decide; [|done]. by destruct Hc. }
  assert (Hdec : committable n idx ∨ ¬ committable n idx).
  { unfold committable. destruct (decide (termAtLocked n idx = Some (currentTerm n)));
      destruct (decide (majority n ≤ replicatedOn n idx)); tauto. }
  destruct Hdec as [Hc|Hc].
  - right. exists idx. split_and!; [lia..|done|intros; lia|].
    destruct Hc. by rewrite !decide_True.
  - cbn [advanceCommitFrom] in Hno. rewrite Hno by done.
    destruct (IH (idx - 1)) as [[-> Hj]|(c&Hr&Hcc&Hj&->)].
    + left. split; [done|]. intros j ?. destruct (decide (j = idx)) as [->|]; [done|].
      apply Hj. lia.
    + right. exists c. split_and!; [lia..|done| |done].
      intros j ?. destruct (decide (j = idx)) as [->|]; [done|]. apply Hj. lia.
Qed.

(** [advanceCommitLocked] moves the commit index to the highest index above it
    that may be committed, and leaves the node alone when there is none. *)
Lemma advanceCommitLocked_spec n :
  commitIndex n ≤ lastLogIndexLocked n →
  (advanceCommitLocked n = n ∧
     ∀ j, commitIndex n < j ≤ lastLogIndexLocked n → ¬ committable n j) ∨
  (∃ c, commitIndex n < c ≤ lastLogIndexLocked n ∧ committable n c ∧
     (∀ j, c < j ≤ lastLogIndexLocked n → ¬ committable n j) ∧
     advanceCommitLocked n = set_commitIndex c n).
Proof.
  intros Hle. unfold advanceCommitLocked.
  destruct (advanceCommitFrom_spec (Z.to_nat (lastLogIndexLocked n - commitIndex n))
    (lastLogIndexLocked n) n) as [[-> Hj]|(c&Hr&Hcc&Hj&->)].
  - left. split; [done|]. intros j ?. apply Hj. lia.
  - right. exists c. split_and!; [lia..|done|done|done].
Qed.

(** ** The apply loop *)

(** What applying one entry does to the state machine. *)
Definition applyOne (callback : bool) (m : M) (e : LogEntry) : M :=
  if callback && bool_decide (e_Change e = None)
  then sm_apply (MkApplyMsg (e_Index e) (e_Command e)) m else m.

Lemma applyLoop_eq k n :
  wf_log n → lastIncludedIndexLocked n ≤ lastApplied n →
  lastApplied n + Z.of_nat k ≤ lastLogIndexLocked n →
  applyLoop k n =
    set_machine (foldl (applyOne (applySet n)) (machine n)
      (take k (drop (Z.to_nat (lastApplied n + 1 - lastIncludedIndexLocked n)) (log n))))
      (set_lastApplied (lastApplied n + Z.of_nat k) n).
Proof.
  revert n. induction k as [|k IH]; intros n Hwf Hlo Hhi.
  { cbn. rewrite take_0, Z.add_0_r. by destruct n. }
  cbn [applyLoop].
  destruct (entryAtLocked n (lastApplied n + 1)) as [e|] eqn:Ee.
  2:{ exfalso. apply eq_None_not_Some in Ee. apply Ee.
      apply entryAtLocked_range; [done|]. lia. }
  pose proof (entryAtLocked_index n _ e Hwf Ee) as Hi.
  rewrite entryAtLocked_eq in Ee. apply zlookup_Some in Ee as [Hge Ee].
  rewrite (drop_S _ _ _ Ee). cbn [take foldl].
  match goal with |- applyLoop k ?x = _ => set (n' := x) end.
  assert (En : n' = set_machine (applyOne (applySet n) (machine n) e)
                     (set_lastApplied (lastApplied n + 1) n)).
  { unfold n', applyOne. cbn. rewrite Hi. destruct (_ && _); [done|]. by destruct n. }
  clearbody n'. subst n'. rewrite IH; cbn.
  - unfold lastIncludedIndexLocked, firstEntry in *. cbn.
    replace (Z.to_nat (lastApplied n + 1 + 1 - e_Index (default zeroEntry (head (log n)))))
      with (S (Z.to_nat (lastApplied n + 1 - e_Index (default zeroEntry (head (log n))))))
      by lia.
    by replace (lastApplied n + 1 + Z.of_nat k) with (lastApplied n + Z.of_nat (S k)) by lia.
  - done.
  - unfold lastIncludedIndexLocked, firstEntry in *. cbn. lia.
  - unfold lastLogIndexLocked, lastEntry in *. cbn. lia.
Qed.

(** ** The term of a reply *)

Lemma acceptLeader_term t l n : currentTerm n ≤ t → currentTerm (acceptLeader t l n) = t.
Proof.
  intros Hle. unfold acceptLeader.
  match goal with |- context [resetElectionTimerLocked ?x] =>
    destruct (resetElectionTimerLocked_shape x) as (d&r&->) end.
  cbn. case_decide; [|lia]. unfold becomeFollowerLocked. case_decide; [|cbn; lia].
  destruct (persistLocked_shape (set_votedFor "" (set_currentTerm t n))) as [s ->]. done.
Qed.

(** A reply carries the term of the node after it has handled the request. *)
Lemma append_resp_term req n :
  aer_Term (HandleAppendEntries req n).2 = Z.max (currentTerm n) (ae_Term req).
Proof.
  unfold HandleAppendEntries. case_decide; [cbn; lia|].
  pose proof (acceptLeader_term (ae_Term req) (ae_LeaderID req) n ltac:(lia)) as E.
  revert E. generalize (acceptLeader (ae_Term req) (ae_LeaderID req) n). intros n0 E. cbn zeta.
  rewrite E. case_decide; [cbn; lia|]. destruct (entryAtLocked _ _); [|cbn; lia].
  case_decide; [cbn; lia|]. destruct (reconcile _ _ _). cbn. lia.
Qed.

(** ** Without compaction *)

Lemma maybeCompact_off n : snapshotThreshold n ≤ 0 → maybeCompactLocked n = n.
Proof.
  intros H. unfold maybeCompactLocked. rewrite (bool_decide_eq_true_2 _ H).
  by rewrite orb_true_r.
Qed.
End log_spec.
