(* ===== verification/Durable.v ===== *)
(** Durability: when its saves succeed, a node's term, vote, log, snapshot and
    base membership are on disk at the end of every operation, so before the
    mutex is released and before any reply leaves; and a node started from that
    disk has them again. *)
From S2P Require Import Prelude Types Node Persist Membership Snapshot Log Election RaftOps Read Machine NodeInv.
Open Scope Z_scope.
Open Scope go_scope.

Section durable.
Context {M : Type} `{!StateMachine M}.
Implicit Types n : RaftNode M.

(** The storage works: no error is ahead. *)
Definition store_ok n : Prop :=
  ∀ s, storage n = Some s → st_SaveErrs s = [] ∧ st_LoadErr s = false.

(** What a node that has never saved holds, when it was configured with the
    peers [ps] and the HTTP addresses [hs]. *)
Definition unsaved (ps hs : gmap string string) : DurableState :=
  MkDurable 0 "" [zeroEntry] [] ps hs.

(** The disk holds the durable part of the node, or nothing yet. *)
Definition saved (ps hs : gmap string string) n : Prop :=
  ∀ s, storage n = Some s →
    st_SaveErrs s = [] ∧ st_LoadErr s = false ∧
    (st_Disk s = durableOf n ∨
     (st_Disk s = zeroDurable ∧ durableOf n = unsaved ps hs)).

Section with_config.
Context (ps hs : gmap string string).

Lemma saved_store_ok n : saved ps hs n → store_ok n.
Proof. intros H s Hs. by destruct (H s Hs) as (?&?&_). Qed.

Lemma saved_persist n : store_ok n → saved ps hs (persistLocked n).
Proof.
  intros H. unfold persistLocked. destruct (storage n) as [s|] eqn:Es.
  - intros s' Hs'. cbn in Hs'. simplify_eq. destruct (H s Es) as [He Hl].
    unfold Save. rewrite He. cbn. split_and!; [done..|]. by left.
  - intros s Hs. congruence.
Qed.

Lemma saved_frame n n' :
  durableOf n' = durableOf n → storage n' = storage n → saved ps hs n → saved ps hs n'.
Proof. intros Hd Hs H s Hs'. rewrite Hs in Hs'. rewrite Hd. by apply H. Qed.

Lemma store_ok_frame n n' : storage n' = storage n → store_ok n → store_ok n'.
Proof. intros Hs H s Hs'. rewrite Hs in Hs'. by apply H. Qed.

Lemma saved_reset n : saved ps hs n → saved ps hs (resetElectionTimerLocked n).
Proof. destruct (resetElectionTimerLocked_shape n) as (d&r&->). by apply saved_frame. Qed.

Lemma saved_notify n : saved ps hs n → saved ps hs (notifyPeersLocked n).
Proof. destruct (notifyPeersLocked_shape n) as (t&h&->). by apply saved_frame. Qed.

Lemma saved_ensure n : saved ps hs n → saved ps hs (ensurePeerTrackingLocked n).
Proof. destruct (ensurePeerTrackingLocked_shape n) as (x&m&->). by apply saved_frame. Qed.

Lemma saved_broadcast n : saved ps hs n → saved ps hs (broadcastAppendEntriesLocked n).
Proof. destruct (broadcast_shape n) as (r&s&->). by apply saved_frame. Qed.

Lemma saved_advance n : saved ps hs n → saved ps hs (advanceCommitLocked n).
Proof. destruct (advanceCommitLocked_shape n) as [c ->]. by apply saved_frame. Qed.

Lemma saved_applyLoop fuel n : saved ps hs n → saved ps hs (applyLoop fuel n).
Proof. destruct (applyLoop_shape fuel n) as (a&m&_&->). by apply saved_frame. Qed.

Lemma store_ok_notify n : store_ok n → store_ok (notifyPeersLocked n).
Proof. destruct (notifyPeersLocked_shape n) as (t&h&->). by apply store_ok_frame. Qed.

Lemma store_ok_rebuild n : store_ok n → store_ok (rebuildMembershipLocked n).
Proof. rewrite rebuildMembershipLocked_eq. by apply store_ok_frame. Qed.

Lemma saved_becomeFollower t l n :
  saved ps hs n → saved ps hs (becomeFollowerLocked t l n).
Proof.
  intros H. unfold becomeFollowerLocked.
  eapply (saved_frame (if decide (t > currentTerm n)
    then persistLocked (set_votedFor "" (set_currentTerm t n)) else n)); [done..|].
  case_decide; [|done]. apply saved_persist. by apply saved_store_ok in H.
Qed.

Lemma saved_compact index n : saved ps hs n → saved ps hs (compactLocked index n).
Proof.
  intros H. unfold compactLocked. case_decide; [done|]. case_match; [|done].
  case_match; [|done]. case_decide; [done|]. destruct (membershipAtLocked index n).
  apply saved_persist, store_ok_notify, store_ok_rebuild.
  apply saved_store_ok in H. by eapply store_ok_frame; [|exact H].
Qed.

Lemma saved_applyCommitted n : saved ps hs n → saved ps hs (applyCommittedLocked n).
Proof.
  intros H. unfold applyCommittedLocked, maybeCompactLocked.
  pose proof (saved_applyLoop (Z.to_nat (commitIndex n - lastApplied n)) n H) as H'.
  destruct (_ || _); [done|]. case_decide; [done|]. by apply saved_compact.
Qed.

Lemma saved_acceptLeader t l n : saved ps hs n → saved ps hs (acceptLeader t l n).
Proof.
  intros H. unfold acceptLeader.
  assert (H' : saved ps hs (if decide (t > currentTerm n ∨ state n ≠ Follower)
    then becomeFollowerLocked t l n else n)) by (case_decide; [by apply saved_becomeFollower|done]).
  revert H'. generalize (if decide (t > currentTerm n ∨ state n ≠ Follower)
    then becomeFollowerLocked t l n else n). intros n' H'.
  destruct (resetElectionTimerLocked_shape (set_leaderID l n')) as (d&r&->).
  by eapply saved_frame; [..|exact H'].
Qed.

Lemma saved_HandleAppendEntries req n :
  wf_node n → saved ps hs n → saved ps hs (HandleAppendEntries req n).1.
Proof.
  intros Hwf H. unfold HandleAppendEntries. case_decide; [done|].
  pose proof (wf_acceptLeader (ae_Term req) (ae_LeaderID req) n Hwf) as Ha.
  pose proof (saved_acceptLeader (ae_Term req) (ae_LeaderID req) n H) as Hs.
  revert Ha Hs. generalize (acceptLeader (ae_Term req) (ae_LeaderID req) n).
  clear H. intros n0 Ha Hs. case_decide as Hlt; [done|].
  destruct (entryAtLocked n0 (ae_PrevLogIndex req)) as [prev|] eqn:Ep; [|done].
  case_decide; [done|].
  assert (Hr : lastIncludedIndexLocked n0 ≤ ae_PrevLogIndex req ≤ lastLogIndexLocked n0).
  { apply entryAtLocked_range; [apply Ha|by eexists]. }
  destruct (reconcile_wf (ae_Entries req) (ae_PrevLogIndex req + 1) n0 (wf_node_log _ Ha)
    ltac:(lia)) as (l&d&->&_&_&Hd). cbn [fst].
  assert (Hf : ∀ x, saved ps hs x → saved ps hs (followCommit (ae_LeaderCommit req) x)).
  { intros x Hx. unfold followCommit. case_decide; [|done]. apply saved_applyCommitted.
    eapply saved_frame; [..|exact Hx]; by case_decide. }
  apply Hf. destruct d.
  - apply saved_persist, store_ok_notify, store_ok_rebuild.
    apply saved_store_ok in Hs. by eapply store_ok_frame; [|exact Hs].
  - rewrite Hd by done. by eapply saved_frame; [..|exact Hs].
Qed.

Lemma saved_adoptSnapshot req n :
  is_Peers req ≠ ∅ → saved ps hs n → saved ps hs (adoptSnapshot req n).
Proof.
  intros Hp H. destruct (adoptSnapshot_shape req n Hp) as (t&h&s&->).
  apply saved_persist. apply saved_store_ok in H. by eapply store_ok_frame; [|exact H].
Qed.

Lemma saved_HandleInstallSnapshot req n :
  is_Peers req ≠ ∅ → saved ps hs n → saved ps hs (HandleInstallSnapshot req n).1.
Proof.
  intros Hp H. unfold HandleInstallSnapshot. case_decide; [done|].
  pose proof (saved_acceptLeader (is_Term req) (is_LeaderID req) n H).
  case_decide; [done|]. by apply saved_adoptSnapshot.
Qed.

Lemma saved_becomeLeader n : store_ok n → saved ps hs (becomeLeaderLocked n).
Proof.
  intros H. unfold becomeLeaderLocked.
  apply saved_broadcast, saved_applyCommitted, saved_advance. unfold elected.
  apply saved_persist. by eapply store_ok_frame; [|exact H].
Qed.

Lemma saved_becomeCandidate n : store_ok n → saved ps hs (becomeCandidate n).
Proof.
  intros H. unfold becomeCandidate. apply saved_persist.
  match goal with |- context [resetElectionTimerLocked ?x] =>
    destruct (resetElectionTimerLocked_shape x) as (d&r&->) end.
  by eapply store_ok_frame; [|exact H].
Qed.

Lemma saved_startElection n : saved ps hs n → saved ps hs (startElectionLocked n).
Proof.
  intros H. unfold startElectionLocked. destruct (_ || _); [by apply saved_reset|].
  pose proof (saved_becomeCandidate n (saved_store_ok _ H)) as Hc. revert Hc.
  generalize (becomeCandidate n). intros c Hc.
  case_decide; [by apply saved_becomeLeader, saved_store_ok|].
  destruct (requestVotes_shape (voteRequest c) (peerIDs c) c) as [s ->].
  by eapply saved_frame; [..|exact Hc].
Qed.

Lemma saved_HandleRequestVote req n :
  saved ps hs n → saved ps hs (HandleRequestVote req n).1.
Proof.
  intros H. unfold HandleRequestVote. case_decide; [done|].
  assert (H' : saved ps hs (if decide (rv_Term req > currentTerm n)
    then becomeFollowerLocked (rv_Term req) "" n else n))
    by (case_decide; [by apply saved_becomeFollower|done]).
  revert H'. generalize (if decide (rv_Term req > currentTerm n)
    then becomeFollowerLocked (rv_Term req) "" n else n). intros n' H'.
  destruct (_ && _); cbn [fst]; [|done]. apply saved_persist.
  match goal with |- context [resetElectionTimerLocked ?x] =>
    destruct (resetElectionTimerLocked_shape x) as (d&r&->) end.
  apply saved_store_ok in H'. by eapply store_ok_frame; [|exact H'].
Qed.

Lemma saved_requestVoteReply peer req resp n :
  saved ps hs n → saved ps hs (requestVoteReply peer req resp n).
Proof.
  intros H. unfold requestVoteReply.
  case_decide; [by apply saved_reset, saved_becomeFollower|].
  case_decide; [done|]. destruct (negb _); [done|]. case_decide.
  - apply saved_becomeLeader. apply saved_store_ok in H. by eapply store_ok_frame; [|exact H].
  - by eapply saved_frame; [..|exact H].
Qed.

Lemma saved_tick n : saved ps hs n → saved ps hs (tick n).
Proof.
  intros H. unfold tick. apply saved_applyCommitted. destruct (state n).
  1,2: destruct (_ && _); [by apply saved_startElection|done].
  case_decide; [|done]. apply saved_broadcast. by eapply saved_frame; [..|exact H].
Qed.

Lemma saved_recordOwn i n : saved ps hs n → saved ps hs (recordOwn i n).
Proof.
  intros H. unfold recordOwn. apply saved_broadcast, saved_applyCommitted, saved_advance.
  by eapply saved_frame; [..|exact H].
Qed.

Lemma saved_Propose cmd n : saved ps hs n → saved ps hs (Propose cmd n).1.
Proof.
  intros H. unfold Propose. destruct (stopped n); [done|]. case_decide; [done|].
  apply saved_recordOwn, saved_persist. apply saved_store_ok in H.
  by eapply store_ok_frame; [|exact H].
Qed.

Lemma saved_proposeChange ch n : saved ps hs n → saved ps hs (proposeChangeLocked ch n).1.
Proof.
  intros H. unfold proposeChangeLocked. destruct (stopped n); [done|].
  case_decide; [done|]. destruct (hasUncommittedConfigLocked n); [done|].
  destruct (changedPeers ch n) as [[peers http]|]; [|done]. cbn [fst].
  apply saved_recordOwn, saved_persist, store_ok_notify.
  match goal with |- context [ensurePeerTrackingLocked ?x] =>
    destruct (ensurePeerTrackingLocked_shape x) as (y&m&->) end.
  assert (Hx : ∀ e, store_ok (rebuildMembershipLocked (appendLog e n))).
  { intros e. apply store_ok_rebuild. apply saved_store_ok in H.
    by eapply store_ok_frame; [|exact H]. }
  by eapply store_ok_frame; [|apply Hx].
Qed.

Lemma saved_replicateHead peer n : saved ps hs n → saved ps hs (replicateHead peer n).1.
Proof.
  intros H. unfold replicateHead. case_decide; [done|].
  destruct (shouldInstallSnapshotLocked peer n); [done|].
  assert (H' : saved ps hs (makeAppendRequestLocked peer n).1).
  { unfold makeAppendRequestLocked. repeat case_decide; [done|..]; case_match;
      by eapply saved_frame; [..|exact H]. }
  destruct (makeAppendRequestLocked peer n) as [n' [r|]]; exact H'.
Qed.

Lemma saved_replicateReply peer m x n :
  saved ps hs n →
  saved ps hs (applyCommittedLocked (advanceCommitLocked
    (put_nextIndex peer x (put_matchIndex peer m n)))).
Proof.
  intros H. apply saved_applyCommitted, saved_advance. by eapply saved_frame; [..|exact H].
Qed.

(** Every operation ends with the durable state on disk. *)
Lemma saved_runOp op n :
  wf_node n → op_ok op → saved ps hs n → saved ps hs (runOp op n).
Proof.
  intros Hwf Hop H. destruct op; cbn [runOp].
  - by apply saved_tick.
  - by apply saved_HandleRequestVote.
  - by apply saved_HandleAppendEntries.
  - by apply saved_HandleInstallSnapshot.
  - by apply saved_requestVoteReply.
  - by apply saved_replicateHead.
  - unfold replicateInstallReply. case_decide; [done|].
    case_decide; [by apply saved_reset, saved_becomeFollower|]. by apply saved_replicateReply.
  - unfold replicateAppendReply. case_decide; [done|].
    case_decide; [by apply saved_reset, saved_becomeFollower|].
    destruct (aer_Success resp); [by apply saved_replicateReply|].
    repeat case_decide; cbn [fst]; by eapply saved_frame; [..|exact H].
  - by eapply saved_frame; [..|exact H].
  - by apply saved_Propose.
  - unfold AddServer. case_decide; [done|]. by apply saved_proposeChange.
  - unfold RemoveServer. case_decide; [done|]. by apply saved_proposeChange.
  - unfold waitCommittedPoll. case_decide; [done|]. case_match; [done|]. by apply saved_broadcast.
  - unfold confirmReply. case_decide; [by apply saved_reset, saved_becomeFollower|done].
  - by apply saved_reset.
  - unfold Stop. case_match; by eapply saved_frame; [..|exact H].
  - by eapply saved_frame; [..|exact H].
Qed.

(** ** Recovery *)

Lemma restoreSnapshot_shape n :
  ∃ m a c, restoreSnapshotLocked n = set_commitIndex c (set_lastApplied a (set_machine m n)).
Proof.
  assert (Hid : n = set_commitIndex (commitIndex n)
    (set_lastApplied (lastApplied n) (set_machine (machine n) n))) by (by destruct n).
  unfold restoreSnapshotLocked. destruct (_ || _); [by eauto|].
  destruct (sm_restore (snapshot n) (machine n)) as [m|]; [|by eauto].
  exists m. set (snap := lastIncludedIndexLocked (set_machine m n)). clearbody snap.
  case_decide; case_decide;
    [by exists snap, snap|exists (lastApplied n), snap|exists snap, (commitIndex n)
    |exists (lastApplied n), (commitIndex n)]; by destruct n.
Qed.

Lemma startAtSnapshot_shape n :
  ∃ a c, startAtSnapshot n = set_commitIndex c (set_lastApplied a n).
Proof.
  unfold startAtSnapshot. case_match; [by eauto|].
  exists (lastApplied n), (commitIndex n). by destruct n.
Qed.

Lemma loadDurable_eq st n :
  ds_Log st ≠ [] → ds_SnapshotPeers st ≠ ∅ →
  loadDurable st n =
    set_baseHTTP (ds_SnapshotHTTP st) (set_basePeers (ds_SnapshotPeers st)
      (set_snapshot (ds_Snapshot st) (set_log (ds_Log st)
        (set_votedFor (ds_VotedFor st) (set_currentTerm (ds_CurrentTerm st) n))))).
Proof.
  intros Hl Hp. unfold loadDurable. rewrite bool_decide_eq_true_2 by done.
  by rewrite decide_True by (by apply map_size_pos).
Qed.

(** The durable part of a node that adopts a loaded state. *)
Lemma restoreDurable_durable st n :
  ds_Log st ≠ [] → ds_SnapshotPeers st ≠ ∅ →
  durableOf (restoreDurable st n) = st ∧ wf_members (restoreDurable st n) ∧
  state (restoreDurable st n) = state n ∧ nodeID (restoreDurable st n) = nodeID n ∧
  storage (restoreDurable st n) = storage n.
Proof.
  intros Hl Hp. unfold restoreDurable. rewrite loadDurable_eq by done.
  match goal with |- context [startAtSnapshot ?x] =>
    assert (H1 : durableOf x = st ∧ state x = state n ∧ nodeID x = nodeID n ∧
      storage x = storage n) by (by destruct st); revert H1; generalize x end.
  intros n1 (H1&H2&H3&H4).
  destruct (startAtSnapshot_shape n1) as (a&c&->).
  destruct (restoreSnapshot_shape (set_commitIndex c (set_lastApplied a n1))) as (m&a'&c'&->).
  rewrite rebuildMembershipLocked_eq. cbn zeta.
  match goal with |- context [decide (slen (peerIDs ?x) > 1)] =>
    assert (Hw : durableOf x = st ∧ wf_members x ∧ state x = state n ∧ nodeID x = nodeID n ∧
      storage x = storage n); [|revert Hw; generalize x; intros n2 Hw; by case_decide] end.
  split_and!; [done| |done..]. split; [|done]. cbn. by destruct (applyEntries _ _).
Qed.

(** A node restarted from the disk of [n] has the term, vote, log, snapshot and
    membership of [n]. *)
Lemma recover n s cfg m src :
  wf_node n → saved ps hs n → storage n = Some s → basePeers n ≠ ∅ →
  cfg_Storage cfg = Some s → cfg_PeerAddrs cfg = ps → cfg_HTTPAddrs cfg = hs →
  let n' := NewNode cfg m src in
  durableOf n' = durableOf n ∧ peerAddrs n' = peerAddrs n ∧ peerHTTP n' = peerHTTP n ∧
  peerIDs n' = peerIDs n ∧ state n' = Follower ∧ saved ps hs n'.
Proof.
  intros Hwf Hsv Hs Hb Hc Hps Hhs n'. unfold n', NewNode, Load. rewrite Hc.
  destruct (Hsv s Hs) as (He&Hle&Hd). rewrite Hle.
  destruct (wf_node_log _ Hwf) as [Hne _]. destruct (wf_node_members _ Hwf) as [Hm Hids].
  destruct Hd as [Hd|[Hd Hu]].
  - rewrite Hd. unfold durableUsed.
    rewrite bool_decide_eq_true_2 by (right; right; by left).
    destruct (restoreDurable_durable (durableOf n) (freshNode cfg m src) Hne Hb)
      as (Hdur&[Hm' Hids']&Hst&_&Hsto).
    revert Hdur Hst Hsto Hids' Hm'.
    generalize (restoreDurable (durableOf n) (freshNode cfg m src)). intros r.
    intros Hdur Hst Hsto Hids' Hm'.
    assert ((peerAddrs r, peerHTTP r) = (peerAddrs n, peerHTTP n)) as [= Hpa Hph].
    { rewrite Hm', Hm. pose proof (f_equal ds_Log Hdur) as Hl.
      pose proof (f_equal ds_SnapshotPeers Hdur) as Hp.
      pose proof (f_equal ds_SnapshotHTTP Hdur) as Hh. cbn in Hl, Hp, Hh.
      by rewrite Hl, Hp, Hh. }
    split_and!; [done|done|done|by rewrite Hids', Hids, Hpa|by rewrite Hst|].
    intros s' Hs'. rewrite Hsto in Hs'. cbn in Hs'. rewrite Hc in Hs'. injection Hs' as <-.
    split_and!; [done..|]. left. by rewrite Hd, Hdur.
  - rewrite Hd. change (durableUsed zeroDurable) with false. cbn iota.
    assert (Hf : durableOf (freshNode cfg m src) = unsaved ps hs)
      by (unfold durableOf, unsaved; cbn; by rewrite Hps, Hhs).
    pose proof (f_equal ds_Log Hu) as Hl. pose proof (f_equal ds_SnapshotPeers Hu) as Hbp.
    pose proof (f_equal ds_SnapshotHTTP Hu) as Hbh. cbn in Hl, Hbp, Hbh.
    rewrite Hl, Hbp, Hbh in Hm. injection Hm as Hpa Hph.
    split_and!; [by rewrite Hf, Hu|by cbn; rewrite Hps|by cbn; rewrite Hhs
      |by cbn; rewrite Hps, Hids, Hpa|done|].
    intros s' Hs'. cbn in Hs'. rewrite Hc in Hs'. injection Hs' as <-.
    split_and!; [done..|]. right. by rewrite Hf.
Qed.
End with_config.
End durable.
