(* ===== verification/NodeId.v ===== *)
(** What no operation of a node changes: its id, and whether it has a storage.
    The relation is a preorder, so that an operation keeps the identity when
    each of its steps does. *)
From S2P Require Import Prelude Types Node Persist Membership Snapshot Log Election RaftOps Read Machine NodeInv LogSpec Durable.
Open Scope Z_scope.
Open Scope go_scope.

Section identity.
Context {M : Type} `{!StateMachine M}.
Implicit Types n : RaftNode M.

Definition same_node n n' : Prop :=
  nodeID n' = nodeID n ∧ (storage n' = None ↔ storage n = None).

#[global] Instance same_node_preorder : PreOrder same_node.
Proof.
  split; [by intros n; split|]. intros a b c [H1 H2] [H3 H4].
  split; [by rewrite H3|by rewrite H4].
Qed.

(** A step that only sets other fields. *)
Lemma same_node_frame n n' : nodeID n' = nodeID n → storage n' = storage n → same_node n n'.
Proof. intros H1 H2. split; [done|by rewrite H2]. Qed.

Lemma same_node_after n n1 n' : same_node n1 n' → nodeID n1 = nodeID n →
  storage n1 = storage n → same_node n n'.
Proof. intros H H1 H2. etrans; [by apply same_node_frame|exact H]. Qed.

Lemma same_node_foldl {B} (f : RaftNode M → B → RaftNode M) l n :
  (∀ n x, same_node n (f n x)) → same_node n (foldl f n l).
Proof.
  intros Hf. revert n. induction l as [|x l IH]; intros n; [done|].
  cbn. etrans; [apply Hf|apply IH].
Qed.

Lemma same_persist n : same_node n (persistLocked n).
Proof. unfold persistLocked. destruct (storage n) eqn:E; split; cbn; by rewrite ?E. Qed.

Lemma same_reset n : same_node n (resetElectionTimerLocked n).
Proof. destruct (resetElectionTimerLocked_shape n) as (d&r&->). by split. Qed.

Lemma same_notify n : same_node n (notifyPeersLocked n).
Proof. destruct (notifyPeersLocked_shape n) as (t&h&->). by split. Qed.

Lemma same_ensure n : same_node n (ensurePeerTrackingLocked n).
Proof. destruct (ensurePeerTrackingLocked_shape n) as (x&m&->). by split. Qed.

Lemma same_broadcast n : same_node n (broadcastAppendEntriesLocked n).
Proof. destruct (broadcast_shape n) as (x&m&->). by split. Qed.

Lemma same_advance n : same_node n (advanceCommitLocked n).
Proof. destruct (advanceCommitLocked_shape n) as (c&->). by split. Qed.

Lemma same_rebuild n : same_node n (rebuildMembershipLocked n).
Proof. rewrite rebuildMembershipLocked_eq. by split. Qed.

Lemma same_applyLoop fuel n : same_node n (applyLoop fuel n).
Proof.
  revert n. induction fuel as [|fuel IH]; intros n; [done|]. cbn.
  destruct (entryAtLocked _ _); [|done]. etrans; [|apply IH].
  destruct (_ && _); by split.
Qed.

Lemma same_compact index n : same_node n (compactLocked index n).
Proof.
  unfold compactLocked. case_decide; [done|]. destruct (entryAtLocked _ _); [|done].
  destruct (sm_snapshot _); [|done]. case_decide; [done|].
  destruct (membershipAtLocked _ _). cbn zeta.
  etrans; [|apply same_persist]. etrans; [|apply same_notify].
  etrans; [|apply same_rebuild]. by split.
Qed.

Lemma same_applyCommitted n : same_node n (applyCommittedLocked n).
Proof.
  unfold applyCommittedLocked, maybeCompactLocked. etrans; [apply same_applyLoop|].
  destruct (_ || _); [done|]. case_decide; [done|apply same_compact].
Qed.

Lemma same_becomeFollower t l n : same_node n (becomeFollowerLocked t l n).
Proof.
  unfold becomeFollowerLocked. cbn zeta.
  repeat first [case_decide|case_bool_decide|case_match]; try (by split);
    eapply same_node_after; [apply same_persist|done|done].
Qed.

(** The end of an operation that has changed the log. *)
Lemma same_commit n n1 :
  same_node n n1 → same_node n (applyCommittedLocked (advanceCommitLocked n1)).
Proof. intros H. etrans; [exact H|]. etrans; [apply same_advance|apply same_applyCommitted]. Qed.

Lemma same_follow t n :
  same_node n (resetElectionTimerLocked (becomeFollowerLocked t "" n)).
Proof. etrans; [apply same_becomeFollower|apply same_reset]. Qed.

Lemma same_acceptLeader t l n : same_node n (acceptLeader t l n).
Proof.
  unfold acceptLeader. etrans; [|by apply same_node_frame].
  etrans; [|apply same_reset]. case_decide; [|by split].
  etrans; [apply same_becomeFollower|by split].
Qed.

Lemma same_reconcile es idx n : same_node n (reconcile es idx n).1.
Proof.
  revert idx n. induction es as [|e es IH]; intros idx n; [done|]. cbn.
  destruct (entryAtLocked n idx); [|by split]. case_decide; [by split|apply IH].
Qed.

Lemma same_followCommit c n : same_node n (followCommit c n).
Proof.
  unfold followCommit. case_decide; [|done]. etrans; [|apply same_applyCommitted].
  case_decide; by split.
Qed.

Lemma same_HandleAppendEntries req n : same_node n (HandleAppendEntries req n).1.
Proof.
  unfold HandleAppendEntries. case_decide as Hd; [done|]. clear Hd.
  pose proof (same_acceptLeader (ae_Term req) (ae_LeaderID req) n) as H.
  revert H. generalize (acceptLeader (ae_Term req) (ae_LeaderID req) n). intros n1 H. cbn zeta.
  case_decide as Hd; [done|]. clear Hd. destruct (entryAtLocked _ _); [|done].
  case_decide as Hd; [done|]. clear Hd.
  pose proof (same_reconcile (ae_Entries req) (ae_PrevLogIndex req + 1) n1) as H2.
  destruct (reconcile _ _ _) as [n2 dirty]. cbn in H2. cbn [fst].
  etrans; [exact H|]. etrans; [exact H2|]. etrans; [|apply same_followCommit].
  destruct dirty; [|done].
  etrans; [|apply same_persist]. etrans; [|apply same_notify]. apply same_rebuild.
Qed.

Lemma same_adoptSnapshot req n : same_node n (adoptSnapshot req n).
Proof.
  unfold adoptSnapshot. etrans; [|apply same_persist].
  set (n1 := set_snapshot _ _). assert (H1 : same_node n n1) by by split.
  clearbody n1.
  assert (H2 : same_node n (adoptMembers req n1)).
  { etrans; [exact H1|]. unfold adoptMembers. case_decide; [|done].
    etrans; [|apply same_notify]. etrans; [|apply same_rebuild]. by split. }
  revert H2. generalize (adoptMembers req n1). intros n2 H2. etrans; [exact H2|].
  assert (H3 : same_node n2 (if snapshotterSet n2 && bool_decide (snapshot n2 ≠ [])
    then restoreMachine (snapshot n2) n2 else n2)).
  { destruct (_ && _); [|done]. destruct (restoreMachine_shape (snapshot n2) n2) as [m ->].
    by split. }
  etrans; [exact H3|]. cbn zeta. case_decide; by split.
Qed.

Lemma same_HandleInstallSnapshot req n : same_node n (HandleInstallSnapshot req n).1.
Proof.
  unfold HandleInstallSnapshot. case_decide; [done|]. cbn zeta.
  case_decide; [apply same_acceptLeader|].
  etrans; [apply same_acceptLeader|apply same_adoptSnapshot].
Qed.

Lemma same_becomeLeader n : same_node n (becomeLeaderLocked n).
Proof.
  unfold becomeLeaderLocked. etrans; [|apply same_broadcast]. apply same_commit.
  unfold elected. etrans; [|apply same_persist]. by split.
Qed.

Lemma same_startElection n : same_node n (startElectionLocked n).
Proof.
  unfold startElectionLocked. destruct (_ || _); [apply same_reset|].
  assert (H : same_node n (becomeCandidate n)).
  { unfold becomeCandidate. etrans; [|apply same_persist]. etrans; [|apply same_reset]. by split. }
  etrans; [exact H|]. cbn zeta. case_decide; [apply same_becomeLeader|].
  apply same_node_foldl. intros m x. unfold requestVoteFrom. case_decide; by split.
Qed.

Lemma same_HandleRequestVote req n : same_node n (HandleRequestVote req n).1.
Proof.
  unfold HandleRequestVote. case_decide as Hd; [done|]. clear Hd. cbn zeta.
  assert (H : same_node n (if decide (rv_Term req > currentTerm n)
    then becomeFollowerLocked (rv_Term req) "" n else n))
    by (case_decide; [apply same_becomeFollower|done]).
  revert H. generalize (if decide (rv_Term req > currentTerm n)
    then becomeFollowerLocked (rv_Term req) "" n else n). intros n1 H.
  destruct (_ && _); [|done]. etrans; [exact H|]. etrans; [|apply same_persist].
  etrans; [|apply same_reset]. by split.
Qed.

Lemma same_requestVoteReply peer req resp n : same_node n (requestVoteReply peer req resp n).
Proof.
  unfold requestVoteReply. case_decide; [apply same_follow|]. case_decide; [done|].
  destruct (negb _); [done|]. cbn zeta. case_decide; [|by split].
  etrans; [|apply same_becomeLeader]. by split.
Qed.

Lemma same_tick n : same_node n (tick n).
Proof.
  unfold tick. etrans; [|apply same_applyCommitted].
  destruct (state n); [destruct (_ && _); [apply same_startElection|done]..|].
  case_decide; [|done]. etrans; [|apply same_broadcast]. by split.
Qed.

Lemma same_recordOwn i n : same_node n (recordOwn i n).
Proof. unfold recordOwn. etrans; [|apply same_broadcast]. apply same_commit. by split. Qed.

Lemma same_Propose cmd n : same_node n (Propose cmd n).1.
Proof.
  unfold Propose. destruct (stopped n); [done|]. case_decide; [done|]. cbn zeta.
  etrans; [|apply same_recordOwn]. etrans; [|apply same_persist]. by split.
Qed.

Lemma same_proposeChange ch n : same_node n (proposeChangeLocked ch n).1.
Proof.
  unfold proposeChangeLocked. destruct (stopped n); [done|]. case_decide; [done|].
  destruct (hasUncommittedConfigLocked n); [done|].
  destruct (changedPeers ch n) as [[np nh]|e]; [|done]. cbn zeta.
  etrans; [|apply same_recordOwn]. etrans; [|apply same_persist]. etrans; [|apply same_notify].
  etrans; [|apply same_ensure]. etrans; [|apply same_rebuild]. by split.
Qed.

Lemma same_AddServer pid addr http n : same_node n (AddServer pid addr http n).1.
Proof. unfold AddServer. case_decide; [done|apply same_proposeChange]. Qed.

Lemma same_RemoveServer pid n : same_node n (RemoveServer pid n).1.
Proof. unfold RemoveServer. case_decide; [done|apply same_proposeChange]. Qed.

Lemma same_replicateHead peer n : same_node n (replicateHead peer n).1.
Proof.
  unfold replicateHead. case_decide; [done|]. destruct (shouldInstallSnapshotLocked _ _); [done|].
  unfold makeAppendRequestLocked. case_decide; [done|]. cbn zeta.
  case_decide; destruct (termAtLocked _ _); by split.
Qed.

Lemma same_replicateInstallReply peer req term resp n :
  same_node n (replicateInstallReply peer req term resp n).1.
Proof.
  unfold replicateInstallReply. case_decide; [done|]. case_decide; [apply same_follow|].
  apply same_commit. by split.
Qed.

Lemma same_replicateAppendReply peer req term resp n :
  same_node n (replicateAppendReply peer req term resp n).1.
Proof.
  unfold replicateAppendReply. case_decide; [done|]. case_decide; [apply same_follow|].
  destruct (aer_Success resp); [apply same_commit; by split|]. cbn zeta.
  repeat case_decide; by split.
Qed.

Lemma same_runOp op n : same_node n (runOp op n).
Proof.
  destruct op; cbn [runOp]; eauto using same_tick, same_HandleRequestVote,
    same_HandleAppendEntries, same_HandleInstallSnapshot, same_requestVoteReply,
    same_replicateHead, same_replicateInstallReply, same_replicateAppendReply, same_Propose,
    same_AddServer, same_RemoveServer, same_reset.
  - by split.
  - unfold waitCommittedPoll. case_decide; [done|]. case_match; [done|]. apply same_broadcast.
  - unfold confirmReply. case_decide; [apply same_follow|done].
  - unfold Stop. case_match; by split.
  - by split.
Qed.

(** A node keeps its id and its storage. *)
Lemma same_runOps ops n : same_node n (runOps ops n).
Proof. apply same_node_foldl. intros m op. apply same_runOp. Qed.

Lemma same_restoreSnapshot n : same_node n (restoreSnapshotLocked n).
Proof. destruct (restoreSnapshot_shape n) as (m&a&c&->). by split. Qed.
End identity.
