(* ===== verification/Spec.v ===== *)
(** The abstract protocol the node of package [raft] implements: an atomic step
    per protocol action on the state that matters (term, vote, role, log, commit
    index), over a history of what has been requested, voted, acknowledged and
    committed.  Logs hold the dummy entry at position 0 and are never cut, so an
    index of the log is a position; [CutLog] relates them to the logs that nodes
    compact.  The configuration is the one the changes of a log determine, in use
    as soon as they are appended.

    [SpecInv] and [SpecSafety] prove election safety, log matching, leader
    completeness and the agreement of committed prefixes for it; [Refine] shows
    that the cluster of real nodes implements it. *)
From S2P Require Import Prelude Types Node Persist Membership.
Open Scope Z_scope.

Record ANode := MkANode {
  a_term : Z;
  a_vote : string;
  a_role : State;
  a_log : list LogEntry;
  a_commit : nat;
}.

(** The history: [h_tlog t] is the log of the leader of term [t] (the dummy
    alone for term 0, nothing for a term without a leader); a candidature records
    the candidate's log; a vote is (term, voter, candidate); an acknowledgement
    (t, v, m) says that node v held the first m positions of [h_tlog t] while in
    term t; a commit point (t, i, n) says that the leader of [t] committed
    position [i] when its log had [n] positions. *)
Record AState := MkAState {
  a_nodes : string → ANode;
  h_leader : Z → option string;
  h_tlog : Z → list LogEntry;
  h_cands : list (Z * string * list LogEntry);
  h_votes : list (Z * string * string);
  h_acks : list (Z * string * nat);
  h_commits : list (Z * nat * nat);
}.

(** ** Vocabulary *)

Definition last_term (l : list LogEntry) : Z := e_Term (default zeroEntry (last l)).

(** The log [lc] is at least as up-to-date as [lv]. *)
Definition up_to_date (lc lv : list LogEntry) : Prop :=
  last_term lv < last_term lc ∨
  (last_term lc = last_term lv ∧ (length lv ≤ length lc)%nat).

Definition update {B} (k : string) (v : B) (f : string → B) : string → B :=
  λ k', if decide (k = k') then v else f k'.

Definition updateZ {B} (k : Z) (v : B) (f : Z → B) : Z → B :=
  λ k', if decide (k = k') then v else f k'.

(** The log a follower holds after it has accepted the first [m] positions of
    the leader's log [tl]. *)
Definition accept (m : nat) (tl l : list LogEntry) : list LogEntry :=
  if decide (take m tl `prefix_of` l) then l else take m tl.

(** The configuration a log determines, from the base membership [B]. *)
Definition configOf (B : gmap string string * gmap string string) (l : list LogEntry) :=
  applyEntries B (tail l).

Definition quorum (C Q : gset string) : Prop :=
  Q ⊆ C ∧ Z.of_nat (size C) / 2 + 1 ≤ Z.of_nat (size Q).

(** Every quorum of one configuration meets every quorum of the other. *)
Definition meets (C C' : gset string) : Prop :=
  ∀ Q Q', quorum C Q → quorum C' Q' → ∃ q, q ∈ Q ∧ q ∈ Q'.

Definition is_change (e : LogEntry) : Prop := e_Change e ≠ None.

#[export] Instance is_change_dec e : Decision (is_change e).
Proof. unfold is_change. apply _. Defined.

Section spec.
(** The membership the cluster starts with: addresses and HTTP addresses. *)
Context (B : gmap string string * gmap string string).

(** The members by a log. *)
Definition conf (l : list LogEntry) : gset string := dom (configOf B l).1.

(** Node [v] has acknowledged at least [m] positions of the log of term [t]. *)
Definition acked (a : AState) (t : Z) (v : string) (m : nat) : Prop :=
  ∃ m', (t, v, m') ∈ h_acks a ∧ (m ≤ m')%nat.

(** The leader of [t] has committed position [i]. *)
Definition committed (a : AState) (t : Z) (i : nat) : Prop :=
  ∃ n, (t, i, n) ∈ h_commits a.

Definition set_node (v : string) (nd : ANode) (a : AState) : AState :=
  MkAState (update v nd (a_nodes a)) (h_leader a) (h_tlog a) (h_cands a) (h_votes a)
    (h_acks a) (h_commits a).

Inductive astep (a : AState) : AState → Prop :=
  | AS_timeout v :
      v ∈ conf (a_log (a_nodes a v)) → v ≠ ""%string →
      let nd := a_nodes a v in
      let t := a_term nd + 1 in
      astep a (MkAState
        (update v (MkANode t v Candidate (a_log nd) (a_commit nd)) (a_nodes a))
        (h_leader a) (h_tlog a)
        ((t, v, a_log nd) :: h_cands a) ((t, v, v) :: h_votes a)
        (h_acks a) (h_commits a))
  | AS_new_term v t :
      let nd := a_nodes a v in
      a_term nd < t →
      astep a (set_node v (MkANode t "" Follower (a_log nd) (a_commit nd)) a)
  | AS_step_down v :
      let nd := a_nodes a v in
      astep a (set_node v (MkANode (a_term nd) (a_vote nd) Follower (a_log nd) (a_commit nd)) a)
  | AS_grant v c lc :
      let nd := a_nodes a v in
      let t := a_term nd in
      (t, c, lc) ∈ h_cands a →
      c ≠ ""%string →
      a_vote nd = ""%string ∨ a_vote nd = c →
      up_to_date lc (a_log nd) →
      astep a (MkAState
        (update v (MkANode t c (a_role nd) (a_log nd) (a_commit nd)) (a_nodes a))
        (h_leader a) (h_tlog a) (h_cands a) ((t, v, c) :: h_votes a)
        (h_acks a) (h_commits a))
  | AS_elect v e Q :
      let nd := a_nodes a v in
      let t := a_term nd in
      a_role nd = Candidate →
      quorum (conf (a_log nd)) Q → (∀ q, q ∈ Q → (t, q, v) ∈ h_votes a) →
      e_Term e = t → ¬ is_change e →
      let l := a_log nd ++ [e] in
      astep a (MkAState
        (update v (MkANode t (a_vote nd) Leader l (a_commit nd)) (a_nodes a))
        (updateZ t (Some v) (h_leader a)) (updateZ t l (h_tlog a))
        (h_cands a) (h_votes a) ((t, v, length l) :: h_acks a) (h_commits a))
  | AS_propose v e :
      let nd := a_nodes a v in
      let t := a_term nd in
      a_role nd = Leader → e_Term e = t →
      let l := a_log nd ++ [e] in
      (* a membership change: one member, the earlier changes committed, and an
         entry of the leader's term committed *)
      (is_change e →
        meets (conf (a_log nd)) (conf l) ∧
        (∀ p x, a_log nd !! p = Some x → is_change x → (p ≤ a_commit nd)%nat) ∧
        ∃ x, a_log nd !! a_commit nd = Some x ∧ e_Term x = t) →
      astep a (MkAState
        (update v (MkANode t (a_vote nd) Leader l (a_commit nd)) (a_nodes a))
        (h_leader a) (updateZ t l (h_tlog a))
        (h_cands a) (h_votes a) ((t, v, length l) :: h_acks a) (h_commits a))
  | AS_append v m :
      let nd := a_nodes a v in
      let t := a_term nd in
      is_Some (h_leader a t) → a_role nd = Follower →
      (0 < m ≤ length (h_tlog a t))%nat →
      astep a (MkAState
        (update v (MkANode t (a_vote nd) (a_role nd) (accept m (h_tlog a t) (a_log nd))
                     (a_commit nd)) (a_nodes a))
        (h_leader a) (h_tlog a) (h_cands a) (h_votes a)
        ((t, v, m) :: h_acks a) (h_commits a))
  | AS_commit v i e Q :
      let nd := a_nodes a v in
      let t := a_term nd in
      a_role nd = Leader →
      a_log nd !! i = Some e → e_Term e = t →
      quorum (conf (a_log nd)) Q → (∀ q, q ∈ Q → acked a t q (S i)) →
      (a_commit nd ≤ i)%nat →
      astep a (MkAState
        (update v (MkANode t (a_vote nd) Leader (a_log nd) i) (a_nodes a))
        (h_leader a) (h_tlog a) (h_cands a) (h_votes a) (h_acks a)
        ((t, i, length (a_log nd)) :: h_commits a))
  | AS_learn v t i c :
      let nd := a_nodes a v in
      committed a t i → t ≤ a_term nd → (c ≤ i)%nat →
      take (S c) (h_tlog a t) `prefix_of` a_log nd → (a_commit nd ≤ c)%nat →
      astep a (set_node v (MkANode (a_term nd) (a_vote nd) (a_role nd) (a_log nd) c) a)
  | AS_restart v :
      let nd := a_nodes a v in
      astep a (set_node v (MkANode (a_term nd) (a_vote nd) Follower (a_log nd) 0) a).

Definition ainit : AState :=
  MkAState (λ _, MkANode 0 "" Follower [zeroEntry] 0)
    (λ _, None) (λ t, if decide (t = 0) then [zeroEntry] else []) [] [] [] [].

Definition areach (a : AState) : Prop := rtc astep ainit a.
End spec.
