(* ===== verification/SpecInv.v ===== *)
(** The abstract protocol of [Spec]: how its history grows, and the invariant of
    its terms, votes and logs, which holds as long as every election of a step is
    the first of its term; [SpecSafety] shows that it is. *)
From S2P Require Import Prelude Types Node Persist Membership Spec.
Open Scope Z_scope.

(** ** Logs against the history *)

Definition sorted_terms (l : list LogEntry) : Prop :=
  ∀ i j x y, l !! i = Some x → l !! j = Some y → (i ≤ j)%nat → e_Term x ≤ e_Term y.

Definition bounded (t : Z) (l : list LogEntry) : Prop :=
  ∀ i e, l !! i = Some e → e_Term e ≤ t.

(** Log matching: the log up to an entry of term [t] is a prefix of the log of
    the leader of [t]. *)
Definition matching (T : Z → list LogEntry) (l : list LogEntry) : Prop :=
  ∀ i e, l !! i = Some e → take (S i) l `prefix_of` T (e_Term e).

Record wlog (T : Z → list LogEntry) (l : list LogEntry) : Prop := {
  wl_head : l !! 0%nat = Some zeroEntry;
  wl_sorted : sorted_terms l;
  wl_matching : matching T l;
}.

(** The leader of [t2] does not hold the first [m] positions of the log of [t]. *)
Definition lacks (a : AState) (t : Z) (m : nat) (t2 : Z) : Prop :=
  is_Some (h_leader a t2) ∧ ¬ take m (h_tlog a t) `prefix_of` h_tlog a t2.

(** What a vote for [c] in term [t'] says about [m] acknowledged positions of an
    earlier term [t]: the voter held them, or a leader up to term [b] lacks them. *)
Definition vouches (a : AState) (b t' : Z) (c : string) (t : Z) (m : nat) : Prop :=
  (∃ lc lv, (t', c, lc) ∈ h_cands a ∧ take m (h_tlog a t) `prefix_of` lv ∧
     up_to_date lc lv ∧ wlog (h_tlog a) lv) ∨
  (∃ t2, t < t2 ≤ b ∧ lacks a t m t2).

Lemma bounded_le t t' l : t ≤ t' → bounded t l → bounded t' l.
Proof. intros ? H i e Hi. specialize (H i e Hi). lia. Qed.

Lemma bounded_snoc t l e : bounded t l → e_Term e ≤ t → bounded t (l ++ [e]).
Proof.
  intros H He i x Hi. apply lookup_app_Some in Hi as [Hi|[_ Hi]]; [by eapply H|].
  by apply list_lookup_singleton_Some in Hi as [_ <-].
Qed.

Lemma bounded_take t m l : bounded t l → bounded t (take m l).
Proof. intros H i e Hi. apply lookup_take_Some in Hi as [Hi _]. by eapply H. Qed.

Lemma sorted_terms_snoc t l e :
  sorted_terms l → bounded t l → e_Term e = t → sorted_terms (l ++ [e]).
Proof.
  intros Hs Hb He i j x y Hi Hj Hij.
  apply lookup_app_Some in Hj as [Hj|[Hlen Hj]].
  - apply lookup_app_Some in Hi as [Hi|[Hlen Hi]]; [by eapply Hs|].
    apply lookup_lt_Some in Hj. lia.
  - apply list_lookup_singleton_Some in Hj as [_ <-].
    apply lookup_app_Some in Hi as [Hi|[_ Hi]].
    + rewrite He. by eapply Hb.
    + by apply list_lookup_singleton_Some in Hi as [_ <-].
Qed.

Lemma sorted_terms_take m l : sorted_terms l → sorted_terms (take m l).
Proof.
  intros H i j x y Hi Hj. apply lookup_take_Some in Hi as [Hi _].
  apply lookup_take_Some in Hj as [Hj _]. by eapply H.
Qed.

Lemma matching_take T m l : matching T l → matching T (take m l).
Proof.
  intros H i e Hi. apply lookup_take_Some in Hi as [Hi Hlt].
  rewrite take_take, Nat.min_l by lia. by apply H.
Qed.

Lemma wlog_take T m l : (0 < m)%nat → wlog T l → wlog T (take m l).
Proof.
  intros Hm [H1 H2 H3]. split; [|by apply sorted_terms_take|by apply matching_take].
  rewrite lookup_take_lt by done. done.
Qed.

Lemma last_term_snoc l e : last_term (l ++ [e]) = e_Term e.
Proof. unfold last_term. by rewrite last_snoc. Qed.

(** The last entry of a log that is not empty. *)
Lemma wlog_last T l :
  wlog T l → ∃ e, l !! pred (length l) = Some e ∧ last_term l = e_Term e ∧
    l `prefix_of` T (last_term l).
Proof.
  intros [Hh _ Hm]. unfold last_term. rewrite last_lookup.
  destruct l as [|x l]; [done|].
  destruct ((x :: l) !! pred (length (x :: l))) as [e|] eqn:E.
  - exists e. split_and!; [done..|]. apply Hm in E. cbn in E.
    by rewrite firstn_all in E.
  - apply lookup_ge_None in E. cbn in E. lia.
Qed.

(** A log cannot hold a later term than its last one. *)
Lemma wlog_bounded_last T l i e : wlog T l → l !! i = Some e → e_Term e ≤ last_term l.
Proof.
  intros Hw Hi. destruct (wlog_last T l Hw) as (x&Hx&->&_).
  eapply (wl_sorted _ _ Hw); [done..|]. apply lookup_lt_Some in Hi. lia.
Qed.

(** ** Histories grow *)

Record hist_le (a a' : AState) : Prop := {
  hl_leader : ∀ t l, h_leader a t = Some l → h_leader a' t = Some l;
  hl_suffix : ∀ t, is_Some (h_leader a t) →
    ∃ k, h_tlog a' t = h_tlog a t ++ k ∧ Forall (λ e, e_Term e = t) k;
  hl_tlog : ∀ t, h_tlog a t `prefix_of` h_tlog a' t;
  hl_cands : ∀ x, x ∈ h_cands a → x ∈ h_cands a';
  hl_votes : ∀ x, x ∈ h_votes a → x ∈ h_votes a';
  hl_acks : ∀ x, x ∈ h_acks a → x ∈ h_acks a';
  hl_commits : ∀ x, x ∈ h_commits a → x ∈ h_commits a';
}.

Lemma wlog_mono (T T' : Z → list LogEntry) l :
  (∀ t, T t `prefix_of` T' t) → wlog T l → wlog T' l.
Proof.
  intros HT [H1 H2 H3]. split; [done..|]. intros i e Hi.
  etrans; [by apply H3|apply HT].
Qed.

Lemma acked_mono a a' t v m : hist_le a a' → acked a t v m → acked a' t v m.
Proof. intros Ha (m'&Hm&?). exists m'. split; [by apply (hl_acks _ _ Ha)|done]. Qed.

Lemma take_tlog_mono a a' t m :
  hist_le a a' → (m ≤ length (h_tlog a t))%nat →
  take m (h_tlog a' t) = take m (h_tlog a t).
Proof. intros Ha ?. symmetry. apply prefix_take_eq; [apply (hl_tlog _ _ Ha)|done]. Qed.

(** A log prefix of bounded terms cannot reach into entries of a later term. *)
Lemma prefix_app_terms t t2 p l k :
  bounded t p → t < t2 → Forall (λ e, e_Term e = t2) k →
  p `prefix_of` l ++ k → p `prefix_of` l.
Proof.
  intros Hb Hlt Hk Hp. destruct (decide (length p ≤ length l)%nat) as [Hle|Hgt].
  { eapply prefix_le_eq; [done|by apply prefix_app_r|done]. }
  assert (is_Some (p !! length l)) as [e He] by (apply lookup_lt_is_Some; lia).
  pose proof (prefix_lookup_Some _ _ _ _ He Hp) as He'.
  rewrite lookup_app_r, Nat.sub_diag in He' by done.
  apply list_elem_of_lookup_2 in He'.
  rewrite Forall_forall in Hk. apply Hk in He'. apply Hb in He. lia.
Qed.

Lemma lacks_mono a a' t m t2 :
  hist_le a a' → (m ≤ length (h_tlog a t))%nat → bounded t (h_tlog a t) → t < t2 →
  lacks a t m t2 → lacks a' t m t2.
Proof.
  intros Ha Hm Hb Hlt [[l Hl] Hn]. split; [eexists; by apply (hl_leader _ _ Ha)|].
  rewrite (take_tlog_mono a a') by done. intros Hp. apply Hn.
  destruct (hl_suffix _ _ Ha t2) as (k&Hk&Hf); [by eexists|]. rewrite Hk in Hp.
  eapply prefix_app_terms; [by apply bounded_take| |done..]. done.
Qed.

Lemma vouches_mono a a' b t' c t m :
  hist_le a a' → (m ≤ length (h_tlog a t))%nat → bounded t (h_tlog a t) →
  vouches a b t' c t m → vouches a' b t' c t m.
Proof.
  intros Ha Hm Hb [(lc&lv&H1&H2&H3&H4)|(t2&Ht&H)].
  - left. exists lc, lv. rewrite (take_tlog_mono a a') by done.
    split_and!; [by apply (hl_cands _ _ Ha)|done..|by eapply wlog_mono; [apply (hl_tlog _ _ Ha)|]].
  - right. exists t2. split; [done|]. eapply lacks_mono; try done. lia.
Qed.

Lemma update_eq {B} k (v : B) f : update k v f k = v.
Proof. unfold update. by rewrite decide_True. Qed.

Lemma update_ne {B} k k' (v : B) f : k ≠ k' → update k v f k' = f k'.
Proof. intros. unfold update. by rewrite decide_False. Qed.

Lemma updateZ_eq {B} k (v : B) f : updateZ k v f k = v.
Proof. unfold updateZ. by rewrite decide_True. Qed.

Lemma updateZ_ne {B} k k' (v : B) f : k ≠ k' → updateZ k v f k' = f k'.
Proof. intros. unfold updateZ. by rewrite decide_False. Qed.

(** Case analysis on whether a node is the one a step updates. *)
Ltac at_node v v' :=
  destruct (decide (v = v')) as [<-|?];
  [rewrite ?update_eq in *|rewrite ?update_ne in * by done]; cbn in *.

(** ** The invariant of elections and logs *)

Record einv (a : AState) : Prop := {
  ei_term : ∀ v, 0 ≤ a_term (a_nodes a v);
  ei_zero : h_leader a 0 = None ∧ h_tlog a 0 = [zeroEntry];
  ei_none : ∀ t, h_leader a t = None → t ≠ 0 → h_tlog a t = [];
  ei_log : ∀ v, wlog (h_tlog a) (a_log (a_nodes a v)) ∧
    bounded (a_term (a_nodes a v)) (a_log (a_nodes a v));
  ei_tlog : ∀ t, is_Some (h_leader a t) → wlog (h_tlog a) (h_tlog a t) ∧ bounded t (h_tlog a t);
  ei_cands : ∀ t c lc, (t, c, lc) ∈ h_cands a →
    wlog (h_tlog a) lc ∧ bounded (t - 1) lc ∧ 0 < t ≤ a_term (a_nodes a c) ∧
    (a_term (a_nodes a c) = t → a_role (a_nodes a c) = Candidate → a_log (a_nodes a c) = lc);
  ei_cands_fun : ∀ t c l1 l2, (t, c, l1) ∈ h_cands a → (t, c, l2) ∈ h_cands a → l1 = l2;
  ei_candidate : ∀ v, a_role (a_nodes a v) = Candidate →
    a_vote (a_nodes a v) = v ∧ v ≠ ""%string ∧
    (a_term (a_nodes a v), v, a_log (a_nodes a v)) ∈ h_cands a;
  ei_is_leader : ∀ v, a_role (a_nodes a v) = Leader →
    h_leader a (a_term (a_nodes a v)) = Some v ∧
    a_log (a_nodes a v) = h_tlog a (a_term (a_nodes a v));
  ei_leader : ∀ t l, h_leader a t = Some l →
    0 < t ≤ a_term (a_nodes a l) ∧
    (a_term (a_nodes a l) = t → a_role (a_nodes a l) ≠ Candidate) ∧
    ∃ lc k, (t, l, lc) ∈ h_cands a ∧ h_tlog a t = lc ++ k ∧ Forall (λ e, e_Term e = t) k;
  ei_votes : ∀ t v c, (t, v, c) ∈ h_votes a →
    t ≤ a_term (a_nodes a v) ∧ (t = a_term (a_nodes a v) → a_vote (a_nodes a v) = c) ∧
    c ≠ ""%string ∧ ∃ lc, (t, c, lc) ∈ h_cands a;
  ei_votes_fun : ∀ t v c1 c2, (t, v, c1) ∈ h_votes a → (t, v, c2) ∈ h_votes a → c1 = c2;
}.

Lemma meets_refl C : meets C C.
Proof. intros Q Q' [? ?] [? ?]. by eapply quorum_intersect. Qed.

Lemma meets_sym C C' : meets C C' → meets C' C.
Proof. intros H Q Q' HQ HQ'. destruct (H Q' Q HQ' HQ) as (q&?&?). by exists q. Qed.

(** A step that keeps the history and the log of a node, and does not undo its
    term, its vote or its role. *)
Lemma einv_set_node a v nd :
  einv a →
  a_term (a_nodes a v) ≤ a_term nd → a_log nd = a_log (a_nodes a v) →
  (a_term nd = a_term (a_nodes a v) → a_vote nd = a_vote (a_nodes a v)) →
  a_role nd = Follower ∨
    (a_role nd = a_role (a_nodes a v) ∧ a_term nd = a_term (a_nodes a v)) →
  einv (set_node v nd a).
Proof.
  intros [] Ht Hl Hv Hr. split; cbn; try done.
  - intros w. at_node v w; [|done]. specialize (ei_term0 v). lia.
  - intros w. at_node v w; [|apply ei_log0]. rewrite Hl. destruct (ei_log0 v).
    split; [done|by eapply bounded_le].
  - intros t c lc Hin. destruct (ei_cands0 t c lc Hin) as (?&?&?&Hc). at_node v c; [|done].
    split_and!; [done..|lia|lia|]. intros Ht' Hr'. rewrite Hl. apply Hc; [lia|].
    destruct Hr as [Hr|[Hr ?]]; congruence.
  - intros w. at_node v w; [|apply ei_candidate0]. intros Hr'.
    destruct Hr as [Hr|[Hr Ht']]; [congruence|].
    rewrite Hl, Ht', Hv by done. apply ei_candidate0. congruence.
  - intros w. at_node v w; [|apply ei_is_leader0]. intros Hr'.
    destruct Hr as [Hr|[Hr Ht']]; [congruence|]. rewrite Hl, Ht'. apply ei_is_leader0. congruence.
  - intros t l Hlead. destruct (ei_leader0 t l Hlead) as (?&Hc&?). at_node v l; [|done].
    split_and!; [lia|lia| |done]. intros Ht' Hr'.
    destruct Hr as [Hr|[Hr ?]]; [congruence|]. apply Hc; [lia|congruence].
  - intros t w c Hin. destruct (ei_votes0 t w c Hin) as (?&Hc&?&?). at_node v w; [|done].
    split_and!; [lia| |done..]. intros ->. rewrite Hv by lia. apply Hc. lia.
Qed.

Lemma wlog_snoc (T T' : Z → list LogEntry) t l e :
  (∀ t, T t `prefix_of` T' t) → T' t = l ++ [e] →
  wlog T l → bounded t l → e_Term e = t → wlog T' (l ++ [e]).
Proof.
  intros HT HTt Hw Hb He. pose proof (wlog_mono _ _ _ HT Hw) as [H1 H2 H3].
  split; [by apply lookup_app_l_Some|by eapply sorted_terms_snoc|].
  intros i x Hi. apply lookup_app_Some in Hi as [Hi|[Hlen Hi]].
  - rewrite take_app_le by (apply lookup_lt_Some in Hi; lia). by apply H3.
  - apply list_lookup_singleton_Some in Hi as [? <-]. rewrite He, HTt.
    apply prefix_take.
Qed.

Lemma elem_of_cons3 {A B C} (x1 y1 : A) (x2 y2 : B) (x3 y3 : C) l :
  (x1, x2, x3) ∈ (y1, y2, y3) :: l →
  (x1 = y1 ∧ x2 = y2 ∧ x3 = y3) ∨ (x1, x2, x3) ∈ l.
Proof. rewrite elem_of_cons. naive_solver. Qed.

(** The tests of a step on a history that gains one element. *)
Ltac new_or_old H :=
  apply elem_of_cons3 in H as [(?&?&?)|H]; [simplify_eq|].

Lemma einv_timeout a v :
  einv a → v ≠ ""%string →
  let nd := a_nodes a v in
  let t := a_term nd + 1 in
  einv (MkAState (update v (MkANode t v Candidate (a_log nd) (a_commit nd)) (a_nodes a))
    (h_leader a) (h_tlog a) ((t, v, a_log nd) :: h_cands a) ((t, v, v) :: h_votes a)
    (h_acks a) (h_commits a)).
Proof.
  intros [] Hv nd t. pose proof (ei_term0 v) as Hpos.
  assert (Ht : t = a_term (a_nodes a v) + 1) by done. clearbody t. subst nd.
  assert (Hnew : ∀ lc, (t, v, lc) ∉ h_cands a).
  { intros lc Hin. apply ei_cands0 in Hin as (_&_&?&_). lia. }
  split; cbn; try done.
  - intros w. at_node v w; [lia|done].
  - intros w. at_node v w; [|apply ei_log0]. destruct (ei_log0 v).
    split; [done|]. eapply bounded_le; [|done]. lia.
  - intros t' c lc Hin. new_or_old Hin.
    + rewrite update_eq. cbn. destruct (ei_log0 v). split_and!; [done| |lia|done..].
      eapply bounded_le; [|done]. lia.
    + destruct (ei_cands0 t' c lc Hin) as (?&?&?&Hc). at_node v c; [|done].
      split_and!; [done..|lia|lia|]. intros. subst t'. by apply Hnew in Hin.
  - intros t' c l1 l2 H1 H2. new_or_old H1; new_or_old H2; [done|..].
    + by apply Hnew in H2.
    + by apply Hnew in H1.
    + by eapply ei_cands_fun0.
  - intros w. at_node v w; intros Hr.
    + split_and!; [done..|]. apply elem_of_cons. by left.
    + destruct (ei_candidate0 w Hr) as (?&?&?). split_and!; [done..|].
      apply elem_of_cons. by right.
  - intros w. at_node v w; [done|]. apply ei_is_leader0.
  - intros t' l Hl. destruct (ei_leader0 t' l Hl) as (?&Hc&lc&k&?&?&?).
    split_and!; [lia| |at_node v l|].
    + at_node v l; [lia|lia].
    + intros <-. lia.
    + done.
    + exists lc, k. split_and!; [apply elem_of_cons; by right|done..].
  - intros t' w c Hin. new_or_old Hin.
    + rewrite update_eq. cbn. split_and!; [done..|]. eexists. apply elem_of_cons. by left.
    + destruct (ei_votes0 t' w c Hin) as (?&Hc&?&lc&?).
      split_and!; [|at_node v w|done|exists lc; apply elem_of_cons; by right].
      * at_node v w; [lia|lia].
      * intros ->. lia.
      * done.
  - intros t' w c1 c2 H1 H2. new_or_old H1; new_or_old H2; [done|..].
    + apply ei_votes0 in H2 as (?&_). lia.
    + apply ei_votes0 in H1 as (?&_). lia.
    + by eapply ei_votes_fun0.
Qed.

Lemma einv_grant a v c lc :
  einv a →
  let nd := a_nodes a v in
  let t := a_term nd in
  (t, c, lc) ∈ h_cands a → c ≠ ""%string →
  a_vote nd = ""%string ∨ a_vote nd = c →
  einv (MkAState (update v (MkANode t c (a_role nd) (a_log nd) (a_commit nd)) (a_nodes a))
    (h_leader a) (h_tlog a) (h_cands a) ((t, v, c) :: h_votes a) (h_acks a) (h_commits a)).
Proof.
  intros [] nd t Hc Hne Hvote.
  assert (Ht : t = a_term (a_nodes a v)) by done. clearbody t. subst nd.
  assert (Hold : ∀ c', (t, v, c') ∈ h_votes a → c' = c).
  { intros c' Hin. apply ei_votes0 in Hin as (_&Hv&?&_). specialize (Hv Ht).
    destruct Hvote; congruence. }
  subst t.
  split; cbn; try done.
  - intros w. at_node v w; apply ei_term0.
  - intros w. at_node v w; apply ei_log0.
  - intros t' c' lc' Hin. destruct (ei_cands0 t' c' lc' Hin) as (?&?&?&?). by at_node v c'.
  - intros w. at_node v w; [|apply ei_candidate0]. intros Hr.
    destruct (ei_candidate0 v Hr) as (Hv&?&?). split_and!; [|done..].
    destruct Hvote as [Hv'|Hv']; congruence.
  - intros w. at_node v w; apply ei_is_leader0.
  - intros t' l Hl. destruct (ei_leader0 t' l Hl) as (?&?&?). by at_node v l.
  - intros t' w c' Hin. new_or_old Hin.
    + rewrite update_eq. cbn. split_and!; [done..|by eexists].
    + destruct (ei_votes0 t' w c' Hin) as (?&Hv&?&?). at_node v w; [|done].
      split_and!; [done| |done..]. intros ->. symmetry. by apply Hold.
  - intros t' w c1 c2 H1 H2. new_or_old H1; new_or_old H2; [done|..].
    + symmetry. by apply Hold.
    + by apply Hold.
    + by eapply ei_votes_fun0.
Qed.

(** A leader's log and the history of its term grow by the same entry; this is
    the part that an election and a proposal share. *)
Lemma tlog_grow a t l :
  h_tlog a t `prefix_of` l → ∀ t', h_tlog a t' `prefix_of` updateZ t l (h_tlog a) t'.
Proof. intros H t'. unfold updateZ. case_decide; [by subst|done]. Qed.

Lemma einv_elect a v e :
  einv a →
  let nd := a_nodes a v in
  let t := a_term nd in
  let l := a_log nd ++ [e] in
  a_role nd = Candidate → h_leader a t = None → e_Term e = t →
  einv (MkAState (update v (MkANode t (a_vote nd) Leader l (a_commit nd)) (a_nodes a))
    (updateZ t (Some v) (h_leader a)) (updateZ t l (h_tlog a))
    (h_cands a) (h_votes a) ((t, v, length l) :: h_acks a) (h_commits a)).
Proof.
  intros [] nd t l Hr Hfresh He. subst nd. destruct (ei_candidate0 v Hr) as (_&_&Hcand).
  pose proof (proj1 (proj2 (proj2 (ei_cands0 _ _ _ Hcand)))) as Hpos.
  assert (Hnil : h_tlog a t = []) by (apply ei_none0; [done|subst t; lia]).
  assert (HT : ∀ t', h_tlog a t' `prefix_of` updateZ t l (h_tlog a) t').
  { apply tlog_grow. rewrite Hnil. apply prefix_nil. }
  destruct (ei_log0 v) as [Hw Hb].
  assert (Hwl : wlog (updateZ t l (h_tlog a)) l).
  { eapply wlog_snoc; [exact HT| |done..]. apply updateZ_eq. }
  assert (Hbl : bounded t l) by (apply bounded_snoc; [done|lia]).
  assert (Hlead : ∀ t' l', h_leader a t' = Some l' → t ≠ t') by (intros t' l' Hl' <-; congruence).
  split; cbn.
  - intros w. at_node v w; apply ei_term0.
  - rewrite !updateZ_ne by (subst t; lia). done.
  - intros t' Hl Ht'. unfold updateZ in *. case_decide; [done|]. by apply ei_none0.
  - intros w. at_node v w; [done|]. destruct (ei_log0 w).
    split; [by eapply wlog_mono|done].
  - intros t' Hl. destruct (decide (t = t')) as [<-|?]; [by rewrite !updateZ_eq|].
    rewrite !updateZ_ne in * by done. destruct (ei_tlog0 t' Hl). split; [by eapply wlog_mono|done].
  - intros t' c lc Hin. destruct (ei_cands0 t' c lc Hin) as (?&?&[??]&?).
    split_and!; [by eapply wlog_mono|done|done| |]; by at_node v c.
  - done.
  - intros w. at_node v w; [done|]. apply ei_candidate0.
  - intros w. at_node v w; intros Hr'; [by rewrite !updateZ_eq|].
    destruct (ei_is_leader0 w Hr') as [Hl Hlog].
    rewrite !updateZ_ne by (by eapply Hlead). done.
  - intros t' l' Hl. unfold updateZ in Hl. case_decide as Ht; simplify_eq.
    + rewrite update_eq, updateZ_eq. cbn. split_and!; [lia|done..|].
      eexists _, [e]. split_and!; [exact Hcand|done|by constructor].
    + destruct (ei_leader0 t' l' Hl) as ([??]&?&?). rewrite updateZ_ne by done.
      split_and!; [done| | |done]; by at_node v l'.
  - intros t' w c Hin. destruct (ei_votes0 t' w c Hin) as (?&?&?&?). by at_node v w.
  - done.
Qed.

Lemma einv_propose a v e :
  einv a →
  let nd := a_nodes a v in
  let t := a_term nd in
  let l := a_log nd ++ [e] in
  a_role nd = Leader → e_Term e = t →
  einv (MkAState (update v (MkANode t (a_vote nd) Leader l (a_commit nd)) (a_nodes a))
    (h_leader a) (updateZ t l (h_tlog a))
    (h_cands a) (h_votes a) ((t, v, length l) :: h_acks a) (h_commits a)).
Proof.
  intros [] nd t l Hr He. subst nd. destruct (ei_is_leader0 v Hr) as [Hlead Hlog].
  fold t in Hlead, Hlog. pose proof (ei_leader0 t v Hlead) as (Hpos&_).
  assert (HT : ∀ t', h_tlog a t' `prefix_of` updateZ t l (h_tlog a) t').
  { apply tlog_grow. rewrite <- Hlog. by eexists. }
  destruct (ei_log0 v) as [Hw Hb].
  assert (Hwl : wlog (updateZ t l (h_tlog a)) l).
  { eapply wlog_snoc; [exact HT| |done..]. apply updateZ_eq. }
  assert (Hbl : bounded t l) by (apply bounded_snoc; [done|lia]).
  split; cbn; try done.
  - intros w. at_node v w; apply ei_term0.
  - rewrite updateZ_ne by lia. done.
  - intros t' Hl Ht'. unfold updateZ. case_decide; [congruence|]. by apply ei_none0.
  - intros w. at_node v w; [done|]. destruct (ei_log0 w).
    split; [by eapply wlog_mono|done].
  - intros t' Hl. destruct (decide (t = t')) as [<-|?]; [by rewrite !updateZ_eq|].
    rewrite !updateZ_ne in * by done. destruct (ei_tlog0 t' Hl). split; [by eapply wlog_mono|done].
  - intros t' c lc Hin. destruct (ei_cands0 t' c lc Hin) as (?&?&[??]&?).
    split_and!; [by eapply wlog_mono|done|done| |]; by at_node v c.
  - intros w. at_node v w; [done|]. apply ei_candidate0.
  - intros w. at_node v w; intros Hr'; [by rewrite updateZ_eq|].
    destruct (ei_is_leader0 w Hr') as [Hl' Hlog'].
    rewrite updateZ_ne by congruence. done.
  - intros t' l' Hl. destruct (ei_leader0 t' l' Hl) as ([??]&?&lc&k&?&Hk&?).
    split_and!; [done|by at_node v l'..|]. unfold updateZ. case_decide as Ht; [|by exists lc, k].
    exists lc, (k ++ [e]). subst t'. split_and!; [done| |apply Forall_app; split; [done|by constructor]].
    unfold l. by rewrite Hlog, Hk, app_assoc.
  - intros t' w c Hin. destruct (ei_votes0 t' w c Hin) as (?&?&?&?). by at_node v w.
Qed.

(** The log a follower accepts is a log of the history. *)
Lemma accept_wlog T m tl l :
  (0 < m)%nat → wlog T tl → wlog T l → wlog T (accept m tl l).
Proof. intros. unfold accept. case_decide; [done|by apply wlog_take]. Qed.

Lemma accept_bounded t m tl l : bounded t tl → bounded t l → bounded t (accept m tl l).
Proof. intros. unfold accept. case_decide; [done|by apply bounded_take]. Qed.

Lemma einv_append a v m :
  einv a →
  let nd := a_nodes a v in
  let t := a_term nd in
  is_Some (h_leader a t) → a_role nd = Follower → (0 < m)%nat →
  einv (MkAState (update v (MkANode t (a_vote nd) (a_role nd)
      (accept m (h_tlog a t) (a_log nd)) (a_commit nd)) (a_nodes a))
    (h_leader a) (h_tlog a) (h_cands a) (h_votes a) ((t, v, m) :: h_acks a) (h_commits a)).
Proof.
  intros [] nd t Hl Hr Hm. subst nd. destruct (ei_tlog0 t Hl) as [Hwt Hbt].
  split; cbn; try done.
  - intros w. at_node v w; apply ei_term0.
  - intros w. at_node v w; [|apply ei_log0]. destruct (ei_log0 v).
    split; [by apply accept_wlog|by apply accept_bounded].
  - intros t' c lc Hin. destruct (ei_cands0 t' c lc Hin) as (?&?&[??]&?).
    at_node v c; [|done]. split_and!; [done..|]. congruence.
  - intros w. at_node v w; [congruence|]. apply ei_candidate0.
  - intros w. at_node v w; [congruence|]. apply ei_is_leader0.
  - intros t' l' Hl'. destruct (ei_leader0 t' l' Hl') as ([??]&?&?). by at_node v l'.
  - intros t' w c Hin. destruct (ei_votes0 t' w c Hin) as (?&?&?&?). by at_node v w.
Qed.

Lemma einv_init : einv ainit.
Proof.
  assert (Hw : wlog (h_tlog ainit) [zeroEntry]).
  { split; [done| |].
    - intros i j x y Hi Hj _. apply list_lookup_singleton_Some in Hi as [_ <-].
      by apply list_lookup_singleton_Some in Hj as [_ <-].
    - intros i e Hi. apply list_lookup_singleton_Some in Hi as [-> <-]. done. }
  split; cbn; try done.
  - intros t _ Ht. by rewrite decide_False.
  - intros v. split; [exact Hw|]. intros i e Hi.
    by apply list_lookup_singleton_Some in Hi as [_ <-].
  - intros t c lc Hin. by apply elem_of_nil in Hin.
  - intros t c l1 l2 Hin. by apply elem_of_nil in Hin.
  - intros t v c Hin. by apply elem_of_nil in Hin.
  - intros t v c1 c2 Hin. by apply elem_of_nil in Hin.
Qed.

(** The invariant does not read acknowledgements and commit points. *)
Lemma einv_hist a acks commits :
  einv a →
  einv (MkAState (a_nodes a) (h_leader a) (h_tlog a) (h_cands a) (h_votes a) acks commits).
Proof. intros []. by split. Qed.

Section steps.
Context (B : gmap string string * gmap string string).

(** A candidate that a quorum has voted for is the first leader of its term. *)
Definition fresh_elections (a : AState) : Prop := ∀ v Q,
  a_role (a_nodes a v) = Candidate → quorum (conf B (a_log (a_nodes a v))) Q →
  (∀ q, q ∈ Q → (a_term (a_nodes a v), q, v) ∈ h_votes a) →
  h_leader a (a_term (a_nodes a v)) = None.

Lemma einv_step a a' : einv a → fresh_elections a → astep B a a' → einv a'.
Proof.
  intros Hinv Hf Hs. destruct Hs.
  - by apply einv_timeout.
  - apply einv_set_node; cbn; [done|subst nd; lia|done|subst nd; lia|by left].
  - apply einv_set_node; cbn; [done|done|done|done|by left].
  - by eapply einv_grant.
  - apply einv_elect; [done..| |done]. by eapply Hf.
  - by apply einv_propose.
  - apply einv_append; [done..|lia].
  - apply (einv_hist (set_node v (MkANode t (a_vote nd) Leader (a_log nd) i) a)).
    apply einv_set_node; cbn; [done..|by right].
  - apply einv_set_node; cbn; [done..|by right].
  - apply einv_set_node; cbn; [done..|by left].
Qed.

(** ** Every step extends the history *)

Lemma hist_le_same a nodes cands votes acks commits :
  (∀ x, x ∈ h_cands a → x ∈ cands) → (∀ x, x ∈ h_votes a → x ∈ votes) →
  (∀ x, x ∈ h_acks a → x ∈ acks) → (∀ x, x ∈ h_commits a → x ∈ commits) →
  hist_le a (MkAState nodes (h_leader a) (h_tlog a) cands votes acks commits).
Proof.
  intros. split; cbn; try done. intros t _. exists []. by rewrite app_nil_r.
Qed.

Lemma hist_le_step a a' : einv a → fresh_elections a → astep B a a' → hist_le a a'.
Proof.
  intros Hinv Hf Hs. destruct Hs;
    try (apply hist_le_same; intros x Hx; try apply elem_of_cons; by auto).
  - pose proof (Hf v Q H H0 H1) as Hfresh.
    destruct (ei_candidate _ Hinv v H) as (_&_&Hc).
    pose proof (proj1 (proj2 (proj2 (ei_cands _ Hinv _ _ _ Hc)))) as Hpos.
    assert (Hnil : h_tlog a t = []) by (apply (ei_none _ Hinv); [done|subst t nd; lia]).
    split; cbn; try done.
    + intros t' l' Hl'. rewrite updateZ_ne; [done|]. intros <-. unfold t, nd in Hl'. congruence.
    + intros t' [l' Hl']. exists []. rewrite app_nil_r. split; [|done].
      apply updateZ_ne. intros <-. unfold t, nd in Hl'. congruence.
    + apply tlog_grow. rewrite Hnil. apply prefix_nil.
    + intros x Hx. apply elem_of_cons. by right.
  - destruct (ei_is_leader _ Hinv v H) as [Hl Hlog]. split; cbn; try done.
    + intros t' _. unfold updateZ. case_decide as Ht.
      * exists [e]. subst t'. split; [|by constructor].
        unfold l. unfold nd, t. by rewrite Hlog.
      * exists []. by rewrite app_nil_r.
    + apply tlog_grow. unfold t, nd. rewrite <- Hlog. by eexists.
    + intros x Hx. apply elem_of_cons. by right.
Qed.
End steps.
