(* ===== verification/SpecSafety.v ===== *)
(** Safety of the abstract protocol of [Spec], membership changes included: one
    leader per term, log matching, leader completeness and agreement of the
    committed prefixes, by an inductive invariant over the steps.

    Elections and commits count majorities of different configurations.  That
    they meet whenever it matters is shown by following the changes of a log back
    ([candidates_meet]): a leader changes the membership only after it has
    committed an entry of its term, and only by one change at a time. *)
From S2P Require Import Prelude Types Node Persist Membership Spec SpecInv.
Open Scope Z_scope.

Section safety.
Context (B : gmap string string * gmap string string).
Abbreviation conf := (conf B).

(** ** The invariant of acknowledgements, commits and changes *)

(** A majority of the configuration of its log has voted for [c] in term [t']. *)
Definition wins (a : AState) (b t' : Z) (c : string) (lc : list LogEntry) : Prop :=
  (t', c, lc) ∈ h_cands a ∧ ∃ Q, quorum (conf lc) Q ∧ ∀ q, q ∈ Q →
    (t', q, c) ∈ h_votes a ∧ ∀ t m, acked a t q m → t < t' → vouches a b t' c t m.

(** A change at position [p] of the log of [t] that its leader has made. *)
Definition change_ok (a : AState) (t : Z) (p : nat) : Prop :=
  meets (conf (take p (h_tlog a t))) (conf (take (S p) (h_tlog a t))) ∧
  (∃ j n, (t, j, n) ∈ h_commits a ∧ (n ≤ p)%nat) ∧
  (∀ p1 x, (p1 < p)%nat → h_tlog a t !! p1 = Some x → is_change x → e_Term x = t →
     ∃ j n, (t, j, n) ∈ h_commits a ∧ (p1 ≤ j)%nat ∧ (n ≤ p)%nat).

Record cinv (a : AState) : Prop := {
  ci_acks : ∀ t v m, (t, v, m) ∈ h_acks a →
    t ≤ a_term (a_nodes a v) ∧ is_Some (h_leader a t) ∧ (m ≤ length (h_tlog a t))%nat;
  ci_held : ∀ t v m, acked a t v m →
    take m (h_tlog a t) `prefix_of` a_log (a_nodes a v) ∨
    ∃ t2, t < t2 ≤ a_term (a_nodes a v) ∧ lacks a t m t2;
  ci_votes : ∀ t' v c t m, (t', v, c) ∈ h_votes a →
    acked a t v m → t < t' → vouches a t' t' c t m;
  ci_quorum : ∀ t' l, h_leader a t' = Some l → ∃ lc, wins a (t' - 1) t' l lc;
  ci_certs : ∀ t i n, (t, i, n) ∈ h_commits a →
    ∃ e, h_tlog a t !! i = Some e ∧ e_Term e = t ∧ is_Some (h_leader a t) ∧
      (i < n ≤ length (h_tlog a t))%nat ∧
      ∃ Q, quorum (conf (take n (h_tlog a t))) Q ∧ ∀ q, q ∈ Q → acked a t q (S i);
  ci_commit : ∀ v, a_commit (a_nodes a v) = 0%nat ∨
    ∃ t i, committed a t i ∧ t ≤ a_term (a_nodes a v) ∧
      (a_commit (a_nodes a v) ≤ i)%nat ∧
      take (S (a_commit (a_nodes a v))) (h_tlog a t) `prefix_of` a_log (a_nodes a v);
  ci_changes : ∀ t p e, is_Some (h_leader a t) → h_tlog a t !! p = Some e → e_Term e = t →
    is_change e → change_ok a t p;
}.

Lemma acked_facts a t v m :
  cinv a → acked a t v m →
  t ≤ a_term (a_nodes a v) ∧ is_Some (h_leader a t) ∧ (m ≤ length (h_tlog a t))%nat.
Proof.
  intros Hc (m'&Hin&Hm). destruct (ci_acks _ Hc _ _ _ Hin) as (?&?&?).
  split_and!; [done..|lia].
Qed.

Lemma ci_commits a t i :
  cinv a → committed a t i →
  ∃ e, h_tlog a t !! i = Some e ∧ e_Term e = t ∧ is_Some (h_leader a t).
Proof. intros Hc [n Hin]. destruct (ci_certs _ Hc _ _ _ Hin) as (e&?&?&?&_). by exists e. Qed.

(** ** Configurations along a log *)

Lemma conf_app l k : l ≠ [] → Forall (λ e, ¬ is_change e) k → conf (l ++ k) = conf l.
Proof.
  intros Hl Hk. unfold Spec.conf, configOf. destruct l as [|x l]; [done|]. cbn [app tail].
  rewrite applyEntries_app, (applyEntries_no_change _ k); [done|].
  eapply Forall_impl; [exact Hk|]. intros e He. unfold is_change in He.
  destruct (e_Change e); [by destruct He|done].
Qed.

(** No change lies at the positions from [x] to [y] of [l]. *)
Definition unchanged (l : list LogEntry) (x y : nat) : Prop :=
  ∀ p e, (x ≤ p < y)%nat → l !! p = Some e → ¬ is_change e.

Lemma conf_unchanged l x y :
  l ≠ [] → (0 < x ≤ y)%nat → unchanged l x y → conf (take y l) = conf (take x l).
Proof.
  intros Hl Hxy Hu.
  assert (E : take y l = take x l ++ take (y - x) (drop x l)).
  { rewrite <- (take_drop x (take y l)), take_take, Nat.min_l by lia.
    by rewrite skipn_firstn_comm. }
  rewrite E. apply conf_app; [destruct l, x; naive_solver lia|].
  apply Forall_lookup_2. intros p e Hp. apply lookup_take_Some in Hp as [Hp Hlt].
  rewrite lookup_drop in Hp. eapply Hu; [|exact Hp]. lia.
Qed.

Lemma first_change l x y :
  (x ≤ y)%nat → unchanged l x y ∨
  ∃ p e, (x ≤ p < y)%nat ∧ l !! p = Some e ∧ is_change e ∧ unchanged l x p.
Proof.
  intros Hxy. replace y with (x + (y - x))%nat by lia. generalize (y - x)%nat as d. clear.
  induction d as [|d [IH|(p&e&?&?&?&?)]].
  - left. intros p e ?. lia.
  - destruct (l !! (x + d)%nat) as [e|] eqn:E.
    + destruct (decide (is_change e)) as [Hc|Hc].
      * right. exists (x + d)%nat, e. split_and!; [lia|lia|done..].
      * left. intros p e' Hp He'. destruct (decide (p = x + d)%nat) as [->|]; [by simplify_eq|].
        eapply IH; [|done]. lia.
    + left. intros p e' Hp He'. destruct (decide (p = x + d)%nat) as [->|]; [by simplify_eq|].
      eapply IH; [|done]. lia.
  - right. exists p, e. split_and!; [lia|lia|done..].
Qed.

(** The positions of the log of [t] from [x] on are of term [t]. *)
Definition own (a : AState) (t : Z) (x : nat) : Prop :=
  ∀ p e, (x ≤ p)%nat → h_tlog a t !! p = Some e → e_Term e = t.

(** The log [l] of a candidate of [t] holds every commit point of an earlier term
    whose majority its own majority meets. *)
Definition sees (a : AState) (t : Z) (l : list LogEntry) : Prop :=
  ∀ u j n, (u, j, n) ∈ h_commits a → u < t →
    meets (conf (take n (h_tlog a u))) (conf l) → take (S j) (h_tlog a u) `prefix_of` l.

Section changes.
Context (a : AState) (Hinv : einv a) (Hc : cinv a).

Lemma tlog_ne t : is_Some (h_leader a t) → h_tlog a t ≠ [].
Proof. intros Hl E. destruct (ei_tlog _ Hinv t Hl) as [[Hh _ _] _]. by rewrite E in Hh. Qed.

(** A commit point that a candidate sees is no longer than its log. *)
Lemma sees_length t l u j n :
  sees a t l → (u, j, n) ∈ h_commits a → u < t →
  meets (conf (take n (h_tlog a u))) (conf l) →
  (j < length l)%nat ∧ ∃ e, l !! j = Some e ∧ e_Term e = u.
Proof.
  intros Hs Hin Hu Hm. destruct (ci_certs _ Hc _ _ _ Hin) as (e&He&Ht&_).
  pose proof (Hs _ _ _ Hin Hu Hm) as Hp.
  assert (Hl : l !! j = Some e).
  { eapply prefix_lookup_Some; [|exact Hp]. rewrite lookup_take_lt by lia. done. }
  split; [by apply lookup_lt_Some in Hl|by exists e].
Qed.

(** Two prefixes of one leader's log: a candidate that holds only the shorter one
    has seen every change of the leader but the last. *)
Lemma prefixes_meet s t x y :
  is_Some (h_leader a s) → own a s x → (0 < x ≤ y)%nat → (y ≤ length (h_tlog a s))%nat →
  s < t → sees a t (take x (h_tlog a s)) →
  meets (conf (take x (h_tlog a s))) (conf (take y (h_tlog a s))).
Proof.
  intros Hl Ho Hxy Hy Hst Hs. pose proof (tlog_ne s Hl) as Hne.
  destruct (first_change (h_tlog a s) x y) as [Hu|(p1&e1&Hp1&He1&Hc1&Hu1)]; [lia| |].
  { rewrite (conf_unchanged _ x y) by done. apply meets_refl. }
  destruct (ci_changes _ Hc s p1 e1 Hl He1 (Ho p1 e1 ltac:(lia) He1) Hc1) as [Hm1 _].
  rewrite (conf_unchanged _ x p1) in Hm1 by (done || lia).
  destruct (first_change (h_tlog a s) (S p1) y) as [Hu|(p2&e2&Hp2&He2&Hc2&Hu2)]; [lia| |].
  { by rewrite (conf_unchanged _ (S p1) y) by (done || lia). }
  exfalso. destruct (ci_changes _ Hc s p2 e2 Hl He2 (Ho p2 e2 ltac:(lia) He2) Hc2) as (_&_&Hall).
  destruct (Hall p1 e1 ltac:(lia) He1 Hc1 (Ho p1 e1 ltac:(lia) He1)) as (j&n&Hin&Hj&Hn).
  destruct (ci_certs _ Hc _ _ _ Hin) as (_&_&_&_&Hjn&_).
  assert (Hm : meets (conf (take n (h_tlog a s))) (conf (take x (h_tlog a s)))).
  { rewrite (conf_unchanged _ (S p1) n); [by apply meets_sym|done|lia|].
    intros p e Hp. apply Hu2. lia. }
  destruct (sees_length _ _ _ _ _ Hs Hin Hst Hm) as [Hlt _]. rewrite length_take in Hlt. lia.
Qed.

(** A leader that has changed the membership has committed in its term before,
    under the configuration it was elected in. *)
Lemma descend r t l x y :
  is_Some (h_leader a r) → own a r x → (0 < x ≤ y)%nat →
  (∀ p e, (p < x)%nat → h_tlog a r !! p = Some e → e_Term e < r) →
  r < t → sees a t l → (∀ p e, l !! p = Some e → e_Term e < r) →
  meets (conf (take x (h_tlog a r))) (conf l) → meets (conf (take y (h_tlog a r))) (conf l).
Proof.
  intros Hl Ho Hxy Hlow Hrt Hs Hterm Hm. pose proof (tlog_ne r Hl) as Hne.
  destruct (first_change (h_tlog a r) x y) as [Hu|(p&e&Hp&He&Hch&Hu)]; [lia| |].
  { by rewrite (conf_unchanged _ x y). }
  exfalso. destruct (ci_changes _ Hc r p e Hl He (Ho p e ltac:(lia) He) Hch) as (_&(j&n&Hin&Hn)&_).
  destruct (ci_certs _ Hc _ _ _ Hin) as (z&Hz&Hzt&_&Hjn&_).
  assert (x ≤ j)%nat.
  { destruct (decide (j < x)%nat) as [Hlt|]; [|lia]. specialize (Hlow j z Hlt Hz). lia. }
  assert (Hm' : meets (conf (take n (h_tlog a r))) (conf l)).
  { rewrite (conf_unchanged _ x n); [done|done|lia|]. intros q w Hq. apply Hu. lia. }
  destruct (sees_length _ _ _ _ _ Hs Hin Hrt Hm') as [_ (w&Hw&Hwt)].
  specialize (Hterm j w Hw). lia.
Qed.

(** The log a leader was elected with. *)
Record based (t : Z) (lt : list LogEntry) : Prop := {
  bs_wlog : wlog (h_tlog a) lt;
  bs_bounded : bounded (t - 1) lt;
  bs_take : lt = take (length lt) (h_tlog a t);
  bs_pos : (0 < length lt ≤ length (h_tlog a t))%nat;
  bs_own : own a t (length lt);
  bs_low : ∀ p e, (p < length lt)%nat → h_tlog a t !! p = Some e → e_Term e < t;
}.

Lemma wlog_pos T l : wlog T l → (0 < length l)%nat.
Proof. intros [Hh _ _]. destruct l; [done|cbn; lia]. Qed.

Lemma leader_based t l lt : h_leader a t = Some l → (t, l, lt) ∈ h_cands a → based t lt.
Proof.
  intros Hl Hin. destruct (ei_leader _ Hinv t l Hl) as (_&_&lc&k&Hin'&E&Hk).
  assert (lc = lt) as -> by (by eapply (ei_cands_fun _ Hinv)).
  destruct (ei_cands _ Hinv _ _ _ Hin) as (Hw&Hb&_).
  assert (El : lt = take (length lt) (h_tlog a t)) by (rewrite E; by rewrite take_app_length).
  split; try done.
  - split; [by eapply wlog_pos|]. rewrite E, length_app. lia.
  - intros p e Hp He. rewrite E, lookup_app_r in He by done.
    eapply Forall_lookup_1 in Hk; [|exact He]. done.
  - intros p e Hp He. rewrite E, lookup_app_l in He by done. apply Hb in He. lia.
Qed.

Lemma last_leader l :
  wlog (h_tlog a) l → last_term l ≠ 0 → is_Some (h_leader a (last_term l)).
Proof.
  intros Hw Hne. destruct (h_leader a (last_term l)) eqn:E; [done|].
  destruct (wlog_last _ _ Hw) as (_&_&_&Hp). rewrite (ei_none _ Hinv _ E Hne) in Hp.
  apply prefix_nil_inv in Hp. subst. by destruct Hw.
Qed.

Lemma wlog_take_eq l : wlog (h_tlog a) l → l = take (length l) (h_tlog a (last_term l)).
Proof.
  intros Hw. destruct (wlog_last _ _ Hw) as (_&_&_&[k Hk]). by rewrite Hk, take_app_length.
Qed.

Lemma wlog_own l : wlog (h_tlog a) l → last_term l ≠ 0 → own a (last_term l) (length l).
Proof.
  intros Hw Hne p e Hp He. destruct (ei_tlog _ Hinv _ (last_leader l Hw Hne)) as [Hwt Hb].
  destruct (wlog_last _ _ Hw) as (x&Hx&Hxt&Hpre). pose proof (wlog_pos _ _ Hw).
  pose proof (prefix_lookup_Some _ _ _ _ Hx Hpre) as Hx'.
  pose proof (wl_sorted _ _ Hwt _ _ _ _ Hx' He ltac:(lia)). apply Hb in He. lia.
Qed.

(** A log with an entry of the leader's term reaches beyond what the leader
    was elected with. *)
Lemma based_le t lt l :
  based t lt → wlog (h_tlog a) l → last_term l = t → (length lt ≤ length l)%nat.
Proof.
  intros [] Hw Ht. destruct (wlog_last _ _ Hw) as (x&Hx&Hxt&Hpre). rewrite Ht in Hpre.
  pose proof (prefix_lookup_Some _ _ _ _ Hx Hpre) as Hx'.
  destruct (decide (pred (length l) < length lt)%nat) as [Hlt|]; [|lia].
  specialize (bs_low0 _ _ Hlt Hx'). lia.
Qed.

Lemma terms_lt l r : wlog (h_tlog a) l → last_term l < r → ∀ p e, l !! p = Some e → e_Term e < r.
Proof. intros Hw Hr p e He. pose proof (wlog_bounded_last _ _ _ _ Hw He). lia. Qed.

(** The leaders of terms below [N] see the commit points of earlier terms. *)
Definition leaders_see (N : Z) : Prop := ∀ u l lt,
  u < N → h_leader a u = Some l → (u, l, lt) ∈ h_cands a → sees a u lt.

(** A leader whose log a candidate continues. *)
Lemma descend_to l l' t' r :
  wlog (h_tlog a) l → last_term l = r → r ≠ 0 →
  r < t' → sees a t' l' → wlog (h_tlog a) l' → last_term l' < r →
  (∀ lt x, based r lt → h_leader a r = Some x → (r, x, lt) ∈ h_cands a → meets (conf lt) (conf l')) →
  meets (conf l) (conf l').
Proof.
  intros Hw Hr Hne Ht Hs Hw' Hlt IH.
  assert (Hl : is_Some (h_leader a r)) by (subst r; by apply last_leader).
  destruct Hl as [x Hx]. destruct (ei_leader _ Hinv _ _ Hx) as (_&_&lt&_&Hin&_).
  pose proof (leader_based _ _ _ Hx Hin) as Hb. specialize (IH lt x Hb Hx Hin).
  rewrite (wlog_take_eq l Hw), Hr. rewrite (bs_take _ _ Hb) in IH.
  pose proof (bs_pos _ _ Hb). pose proof (based_le _ _ _ Hb Hw Hr).
  apply (descend r t' l' (length lt)); [by exists x|apply (bs_own _ _ Hb)|lia
    |apply (bs_low _ _ Hb)|done|done|by apply terms_lt|done].
Qed.

(** The majorities that two candidates need meet, unless the later one has
    entries of the term of the earlier one. *)
Lemma candidates_meet N t1 t2 l1 l2 :
  leaders_see N → t2 ≤ N → t1 ≤ t2 → 0 ≤ t1 →
  wlog (h_tlog a) l1 → wlog (h_tlog a) l2 → last_term l1 < t1 → last_term l2 < t1 →
  sees a t1 l1 → sees a t2 l2 → meets (conf l1) (conf l2).
Proof.
  intros HN Ht2 Ht Hpos. remember (Z.to_nat (t1 + t2)) as k eqn:Ek.
  revert t1 t2 l1 l2 Ht2 Ht Hpos Ek. induction k as [k IH] using lt_wf_ind.
  intros t1 t2 l1 l2 Ht2 Ht Hpos -> Hw1 Hw2 Hl1 Hl2 Hs1 Hs2.
  assert (H0 : ∀ l, wlog (h_tlog a) l → 0 ≤ last_term l).
  { intros l Hw. pose proof (wlog_bounded_last _ _ _ _ Hw (wl_head _ _ Hw)) as Hh. by cbn in Hh. }
  pose proof (H0 _ Hw1). pose proof (H0 _ Hw2).
  destruct (Z.lt_trichotomy (last_term l2) (last_term l1)) as [Hlt|[Heq|Hlt]].
  - apply (descend_to l1 l2 t2 (last_term l1)); try done; try lia. intros lt x Hb Hx Hin.
    eapply (IH _ ltac:(shelve) (last_term l1) t2); try done; try lia; [apply (bs_wlog _ _ Hb)| |].
    + destruct (wlog_last _ _ (bs_wlog _ _ Hb)) as (z&Hz&->&_). apply (bs_bounded _ _ Hb) in Hz. lia.
    + eapply HN; [|exact Hx|exact Hin]. lia.
    Unshelve. lia.
  - assert (E1 := wlog_take_eq _ Hw1). assert (E2 := wlog_take_eq _ Hw2). rewrite Heq in E2.
    destruct (decide (last_term l1 = 0)) as [E0|E0].
    { rewrite E0, (proj2 (ei_zero _ Hinv)) in E1, E2.
      pose proof (wlog_pos _ _ Hw1). pose proof (wlog_pos _ _ Hw2).
      rewrite take_ge in E1, E2 by (cbn; lia). rewrite E1, E2. apply meets_refl. }
    pose proof (wlog_own _ Hw1 E0) as Ho1. pose proof (wlog_own _ Hw2 ltac:(congruence)) as Ho2.
    rewrite Heq in Ho2. pose proof (last_leader _ Hw1 E0) as Hl.
    pose proof (wlog_pos _ _ Hw1). pose proof (wlog_pos _ _ Hw2).
    assert (Hle1 : (length l1 ≤ length (h_tlog a (last_term l1)))%nat)
      by (apply (f_equal length) in E1; rewrite length_take in E1; lia).
    assert (Hle2 : (length l2 ≤ length (h_tlog a (last_term l1)))%nat)
      by (apply (f_equal length) in E2; rewrite length_take in E2; lia).
    destruct (decide (length l1 ≤ length l2)%nat).
    + rewrite E1, E2. eapply (prefixes_meet _ t1); try done; try lia. by rewrite <- E1.
    + apply meets_sym. rewrite E1, E2.
      eapply (prefixes_meet _ t2); try done; try lia. by rewrite <- E2.
  - apply meets_sym. apply (descend_to l2 l1 t1 (last_term l2)); try done; try lia. intros lt x Hb Hx Hin.
    eapply (IH _ ltac:(shelve) (last_term l2) t1); try done; try lia; [apply (bs_wlog _ _ Hb)| |].
    + destruct (wlog_last _ _ (bs_wlog _ _ Hb)) as (z&Hz&->&_). apply (bs_bounded _ _ Hb) in Hz. lia.
    + eapply HN; [|exact Hx|exact Hin]. lia.
    Unshelve. lia.
Qed.

(** ** Leader completeness *)

(** The leader of [t'] holds what was committed in earlier terms. *)
Definition complete (t' : Z) : Prop := ∀ t i,
  committed a t i → t < t' → take (S i) (h_tlog a t) `prefix_of` h_tlog a t'.

(** A log that ends in a later term holds what the leader of that term holds. *)
Lemma later_holds t i l :
  committed a t i → wlog (h_tlog a) l → t < last_term l → complete (last_term l) →
  take (S i) (h_tlog a t) `prefix_of` l.
Proof.
  intros Hin Hw Hlt Hcom. destruct (ci_commits _ _ _ Hc Hin) as (e&He&Het&Hl).
  pose proof (Hcom _ _ Hin Hlt) as Hpi. destruct (wlog_last _ _ Hw) as (x&Hx&Hxt&Hpc).
  eapply prefix_le_eq; [exact Hpi|exact Hpc|].
  destruct (decide (length (take (S i) (h_tlog a t)) ≤ length l)%nat) as [|Hgt]; [done|].
  exfalso. rewrite length_take in Hgt. pose proof (wlog_pos _ _ Hw).
  assert (is_Some (take (S i) (h_tlog a t) !! pred (length l))) as [z Hz].
  { apply lookup_lt_is_Some. rewrite length_take. lia. }
  pose proof (prefix_lookup_Some _ _ _ _ Hx Hpc) as Hx2.
  pose proof (prefix_lookup_Some _ _ _ _ Hz Hpi) as Hz2.
  assert (x = z) as -> by congruence. apply lookup_take_Some in Hz as [Hz _].
  destruct (ei_tlog _ Hinv t Hl) as [_ Hb]. apply Hb in Hz. lia.
Qed.

(** An up-to-date candidate holds what a voter holds of an earlier term. *)
Lemma up_to_date_holds t i lc lv :
  committed a t i → wlog (h_tlog a) lc → wlog (h_tlog a) lv →
  take (S i) (h_tlog a t) `prefix_of` lv → up_to_date lc lv →
  (t < last_term lc → complete (last_term lc)) →
  take (S i) (h_tlog a t) `prefix_of` lc.
Proof.
  intros Hin Hwc Hwv Hp Hup Hcom. destruct (ci_commits _ _ _ Hc Hin) as (e&He&Het&_).
  assert (Hei : lv !! i = Some e).
  { eapply prefix_lookup_Some; [|exact Hp]. rewrite lookup_take_lt by lia. done. }
  pose proof (wlog_bounded_last _ _ _ _ Hwv Hei) as Hlv.
  destruct Hup as [Hlt|[Heq Hlen]].
  - apply later_holds; [done..|lia|]. apply Hcom. lia.
  - etrans; [exact Hp|]. destruct (wlog_last _ _ Hwc) as (_&_&_&Hpc).
    destruct (wlog_last _ _ Hwv) as (_&_&_&Hpv).
    eapply prefix_le_eq; [exact Hpv| |done]. by rewrite <- Heq.
Qed.

(** A candidate that wins sees the commit points, when the leaders up to [b] are
    complete. *)
Lemma wins_sees b t' c lc :
  wins a b t' c lc → t' - 1 ≤ b →
  (∀ t2, t2 ≤ b → is_Some (h_leader a t2) → complete t2) → sees a t' lc.
Proof.
  intros (Hin&Q'&HQ'&Hvotes) Hb Hcom u j n Hcert Hu Hm.
  assert (Hj : committed a u j) by (by exists n).
  destruct (ci_certs _ Hc _ _ _ Hcert) as (e&He&Het&_&_&Q&HQ&Hacks).
  destruct (Hm Q Q' HQ HQ') as (q&Hq&Hq').
  destruct (Hvotes q Hq') as [_ Hv]. destruct (Hv u (S j) (Hacks q Hq) Hu)
    as [(lc'&lv&Hcand&Hp&Hup&Hwv)|(t2&Ht2&Hs2&Hn)].
  - assert (lc' = lc) as -> by (by eapply (ei_cands_fun _ Hinv)).
    destruct (ei_cands _ Hinv _ _ _ Hin) as (Hwc&Hbc&_).
    apply (up_to_date_holds u j lc lv); try done. intros Hlt.
    destruct (wlog_last _ _ Hwc) as (x&Hx&Hxt&_). apply Hbc in Hx as Hx'.
    assert (0 < u).
    { destruct (ci_commits _ _ _ Hc Hj) as (_&_&_&[l Hl]).
      destruct (ei_leader _ Hinv _ _ Hl) as ([? _]&_). lia. }
    apply Hcom; [lia|]. apply last_leader; [done|lia].
  - destruct Hn. apply Hcom; [lia|done|done|lia].
Qed.

(** A candidate that sees the commit points holds them. *)
Lemma sees_holds t' l :
  leaders_see t' → (∀ t2, t2 < t' → is_Some (h_leader a t2) → complete t2) →
  wlog (h_tlog a) l → bounded (t' - 1) l → sees a t' l →
  ∀ t i, committed a t i → t < t' → take (S i) (h_tlog a t) `prefix_of` l.
Proof.
  intros HN Hcom Hw Hb Hs t i [n Hin] Ht. assert (Hti : committed a t i) by (by exists n).
  destruct (ci_certs _ Hc _ _ _ Hin) as (e&He&Het&Hl&Hin'&_).
  destruct (wlog_last _ _ Hw) as (x&Hx&Hxt&Hpre). apply Hb in Hx as Hx'.
  destruct Hl as [ld Hld]. destruct (ei_leader _ Hinv _ _ Hld) as (Hpos&_&lt&_&Hcand&_).
  destruct (Z.lt_trichotomy t (last_term l)) as [Hlt|[Heq|Hlt]].
  - apply later_holds; [done..|]. apply Hcom; [lia|]. apply last_leader; [done|lia].
  - rewrite <- Heq in Hpre. assert (El := wlog_take_eq l Hw). rewrite <- Heq in El.
    pose proof (wlog_pos _ _ Hw).
    destruct (decide (S i ≤ length l)%nat) as [Hle|Hgt].
    { rewrite El. by apply take_prefix_mono. }
    apply (Hs t i n); [done..|]. apply meets_sym. rewrite El.
    apply (prefixes_meet t t'); [by exists ld| |lia|lia|lia|by rewrite <- El].
    rewrite Heq. apply wlog_own; [done|lia].
  - apply (Hs t i n); [done..|]. pose proof (leader_based _ _ _ Hld Hcand) as Hbs.
    pose proof (bs_pos _ _ Hbs).
    assert (Hj : (length lt ≤ i)%nat).
    { destruct (decide (i < length lt)%nat) as [Hi|]; [|lia].
      pose proof (bs_low _ _ Hbs _ _ Hi He). lia. }
    apply (descend t t' l (length lt)); [by exists ld|apply (bs_own _ _ Hbs)|lia
      |apply (bs_low _ _ Hbs)|done|done|by apply terms_lt|].
    rewrite <- (bs_take _ _ Hbs).
    apply (candidates_meet t' t t'); try done; try lia; [apply (bs_wlog _ _ Hbs)| |].
    + destruct (wlog_last _ _ (bs_wlog _ _ Hbs)) as (z&Hz&->&_).
      apply (bs_bounded _ _ Hbs) in Hz. lia.
    + by eapply HN.
Qed.

Lemma leaders_ok t' : leaders_see t' ∧ ∀ t2, t2 < t' → is_Some (h_leader a t2) → complete t2.
Proof.
  remember (Z.to_nat t') as k eqn:Ek. assert (Hk : t' ≤ Z.of_nat k) by lia. clear Ek.
  revert t' Hk. induction k as [|k IH]; intros t' Hk.
  { split.
    - intros u l lt Hu Hl _. destruct (ei_leader _ Hinv _ _ Hl) as ([? _]&_). lia.
    - intros u Hu [l Hl]. destruct (ei_leader _ Hinv _ _ Hl) as ([? _]&_). lia. }
  assert (Hone : ∀ u l lt, u < t' → h_leader a u = Some l → (u, l, lt) ∈ h_cands a →
    sees a u lt ∧ complete u).
  { intros u l lt Hu Hl Hin. destruct (IH u ltac:(lia)) as [HN Hcom].
    destruct (ci_quorum _ Hc _ _ Hl) as (lc&He).
    assert (lc = lt) as -> by (destruct He as [? _]; by eapply (ei_cands_fun _ Hinv)).
    assert (Hs : sees a u lt).
    { eapply wins_sees; [exact He|lia|]. intros t2 Ht2. apply Hcom. lia. }
    split; [done|]. intros t i Hti Ht.
    destruct (ei_cands _ Hinv _ _ _ Hin) as (Hw&Hb&_).
    etrans; [by eapply (sees_holds u lt)|]. pose proof (leader_based _ _ _ Hl Hin) as Hbs.
    rewrite (bs_take _ _ Hbs). apply prefix_take. }
  split.
  - intros u l lt Hu Hl Hin. by eapply Hone.
  - intros u Hu [l Hl]. destruct (ei_leader _ Hinv _ _ Hl) as (_&_&lt&_&Hin&_). by eapply Hone.
Qed.

(** A candidate with a majority of votes is the first leader of its term. *)
Lemma elect_fresh : fresh_elections B a.
Proof.
  intros v Q Hr HQ Hvotes. set (t := a_term (a_nodes a v)) in *.
  destruct (h_leader a t) as [l|] eqn:Hl; [|done]. exfalso.
  destruct (ei_candidate _ Hinv v Hr) as (_&_&Hcand). fold t in Hcand.
  destruct (ei_leader _ Hinv _ _ Hl) as (Hpos&Hnc&lt&_&Hin&_).
  destruct (leaders_ok (t + 1)) as [HN Hcom].
  destruct (ei_cands _ Hinv _ _ _ Hcand) as (Hw&Hb&_).
  assert (Hs : sees a t (a_log (a_nodes a v))).
  { eapply (wins_sees t t v); [|lia|intros t2 ?; apply Hcom; lia].
    split; [done|]. exists Q. split; [done|]. intros q Hq. split; [by apply Hvotes|].
    intros t0 m. by apply (ci_votes _ Hc), Hvotes. }
  pose proof (leader_based _ _ _ Hl Hin) as Hbs.
  assert (Hlast : ∀ l, wlog (h_tlog a) l → bounded (t - 1) l → last_term l < t).
  { intros l' Hw' Hb'. destruct (wlog_last _ _ Hw') as (z&Hz&->&_). apply Hb' in Hz. lia. }
  assert (Hm : meets (conf lt) (conf (a_log (a_nodes a v)))).
  { apply (candidates_meet (t + 1) t t); try done; try lia.
    - apply (bs_wlog _ _ Hbs).
    - apply Hlast; apply Hbs.
    - by apply Hlast.
    - eapply HN; [lia|done..]. }
  destruct (ci_quorum _ Hc _ _ Hl) as (lc&Hin'&Q'&HQ'&Hvotes').
  assert (lc = lt) as -> by (by eapply (ei_cands_fun _ Hinv)).
  destruct (Hm Q' Q HQ' HQ) as (q&Hq'&Hq).
  assert (v = l) as -> by (eapply (ei_votes_fun _ Hinv); [by apply Hvotes|by apply Hvotes']).
  by destruct (Hnc eq_refl).
Qed.

(** What is committed is in the log of every leader of the same or a later term. *)
Lemma committed_in_later t i t' :
  committed a t i → t ≤ t' → is_Some (h_leader a t') →
  take (S i) (h_tlog a t) `prefix_of` h_tlog a t'.
Proof.
  intros Hin Hle Hl. destruct (decide (t = t')) as [<-|Hne]; [apply prefix_take|].
  eapply (proj2 (leaders_ok (t' + 1))); try done; lia.
Qed.
End changes.

(** ** Preservation *)

(** A prefix of the leader's log that a follower holds survives an append of
    that leader. *)
Lemma accept_keeps p m tl l :
  p `prefix_of` tl → p `prefix_of` l → p `prefix_of` accept m tl l.
Proof.
  intros Ht Hl. unfold accept. case_decide as Hd; [done|].
  destruct (prefix_weak_total p (take m tl) tl Ht (prefix_take _ _)) as [?|Hp]; [done|].
  destruct Hd. by etrans.
Qed.

Lemma accept_has m tl l : take m tl `prefix_of` accept m tl l.
Proof. unfold accept. by case_decide. Qed.

(** The conditions on a step under which the invariant carries over. *)
Lemma cinv_mono a a' :
  einv a → cinv a → hist_le a a' →
  (∀ v, a_term (a_nodes a v) ≤ a_term (a_nodes a' v)) →
  (∀ t v m, acked a t v m → take m (h_tlog a t) `prefix_of` a_log (a_nodes a v) →
     take m (h_tlog a t) `prefix_of` a_log (a_nodes a' v) ∨
     (t < a_term (a_nodes a' v) ∧ lacks a' t m (a_term (a_nodes a' v)))) →
  (∀ t v m, (t, v, m) ∈ h_acks a' → (t, v, m) ∈ h_acks a ∨
     (t = a_term (a_nodes a v) ∧ t = a_term (a_nodes a' v) ∧ is_Some (h_leader a' t) ∧
      (m ≤ length (h_tlog a' t))%nat ∧ take m (h_tlog a' t) `prefix_of` a_log (a_nodes a' v))) →
  (∀ t v c, (t, v, c) ∈ h_votes a' → (t, v, c) ∈ h_votes a ∨
     (h_acks a' = h_acks a ∧ ∀ t0 m, acked a t0 v m → t0 < t → vouches a' t t c t0 m)) →
  (∀ t l, h_leader a' t = Some l → h_leader a t = Some l ∨
     (h_leader a t = None ∧ ∃ lc Q, (t, l, lc) ∈ h_cands a ∧ quorum (conf lc) Q ∧
        ∀ q, q ∈ Q → (t, q, l) ∈ h_votes a)) →
  (∀ t i n, (t, i, n) ∈ h_commits a' → (t, i, n) ∈ h_commits a ∨
     ∃ e, h_tlog a' t !! i = Some e ∧ e_Term e = t ∧ is_Some (h_leader a' t) ∧
       (i < n ≤ length (h_tlog a' t))%nat ∧
       ∃ Q, quorum (conf (take n (h_tlog a' t))) Q ∧ ∀ q, q ∈ Q → acked a' t q (S i)) →
  (∀ v, a_commit (a_nodes a' v) = 0%nat ∨
    ∃ t i, committed a' t i ∧ t ≤ a_term (a_nodes a' v) ∧
      (a_commit (a_nodes a' v) ≤ i)%nat ∧
      take (S (a_commit (a_nodes a' v))) (h_tlog a' t) `prefix_of` a_log (a_nodes a' v)) →
  (∀ t p e, is_Some (h_leader a' t) → h_tlog a' t !! p = Some e → e_Term e = t → is_change e →
     is_Some (h_leader a t) ∧ h_tlog a t !! p = Some e ∨ change_ok a' t p) →
  cinv a'.
Proof.
  intros Hinv Hc Hh Hterm Hheld Hacks Hvotes Hlead Hcommits Hcommit Hchanges.
  assert (Hb : ∀ t v m, acked a t v m →
    (m ≤ length (h_tlog a t))%nat ∧ bounded t (h_tlog a t)).
  { intros t v m Ha. destruct (acked_facts _ _ _ _ Hc Ha) as (_&Hl&?).
    split; [done|]. by apply (ei_tlog _ Hinv). }
  assert (Hacked : ∀ t v m, acked a' t v m → acked a t v m ∨
    (t = a_term (a_nodes a v) ∧ t = a_term (a_nodes a' v) ∧
     take m (h_tlog a' t) `prefix_of` a_log (a_nodes a' v))).
  { intros t v m (m'&Hin&Hm). apply Hacks in Hin as [Hin|(?&?&?&?&Hp)].
    - left. by exists m'.
    - right. split_and!; [done..|]. etrans; [by apply take_prefix_mono|done]. }
  assert (Hvouch : ∀ b t' v c t m, (t', v, c) ∈ h_votes a → t < t' →
    (∀ m, acked a t v m → vouches a b t' c t m) → acked a' t v m → vouches a' b t' c t m).
  { intros b t' v c t m Hin Hlt Hv Ha. apply Hacked in Ha as [Ha|(Ht&_&_)].
    - destruct (Hb _ _ _ Ha). eapply vouches_mono; eauto.
    - apply (ei_votes _ Hinv) in Hin as (?&_). lia. }
  split.
  - intros t v m Hin. apply Hacks in Hin as [Hin|(?&?&?&?&?)]; [|split_and!; [lia|done..]].
    destruct (ci_acks _ Hc _ _ _ Hin) as (?&[l Hl]&?). split_and!.
    + specialize (Hterm v). lia.
    + eexists. by apply (hl_leader _ _ Hh).
    + etrans; [done|]. apply prefix_length, (hl_tlog _ _ Hh).
  - intros t v m Ha. apply Hacked in Ha as [Ha|(?&?&?)]; [|by left].
    destruct (Hb _ _ _ Ha) as [Hm Hbd]. rewrite (take_tlog_mono a a') by done.
    destruct (ci_held _ Hc _ _ _ Ha) as [Hp|(t2&Ht2&Hl)].
    + destruct (Hheld _ _ _ Ha Hp) as [?|[??]]; [by left|]. right. by eexists.
    + right. exists t2. specialize (Hterm v). split; [lia|]. eapply lacks_mono; try done. lia.
  - intros t' v c t m Hin Ha Hlt. destruct (Hvotes _ _ _ Hin) as [Hin'|[Heq Hnew]].
    + eapply Hvouch; try done. intros m' Ha'. by eapply (ci_votes _ Hc).
    + apply Hnew; try done. destruct Ha as (m'&Ha&?). exists m'. by rewrite <- Heq.
  - intros t' l Hl. apply Hlead in Hl as [Hl|(Hnone&lc&Q&Hin&HQ&Hv)].
    + destruct (ci_quorum _ Hc _ _ Hl) as (lc&Hin&Q&HQ&Hv). exists lc.
      split; [by apply (hl_cands _ _ Hh)|]. exists Q. split; [done|].
      intros q Hq. destruct (Hv q Hq) as [Hin' Hall].
      split; [by apply (hl_votes _ _ Hh)|]. intros t m Ha Hlt. eapply Hvouch; eauto.
    + exists lc. split; [by apply (hl_cands _ _ Hh)|]. exists Q. split; [done|].
      intros q Hq. split; [by apply (hl_votes _ _ Hh), Hv|].
      intros t m Ha Hlt. eapply Hvouch; [by apply Hv|done| |done].
      intros m' Ha'. destruct (ci_votes _ Hc _ _ _ _ _ (Hv q Hq) Ha' Hlt) as [?|(t2&Ht2&Hlk)];
        [by left|right]. exists t2. split; [|done].
      assert (t2 ≠ t') by (intros ->; destruct Hlk as [[? ?] _]; congruence). lia.
  - intros t i n Hin. apply Hcommits in Hin as [Hin|?]; [|done].
    destruct (ci_certs _ Hc _ _ _ Hin) as (e&He&?&[l Hl]&Hn&Q&HQ&Hq).
    pose proof (prefix_length _ _ (hl_tlog _ _ Hh t)).
    exists e. split_and!; [|done| |lia|lia|].
    + eapply prefix_lookup_Some; [done|apply (hl_tlog _ _ Hh)].
    + eexists. by apply (hl_leader _ _ Hh).
    + exists Q. rewrite (take_tlog_mono a a') by (done || lia). split; [done|].
      intros q ?. eapply acked_mono; eauto.
  - done.
  - intros t p e Hl He Het Hch. destruct (Hchanges t p e Hl He Het Hch) as [[Hl' He']|?]; [|done].
    pose proof (lookup_lt_Some _ _ _ He').
    destruct (ci_changes _ Hc t p e Hl' He' Het Hch) as (Hm&(j&n&Hjn&?)&Hall).
    unfold change_ok. rewrite !(take_tlog_mono a a') by (done || lia). split_and!; [done| |].
    + exists j, n. split; [by apply (hl_commits _ _ Hh)|done].
    + intros p1 x Hp1 Hx Hxc Hxt. destruct (Hall p1 x Hp1) as (j'&n'&?&?&?); [|done..|].
      * destruct (hl_tlog _ _ Hh t) as [k Hk]. rewrite Hk, lookup_app_l in Hx by lia. done.
      * exists j', n'. split_and!; [by apply (hl_commits _ _ Hh)|done..].
Qed.

Lemma cinv_init : cinv ainit.
Proof.
  assert (Hna : ∀ t v m, ¬ acked ainit t v m).
  { intros t v m (m'&Hin&_). by apply elem_of_nil in Hin. }
  split; cbn; try done.
  - intros t v m Hin. by apply elem_of_nil in Hin.
  - intros t v m Ha. by apply Hna in Ha.
  - intros t' v c t m Hin. by apply elem_of_nil in Hin.
  - intros t i n Hin. by apply elem_of_nil in Hin.
  - intros v. by left.
Qed.

(** A step that changes one node and neither its log nor the acknowledgements,
    leaders and commit points. *)
Lemma cinv_set_node a v nd cands votes :
  einv a → cinv a →
  let a' := MkAState (update v nd (a_nodes a)) (h_leader a) (h_tlog a) cands votes
              (h_acks a) (h_commits a) in
  hist_le a a' →
  a_term (a_nodes a v) ≤ a_term nd → a_log nd = a_log (a_nodes a v) →
  (∀ t w c, (t, w, c) ∈ votes → (t, w, c) ∈ h_votes a ∨
     ∀ t0 m, acked a t0 w m → t0 < t → vouches a' t t c t0 m) →
  (a_commit nd = 0%nat ∨ a_commit nd = a_commit (a_nodes a v) ∨
    ∃ t i, committed a t i ∧ t ≤ a_term nd ∧ (a_commit nd ≤ i)%nat ∧
      take (S (a_commit nd)) (h_tlog a t) `prefix_of` a_log nd) →
  cinv a'.
Proof.
  intros Hinv Hc a' Hh Ht Hl Hvotes Hcom. eapply cinv_mono; try done; cbn; try by left.
  - intros w. at_node v w; lia.
  - intros t w m _ Hp. at_node v w; left; [by rewrite Hl|done].
  - intros t w c Hin. destruct (Hvotes t w c Hin) as [?|?]; [by left|by right].
  - intros w. at_node v w; [|apply (ci_commit _ Hc)].
    destruct Hcom as [?|[->|?]]; [by left| |by right]. rewrite Hl.
    destruct (ci_commit _ Hc v) as [?|(t&i&?&?&?&?)]; [by left|right].
    exists t, i. split_and!; [done|lia|done..].
Qed.

Lemma up_to_date_refl l : up_to_date l l.
Proof. right. by split. Qed.

(** A vote granted now vouches for what the voter holds. *)
Lemma grant_vouches a a' v c lc t :
  einv a → cinv a → hist_le a a' →
  a_term (a_nodes a v) ≤ t → (t, c, lc) ∈ h_cands a' →
  up_to_date lc (a_log (a_nodes a v)) →
  ∀ t0 m, acked a t0 v m → t0 < t → vouches a' t t c t0 m.
Proof.
  intros Hinv Hc Hh Ht Hin Hup t0 m Ha Hlt.
  destruct (acked_facts _ _ _ _ Hc Ha) as (_&Hl&Hm).
  destruct (ei_tlog _ Hinv _ Hl) as [_ Hb].
  destruct (ci_held _ Hc _ _ _ Ha) as [Hp|(t2&Ht2&Hlk)].
  - left. exists lc, (a_log (a_nodes a v)). rewrite (take_tlog_mono a a') by done.
    split_and!; [done..|]. eapply wlog_mono; [apply (hl_tlog _ _ Hh)|].
    apply (ei_log _ Hinv).
  - right. exists t2. split; [lia|]. eapply lacks_mono; try done. lia.
Qed.

Lemma committed_mono a a' t i : hist_le a a' → committed a t i → committed a' t i.
Proof. intros Hh [n Hin]. exists n. by apply (hl_commits _ _ Hh). Qed.

(** A committed prefix stays where it is while the log grows. *)
Lemma commit_mono a a' v c (l : list LogEntry) :
  cinv a → hist_le a a' →
  (∃ t i, committed a t i ∧ t ≤ a_term (a_nodes a v) ∧ (c ≤ i)%nat ∧
     take (S c) (h_tlog a t) `prefix_of` l) →
  ∃ t i, committed a' t i ∧ t ≤ a_term (a_nodes a v) ∧ (c ≤ i)%nat ∧
     take (S c) (h_tlog a' t) `prefix_of` l.
Proof.
  intros Hc Hh (t&i&Hin&Ht&Hi&Hp). exists t, i.
  destruct (ci_commits _ _ _ Hc Hin) as (e&He&_). apply lookup_lt_Some in He.
  rewrite (take_tlog_mono a a') by (done || lia).
  split_and!; [by eapply committed_mono|done..].
Qed.

(** A leader's own append: its log is the log of its term. *)
Lemma cinv_own_append a v e leader :
  einv a → cinv a →
  let nd := a_nodes a v in
  let t := a_term nd in
  let l := a_log nd ++ [e] in
  let a' := MkAState (update v (MkANode t (a_vote nd) Leader l (a_commit nd)) (a_nodes a))
    leader (updateZ t l (h_tlog a)) (h_cands a) (h_votes a)
    ((t, v, length l) :: h_acks a) (h_commits a) in
  hist_le a a' → leader t = Some v →
  (∀ t' l', leader t' = Some l' → h_leader a t' = Some l' ∨
     (h_leader a t' = None ∧ ∃ lc Q, (t', l', lc) ∈ h_cands a ∧ quorum (conf lc) Q ∧
        ∀ q, q ∈ Q → (t', q, l') ∈ h_votes a)) →
  (∀ p x, l !! p = Some x → e_Term x = t → is_change x →
     is_Some (h_leader a t) ∧ h_tlog a t !! p = Some x ∨ change_ok a' t p) →
  cinv a'.
Proof.
  intros Hinv Hc nd t l a' Hh Hlt Hlead Hch. eapply cinv_mono; try done; cbn.
  - intros w. by at_node v w.
  - intros t' w m _ Hp. at_node v w; left; [|done]. by apply prefix_app_r.
  - intros t' w m Hin. apply elem_of_cons3 in Hin as [(->&->&->)|Hin]; [right|by left].
    rewrite update_eq, updateZ_eq. cbn. split_and!; [done..|by eexists|done|].
    by rewrite firstn_all.
  - by left.
  - by left.
  - intros w. destruct (ci_commit _ Hc w) as [H0|Hex].
    + left. by at_node v w.
    + right. apply (commit_mono a a' w) in Hex; [|done..]. destruct Hex as (t'&i&?&?&?&Hp).
      exists t', i. at_node v w; split_and!; try done. etrans; [exact Hp|by eexists].
  - intros t' p x [l' Hl'] Hx Hxt Hxc. destruct (decide (t = t')) as [<-|Hne].
    + rewrite updateZ_eq in Hx. by apply Hch.
    + rewrite updateZ_ne in Hx by done. left. split; [|done].
      destruct (Hlead _ _ Hl') as [?|(Hn&_)]; [by eexists|].
      destruct (decide (t' = 0)) as [->|Ht0].
      * rewrite (proj2 (ei_zero _ Hinv)) in Hx. by apply list_lookup_singleton_Some in Hx as [_ <-].
      * by rewrite (ei_none _ Hinv _ Hn Ht0) in Hx.
Qed.

Lemma cinv_append a v m :
  einv a → cinv a →
  let nd := a_nodes a v in
  let t := a_term nd in
  let a' := MkAState (update v (MkANode t (a_vote nd) (a_role nd)
      (accept m (h_tlog a t) (a_log nd)) (a_commit nd)) (a_nodes a))
    (h_leader a) (h_tlog a) (h_cands a) (h_votes a) ((t, v, m) :: h_acks a) (h_commits a) in
  hist_le a a' → is_Some (h_leader a t) → (m ≤ length (h_tlog a t))%nat → cinv a'.
Proof.
  intros Hinv Hc nd t a' Hh Hl Hm. eapply cinv_mono; try done; cbn; try by left.
  - intros w. by at_node v w.
  - intros t' w m' Ha Hp. at_node v w; [|by left].
    destruct (decide (take m' (h_tlog a t') `prefix_of` h_tlog a t)) as [Hpt|Hnp].
    + left. by apply accept_keeps.
    + right. destruct (acked_facts _ _ _ _ Hc Ha) as (Hle&_&_). split; [|done].
      assert (t' ≠ t) by (intros ->; apply Hnp, prefix_take). subst t nd. lia.
  - intros t' w m' Hin. apply elem_of_cons3 in Hin as [(->&->&->)|Hin]; [right|by left].
    rewrite update_eq. cbn. split_and!; [done..|apply accept_has].
  - intros w. at_node v w; [|apply (ci_commit _ Hc)].
    destruct (ci_commit _ Hc v) as [?|(t'&i&Hin&Hle&Hi&Hp)]; [by left|right].
    exists t', i. split_and!; [done..|]. apply accept_keeps; [|done].
    etrans; [|by eapply (committed_in_later a Hinv Hc t' i)].
    apply take_prefix_mono. unfold nd. lia.
Qed.

(** A leader's change is one its invariant allows. *)
Lemma propose_change_ok a v e :
  einv a → cinv a →
  let nd := a_nodes a v in
  let t := a_term nd in
  let l := a_log nd ++ [e] in
  a_role nd = Leader → e_Term e = t → is_change e →
  meets (conf (a_log nd)) (conf l) →
  (∀ p x, a_log nd !! p = Some x → is_change x → (p ≤ a_commit nd)%nat) →
  (∃ x, a_log nd !! a_commit nd = Some x ∧ e_Term x = t) →
  ∀ a', h_tlog a' t = l → h_commits a' = h_commits a → change_ok a' t (length (a_log nd)).
Proof.
  intros Hinv Hc nd t l Hr He Hch Hm Hcom (x&Hx&Hxt) a' Ht Hcs.
  destruct (ei_is_leader _ Hinv v Hr) as [Hl Hlog]. fold nd t in Hl, Hlog.
  assert (Hcert : ∃ i n, (t, i, n) ∈ h_commits a ∧ (a_commit nd ≤ i)%nat ∧
    (n ≤ length (a_log nd))%nat).
  { destruct (ci_commit _ Hc v) as [H0|(t'&i&[n Hin]&Ht'&Hi&Hp)].
    - fold nd in H0. destruct (ei_log _ Hinv v) as [[Hh _ _] _]. fold nd in Hh. rewrite H0, Hh in Hx.
      simplify_eq. destruct (ei_leader _ Hinv _ _ Hl) as ([Hpos _]&_). cbn in Hxt. lia.
    - fold nd in Ht', Hi, Hp. destruct (ci_certs _ Hc _ _ _ Hin) as (y&Hy&_&Hl'&Hn&_).
      assert (Hxi : h_tlog a t' !! a_commit nd = Some x).
      { apply lookup_lt_Some in Hy. destruct (lookup_lt_is_Some_2 (h_tlog a t') (a_commit nd)) as [z Hz]; [lia|].
        rewrite Hz. rewrite <- Hx. symmetry. eapply prefix_lookup_Some; [|exact Hp].
        rewrite lookup_take_lt by lia. done. }
      destruct (ei_tlog _ Hinv _ Hl') as [_ Hb]. apply Hb in Hxi as Hle. fold t in Ht'.
      assert (t' = t) as -> by lia. exists i, n. rewrite Hlog. split_and!; [done..|lia]. }
  destruct Hcert as (i&n&Hin&Hi&Hn). split_and!.
  - rewrite Ht. unfold l. rewrite take_app_length, take_ge; [done|]. rewrite length_app. cbn. lia.
  - exists i, n. by rewrite Hcs.
  - intros p1 y Hp1 Hy Hyc _. exists i, n. rewrite Hcs. split_and!; [done| |done].
    etrans; [|exact Hi]. eapply Hcom; [|exact Hyc]. rewrite Ht in Hy. unfold l in Hy.
    by rewrite lookup_app_l in Hy by done.
Qed.

Lemma cinv_step a a' : einv a → cinv a → astep B a a' → cinv a'.
Proof.
  intros Hinv Hc Hs. pose proof (hist_le_step B a a' Hinv (elect_fresh a Hinv Hc) Hs) as Hh.
  destruct Hs.
  - apply cinv_set_node; cbn; [done..|subst t nd; lia|done| |right; by left].
    intros t' w c Hin. apply elem_of_cons3 in Hin as [(->&->&->)|Hin]; [right|by left].
    intros t0 m Ha Hlt. eapply grant_vouches; try done.
    + subst t nd. lia.
    + apply elem_of_cons. by left.
    + apply up_to_date_refl.
  - apply cinv_set_node; cbn; [done..|subst nd; lia|done|by left|right; by left].
  - apply cinv_set_node; cbn; [done..|by left|right; by left].
  - apply cinv_set_node; cbn; [done..| |right; by left].
    intros t' w c' Hin. apply elem_of_cons3 in Hin as [(->&->&->)|Hin]; [right|by left].
    intros t0 m Ha Hlt. by eapply (grant_vouches a _ v c lc t).
  - pose proof (elect_fresh a Hinv Hc v Q H H0 H1) as Hfresh.
    destruct (ei_candidate _ Hinv v H) as (_&_&Hcand).
    apply cinv_own_append; cbn; [done..|by apply updateZ_eq| |].
    + intros t' l' Hl. destruct (decide (t = t')) as [<-|Hne].
      * rewrite updateZ_eq in Hl. simplify_eq. right. split; [done|]. by exists (a_log nd), Q.
      * rewrite updateZ_ne in Hl by done. by left.
    + intros p x Hx Hxt Hxc. apply lookup_app_Some in Hx as [Hx|[_ Hx]].
      * destruct (ei_cands _ Hinv _ _ _ Hcand) as (_&Hb&_). apply Hb in Hx. subst t nd. lia.
      * by apply list_lookup_singleton_Some in Hx as [_ <-].
  - destruct (ei_is_leader _ Hinv v H) as [Hl Hlog].
    apply cinv_own_append; cbn; [done..| |by left|]; [done|].
    intros p x Hx Hxt Hxc. apply lookup_app_Some in Hx as [Hx|[Hlen Hx]].
    + left. split; [by eexists|]. subst t nd. by rewrite <- Hlog.
    + apply list_lookup_singleton_Some in Hx as [Hp <-]. right. destruct (H1 Hxc) as (Hm&Hcom&Hown).
      replace p with (length (a_log (a_nodes a v))) by (unfold nd in *; lia).
      apply (propose_change_ok a v e); try done. cbn. apply updateZ_eq.
  - apply cinv_append; [done..|]. unfold t, nd in *. lia.
  - destruct (ei_is_leader _ Hinv v H) as [Hl Hlog].
    eapply cinv_mono; try done; cbn; try by left.
    + intros w. by at_node v w.
    + intros t' w m _ Hp. at_node v w; by left.
    + intros t' i' n' Hin. apply elem_of_cons3 in Hin as [(->&->&->)|Hin]; [right|by left].
      apply lookup_lt_Some in H0 as Hlt.
      exists e. subst t nd. rewrite <- Hlog, firstn_all. split_and!; [done|done|by eexists|done|done|].
      by eauto.
    + intros w. at_node v w.
      * right. exists t, i. split_and!; [eexists; apply elem_of_cons; by left|done..|].
        subst t nd. rewrite Hlog. apply prefix_take.
      * destruct (ci_commit _ Hc w) as [?|(t'&i'&[n' ?]&?&?&?)]; [by left|right].
        exists t', i'. split_and!; [exists n'; apply elem_of_cons; by right|done..].
  - apply cinv_set_node; cbn; [done..|by left|]. right. right. by exists t, i.
  - apply cinv_set_node; cbn; [done..|by left|by left].
Qed.

(** ** Reachable states *)

Lemma areach_inv a : areach B a → einv a ∧ cinv a.
Proof.
  intros Hr. unfold areach in Hr.
  assert (H : einv ainit ∧ cinv ainit) by (split; [apply einv_init|apply cinv_init]).
  revert H. induction Hr as [|a1 a2 a3 Hs _ IH]; [done|]. intros [H1 H2].
  apply IH. split; [eapply einv_step; [done|by apply elect_fresh|done]|by eapply cinv_step].
Qed.

(** Two nodes' committed prefixes: one is a prefix of the other. *)
Lemma committed_agree a v w :
  einv a → cinv a →
  let p x := take (S (a_commit (a_nodes a x))) (a_log (a_nodes a x)) in
  p v `prefix_of` p w ∨ p w `prefix_of` p v.
Proof.
  intros Hinv Hc p.
  assert (Hhead : ∀ x, a_commit (a_nodes a x) = 0%nat → p x = [zeroEntry]).
  { intros x Hx. unfold p. rewrite Hx. destruct (ei_log _ Hinv x) as [[Hh _ _] _].
    destruct (a_log (a_nodes a x)); naive_solver. }
  assert (Hz : ∀ x, [zeroEntry] `prefix_of` p x).
  { intros x. unfold p. destruct (ei_log _ Hinv x) as [[Hh _ _] _].
    destruct (a_log (a_nodes a x)) as [|y l]; [done|]. simplify_eq/=. by eexists. }
  assert (Hp : ∀ x, p x = [zeroEntry] ∨ ∃ t i, committed a t i ∧
    p x `prefix_of` take (S i) (h_tlog a t) ∧ is_Some (h_leader a t)).
  { intros x. destruct (ci_commit _ Hc x) as [?|(t&i&Hin&_&Hi&Hpre)]; [by left; apply Hhead|].
    right. exists t, i. split; [done|].
    destruct (ci_commits _ _ _ Hc Hin) as (e&He&_&Hl). split; [|done].
    apply lookup_lt_Some in He. apply take_prefix_iff in Hpre as [_ Heq]; [|lia].
    unfold p. rewrite Heq. apply take_prefix_mono. lia. }
  destruct (Hp v) as [->|(t&i&Hin&Hpv&Hl)]; [left; apply Hz|].
  destruct (Hp w) as [->|(t'&i'&Hin'&Hpw&Hl')]; [right; apply Hz|].
  assert (Hle : ∀ t1 i1 t2 i2 p1 p2, committed a t1 i1 → t1 ≤ t2 →
    is_Some (h_leader a t2) → p1 `prefix_of` take (S i1) (h_tlog a t1) →
    p2 `prefix_of` take (S i2) (h_tlog a t2) → p1 `prefix_of` p2 ∨ p2 `prefix_of` p1).
  { intros t1 i1 t2 i2 p1 p2 Hin1 Hle Hl2 H1 H2.
    apply (prefix_weak_total _ _ (h_tlog a t2)).
    - etrans; [exact H1|]. by apply committed_in_later.
    - etrans; [exact H2|apply prefix_take]. }
  destruct (decide (t ≤ t')); [by apply (Hle t i t' i')|].
  destruct (Hle t' i' t i (p w) (p v)); try done; [lia|by right|by left].
Qed.
End safety.
