(* ===== verification/Network.v ===== *)
(** A cluster of nodes over an asynchronous network.

    Every request and every reply ever sent stays in the network and can be
    delivered at any time, any number of times or never, so losses, delays,
    reordering and duplication are all runs of this model; partitions and the
    fault injector only lose messages.  A goroutine of the program is a sequence
    of sections under the mutex of its node with an RPC in between; here each
    section is a step that the scheduler may take at any time, which covers every
    interleaving of the goroutines.  A node may crash at any point between two
    sections and is restarted from its disk.  Nodes may be started to join the
    cluster, and leaders may change its membership. *)
From S2P Require Import Prelude Types Node Persist Membership Snapshot Log Election RaftOps Read Machine NodeInv Durable.
Open Scope Z_scope.
Open Scope go_scope.

(** A request from a node to a peer; a reply carries the request it answers, as
    the goroutine that waits for it has it in scope. *)
Inductive Message :=
  | MVoteReq (from to : string) (req : RequestVoteRequest)
  | MVoteResp (from to : string) (req : RequestVoteRequest) (resp : RequestVoteResponse)
  | MAppendReq (from to : string) (req : AppendEntriesRequest)
  | MAppendResp (from to : string) (req : AppendEntriesRequest) (resp : AppendEntriesResponse)
  | MInstallReq (from to : string) (req : InstallSnapshotRequest)
  | MInstallResp (from to : string) (req : InstallSnapshotRequest)
      (resp : InstallSnapshotResponse).

Inductive Label :=
  | LTick (i : string)
  | LPropose (i : string) (cmd : bytes)
  | LAddServer (i pid addr httpAddr : string)
  | LRemoveServer (i pid : string)
  | LReplicate (i peer : string)
  | LReplicateDone (i peer : string)
  | LConfirm (i peer : string) (term : Z)
  | LWaitCommitted (i : string)
  | LDeliver (k : nat)
  | LDeliverConfirm (k : nat) (term : Z)
  | LEnv (i : string) (now : Z) (src : list Z)
  | LStop (i : string)
  | LRestart (i : string) (src : list Z)
  | LJoin (i addr httpAddr : string) (src : list Z).

Record World (M : Type) := MkWorld {
  w_nodes : gmap string (RaftNode M);
  w_net : list Message;
}.
Arguments MkWorld {M}.
Arguments w_nodes {M} _.
Arguments w_net {M} _.

Section network.
Context {M : Type} `{!StateMachine M}.
Implicit Types (n : RaftNode M) (w : World M).

(** The configuration the nodes share, and a state machine that has applied
    nothing ([kv.NewStore]). *)
Context (base : Config) (m0 : M).

(** How a member is started (cluster.startMemberJoin, cmd.startNode): [NewNode],
    then [NewServer], which installs the callbacks, the transport and the peer
    hook, then [Start]. *)
Definition nodeConfig (i : string) (st : Storage) : Config :=
  MkConfig i (cfg_PeerAddrs base) (cfg_ElectionTimeoutMin base) (cfg_ElectionTimeoutMax base)
    (cfg_HeartbeatInterval base) (Some st) true (cfg_SnapshotThreshold base)
    (cfg_HTTPAddrs base) (cfg_Join base).

Definition bootWith (cfg : Config) (src : list Z) : RaftNode M :=
  let n := NewNode cfg m0 src in
  let n := SetSnapshotter (SetApply n) in
  let n := SetTransport (FilterTransport (cfg_ID cfg) (GRPCTransport (cfg_PeerAddrs base) ∅)) n in
  Start (SetPeerHook n).

Definition boot (i : string) (st : Storage) (src : list Z) : RaftNode M :=
  bootWith (nodeConfig i st) src.

(** A node that is started to join knows only itself (startMemberJoin with
    [join] set). *)
Definition joinConfig (i addr httpAddr : string) (st : Storage) : Config :=
  MkConfig i {[i := addr]} (cfg_ElectionTimeoutMin base) (cfg_ElectionTimeoutMax base)
    (cfg_HeartbeatInterval base) (Some st) true (cfg_SnapshotThreshold base)
    (if decide (httpAddr = ""%string) then ∅ else {[i := httpAddr]}) true.

Definition freshStorage : Storage := MkStorage zeroDurable false [].

Definition initWorld : World M :=
  MkWorld (map_imap (λ i _, Some (boot i freshStorage [])) (cfg_PeerAddrs base)) [].

(** The vote requests among the goroutines a node has started. *)
Definition voteRequestsOf (i : string) (gs : list Goroutine) : list Message :=
  omap (λ g, match g with
             | GoSendRequestVote p req => Some (MVoteReq i p req)
             | GoReplicateTo _ => None
             end) gs.

(** Node [i] becomes [n], with the goroutines it has started and [msgs] sent. *)
Definition putNode (i : string) (n : RaftNode M) (msgs : list Message) w : World M :=
  let votes := match transport n with
               | None => []
               | Some _ => voteRequestsOf i (spawned n)
               end in
  MkWorld (<[i := set_spawned [] n]> (w_nodes w)) (w_net w ++ votes ++ msgs).

(** Run [f] on node [i], when there is one. *)
Definition onNode (i : string) (f : RaftNode M → RaftNode M * list Message) w : World M :=
  match w_nodes w !! i with
  | None => w
  | Some n => let '(n', msgs) := f n in putNode i n' msgs w
  end.

Definition quiet (f : RaftNode M → RaftNode M) : RaftNode M → RaftNode M * list Message :=
  λ n, (f n, []).

(** The head of the loop of [replicateTo]: the request it sends. *)
Definition replicateSend (i peer : string) n : RaftNode M * list Message :=
  let '(n', step) := replicateHead peer n in
  (n', match step with
       | ReplicateReturn => []
       | ReplicateInstall req _ => [MInstallReq i peer req]
       | ReplicateAppend req _ => [MAppendReq i peer req]
       end).

Definition deliver (m : Message) w : World M :=
  match m with
  | MVoteReq i j req =>
      onNode j (λ n, let '(n', resp) := HandleRequestVote req n in
                     (n', [MVoteResp i j req resp])) w
  | MVoteResp i j req resp => onNode i (quiet (requestVoteReply j req resp)) w
  | MAppendReq i j req =>
      onNode j (λ n, let '(n', resp) := HandleAppendEntries req n in
                     (n', [MAppendResp i j req resp])) w
  | MAppendResp i j req resp =>
      onNode i (quiet (λ n, (replicateAppendReply j req (ae_Term req) resp n).1)) w
  | MInstallReq i j req =>
      onNode j (λ n, let '(n', resp) := HandleInstallSnapshot req n in
                     (n', [MInstallResp i j req resp])) w
  | MInstallResp i j req resp =>
      onNode i (quiet (λ n, (replicateInstallReply j req (is_Term req) resp n).1)) w
  end.

Definition stepW (l : Label) w : World M :=
  match l with
  | LTick i => onNode i (quiet tick) w
  | LPropose i cmd => onNode i (quiet (λ n, (Propose cmd n).1)) w
  | LAddServer i pid addr http => onNode i (quiet (λ n, (AddServer pid addr http n).1)) w
  | LRemoveServer i pid => onNode i (quiet (λ n, (RemoveServer pid n).1)) w
  | LReplicate i peer => if decide (peer = i) then w else onNode i (replicateSend i peer) w
  | LReplicateDone i peer => onNode i (quiet (replicateDone peer)) w
  | LConfirm i peer term =>
      if decide (peer = i) then w
      else onNode i (λ n, (n, match confirmSend term n with
                              | Some req => [MAppendReq i peer req]
                              | None => []
                              end)) w
  | LWaitCommitted i => onNode i (quiet (λ n, (waitCommittedPoll n).1)) w
  | LDeliver k => match w_net w !! k with Some m => deliver m w | None => w end
  | LDeliverConfirm k term =>
      match w_net w !! k with
      | Some (MAppendResp i _ _ resp) => onNode i (quiet (λ n, (confirmReply term resp n).1)) w
      | _ => w
      end
  | LEnv i now src => onNode i (quiet (λ n, set_rng src (set_clock now n))) w
  | LStop i => onNode i (quiet Stop) w
  | LRestart i src =>
      onNode i (quiet (λ n, match storage n with
                            | Some st => boot i st src
                            | None => n
                            end)) w
  | LJoin i addr http src =>
      if decide (i = ""%string ∨ is_Some (cfg_PeerAddrs base !! i)) then w
      else match w_nodes w !! i with
      | None => putNode i (bootWith (joinConfig i addr http freshStorage) src) [] w
      | Some n =>
          match storage n with
          | Some st => putNode i (bootWith (joinConfig i addr http st) src) [] w
          | None => w
          end
      end
  end.

Definition runW (ls : list Label) w : World M := foldl (λ w l, stepW l w) w ls.

(** The labels of a cluster whose membership does not change. *)
Definition fixed_label (l : Label) : Prop :=
  match l with
  | LAddServer _ _ _ _ | LRemoveServer _ _ | LJoin _ _ _ _ => False
  | _ => True
  end.

(** An InstallSnapshot request that does not make the node drop entries which
    follow the snapshot in a log that holds its last entry: it is refused or
    ignored, or the node does not hold that entry, or nothing follows it.
    HandleInstallSnapshot drops them in every case (see [Divergence]). *)
Definition keeps_suffix (req : InstallSnapshotRequest) n : Prop :=
  is_Term req < currentTerm n ∨ is_LastIncludedIndex req ≤ lastIncludedIndexLocked n ∨
  termAtLocked n (is_LastIncludedIndex req) ≠ Some (is_LastIncludedTerm req) ∨
  lastLogIndexLocked n ≤ is_LastIncludedIndex req.

#[export] Instance keeps_suffix_dec req n : Decision (keeps_suffix req n).
Proof. unfold keeps_suffix. apply _. Defined.

(** The delivery of [m] does not drop such entries, *)
Definition safe_delivery (m : Message) w : bool :=
  match m with
  | MInstallReq _ j req =>
      match w_nodes w !! j with
      | Some n => bool_decide (keeps_suffix req n)
      | None => true
      end
  | _ => true
  end.

(** the step [l] of [w] does not, *)
Definition safe_install (l : Label) w : bool :=
  match l with
  | LDeliver k => match w_net w !! k with Some m => safe_delivery m w | None => true end
  | _ => true
  end.

(** and no step of a run does. *)
Fixpoint safe_installs (ls : list Label) w : bool :=
  match ls with
  | [] => true
  | l :: ls => safe_install l w && safe_installs ls (stepW l w)
  end.

(** ** Runs that change the membership *)

(** The leader has committed an entry of its term.  proposeChangeLocked does not
    ask for it (see [Divergence]). *)
Definition settled_leader n : Prop :=
  state n = Leader → termAtLocked n (commitIndex n) = Some (currentTerm n).

(** The node would start an election at its next tick. *)
Definition campaigns n : Prop :=
  state n ≠ Leader ∧ joining n = false ∧ is_Some (peerAddrs n !! nodeID n) ∧
  electionDeadline n ≤ clock n.

(** A node that was started to join does not campaign while it knows only itself.
    HandleAppendEntries lets it (see [Divergence]). *)
Definition knows_cluster (i : string) n : Prop :=
  is_Some (cfg_PeerAddrs base !! i) ∨ (1 < size (peerAddrs n))%nat ∨ ¬ campaigns n.

#[export] Instance settled_leader_dec n : Decision (settled_leader n).
Proof. unfold settled_leader. apply _. Defined.

#[export] Instance knows_cluster_dec i n : Decision (knows_cluster i n).
Proof. unfold knows_cluster, campaigns. apply _. Defined.

Definition safe_change (l : Label) w : bool :=
  match l with
  | LAddServer i _ _ _ | LRemoveServer i _ =>
      match w_nodes w !! i with Some n => bool_decide (settled_leader n) | None => true end
  | LTick i =>
      match w_nodes w !! i with Some n => bool_decide (knows_cluster i n) | None => true end
  | _ => true
  end.

Fixpoint safe_changes (ls : list Label) w : bool :=
  match ls with
  | [] => true
  | l :: ls => safe_change l w && safe_changes ls (stepW l w)
  end.

(** The runs in which leaders change the membership only after they have
    committed an entry of their term and joining nodes wait until they have been
    added; [ch] says whether the membership may change at all.  With compaction off
    there is no snapshot to install. *)
Definition safe_run (ch : bool) (ls : list Label) w : Prop :=
  (if ch then safe_changes ls w = true else Forall fixed_label ls) ∧
  (cfg_SnapshotThreshold base ≤ 0 ∨ safe_installs ls w = true).
End network.
