(* ===== verification/Demo.v ===== *)
(** A concrete cluster of three nodes and concrete runs of it, for the
    witnesses and the examples of the other files. *)
From S2P Require Import Prelude Types Node Persist Membership Snapshot Log Election RaftOps Read Machine NodeInv Durable Network.
Open Scope Z_scope.
Open Scope go_scope.

(** A state machine that records the commands it is given.  Its snapshot holds
    each byte of a command after a mark, and another mark ends a command. *)
Definition packCommand (c : bytes) : bytes := flat_map (λ b, [Byte.x01; b]) c ++ [Byte.x00].

Definition packCommands (cs : list bytes) : bytes := flat_map packCommand cs ++ [Byte.x02].

Fixpoint unpackCommands (cur : bytes) (b : bytes) : list bytes :=
  match b with
  | Byte.x01 :: x :: b' => unpackCommands (cur ++ [x]) b'
  | Byte.x00 :: b' => cur :: unpackCommands [] b'
  | _ => []
  end.

#[export] Instance recorder : StateMachine (list bytes) := {
  sm_apply m s := s ++ [am_Command m];
  sm_snapshot s := Some (packCommands s);
  sm_restore b _ := Some (unpackCommands [] b);
}.

Lemma unpack_packCommand cur c b :
  unpackCommands cur (packCommand c ++ b) = (cur ++ c) :: unpackCommands [] b.
Proof.
  revert cur. induction c as [|x c IH]; intros cur; cbn; [by rewrite app_nil_r|].
  unfold packCommand in IH. rewrite IH. by rewrite <- app_assoc.
Qed.

Lemma unpack_packCommands cs : unpackCommands [] (packCommands cs) = cs.
Proof.
  induction cs as [|c cs IH]; [done|]. unfold packCommands in *. cbn.
  rewrite <- app_assoc, unpack_packCommand. by rewrite IH.
Qed.

#[export] Instance recorder_laws : StateMachineLaws (list bytes).
Proof.
  refine {| sm_ok _ := True |}; [done| |].
  - intros s b [= <-]. unfold packCommands. by destruct (flat_map packCommand s).
  - intros s s0 b _ [= <-]. cbn. by rewrite unpack_packCommands.
Defined.

Definition addr (i : string) : string := i +:+ ":9000".

Definition peers3 : gmap string string :=
  {[ "a" := addr "a"; "b" := addr "b"; "c" := addr "c" ]}.

(** Three nodes with the timeouts of [DefaultConfig] and compaction after
    [threshold] entries (off for 0). *)
Definition config3 (threshold : Z) : Config :=
  MkConfig "" peers3 (150 * Millisecond) (300 * Millisecond) (50 * Millisecond) None true
    threshold ∅ false.

Definition cmdX : bytes := [Byte.x78].
Definition cmdY : bytes := [Byte.x79].

(** Node a times out, is elected with the vote of b, commits its no-op and the
    command [cmdX] with b, and tells b of the commit. *)
Definition electA : list Label :=
  [LEnv "a" (200 * Millisecond) []; LTick "a"; LDeliver 0; LDeliver 2].

Definition commitX : list Label :=
  [LReplicate "a" "b"; LDeliver 3; LDeliver 4; LPropose "a" cmdX;
   LReplicate "a" "b"; LDeliver 5; LDeliver 6; LReplicate "a" "b"; LDeliver 7].

(** Then b crashes and restarts, c catches up and takes over with the vote of b
    while a still thinks it leads. *)
Definition takeoverC : list Label :=
  [LRestart "b" []; LReplicate "a" "c"; LDeliver 9; LEnv "c" (500 * Millisecond) [];
   LTick "c"; LDeliver 12; LDeliver 13].

(** A cluster of one node, which elects itself and commits alone. *)
Definition soloConfig (threshold : Z) : Config :=
  MkConfig "a" {[ "a" := addr "a" ]} (150 * Millisecond) (300 * Millisecond)
    (50 * Millisecond) (Some freshStorage) true threshold ∅ false.

Definition soloOps : list NodeOp :=
  [OpEnv (200 * Millisecond) []; OpTick; OpPropose cmdX; OpPropose cmdY].

Definition solo (threshold : Z) (ops : list NodeOp) : RaftNode (list bytes) :=
  runOps ops (SetApply (NewNode (soloConfig threshold) [] [])).

Lemma wf_solo threshold ops : Forall op_ok ops → wf_node (solo threshold ops).
Proof.
  intros H. apply wf_runOps; [|done].
  pose proof (wf_fresh (full := true) (soloConfig threshold) ([] : list bytes) []) as Hf. wf_frame Hf.
Qed.

Example solo_shape :
  let n := solo 0 soloOps in
  (state n, currentTerm n, lastLogIndexLocked n, lastApplied n, machine n) =
  (Leader, 1, 3, 3, [[]; cmdX; cmdY]).
Proof. vm_compute. reflexivity. Qed.
