(* ===== verification/SnapshotSpec.v ===== *)
(** Compaction and snapshots (raft/snapshot.go): what compaction keeps, what a
    received snapshot replaces, and that a compacted node restarted from its disk
    has the state machine it had. *)
From S2P Require Import Prelude Types Node Persist Membership Snapshot Log Election RaftOps Read Machine NodeInv LogSpec Durable Network Demo.
Open Scope Z_scope.
Open Scope go_scope.

Section snapshot_spec.
Context {M : Type} `{!StateMachine M}.
Implicit Types n : RaftNode M.

(** The exact effect of a compaction. *)
Lemma compact_effect index n e data :
  wf_node n → lastIncludedIndexLocked n < index → entryAtLocked n index = Some e →
  sm_snapshot (machine n) = Some data →
  ∃ t h, compactLocked index n =
    persistLocked (set_hookCalls h (set_transport t
      (set_baseHTTP (membershipAtLocked index n).2 (set_basePeers (membershipAtLocked index n).1
        (set_snapshot data
          (set_log (dummyEntry (e_Term e) index ::
                    drop (S (Z.to_nat (index - lastIncludedIndexLocked n))) (log n)) n)))))).
Proof.
  intros Hwf Hlt He Hd. pose proof (wf_node_log _ Hwf) as Hlog.
  assert (Hr : lastIncludedIndexLocked n ≤ index ≤ lastLogIndexLocked n)
    by (apply entryAtLocked_range; [done|by eexists]).
  pose proof (wf_log_last n Hlog) as Hlast.
  destruct (wf_node_members _ Hwf) as [Hm Hids].
  unfold compactLocked. rewrite decide_False by lia. rewrite He, Hd.
  rewrite decide_False by (unfold sliceIndexLocked, lastIncludedIndexLocked in *; lia).
  pose proof (membershipAt_split n index Hlog Hr) as Hms.
  destruct (membershipAtLocked index n) as [bp bh] eqn:Em. cbn [fst snd].
  match goal with |- context [notifyPeersLocked ?x] =>
    destruct (notifyPeersLocked_shape x) as (t&h&->) end.
  exists t, h. f_equal. rewrite rebuildMembershipLocked_eq. cbn zeta.
  cbn [basePeers baseHTTP log set_log set_snapshot set_basePeers set_baseHTTP tail].
  assert (Hsuf : applyEntries (bp, bh) (drop (Z.to_nat (sliceIndexLocked n index + 1)) (log n)) =
    (peerAddrs n, peerHTTP n)).
  { rewrite Hms, <- applyEntries_app, Hm. f_equal.
    destruct Hlog as [Hne _]. unfold sliceIndexLocked, lastIncludedIndexLocked, firstEntry in *.
    destruct (log n) as [|e0 l]; [done|]. cbn [head from_option id tail] in *.
    replace (Z.to_nat (index - e_Index e0 + 1)) with (S (Z.to_nat (index - e_Index e0))) by lia.
    cbn [drop]. apply take_drop. }
  rewrite Hsuf. cbn [fst snd]. rewrite <- Hids.
  replace (Z.to_nat (sliceIndexLocked n index + 1)) with
    (S (Z.to_nat (index - lastIncludedIndexLocked n)))
    by (unfold sliceIndexLocked, lastIncludedIndexLocked in *; lia).
  by destruct n.
Qed.

(** What a compaction keeps. *)
Record compacted n n' : Prop := {
  cp_machine : machine n' = machine n;
  cp_applied : lastApplied n' = lastApplied n;
  cp_commit : commitIndex n' = commitIndex n;
  cp_durable : currentTerm n' = currentTerm n ∧ votedFor n' = votedFor n ∧ state n' = state n;
  cp_members : peerAddrs n' = peerAddrs n ∧ peerHTTP n' = peerHTTP n ∧ peerIDs n' = peerIDs n;
  cp_last : lastLogIndexLocked n' = lastLogIndexLocked n ∧
            lastLogTermLocked n' = lastLogTermLocked n;
  cp_first : lastIncludedIndexLocked n ≤ lastIncludedIndexLocked n';
  cp_dummy : termAtLocked n' (lastIncludedIndexLocked n') =
             termAtLocked n (lastIncludedIndexLocked n');
  cp_entries : ∀ k, lastIncludedIndexLocked n' < k → entryAtLocked n' k = entryAtLocked n k;
}.

Lemma compacted_refl n : compacted n n.
Proof. by split. Qed.

Lemma compact_compacted index n e data :
  wf_node n → lastIncludedIndexLocked n < index → entryAtLocked n index = Some e →
  sm_snapshot (machine n) = Some data →
  compacted n (compactLocked index n) ∧ lastIncludedIndexLocked (compactLocked index n) = index ∧
  snapshot (compactLocked index n) = data.
Proof.
  intros Hwf Hlt He Hd. destruct (compact_effect index n e data Hwf Hlt He Hd) as (t&h&->).
  match goal with |- context [persistLocked ?x] => destruct (persistLocked_shape x) as [s ->] end.
  pose proof (wf_node_log _ Hwf) as Hlog.
  rewrite entryAtLocked_eq in He. apply zlookup_Some in He as [Hge He].
  set (k := Z.to_nat (index - lastIncludedIndexLocked n)) in *.
  match goal with |- compacted n ?x ∧ _ => set (n' := x) end.
  assert (Hf : lastIncludedIndexLocked n' = index) by done.
  assert (Hl' : log n' = dummyEntry (e_Term e) index :: drop (S k) (log n)) by done.
  split; [|done]. split; try done.
  - pose proof (lookup_lt_Some _ _ _ He) as Hk.
    unfold lastLogIndexLocked, lastLogTermLocked, lastEntry.
    rewrite Hl'. destruct (decide (S k < length (log n))%nat) as [Hs|Hs].
    + assert (Hdr : drop (S k) (log n) ≠ []).
      { intros E. apply (f_equal length) in E. rewrite length_drop in E. cbn in E. lia. }
      destruct (last (drop (S k) (log n))) as [x|] eqn:El; [|by apply last_None in El].
      assert (last (log n) = Some x) as ->.
      { rewrite <- (take_drop (S k) (log n)), last_app, El. done. }
      rewrite last_cons, El. done.
    + rewrite drop_ge by lia. assert (last (log n) = Some e) as ->.
      { rewrite last_lookup. by replace (pred (length (log n))) with k by lia. }
      cbn. split; [|done].
      destruct Hlog as [_ Hc]. rewrite (Hc _ _ He). unfold lastIncludedIndexLocked, firstEntry in *. lia.
  - rewrite Hf. lia.
  - unfold termAtLocked. rewrite Hf, !entryAtLocked_eq, Hf, Hl', Z.sub_diag.
    unfold zlookup. rewrite !decide_True by lia. fold k. by rewrite He.
  - intros j. rewrite Hf, !entryAtLocked_eq, Hf, Hl'. intros Hj.
    unfold zlookup. rewrite !decide_True by lia.
    replace (Z.to_nat (j - index)) with (S (Z.to_nat (j - index - 1))) by lia.
    change (drop (S k) (log n) !! Z.to_nat (j - index - 1) =
            log n !! Z.to_nat (j - lastIncludedIndexLocked n)).
    rewrite lookup_drop. f_equal. lia.
Qed.

Lemma maybeCompact_compacted n : wf_node n → compacted n (maybeCompactLocked n).
Proof.
  intros Hwf. unfold maybeCompactLocked. destruct (_ || _); [apply compacted_refl|].
  case_decide; [apply compacted_refl|].
  destruct (decide (lastApplied n ≤ lastIncludedIndexLocked n)) as [Hle|Hgt].
  { unfold compactLocked. rewrite decide_True by done. apply compacted_refl. }
  destruct (entryAtLocked n (lastApplied n)) as [e|] eqn:He.
  - destruct (sm_snapshot (machine n)) as [data|] eqn:Hd.
    + eapply compact_compacted; [done|lia|done|done].
    + unfold compactLocked. rewrite decide_False by lia. rewrite He, Hd. apply compacted_refl.
  - unfold compactLocked. rewrite decide_False by lia. rewrite He. apply compacted_refl.
Qed.

(** [C15] Compaction keeps everything a peer or a client can see of the log:
    every entry above the new dummy, the term the dummy stands for, the last
    index and term, the configuration in use, the commit point and the state
    machine; it never goes back. *)
Theorem compaction_transparent n :
  wf_node n →
  let n' := maybeCompactLocked n in
  lastIncludedIndexLocked n ≤ lastIncludedIndexLocked n' ∧
  (∀ k, lastIncludedIndexLocked n' < k → entryAtLocked n' k = entryAtLocked n k) ∧
  termAtLocked n' (lastIncludedIndexLocked n') = termAtLocked n (lastIncludedIndexLocked n') ∧
  lastLogIndexLocked n' = lastLogIndexLocked n ∧ lastLogTermLocked n' = lastLogTermLocked n ∧
  peerAddrs n' = peerAddrs n ∧ peerHTTP n' = peerHTTP n ∧ peerIDs n' = peerIDs n ∧
  commitIndex n' = commitIndex n ∧ lastApplied n' = lastApplied n ∧ machine n' = machine n ∧
  wf_node n'.
Proof.
  intros Hwf n'. pose proof (maybeCompact_compacted n Hwf) as [? ? ? ? ? ? ? ? ?].
  pose proof (wf_maybeCompact n Hwf). by destruct_and!; split_and!.
Qed.

(** The apply loop: afterwards everything committed is applied, each entry
    between the old [lastApplied] and [commitIndex] exactly once and in log
    order, membership changes and nodes without a callback excepted; whether or
    not the log is compacted at the end. *)
Theorem apply_committed_once n :
  wf_node n → lastApplied n ≤ commitIndex n ≤ lastLogIndexLocked n →
  let n' := applyCommittedLocked n in
  let first := Z.to_nat (lastApplied n + 1 - lastIncludedIndexLocked n) in
  let count := Z.to_nat (commitIndex n - lastApplied n) in
  lastApplied n' = commitIndex n ∧ commitIndex n' = commitIndex n ∧
  machine n' =
    foldl (λ m e, if applySet n && bool_decide (e_Change e = None)
                  then sm_apply (MkApplyMsg (e_Index e) (e_Command e)) m else m)
      (machine n) (take count (drop first (log n))).
Proof.
  intros Hwf Hr n' first count. unfold n', applyCommittedLocked.
  pose proof (wf_applyLoop (Z.to_nat (commitIndex n - lastApplied n)) n Hwf) as Hwf'.
  pose proof (maybeCompact_compacted _ Hwf') as Hc.
  rewrite (cp_applied _ _ Hc), (cp_commit _ _ Hc), (cp_machine _ _ Hc).
  rewrite applyLoop_eq; [|apply Hwf|apply Hwf|lia]. cbn.
  split_and!; [lia|done|done].
Qed.

(** ** InstallSnapshot *)

(** How a node follows the leader of a term that is not old. *)
Lemma acceptLeader_shape t l n :
  currentTerm n ≤ t →
  ∃ s v d r, acceptLeader t l n =
    set_joining false (set_electionDeadline d (set_rng r (set_leaderID l
      (set_state Follower (set_storage s (set_votedFor v (set_currentTerm t n))))))).
Proof.
  intros Hle. unfold acceptLeader. match goal with |- context [resetElectionTimerLocked ?x] =>
    destruct (resetElectionTimerLocked_shape x) as (d&r&->) end.
  assert (E : ∃ s v, (if decide (t > currentTerm n ∨ state n ≠ Follower)
    then becomeFollowerLocked t l n else n) =
    set_leaderID (if decide (t > currentTerm n ∨ state n ≠ Follower) then l else leaderID n)
      (set_state Follower (set_storage s (set_votedFor v (set_currentTerm t n))))).
  { case_decide as Hd.
    - unfold becomeFollowerLocked. case_decide.
      + destruct (persistLocked_shape (set_votedFor "" (set_currentTerm t n))) as [s ->].
        by exists s, ""%string.
      + exists (storage n), (votedFor n). assert (t = currentTerm n) as -> by lia. by destruct n.
    - exists (storage n), (votedFor n). assert (t = currentTerm n) as -> by lia.
      assert (E : state n = Follower) by (destruct (state n); naive_solver).
      destruct n; cbn in *. by subst. }
  destruct E as (s&v&->). by exists s, v, d, r.
Qed.

(** What a node adopts from a snapshot, and what it keeps. *)
Lemma adoptSnapshot_facts req n :
  is_Peers req ≠ ∅ →
  let n' := adoptSnapshot req n in
  (state n' = state n ∧ currentTerm n' = currentTerm n ∧ leaderID n' = leaderID n ∧
   joining n' = joining n) ∧
  log n' = [dummyEntry (is_LastIncludedTerm req) (is_LastIncludedIndex req)] ∧
  snapshot n' = is_Data req ∧ lastApplied n' = is_LastIncludedIndex req ∧
  commitIndex n' = Z.max (commitIndex n) (is_LastIncludedIndex req) ∧
  peerAddrs n' = is_Peers req ∧ basePeers n' = is_Peers req ∧
  peerIDs n' = sorted_keys (is_Peers req).
Proof.
  intros Hp. destruct (adoptSnapshot_shape req n Hp) as (t&h&m&->). cbn zeta.
  match goal with |- context [persistLocked ?x] => destruct (persistLocked_shape x) as [s' ->] end.
  split_and!; reflexivity.
Qed.

(** HandleInstallSnapshot: a request of an old term changes nothing; one
    that is not ahead of the node's own snapshot only makes it follow; otherwise
    the log becomes the dummy entry of the snapshot, the state machine and the
    membership become those of the snapshot, and everything up to it counts as
    committed and applied. *)
Theorem install_snapshot req n :
  is_Peers req ≠ ∅ →
  let '(n', resp) := HandleInstallSnapshot req n in
  isr_Term resp = Z.max (currentTerm n) (is_Term req) ∧
  (is_Term req < currentTerm n → n' = n) ∧
  (currentTerm n ≤ is_Term req →
     state n' = Follower ∧ currentTerm n' = is_Term req ∧ leaderID n' = is_LeaderID req ∧
     joining n' = false) ∧
  (currentTerm n ≤ is_Term req → is_LastIncludedIndex req ≤ lastIncludedIndexLocked n →
     log n' = log n ∧ machine n' = machine n ∧ lastApplied n' = lastApplied n) ∧
  (currentTerm n ≤ is_Term req → lastIncludedIndexLocked n < is_LastIncludedIndex req →
     log n' = [dummyEntry (is_LastIncludedTerm req) (is_LastIncludedIndex req)] ∧
     snapshot n' = is_Data req ∧
     lastApplied n' = is_LastIncludedIndex req ∧
     commitIndex n' = Z.max (commitIndex n) (is_LastIncludedIndex req) ∧
     peerAddrs n' = is_Peers req ∧ basePeers n' = is_Peers req ∧
     peerIDs n' = sorted_keys (is_Peers req)).
Proof.
  intros Hp. unfold HandleInstallSnapshot. case_decide as Hlt.
  { cbn. split_and!; [lia|done|lia|lia|lia]. }
  destruct (acceptLeader_shape (is_Term req) (is_LeaderID req) n ltac:(lia)) as (s&v&d&r&->).
  set (n0 := set_joining false _).
  assert (H0 : log n0 = log n ∧ machine n0 = machine n ∧ lastApplied n0 = lastApplied n ∧
    state n0 = Follower ∧ currentTerm n0 = is_Term req ∧ leaderID n0 = is_LeaderID req ∧
    joining n0 = false ∧ commitIndex n0 = commitIndex n) by done.
  clearbody n0. destruct H0 as (E1&E2&E3&E4&E5&E6&E7&E8).
  assert (Hf : lastIncludedIndexLocked n0 = lastIncludedIndexLocked n)
    by (unfold lastIncludedIndexLocked, firstEntry; by rewrite E1).
  rewrite Hf, E5. case_decide as Hi.
  - cbn [isr_Term]. split_and!; [lia|lia|done|done|lia].
  - destruct (adoptSnapshot_facts req n0 Hp) as ((F1&F2&F3&F4)&Hrest). revert F1 F2 F3 F4 Hrest.
    rewrite E4, E5, E6, E7, E8. generalize (adoptSnapshot req n0). intros n' F1 F2 F3 F4 Hrest.
    cbn [isr_Term]. split_and!; [lia|lia|done|lia|done].
Qed.
End snapshot_spec.

(** ** Compaction and restart *)

Section compact_restart.
Context {M : Type} `{!StateMachine M, !StateMachineLaws M}.
Implicit Types n : RaftNode M.

(** A restored snapshot that is not behind the node. *)
Lemma restoreSnapshot_some n (m : M) :
  snapshotterSet n = true → snapshot n ≠ [] → sm_restore (snapshot n) (machine n) = Some m →
  lastIncludedIndexLocked n ≤ lastApplied n → lastIncludedIndexLocked n ≤ commitIndex n →
  restoreSnapshotLocked n = set_machine m n.
Proof.
  intros Hs Hne Hr Ha Hc. unfold restoreSnapshotLocked. rewrite Hs, bool_decide_eq_false_2 by done.
  cbn [negb orb]. rewrite Hr.
  change (lastIncludedIndexLocked (set_machine m n)) with (lastIncludedIndexLocked n).
  change (lastApplied (set_machine m n)) with (lastApplied n).
  destruct (decide (lastApplied n < lastIncludedIndexLocked n)); [lia|].
  change (commitIndex (set_machine m n)) with (commitIndex n).
  by rewrite decide_False by lia.
Qed.

(** What a node makes of a loaded state with a snapshot. *)
Lemma restoreDurable_snapshot st n (m : M) :
  ds_Log st ≠ [] → ds_SnapshotPeers st ≠ ∅ → ds_Snapshot st ≠ [] →
  snapshotterSet n = true → sm_restore (ds_Snapshot st) (machine n) = Some m →
  let n' := restoreDurable st n in
  let first := e_Index (default zeroEntry (head (ds_Log st))) in
  machine n' = m ∧ lastApplied n' = first ∧ commitIndex n' = first.
Proof.
  intros Hlog Hp Hsn Hs Hr n' first. unfold n', restoreDurable. rewrite loadDurable_eq by done.
  match goal with |- context [startAtSnapshot ?x] =>
    assert (H1 : log x = ds_Log st ∧ snapshot x = ds_Snapshot st ∧ machine x = machine n ∧
      snapshotterSet x = snapshotterSet n) by done; revert H1; generalize x end.
  intros n1 (E1&E2&E3&E4). unfold startAtSnapshot.
  rewrite bool_decide_eq_true_2 by (by rewrite E1, E2). cbn zeta.
  assert (Ef : e_Index (firstEntry n1) = first) by (unfold firstEntry, first; by rewrite E1).
  rewrite Ef.
  rewrite (restoreSnapshot_some _ m); [|by cbn; rewrite E4|by cbn; rewrite E2
    |by cbn; rewrite E2, E3|by cbn; rewrite <- Ef|by cbn; rewrite <- Ef].
  rewrite rebuildMembershipLocked_eq. cbn zeta.
  match goal with |- context [decide (slen (peerIDs ?x) > 1)] =>
    assert (Hw : machine x = m ∧ lastApplied x = first ∧ commitIndex x = first) by done;
    revert Hw; generalize x end.
  intros n2 Hw. by case_decide.
Qed.

(** [C16] A well-formed node compacts its log at the index it has applied, the save
    succeeds, and the node crashes.  When the membership at that index is not empty
    and the disk can be read, it is restarted with the same state machine, at the same
    applied index, with the same log, term and vote, whatever state machine object it
    is given. *)
Theorem compact_restart n s e data cfg (m : M) src s1 :
  wf_node n → sm_ok (machine n) →
  storage n = Some s → st_SaveErrs s = [] → st_LoadErr s = false →
  lastIncludedIndexLocked n < lastApplied n →
  entryAtLocked n (lastApplied n) = Some e → sm_snapshot (machine n) = Some data →
  (membershipAtLocked (lastApplied n) n).1 ≠ ∅ →
  let n1 := compactLocked (lastApplied n) n in
  storage n1 = Some s1 → cfg_Storage cfg = Some s1 → cfg_Snapshotter cfg = true →
  let n2 := NewNode cfg m src in
  machine n2 = machine n ∧ lastApplied n2 = lastApplied n ∧ commitIndex n2 = lastApplied n ∧
  log n2 = log n1 ∧ currentTerm n2 = currentTerm n ∧ votedFor n2 = votedFor n.
Proof.
  intros Hwf Hok Hs He Hle Hlt Hent Hd Hmem n1 Hs1 Hc Hsn n2.
  pose proof (sm_snapshot_nonempty _ _ Hd) as Hne.
  destruct (compact_effect _ n e data Hwf Hlt Hent Hd) as (t&h&E). fold n1 in E.
  match type of E with _ = persistLocked ?x => set (c := x) in *;
    assert (Hcs : storage c = Some s) by exact Hs;
    assert (Hcd : durableOf c = MkDurable (currentTerm n) (votedFor n)
      (dummyEntry (e_Term e) (lastApplied n) ::
       drop (S (Z.to_nat (lastApplied n - lastIncludedIndexLocked n))) (log n))
      data (membershipAtLocked (lastApplied n) n).1 (membershipAtLocked (lastApplied n) n).2)
      by reflexivity end.
  clearbody c.
  rewrite E, (persistLocked_disk c s Hcs He), Hle in Hs1.
  injection Hs1 as <-.
  assert (Hl1 : log n1 = ds_Log (durableOf c)).
  { rewrite E. by destruct (persistLocked_shape c) as [s2 ->]. }
  unfold n2, NewNode, Load. rewrite Hc. cbn [st_LoadErr st_Disk].
  unfold durableUsed. rewrite Hl1, Hcd. rewrite bool_decide_eq_true_2 by (right; right; by left).
  set (st := MkDurable _ _ _ _ _ _).
  destruct (restoreDurable_snapshot st (freshNode cfg m src) (machine n)) as (R1&R2&R3);
    [done..|by apply sm_restore_snapshot|].
  destruct (restoreDurable_durable st (freshNode cfg m src)) as (D&_); [done..|].
  pose proof (f_equal ds_Log D) as D1. pose proof (f_equal ds_CurrentTerm D) as D2.
  pose proof (f_equal ds_VotedFor D) as D3. revert R1 R2 R3 D1 D2 D3.
  generalize (restoreDurable st (freshNode cfg m src)). intros r R1 R2 R3 D1 D2 D3.
  by split_and!.
Qed.
End compact_restart.

(** ** Witnesses *)

(** A node about to compact: three entries applied, compaction after two. *)
Definition ripe : RaftNode (list bytes) := set_snapshotThreshold 2 (solo 0 soloOps).

Lemma wf_threshold (n : RaftNode (list bytes)) v :
  wf_node n → wf_node (set_snapshotThreshold v n).
Proof. intros H. wf_frame H. Qed.

Lemma wf_rewind (n : RaftNode (list bytes)) k m :
  wf_node n → lastIncludedIndexLocked n ≤ k → wf_node (set_machine m (set_lastApplied k n)).
Proof. intros [H1 H2 _] Hk. split; [exact H1|exact H2|exact Hk]. Qed.

Lemma wf_ripe : wf_node ripe.
Proof. apply wf_threshold, wf_solo. repeat constructor. Qed.

Lemma compaction_transparent_witness :
  lastIncludedIndexLocked (maybeCompactLocked ripe) = 3 ∧ machine (maybeCompactLocked ripe) = machine ripe.
Proof.
  split; [vm_compute; reflexivity|].
  destruct (compaction_transparent ripe wf_ripe) as (_&_&_&_&_&_&_&_&_&_&H&_). exact H.
Defined.

(** A node that has learnt of three committed entries and applied none. *)
Definition behind : RaftNode (list bytes) :=
  set_machine [] (set_lastApplied 0 (solo 0 soloOps)).

Lemma wf_behind : wf_node behind.
Proof. apply wf_rewind; [apply wf_solo; repeat constructor|vm_compute; done]. Qed.

Lemma apply_committed_once_witness :
  lastApplied (applyCommittedLocked behind) = 3 ∧
  machine (applyCommittedLocked behind) = [[]; cmdX; cmdY].
Proof.
  destruct (apply_committed_once behind wf_behind ltac:(vm_compute; done)) as (H1&_&H2).
  rewrite H1, H2. vm_compute. split; reflexivity.
Defined.

Definition snapReq : InstallSnapshotRequest :=
  MkInstallReq 5 "b" 9 4 (packCommands [cmdX]) {[ "a" := addr "a"; "b" := addr "b" ]} ∅.

Lemma install_snapshot_witness :
  lastApplied (HandleInstallSnapshot snapReq behind).1 = 9 ∧
  state (HandleInstallSnapshot snapReq behind).1 = Follower.
Proof.
  pose proof (install_snapshot snapReq behind ltac:(vm_compute; done)) as H.
  destruct (HandleInstallSnapshot snapReq behind) as [n' resp]. cbn [fst].
  destruct H as (_&_&H1&_&H2).
  split; [apply H2; vm_compute; done|apply H1; vm_compute; done].
Defined.

Definition ripeDisk : Storage :=
  default freshStorage (storage (compactLocked (lastApplied ripe) ripe)).

Lemma compact_restart_witness :
  machine (NewNode (MkConfig "a" ∅ 0 0 0 (Some ripeDisk) true 2 ∅ false) ([] : list bytes) []) =
  machine ripe.
Proof.
  apply (compact_restart ripe (default freshStorage (storage ripe))
    (default zeroEntry (entryAtLocked ripe (lastApplied ripe)))
    (packCommands [[]; cmdX; cmdY]) _ _ _ ripeDisk wf_ripe);
    [exact I|vm_compute; reflexivity || (intros ?; discriminate)..].
Defined.
