(* ===== verification/MembershipSpec.v ===== *)
(** Membership changes (raft/membership.go): what a proposed change does, that
    one at a time is in flight, that the quorums before and after it meet, and
    that the transport is told the new addresses. *)
From S2P Require Import Prelude Types Node Persist Membership Snapshot Log Election RaftOps Read Machine NodeInv LogSpec Durable Network Demo SnapshotSpec Spec.
Open Scope Z_scope.
Open Scope go_scope.

Section membership_spec.
Context {M : Type} `{!StateMachine M}.
Implicit Types n : RaftNode M.

(** ** Changes in flight *)

Lemma uncommittedConfigFrom_iff fuel idx n :
  uncommittedConfigFrom fuel idx n = true ↔
  ∃ k e, idx ≤ k < idx + Z.of_nat fuel ∧ entryAtLocked n k = Some e ∧ e_Change e ≠ None.
Proof.
  revert idx. induction fuel as [|fuel IH]; intros idx; cbn.
  { split; [done|]. intros (k&e&?&_). lia. }
  assert (Hstep : (∀ e, entryAtLocked n idx = Some e → e_Change e = None) →
    uncommittedConfigFrom fuel (idx + 1) n = true ↔
    ∃ k e, idx ≤ k < idx + Z.of_nat (S fuel) ∧ entryAtLocked n k = Some e ∧ e_Change e ≠ None).
  { intros Hno. rewrite IH. split; intros (k&e&Hk&He&Hc); exists k, e; (split; [|done]); [lia|].
    destruct (decide (k = idx)) as [->|]; [|lia]. destruct Hc. by apply Hno. }
  destruct (entryAtLocked n idx) as [[t i c [ch|]]|] eqn:E.
  - split; [|done]. intros _. exists idx, (MkEntry t i c (Some ch)). split; [lia|done].
  - apply Hstep. by intros e [= <-].
  - apply Hstep. done.
Qed.

(** hasUncommittedConfigLocked finds exactly the membership changes of the
    log above the commit index. *)
Theorem uncommitted_config_iff n :
  hasUncommittedConfigLocked n = true ↔
  ∃ k e, commitIndex n < k ≤ lastLogIndexLocked n ∧ entryAtLocked n k = Some e ∧
    e_Change e ≠ None.
Proof.
  unfold hasUncommittedConfigLocked. rewrite uncommittedConfigFrom_iff.
  split; intros (k&e&Hk&He); exists k, e; (split; [lia|done]).
Qed.

(** ** The effect of a change *)

Lemma changedPeers_cases ch n np nh :
  changedPeers ch n = Ok (np, nh) →
  (ch_Type ch = ChangeAdd ∧ peerAddrs n !! ch_ID ch = None ∧
     np = <[ch_ID ch := ch_Addr ch]> (peerAddrs n)) ∨
  (ch_Type ch = ChangeRemove ∧ is_Some (peerAddrs n !! ch_ID ch) ∧ ch_ID ch ≠ nodeID n ∧
     1 < slen (peerIDs n) ∧ np = delete (ch_ID ch) (peerAddrs n)).
Proof.
  unfold changedPeers. case_decide as Ha.
  - case_decide as Hin; [done|]. intros [= <- <-]. left. split_and!; [done| |done].
    by apply eq_None_not_Some.
  - case_decide; [|done]. case_decide as Hin; [done|]. case_decide; [done|].
    case_decide; [done|]. intros [= <- <-]. right. split_and!; [done| |done|lia|done].
    by apply not_eq_None_Some.
Qed.

(** A leader stays a member: it does not remove itself. *)
Lemma changedPeers_self ch n np nh i :
  changedPeers ch n = Ok (np, nh) → i = nodeID n →
  is_Some (peerAddrs n !! i) → is_Some (np !! i).
Proof.
  intros Hch -> Hi. destruct (changedPeers_cases _ _ _ _ Hch) as [(_&_&->)|(_&_&Hne&_&->)].
  - by apply lookup_insert_is_Some'; right.
  - by rewrite lookup_delete_ne.
Qed.

Lemma changedPeers_size ch n np nh :
  wf_members n → changedPeers ch n = Ok (np, nh) →
  np ≠ ∅ ∧
  (dom (peerAddrs n) ⊆ dom np ∧ size np = S (size (peerAddrs n)) ∨
   dom np ⊆ dom (peerAddrs n) ∧ size (peerAddrs n) = S (size np)).
Proof.
  intros [_ Hids] Hch. destruct (changedPeers_cases _ _ _ _ Hch) as [(_&Hno&->)|(_&[x Hin]&_&Hlen&->)].
  - split; [apply insert_non_empty|]. left. split; [set_solver|].
    by apply map_size_insert_None.
  - assert (Hs : size (peerAddrs n) = S (size (delete (ch_ID ch) (peerAddrs n)))).
    { rewrite map_size_delete, Hin. rewrite Hids in Hlen. unfold slen in Hlen.
      rewrite length_sorted_keys in Hlen. lia. }
    split; [|right; split; [set_solver|done]].
    intros E. rewrite E, map_size_empty, Hids in *. unfold slen in Hlen.
    rewrite length_sorted_keys in Hlen. lia.
Qed.

(** What a successful proposal of a change does to the configuration. *)
Lemma proposeChange_members ch n n' idx :
  wf_node n → proposeChangeLocked ch n = (n', Ok idx) →
  ∃ np nh, changedPeers ch n = Ok (np, nh) ∧ peerAddrs n' = np ∧ peerHTTP n' = nh ∧
    peerIDs n' = sorted_keys np ∧ state n = Leader ∧ stopped n = false ∧
    hasUncommittedConfigLocked n = false ∧ idx = lastLogIndexLocked n + 1.
Proof.
  intros Hwf. unfold proposeChangeLocked. destruct (stopped n); [done|].
  case_decide as Hl; [done|]. destruct (hasUncommittedConfigLocked n); [done|].
  destruct (changedPeers ch n) as [[np nh]|] eqn:Ec; [|done].
  destruct (changedPeers_size ch n np nh (wf_node_members _ Hwf) Ec) as [Hne _].
  set (cp := MkChange _ _ _ _ _ _). set (e := MkEntry (currentTerm n) _ [] (Some cp)).
  assert (Hwf1 : wf_node (rebuildMembershipLocked (appendLog e n))).
  { apply wf_rebuild.
    - apply contiguous_snoc; [apply Hwf|]. cbn. rewrite (wf_log_last n (wf_node_log _ Hwf)).
      unfold lastIncludedIndexLocked, firstEntry. lia.
    - pose proof (wf_node_applied _ Hwf). pose proof (wf_node_log _ Hwf) as [Hn0 _].
      unfold lastIncludedIndexLocked, firstEntry, appendLog in *. cbn in *. by destruct (log n). }
  assert (Hmem : let r := rebuildMembershipLocked (appendLog e n) in
    peerAddrs r = np ∧ peerHTTP r = nh ∧ peerIDs r = sorted_keys np).
  { rewrite rebuildMembershipLocked_eq. cbn zeta. pose proof (wf_node_log _ Hwf) as [Hn0 _].
    unfold appendLog. cbn. destruct (log n) as [|x l]; [done|]. cbn.
    rewrite applyEntries_app. unfold applyEntries at 1 3 5. cbn.
    unfold applyChange. cbn. by rewrite decide_True by (by apply map_size_pos). }
  revert Hwf1 Hmem. generalize (rebuildMembershipLocked (appendLog e n)). intros r Hwf1 Hmem.
  intros [= <- <-]. exists np, nh. split; [done|].
  assert (Hrec : ∀ x i, wf_node x → peerAddrs x = np ∧ peerHTTP x = nh ∧ peerIDs x = sorted_keys np →
    peerAddrs (recordOwn i x) = np ∧ peerHTTP (recordOwn i x) = nh ∧
    peerIDs (recordOwn i x) = sorted_keys np).
  { intros x i Hx Hxm. unfold recordOwn. cbn zeta.
    destruct (advanceCommitLocked_shape (put_nextIndex (nodeID (put_matchIndex (nodeID x) i x))
      (i + 1) (put_matchIndex (nodeID x) i x))) as [c ->].
    set (y := set_commitIndex c _).
    assert (Hy : wf_node y) by (wf_frame Hx).
    assert (Hym : peerAddrs y = np ∧ peerHTTP y = nh ∧ peerIDs y = sorted_keys np) by exact Hxm.
    clearbody y. destruct (broadcast_shape (applyCommittedLocked y)) as (rr&sp&->).
    unfold applyCommittedLocked.
    pose proof (maybeCompact_compacted _ (wf_applyLoop (Z.to_nat (commitIndex y - lastApplied y)) y Hy))
      as Hcp. destruct (cp_members _ _ Hcp) as (C1&C2&C3).
    destruct (applyLoop_shape (Z.to_nat (commitIndex y - lastApplied y)) y) as (a&mm&_&E).
    cbn [peerAddrs peerHTTP peerIDs set_spawned set_replicating]. rewrite C1, C2, C3, E. exact Hym. }
  assert (Hx : let x := persistLocked (notifyPeersLocked (ensurePeerTrackingLocked r)) in
    wf_node x ∧ peerAddrs x = np ∧ peerHTTP x = nh ∧ peerIDs x = sorted_keys np).
  { cbn zeta. split; [eauto with raft|].
    match goal with |- context [persistLocked ?x] => destruct (persistLocked_shape x) as [s ->] end.
    match goal with |- context [notifyPeersLocked ?x] =>
      destruct (notifyPeersLocked_shape x) as (t&h&->) end.
    destruct (ensurePeerTrackingLocked_shape r) as (xx&mm&->). exact Hmem. }
  destruct Hx as [Hx1 Hx2]. destruct (Hrec _ (lastLogIndexLocked n + 1) Hx1 Hx2) as (R1&R2&R3).
  by split_and!.
Qed.

(** Majorities of the configurations before and after a change meet. *)
Lemma changedPeers_meet ch n np nh :
  wf_members n → changedPeers ch n = Ok (np, nh) → meets (dom (peerAddrs n)) (dom np).
Proof.
  intros Hwf Hch Q1 Q2 [Hs1 Hq1] [Hs2 Hq2].
  destruct (changedPeers_size ch n np nh Hwf Hch) as [_ Hsz].
  rewrite size_dom in Hq1, Hq2.
  assert (Hbig : ∃ U : gset string, Q1 ⊆ U ∧ Q2 ⊆ U ∧ (size U < size Q1 + size Q2)%nat).
  { pose proof (Z.div_mod (Z.of_nat (size (peerAddrs n))) 2 ltac:(lia)).
    pose proof (Z.mod_pos_bound (Z.of_nat (size (peerAddrs n))) 2 ltac:(lia)).
    pose proof (Z.div_mod (Z.of_nat (size np)) 2 ltac:(lia)).
    pose proof (Z.mod_pos_bound (Z.of_nat (size np)) 2 ltac:(lia)).
    destruct Hsz as [[Hsub Hsz]|[Hsub Hsz]].
    - exists (dom np). rewrite size_dom. split_and!; [set_solver|done|lia].
    - exists (dom (peerAddrs n)). rewrite size_dom. split_and!; [done|set_solver|lia]. }
  destruct Hbig as (U&HU1&HU2&Hlt).
  destruct (decide (Q1 ∩ Q2 = ∅)) as [Hd|Hd].
  - assert (Hsub : Q1 ∪ Q2 ⊆ U) by set_solver. apply subseteq_size in Hsub.
    rewrite size_union in Hsub by set_solver. lia.
  - apply set_choose_L in Hd as [x Hx]. exists x. set_solver.
Qed.

(** [C17] Quorums overlap across a change: any majority of the configuration
    before a successful proposal shares a node with any majority of the one after
    it, which differs from it in one member. *)
Theorem change_quorums_meet ch n n' idx Q1 Q2 :
  wf_node n → proposeChangeLocked ch n = (n', Ok idx) →
  quorum (dom (peerAddrs n)) Q1 → quorum (dom (peerAddrs n')) Q2 →
  ∃ x, x ∈ Q1 ∧ x ∈ Q2.
Proof.
  intros Hwf Hp. destruct (proposeChange_members ch n n' idx Hwf Hp) as (np&nh&Hch&->&_).
  by apply (changedPeers_meet ch n np nh (wf_node_members _ Hwf) Hch).
Qed.

(** [C18] One change at a time: a proposal succeeds only on a leader whose log
    holds no uncommitted change; it is appended at the end of the log, in use at
    once, and an error changes nothing. *)
Theorem propose_change_effect ch n :
  wf_node n →
  match proposeChangeLocked ch n with
  | (n', Err _) => n' = n
  | (n', Ok idx) =>
      state n = Leader ∧ stopped n = false ∧ idx = lastLogIndexLocked n + 1 ∧
      (∀ k e, commitIndex n < k ≤ lastLogIndexLocked n → entryAtLocked n k = Some e →
         e_Change e = None) ∧
      (ch_Type ch = ChangeAdd ∧ peerAddrs n !! ch_ID ch = None ∧
         peerAddrs n' = <[ch_ID ch := ch_Addr ch]> (peerAddrs n) ∨
       ch_Type ch = ChangeRemove ∧ is_Some (peerAddrs n !! ch_ID ch) ∧ ch_ID ch ≠ nodeID n ∧
         1 < slen (peerIDs n) ∧ peerAddrs n' = delete (ch_ID ch) (peerAddrs n)) ∧
      peerIDs n' = sorted_keys (peerAddrs n')
  end.
Proof.
  intros Hwf. destruct (proposeChangeLocked ch n) as [n' [idx|err]] eqn:Hp.
  - destruct (proposeChange_members ch n n' idx Hwf Hp)
      as (np&nh&Hch&Hpa&Hph&Hids&Hst&Hstop&Hun&->).
    split_and!; [done|done|done| | |congruence].
    + intros k e Hk He. destruct (e_Change e) as [c|] eqn:Ec; [|done]. exfalso.
      assert (Ht : hasUncommittedConfigLocked n = true); [|congruence].
      unfold hasUncommittedConfigLocked. rewrite uncommittedConfigFrom_iff.
      exists k, e. split; [lia|]. by rewrite Ec.
    + rewrite Hpa. by eapply changedPeers_cases.
  - unfold proposeChangeLocked in Hp. destruct (stopped n); [congruence|].
    case_decide; [congruence|]. destruct (hasUncommittedConfigLocked n); [congruence|].
    destruct (changedPeers ch n) as [[np nh]|]; congruence.
Qed.

(** ** Telling the transport *)

(** The dial addresses and connections a transport ends in. *)
Fixpoint dialAddrs (t : Transport) : gmap string string :=
  match t with
  | MemoryTransport => ∅
  | GRPCTransport addrs _ => addrs
  | FilterTransport _ inner => dialAddrs inner
  end.

Fixpoint connected (t : Transport) : gset string :=
  match t with
  | MemoryTransport => ∅
  | GRPCTransport _ conns => conns
  | FilterTransport _ inner => connected inner
  end.

Fixpoint hasDial (t : Transport) : bool :=
  match t with
  | MemoryTransport => false
  | GRPCTransport _ _ => true
  | FilterTransport _ inner => hasDial inner
  end.

Lemma SetPeerAddr_spec p a t :
  hasDial t = true →
  let t' := SetPeerAddr p a t in
  hasDial t' = true ∧ mapS (dialAddrs t') p = a ∧
  (∀ q, q ≠ p → dialAddrs t' !! q = dialAddrs t !! q) ∧
  (∀ q, q ∈ connected t' ↔ q ∈ connected t ∧ (q = p → mapS (dialAddrs t) p = a)).
Proof.
  induction t as [|addrs conns|from t IH]; [done| |exact IH]. intros _. cbn.
  case_decide as Hd; cbn.
  - split_and!; [done..|]. intros q. naive_solver.
  - split_and!; [done| | |].
    + unfold mapS. by rewrite lookup_insert_eq.
    + intros q Hq. by rewrite lookup_insert_ne.
    + intros q. rewrite elem_of_difference, elem_of_singleton. naive_solver.
Qed.

(** After notifyPeersLocked a gRPC transport dials every member of the
    configuration at its configured address, knows the others as before, and
    keeps a cached connection only where the address has not changed. *)
Theorem notify_addresses n t :
  transport n = Some t → hasDial t = true →
  ∃ t', transport (notifyPeersLocked n) = Some t' ∧ hasDial t' = true ∧
    (∀ p a, peerAddrs n !! p = Some a → mapS (dialAddrs t') p = a) ∧
    (∀ p, peerAddrs n !! p = None → dialAddrs t' !! p = dialAddrs t !! p) ∧
    (∀ p, p ∈ connected t' ↔
       p ∈ connected t ∧ (∀ a, peerAddrs n !! p = Some a → mapS (dialAddrs t) p = a)).
Proof.
  intros Ht Hd. unfold notifyPeersLocked. rewrite Ht. cbn zeta.
  exists (map_fold SetPeerAddr t (peerAddrs n)). split; [by destruct (peerHook _)|].
  apply (map_fold_weak_ind (λ t' m, hasDial t' = true ∧
    (∀ p a, m !! p = Some a → mapS (dialAddrs t') p = a) ∧
    (∀ p, m !! p = None → dialAddrs t' !! p = dialAddrs t !! p) ∧
    (∀ p, p ∈ connected t' ↔
       p ∈ connected t ∧ (∀ a, m !! p = Some a → mapS (dialAddrs t) p = a)))).
  - split_and!; [done| |done|].
    + intros p a Hp. by rewrite lookup_empty in Hp.
    + intros p. split; [|by intros [? _]]. intros Hp. split; [done|]. intros a Ha.
      by rewrite lookup_empty in Ha.
  - intros q b m t' Hq (H1&H2&H3&H4).
    destruct (SetPeerAddr_spec q b t' H1) as (G1&G2&G3&G4).
    split_and!; [done| | |].
    + intros p a Hp. apply lookup_insert_Some in Hp as [[<- <-]|[Hne Hp]]; [done|].
      unfold mapS. rewrite G3 by done. by apply H2.
    + intros p [Hp Hne]%lookup_insert_None. rewrite G3 by done. by apply H3.
    + intros p. rewrite G4, H4. unfold mapS. destruct (decide (p = q)) as [->|Hne].
      * rewrite lookup_insert_eq. rewrite <- (H3 q Hq). split.
        -- intros [[Hc _] He]. split; [done|]. intros a [= <-]. by apply He.
        -- intros [Hc He]. split; [split; [done|]|intros _; by apply He].
           intros a Ha. congruence.
      * rewrite lookup_insert_ne by done. naive_solver.
Qed.
End membership_spec.

(** ** Witnesses *)

Definition leader3 : RaftNode (list bytes) := solo 0 soloOps.

Lemma change_quorums_meet_witness :
  ∃ x, x ∈ ({[ "a" ]} : gset string) ∧ x ∈ ({[ "a"; "b" ]} : gset string).
Proof.
  apply (change_quorums_meet (MkChange ChangeAdd "b" (addr "b") "" ∅ ∅) leader3
    (proposeChangeLocked (MkChange ChangeAdd "b" (addr "b") "" ∅ ∅) leader3).1 4);
    [apply wf_solo; repeat constructor|vm_compute; reflexivity| |];
    (split; [|vm_compute; done]).
  - assert (E : dom (peerAddrs leader3) = {[ "a"%string ]}) by (vm_compute; reflexivity).
    rewrite E. done.
  - assert (E : dom (peerAddrs (proposeChangeLocked
      (MkChange ChangeAdd "b" (addr "b") "" ∅ ∅) leader3).1) = {[ "a"%string; "b"%string ]})
      by (vm_compute; reflexivity).
    rewrite E. done.
Defined.

Lemma propose_change_effect_witness :
  peerAddrs (proposeChangeLocked (MkChange ChangeAdd "b" (addr "b") "" ∅ ∅) leader3).1 =
  <[ "b"%string := addr "b" ]> (peerAddrs leader3).
Proof.
  pose proof (propose_change_effect (MkChange ChangeAdd "b" (addr "b") "" ∅ ∅) leader3
    (wf_solo 0 soloOps ltac:(repeat constructor))) as H.
  assert (E : (proposeChangeLocked (MkChange ChangeAdd "b" (addr "b") "" ∅ ∅) leader3).2 = Ok 4)
    by (vm_compute; reflexivity).
  revert H E. destruct (proposeChangeLocked (MkChange ChangeAdd "b" (addr "b") "" ∅ ∅) leader3)
    as [n' r]. cbn [fst snd]. intros H ->.
  destruct H as (_&_&_&_&[(_&_&H)|(H&_)]&_); [exact H|discriminate H].
Defined.

Lemma notify_addresses_witness :
  ∃ t', transport (notifyPeersLocked (set_transport (Some (FilterTransport "a"
      (GRPCTransport ∅ {[ "a" ]}))) leader3)) = Some t' ∧
    mapS (dialAddrs t') "a" = addr "a".
Proof.
  destruct (notify_addresses (set_transport (Some (FilterTransport "a"
    (GRPCTransport ∅ {[ "a" ]}))) leader3) _ eq_refl eq_refl) as (t'&Ht&_&Ha&_).
  exists t'. split; [exact Ht|]. apply Ha. vm_compute. reflexivity.
Defined.
