(* ===== verification/Bounds.v ===== *)
(** The integers of a node are Go [int]s.  The model keeps them in [Z]; this file
    shows that no run can tell the difference: a step of the cluster raises the
    largest term or index anywhere, in a node, on its disk or in a message, by at
    most one, so a run of fewer than 2^63 - 2 steps from the initial state never
    leaves the range of a 64-bit integer.  Nothing is assumed of the run:
    memberships change, nodes crash, and messages are lost, repeated and
    reordered. *)
From S2P Require Import Prelude Types Node Persist Membership Snapshot Log Election RaftOps Read Machine NodeInv LogSpec Durable Network Demo SnapshotSpec.
Open Scope Z_scope.
Open Scope go_scope.

Definition entry_within (B : Z) (e : LogEntry) : Prop := 0 ≤ e_Term e ≤ B ∧ 0 ≤ e_Index e ≤ B.

(** A log and the index its last position stands for. *)
Definition log_within (B : Z) (l : list LogEntry) : Prop :=
  Forall (entry_within B) l ∧ e_Index (default zeroEntry (head l)) + slen l ≤ B + 1.

Definition disk_within (B : Z) (d : DurableState) : Prop :=
  0 ≤ ds_CurrentTerm d ≤ B ∧ log_within B (ds_Log d).

Definition vote_within (B : Z) (req : RequestVoteRequest) : Prop :=
  0 ≤ rv_Term req ≤ B ∧ 0 ≤ rv_LastLogIndex req ≤ B ∧ 0 ≤ rv_LastLogTerm req ≤ B.

Definition append_within (B : Z) (req : AppendEntriesRequest) : Prop :=
  0 ≤ ae_Term req ≤ B ∧ 0 ≤ ae_PrevLogIndex req ∧ 0 ≤ ae_PrevLogTerm req ≤ B ∧
  ae_PrevLogIndex req + slen (ae_Entries req) ≤ B ∧ Forall (entry_within B) (ae_Entries req) ∧
  0 ≤ ae_LeaderCommit req ≤ B.

Definition install_within (B : Z) (req : InstallSnapshotRequest) : Prop :=
  0 ≤ is_Term req ≤ B ∧ 0 ≤ is_LastIncludedIndex req ≤ B ∧ 0 ≤ is_LastIncludedTerm req ≤ B.

Definition message_within (B : Z) (m : Message) : Prop :=
  match m with
  | MVoteReq _ _ req => vote_within B req
  | MVoteResp _ _ req resp => vote_within B req ∧ 0 ≤ rvr_Term resp ≤ B
  | MAppendReq _ _ req => append_within B req
  | MAppendResp _ _ req resp => append_within B req ∧ 0 ≤ aer_Term resp ≤ B
  | MInstallReq _ _ req => install_within B req
  | MInstallResp _ _ req resp => install_within B req ∧ 0 ≤ isr_Term resp ≤ B
  end.

Section node.
Context {M : Type} `{!StateMachine M}.
Implicit Types n : RaftNode M.

(** The terms and the indexes of a node are at most [B]; [nextIndex] is one past
    an index. *)
Record within (B : Z) n : Prop := {
  wi_term : 0 ≤ currentTerm n ≤ B;
  wi_log : log_within B (log n);
  wi_commit : 0 ≤ commitIndex n ≤ B;
  wi_applied : 0 ≤ lastApplied n ≤ B;
  wi_next : ∀ p, 0 ≤ mapZ (nextIndex n) p ≤ B + 1;
  wi_match : ∀ p, 0 ≤ mapZ (matchIndex n) p ≤ B;
  wi_spawned : ∀ p req, GoSendRequestVote p req ∈ spawned n → vote_within B req;
  wi_disk : ∀ s, storage n = Some s → disk_within B (st_Disk s);
}.

(** ** Larger bounds *)

Lemma entry_within_mono B B' e : B ≤ B' → entry_within B e → entry_within B' e.
Proof. unfold entry_within. lia. Qed.

Lemma entries_within_mono B B' l : B ≤ B' → Forall (entry_within B) l → Forall (entry_within B') l.
Proof. intros Hle H. eapply Forall_impl; [exact H|]. intros e. by apply entry_within_mono. Qed.

Lemma log_within_mono B B' l : B ≤ B' → log_within B l → log_within B' l.
Proof. intros Hle [H1 H2]. split; [by eapply entries_within_mono|lia]. Qed.

Lemma vote_within_mono B B' req : B ≤ B' → vote_within B req → vote_within B' req.
Proof. unfold vote_within. lia. Qed.

Lemma append_within_mono B B' req : B ≤ B' → append_within B req → append_within B' req.
Proof.
  intros Hle (?&?&?&?&H&?). unfold append_within. split_and!; try lia.
  by eapply entries_within_mono.
Qed.

Lemma message_within_mono B B' m : B ≤ B' → message_within B m → message_within B' m.
Proof.
  intros Hle. destruct m; cbn; unfold install_within.
  - by apply vote_within_mono.
  - intros [H ?]. split; [by eapply vote_within_mono|lia].
  - by apply append_within_mono.
  - intros [H ?]. split; [by eapply append_within_mono|lia].
  - lia.
  - lia.
Qed.

Lemma within_mono B B' n : B ≤ B' → within B n → within B' n.
Proof.
  intros Hle []. split; try lia.
  - by eapply log_within_mono.
  - intros p. pose proof (wi_next0 p). lia.
  - intros p. pose proof (wi_match0 p). lia.
  - intros p req Hp. eapply vote_within_mono; [done|by eapply wi_spawned0].
  - intros s Hs. destruct (wi_disk0 s Hs). split; [lia|by eapply log_within_mono].
Qed.

(** ** Reading a node *)

Lemma log_within_last B l : 0 ≤ B → log_within B l → entry_within B (default zeroEntry (last l)).
Proof.
  intros HB [H _]. destruct (last l) as [e|] eqn:E; cbn; [|unfold entry_within; cbn; lia].
  rewrite last_lookup in E. by eapply Forall_lookup_1.
Qed.

Lemma log_within_first B l : 0 ≤ B → log_within B l → entry_within B (default zeroEntry (head l)).
Proof.
  intros HB [H _]. destruct l as [|e l]; cbn; [unfold entry_within; cbn; lia|].
  by apply Forall_cons in H as [? _].
Qed.

Lemma within_bound B n : within B n → 0 ≤ B.
Proof. intros []. lia. Qed.

Lemma within_last B n : within B n → 0 ≤ lastLogIndexLocked n ≤ B ∧ 0 ≤ lastLogTermLocked n ≤ B.
Proof.
  intros H. destruct (log_within_last B (log n) (within_bound B n H) (wi_log _ _ H)).
  by split.
Qed.

Lemma within_first B n :
  within B n → 0 ≤ lastIncludedIndexLocked n ≤ B ∧ 0 ≤ lastIncludedTermLocked n ≤ B.
Proof.
  intros H. destruct (log_within_first B (log n) (within_bound B n H) (wi_log _ _ H)).
  by split.
Qed.

Lemma within_entryAt B n idx e : within B n → entryAtLocked n idx = Some e → entry_within B e.
Proof.
  intros H. rewrite entryAtLocked_eq. intros [_ He]%zlookup_Some.
  destruct (wi_log _ _ H) as [Hl _]. by eapply Forall_lookup_1.
Qed.

(** ** Parts that change no bound *)

Lemma within_frame B n n' :
  currentTerm n' = currentTerm n → log n' = log n → commitIndex n' = commitIndex n →
  lastApplied n' = lastApplied n → nextIndex n' = nextIndex n → matchIndex n' = matchIndex n →
  spawned n' = spawned n → storage n' = storage n → within B n → within B n'.
Proof.
  intros E1 E2 E3 E4 E5 E6 E7 E8 [H1 H2 H3 H4 H5 H6 H7 H8].
  split; rewrite ?E1, ?E2, ?E3, ?E4; try assumption.
  - intros p. rewrite E5. apply H5.
  - intros p. rewrite E6. apply H6.
  - intros p req. rewrite E7. apply H7.
  - intros s. rewrite E8. apply H8.
Qed.

Lemma within_persist B n : within B n → within B (persistLocked n).
Proof.
  intros H. unfold persistLocked. destruct (storage n) as [s|] eqn:Es; [|done].
  destruct H. split; try assumption. cbn. intros s' [= <-]. unfold Save.
  assert (Hd : disk_within B (durableOf n)) by (by split).
  destruct (st_SaveErrs s) as [|[] errs]; try exact Hd. exact (wi_disk0 s Es).
Qed.

Lemma within_reset B n : within B n → within B (resetElectionTimerLocked n).
Proof. intros H. destruct (resetElectionTimerLocked_shape n) as (d&r&->). by eapply within_frame; [..|exact H]. Qed.

Lemma within_notify B n : within B n → within B (notifyPeersLocked n).
Proof. intros H. destruct (notifyPeersLocked_shape n) as (t&h&->). by eapply within_frame; [..|exact H]. Qed.

Lemma within_rebuild B n : within B n → within B (rebuildMembershipLocked n).
Proof. intros H. rewrite rebuildMembershipLocked_eq. by eapply within_frame; [..|exact H]. Qed.

Lemma within_spawn B n g :
  (∀ p req, g = GoSendRequestVote p req → vote_within B req) → within B n → within B (go g n).
Proof.
  intros Hg []. split; try assumption. cbn. intros p req [?|Hp%list_elem_of_singleton]%elem_of_app.
  - by eapply wi_spawned0.
  - by eapply Hg.
Qed.

Lemma within_broadcast B n : within B n → within B (broadcastAppendEntriesLocked n).
Proof.
  unfold broadcastAppendEntriesLocked. destruct (transport n); [|done].
  generalize (peerIDs n). intros ps. revert n. induction ps as [|q ps IH]; intros n H; [done|].
  cbn. apply IH. unfold broadcastTo. case_decide; [done|]. destruct (mapB (replicating n) q); [done|].
  apply within_spawn; [done|]. by eapply within_frame; [..|exact H].
Qed.

Lemma within_term B n t :
  0 ≤ t ≤ B → within B n → within B (set_currentTerm t n).
Proof. intros Ht []. by split. Qed.

Lemma within_becomeFollower B n t l : 0 ≤ t ≤ B → within B n → within B (becomeFollowerLocked t l n).
Proof.
  intros Ht H. unfold becomeFollowerLocked.
  assert (H' : within B (if decide (t > currentTerm n)
    then persistLocked (set_votedFor "" (set_currentTerm t n)) else n)).
  { case_decide; [|done]. apply within_persist.
    eapply (within_frame B (set_currentTerm t n)); [done..|]. by apply within_term. }
  by eapply within_frame; [..|exact H'].
Qed.

Lemma within_stepDown B n t :
  0 ≤ t ≤ B → within B n → within B (resetElectionTimerLocked (becomeFollowerLocked t "" n)).
Proof. intros. by apply within_reset, within_becomeFollower. Qed.

Lemma within_acceptLeader B n t l : 0 ≤ t ≤ B → within B n → within B (acceptLeader t l n).
Proof.
  intros Ht H. unfold acceptLeader.
  assert (H' : within B (if decide (t > currentTerm n ∨ state n ≠ Follower)
    then becomeFollowerLocked t l n else n)) by (case_decide; [by apply within_becomeFollower|done]).
  revert H'. generalize (if decide (t > currentTerm n ∨ state n ≠ Follower)
    then becomeFollowerLocked t l n else n). intros n' H'.
  eapply (within_frame B (resetElectionTimerLocked (set_leaderID l n'))); [done..|].
  apply within_reset. by eapply within_frame; [..|exact H'].
Qed.

Lemma within_next B n p v : 0 ≤ v ≤ B + 1 → within B n → within B (put_nextIndex p v n).
Proof.
  intros Hv []. split; try assumption. cbn. intros q. rewrite mapZ_insert.
  case_decide; [done|apply wi_next0].
Qed.

Lemma within_match B n p v : 0 ≤ v ≤ B → within B n → within B (put_matchIndex p v n).
Proof.
  intros Hv []. split; try assumption. cbn. intros q. rewrite mapZ_insert.
  case_decide; [done|apply wi_match0].
Qed.

Lemma within_commit B n c : 0 ≤ c ≤ B → within B n → within B (set_commitIndex c n).
Proof. intros Hc []. by split. Qed.

Lemma within_applied B n c m :
  0 ≤ c ≤ B → within B n → within B (set_machine m (set_lastApplied c n)).
Proof. intros Hc []. by split. Qed.

Lemma within_log B n l : log_within B l → within B n → within B (set_log l n).
Proof. intros Hl []. by split. Qed.

(** ** Committing, applying, compacting *)

Lemma within_advance B n : within B n → within B (advanceCommitLocked n).
Proof.
  intros H. unfold advanceCommitLocked. destruct (within_last B n H) as [Hlast _].
  destruct (advanceCommitFrom_spec (Z.to_nat (lastLogIndexLocked n - commitIndex n))
    (lastLogIndexLocked n) n) as [[-> _]|(c&Hc&_&_&->)]; [done|].
  pose proof (wi_commit _ _ H). apply within_commit; [lia|done].
Qed.

Lemma applyLoop_le fuel n :
  ∃ a m, lastApplied n ≤ a ≤ lastApplied n + Z.of_nat fuel ∧
    applyLoop fuel n = set_machine m (set_lastApplied a n).
Proof.
  revert n. induction fuel as [|fuel IH]; intros n; cbn [applyLoop].
  - exists (lastApplied n), (machine n). split; [lia|]. by destruct n.
  - destruct (entryAtLocked n (lastApplied n + 1)) as [e|].
    + match goal with |- context [applyLoop fuel ?n'] => destruct (IH n') as (a&m&Ha&->) end.
      exists a, m. destruct (_ && _); cbn in *; (split; [lia|done]).
    + exists (lastApplied n), (machine n). split; [lia|]. by destruct n.
Qed.

Lemma within_compact B n idx : within B n → 0 ≤ idx ≤ B → within B (compactLocked idx n).
Proof.
  intros H Hidx. unfold compactLocked. case_decide; [done|].
  destruct (entryAtLocked n idx) as [e|] eqn:Ee; [|done].
  destruct (sm_snapshot (machine n)) as [data|]; [|done]. cbn zeta. case_decide as Hsi; [done|].
  destruct (membershipAtLocked idx n) as [peers http].
  apply within_persist, within_notify, within_rebuild.
  eapply (within_frame B (set_log _ n)); [done..|]. apply within_log; [|done].
  destruct (wi_log _ _ H) as [Hl Hlen]. pose proof (within_entryAt B n idx e H Ee) as [He _].
  unfold sliceIndexLocked, firstEntry in *. split.
  - constructor; [by split|]. by apply Forall_drop.
  - unfold slen in *. cbn. rewrite length_drop. lia.
Qed.

Lemma within_applyCommitted B n : within B n → within B (applyCommittedLocked n).
Proof.
  intros H. unfold applyCommittedLocked.
  destruct (applyLoop_le (Z.to_nat (commitIndex n - lastApplied n)) n) as (a&m&Ha&->).
  pose proof (wi_commit _ _ H). pose proof (wi_applied _ _ H).
  assert (H' : within B (set_machine m (set_lastApplied a n))) by (apply within_applied; [lia|done]).
  unfold maybeCompactLocked. destruct (_ || _); [done|]. case_decide; [done|].
  apply within_compact; [done|]. cbn. lia.
Qed.

(** ** Entries a node appends *)

Lemma log_within_snoc B l e :
  log_within B l → entry_within (B + 1) e → log_within (B + 1) (l ++ [e]).
Proof.
  intros [H1 H2] He. split.
  - apply Forall_app. split; [eapply entries_within_mono; [|exact H1]; lia|by constructor].
  - destruct l; unfold slen, entry_within in *; cbn in *; [lia|]. rewrite length_app. cbn. lia.
Qed.

Lemma within_appendLog B n e :
  within B n → entry_within (B + 1) e → within (B + 1) (appendLog e n).
Proof.
  intros H He. unfold appendLog. apply within_log; [|by eapply within_mono; [|exact H]; lia].
  apply log_within_snoc; [apply H|done].
Qed.

Lemma within_recordOwn B n idx : within B n → 0 ≤ idx ≤ B → within B (recordOwn idx n).
Proof.
  intros H Hi. unfold recordOwn. cbn zeta.
  apply within_broadcast, within_applyCommitted, within_advance, within_next; [lia|].
  by apply within_match.
Qed.

Lemma within_Propose B n cmd : within B n → within (B + 1) (Propose cmd n).1.
Proof.
  intros H. assert (H' : within (B + 1) n) by (eapply within_mono; [|exact H]; lia).
  unfold Propose. destruct (stopped n); [done|]. case_decide; [done|]. cbn [fst].
  destruct (within_last B n H) as [Hl _]. pose proof (wi_term _ _ H).
  apply within_recordOwn; [|lia]. apply within_persist, within_appendLog; [done|].
  split; cbn; lia.
Qed.

Lemma within_ensure B n : within B n → within B (ensurePeerTrackingLocked n).
Proof.
  intros H. unfold ensurePeerTrackingLocked.
  destruct (within_last B n H) as [Hl _]. destruct (within_first B n H) as [Hf _].
  generalize (peerIDs n). revert Hl Hf. generalize (lastLogIndexLocked n), (lastIncludedIndexLocked n).
  intros last snap Hl Hf ps. revert n H. induction ps as [|p ps IH]; intros n H; [done|].
  cbn. apply IH. unfold ensurePeer. destruct (nextIndex n !! p); [done|].
  apply within_match; [pose proof (within_bound B n H); lia|]. apply within_next; [|done].
  repeat case_decide; lia.
Qed.

Lemma within_proposeChange B n ch : within B n → within (B + 1) (proposeChangeLocked ch n).1.
Proof.
  intros H. assert (H' : within (B + 1) n) by (eapply within_mono; [|exact H]; lia).
  unfold proposeChangeLocked. destruct (stopped n); [done|]. case_decide; [done|].
  destruct (hasUncommittedConfigLocked n); [done|].
  destruct (changedPeers ch n) as [[peers http]|]; [|done]. cbn [fst].
  destruct (within_last B n H) as [Hl _]. pose proof (wi_term _ _ H).
  apply within_recordOwn; [|lia].
  apply within_persist, within_notify, within_ensure, within_rebuild, within_appendLog; [done|].
  split; cbn; lia.
Qed.

(** ** Elections *)

Lemma mapZ_fill C v ps (m : gmap string Z) :
  0 ≤ v ≤ C → (∀ p, 0 ≤ mapZ m p ≤ C) →
  ∀ p, 0 ≤ mapZ (foldl (λ m p, <[p := v]> m) m ps) p ≤ C.
Proof.
  intros Hv. revert m. induction ps as [|q ps IH]; intros m Hm; [done|]. cbn. apply IH.
  intros p. rewrite mapZ_insert. by case_decide.
Qed.

Lemma within_elected B n :
  within (B + 1) n → log_within B (log n) → 0 ≤ B → within (B + 1) (elected n).
Proof.
  intros H Hl HB. destruct (log_within_last B _ HB Hl) as [_ Hidx]. pose proof (wi_term _ _ H) as Ht.
  unfold elected. cbn zeta. apply within_persist.
  assert (Hlast : 0 ≤ lastLogIndexLocked n ≤ B) by done.
  destruct H. split; try assumption; cbn.
  - apply log_within_snoc; [done|]. split; cbn; [lia|].
    change (0 ≤ lastLogIndexLocked n + 1 ≤ B + 1). lia.
  - intros p. rewrite mapZ_insert. case_decide.
    + change (0 ≤ lastLogIndexLocked n + 1 + 1 ≤ B + 1 + 1). lia.
    + apply mapZ_fill; [|intros q; unfold mapZ; rewrite lookup_empty; cbn; lia].
      change (0 ≤ lastLogIndexLocked n + 1 ≤ B + 1 + 1). lia.
  - intros p. rewrite mapZ_insert. case_decide.
    + change (0 ≤ lastLogIndexLocked n + 1 ≤ B + 1). lia.
    + apply mapZ_fill; [lia|]. intros q. unfold mapZ. rewrite lookup_empty. cbn. lia.
Qed.

Lemma within_becomeLeader B n :
  within (B + 1) n → log_within B (log n) → 0 ≤ B → within (B + 1) (becomeLeaderLocked n).
Proof.
  intros. unfold becomeLeaderLocked. cbn zeta.
  by apply within_broadcast, within_applyCommitted, within_advance, within_elected.
Qed.

Lemma within_becomeCandidate B n : within B n → within (B + 1) (becomeCandidate n).
Proof.
  intros H. unfold becomeCandidate. cbn zeta. apply within_persist, within_reset.
  pose proof (wi_term _ _ H).
  apply (within_frame _ (set_currentTerm (currentTerm n + 1) n)); [done..|].
  apply within_term; [lia|]. eapply within_mono; [|exact H]. lia.
Qed.

Lemma becomeCandidate_log n : log (becomeCandidate n) = log n.
Proof.
  unfold becomeCandidate. cbn zeta.
  match goal with |- context [persistLocked ?x] => destruct (persistLocked_shape x) as [s ->] end.
  by match goal with |- context [resetElectionTimerLocked ?x] =>
    destruct (resetElectionTimerLocked_shape x) as (d&r&->) end.
Qed.

Lemma voteRequest_within B n : within B n → vote_within B (voteRequest n).
Proof.
  intros H. destruct (within_last B n H). pose proof (wi_term _ _ H). unfold vote_within; cbn; lia.
Qed.

Lemma within_requestVotes B req ps n :
  vote_within B req → within B n → within B (foldl (requestVoteFrom req) n ps).
Proof.
  intros Hr. revert n. induction ps as [|p ps IH]; intros n H; [done|]. cbn. apply IH.
  unfold requestVoteFrom. case_decide; [done|]. apply within_spawn; [|done]. by intros ? ? [= _ <-].
Qed.

Lemma within_startElection B n : within B n → within (B + 1) (startElectionLocked n).
Proof.
  intros H. pose proof (within_bound B n H). unfold startElectionLocked. destruct (_ || _).
  { apply within_reset. eapply within_mono; [|exact H]. lia. }
  pose proof (within_becomeCandidate B n H) as Hc. pose proof (becomeCandidate_log n) as El.
  revert Hc El. generalize (becomeCandidate n). intros c Hc El. cbn zeta. case_decide.
  - apply within_becomeLeader; [done| |done]. rewrite El. apply H.
  - apply within_requestVotes; [by apply voteRequest_within|done].
Qed.

Lemma within_requestVoteReply B n p req resp :
  within B n → 0 ≤ rvr_Term resp ≤ B → within (B + 1) (requestVoteReply p req resp n).
Proof.
  intros H Hr. pose proof (within_bound B n H).
  assert (H' : within (B + 1) n) by (eapply within_mono; [|exact H]; lia).
  unfold requestVoteReply. case_decide; [apply within_stepDown; [lia|done]|].
  case_decide; [done|]. destruct (negb _); [done|]. cbn zeta. case_decide.
  - apply within_becomeLeader; [by eapply within_frame; [..|exact H']|apply H|done].
  - by eapply within_frame; [..|exact H'].
Qed.

Lemma within_HandleRequestVote B n req :
  within B n → vote_within B req →
  within B (HandleRequestVote req n).1 ∧ 0 ≤ rvr_Term (HandleRequestVote req n).2 ≤ B.
Proof.
  intros H (Ht&_&_). unfold HandleRequestVote. case_decide; [split; [done|apply H]|].
  assert (H' : within B (if decide (rv_Term req > currentTerm n)
    then becomeFollowerLocked (rv_Term req) "" n else n))
    by (case_decide; [by apply within_becomeFollower|done]).
  revert H'. generalize (if decide (rv_Term req > currentTerm n)
    then becomeFollowerLocked (rv_Term req) "" n else n). intros n' H'. cbn zeta.
  destruct (_ && _); cbn [fst snd rvr_Term]; (split; [|apply H']); [|done].
  apply within_persist, within_reset. by eapply within_frame; [..|exact H'].
Qed.

Lemma within_tick B n : within B n → within (B + 1) (tick n).
Proof.
  intros H. assert (H' : within (B + 1) n) by (eapply within_mono; [|exact H]; lia).
  unfold tick. apply within_applyCommitted. destruct (state n).
  1,2: destruct (_ && _); [by apply within_startElection|done].
  case_decide; [|done]. apply within_broadcast. by eapply within_frame; [..|exact H'].
Qed.

(** ** The handlers of entries and snapshots *)

Lemma renumber_within B idx es :
  Forall (entry_within B) es → 0 ≤ idx → idx - 1 + slen es ≤ B →
  Forall (entry_within B) (renumber idx es).
Proof.
  intros He. revert idx. induction He as [|e es H _ IH]; intros idx H0 Hlen; [done|]. cbn.
  unfold slen in *. cbn in Hlen. constructor; [|apply IH; lia].
  destruct H. split; cbn; lia.
Qed.

Lemma within_reconcile B es idx n :
  within B n → Forall (entry_within B) es → lastIncludedIndexLocked n < idx →
  idx - 1 + slen es ≤ B → within B (reconcile es idx n).1.
Proof.
  intros H. destruct (wi_log _ _ H) as [Hl Hlen]. destruct (within_first B n H) as [Hf _].
  revert idx. induction es as [|e es IH]; intros idx He Hi Hb; [done|]. cbn [reconcile].
  assert (Happ : ∀ l, Forall (entry_within B) l → l ≠ [] → head l = head (log n) →
    lastIncludedIndexLocked n + slen l ≤ idx →
    within B (set_log (l ++ renumber idx (e :: es)) n)).
  { intros l Hle Hne Hh Hsl. apply within_log; [|done]. split.
    - apply Forall_app. split; [done|]. apply renumber_within; [done|lia..].
    - destruct l as [|x l]; [done|]. unfold lastIncludedIndexLocked, firstEntry in Hsl.
      rewrite <- Hh in Hsl. unfold slen in *. rewrite length_app, length_renumber. cbn in *. lia. }
  destruct (entryAtLocked n idx) as [x|] eqn:Ex.
  - case_decide.
    + cbn [fst]. unfold appendEntriesLocked. cbn [log set_log].
      rewrite entryAtLocked_eq in Ex. apply zlookup_lt_Some in Ex.
      unfold sliceIndexLocked. change (e_Index (firstEntry n)) with (lastIncludedIndexLocked n).
      rewrite decide_False by lia.
      assert (Hne : log n ≠ []) by (intros E; rewrite E in Ex; unfold slen in Ex; cbn in Ex; lia).
      destruct (Z.to_nat (idx - lastIncludedIndexLocked n)) as [|k] eqn:Ek; [lia|].
      eapply (within_frame B (set_log (take (S k) (log n) ++ renumber idx (e :: es)) n));
        [done..|]. apply Happ.
      * by apply Forall_take.
      * by destruct (log n).
      * by destruct (log n).
      * unfold slen. rewrite length_take. lia.
    + apply IH; [by apply Forall_cons in He as [_ ?]|lia|unfold slen in *; cbn in *; lia].
  - cbn [fst]. unfold appendEntriesLocked.
    rewrite entryAtLocked_eq, zlookup_None in Ex. destruct (log n) as [|x l] eqn:El.
    + apply within_log; [|done]. split; [apply renumber_within; [done|lia..]|].
      unfold slen in *. rewrite length_renumber || cbn [app]; rewrite ?length_renumber. cbn in *. lia.
    + apply Happ; [done..|]. lia.
Qed.

Lemma within_followCommit B n c : within B n → 0 ≤ c ≤ B → within B (followCommit c n).
Proof.
  intros H Hc. destruct (within_last B n H) as [Hl _]. unfold followCommit. case_decide; [|done].
  apply within_applyCommitted. case_decide.
  - apply (within_frame B (set_commitIndex (lastLogIndexLocked n) n)); [done..|].
    by apply within_commit.
  - by apply within_commit.
Qed.

Lemma within_HandleAppendEntries B n req :
  within B n → append_within B req →
  within B (HandleAppendEntries req n).1 ∧ 0 ≤ aer_Term (HandleAppendEntries req n).2 ≤ B.
Proof.
  intros H (Ht&Hp&_&Hlen&He&Hc). unfold HandleAppendEntries. case_decide; [split; [done|apply H]|].
  pose proof (within_acceptLeader B n (ae_Term req) (ae_LeaderID req) Ht H) as H'.
  revert H'. generalize (acceptLeader (ae_Term req) (ae_LeaderID req) n). intros n0 Hn0. cbn zeta.
  case_decide; [split; [done|apply Hn0]|].
  destruct (entryAtLocked n0 (ae_PrevLogIndex req)) as [x|]; [|split; [done|apply Hn0]].
  case_decide; [split; [done|apply Hn0]|].
  pose proof (within_reconcile B (ae_Entries req) (ae_PrevLogIndex req + 1) n0 Hn0 He ltac:(lia)
    ltac:(lia)) as Hr.
  destruct (reconcile (ae_Entries req) (ae_PrevLogIndex req + 1) n0) as [n1 d]. cbn [fst snd] in *.
  split; [|apply Hn0]. apply within_followCommit; [|done].
  destruct d; [by apply within_persist, within_notify, within_rebuild|done].
Qed.

Lemma within_adopt B n req : within B n → install_within B req → within B (adoptSnapshot req n).
Proof.
  intros H (Ht&Hi&Hit). unfold adoptSnapshot. cbn zeta. apply within_persist.
  assert (H1 : within B (set_snapshot (is_Data req)
    (set_log [dummyEntry (is_LastIncludedTerm req) (is_LastIncludedIndex req)] n))).
  { eapply (within_frame B (set_log _ n)); [done..|]. apply within_log; [|done].
    split; [constructor; [by split|done]|]. unfold slen. cbn. lia. }
  revert H1. generalize (set_snapshot (is_Data req)
    (set_log [dummyEntry (is_LastIncludedTerm req) (is_LastIncludedIndex req)] n)). intros n1 H1.
  assert (H2 : within B (adoptMembers req n1)).
  { unfold adoptMembers. case_decide; [|done]. apply within_notify, within_rebuild.
    by eapply within_frame; [..|exact H1]. }
  revert H2. generalize (adoptMembers req n1). intros n2 H2.
  assert (H3 : within B (if snapshotterSet n2 && bool_decide (snapshot n2 ≠ [])
    then restoreMachine (snapshot n2) n2 else n2)).
  { destruct (_ && _); [|done]. destruct (restoreMachine_shape (snapshot n2) n2) as [m ->].
    by eapply within_frame; [..|exact H2]. }
  revert H3. generalize (if snapshotterSet n2 && bool_decide (snapshot n2 ≠ [])
    then restoreMachine (snapshot n2) n2 else n2). intros n3 H3.
  assert (H4 : within B (set_lastApplied (is_LastIncludedIndex req) n3)).
  { eapply (within_frame B (set_machine (machine n3) (set_lastApplied _ n3))); [done..|].
    by apply within_applied. }
  case_decide; [by apply within_commit|done].
Qed.

Lemma within_HandleInstallSnapshot B n req :
  within B n → install_within B req →
  within B (HandleInstallSnapshot req n).1 ∧ 0 ≤ isr_Term (HandleInstallSnapshot req n).2 ≤ B.
Proof.
  intros H Hr. unfold HandleInstallSnapshot. case_decide; [split; [done|apply H]|].
  pose proof (within_acceptLeader B n (is_Term req) (is_LeaderID req) (proj1 Hr) H) as H'.
  revert H'. generalize (acceptLeader (is_Term req) (is_LeaderID req) n). intros n0 Hn0. cbn zeta.
  case_decide; cbn [fst snd isr_Term]; (split; [|apply Hn0]); [done|by apply within_adopt].
Qed.

(** ** The leader *)

Lemma within_makeAppend B n peer :
  within B n →
  within B (makeAppendRequestLocked peer n).1 ∧
  ∀ req, (makeAppendRequestLocked peer n).2 = Some req → append_within B req.
Proof.
  intros H. destruct (within_last B n H) as [Hl _]. destruct (within_first B n H) as [Hf _].
  destruct (wi_log _ _ H) as [Hent Hlen]. pose proof (wi_next _ _ H peer) as Hn.
  unfold makeAppendRequestLocked. case_decide as Hsnap; [done|].
  set (next := if decide (mapZ (nextIndex n) peer > lastLogIndexLocked n + 1)
               then lastLogIndexLocked n + 1 else mapZ (nextIndex n) peer).
  set (n1 := if decide (mapZ (nextIndex n) peer > lastLogIndexLocked n + 1)
             then put_nextIndex peer (lastLogIndexLocked n + 1) n else n).
  assert (E : (if decide (mapZ (nextIndex n) peer > lastLogIndexLocked n + 1)
    then (put_nextIndex peer (lastLogIndexLocked n + 1) n, lastLogIndexLocked n + 1)
    else (n, mapZ (nextIndex n) peer)) = (n1, next)) by (unfold n1, next; by case_decide).
  rewrite E. clear E.
  assert (H1 : within B n1).
  { unfold n1. case_decide; [apply within_next; [lia|done]|done]. }
  assert (Hsame : log n1 = log n ∧ currentTerm n1 = currentTerm n ∧ commitIndex n1 = commitIndex n)
    by (unfold n1; by case_decide).
  assert (Hnext : next ≤ lastLogIndexLocked n + 1) by (unfold next; case_decide; lia).
  destruct Hsame as (E1&E2&E3).
  destruct (termAtLocked n1 (next - 1)) as [t|] eqn:Et; cbn [fst snd]; [|done].
  split; [done|]. intros req [= <-]. rewrite E1, E2, E3.
  unfold termAtLocked in Et. destruct (entryAtLocked n1 (next - 1)) as [e|] eqn:Ee; [|done].
  destruct (within_entryAt B n1 _ e H1 Ee) as [Het _]. injection Et as <-.
  rewrite entryAtLocked_eq in Ee. apply zlookup_lt_Some in Ee.
  assert (Hf1 : lastIncludedIndexLocked n1 = lastIncludedIndexLocked n)
    by (unfold lastIncludedIndexLocked, firstEntry; by rewrite E1).
  unfold sliceIndexLocked. change (e_Index (firstEntry n1)) with (lastIncludedIndexLocked n1).
  rewrite Hf1, E1 in *. change (e_Index (default zeroEntry (head (log n)))) with
    (lastIncludedIndexLocked n) in Hlen.
  rewrite (decide_False (P := next - lastIncludedIndexLocked n < 1)) by lia.
  unfold append_within. cbn. pose proof (wi_term _ _ H). pose proof (wi_commit _ _ H).
  split_and!; try lia; [|by apply Forall_drop].
  unfold slen in *. rewrite length_drop. case_decide; lia.
Qed.

Lemma within_replicateSend B n i peer :
  within B n → within B (replicateSend i peer n).1 ∧
  ∀ m, m ∈ (replicateSend i peer n).2 → message_within B m.
Proof.
  intros H. assert (Hnil : ∀ m : Message, m ∈ [] → message_within B m) by (by intros m ?%elem_of_nil).
  unfold replicateSend, replicateHead. case_decide; [by split|].
  destruct (shouldInstallSnapshotLocked peer n); cbn [fst snd].
  - split; [done|]. intros m ->%list_elem_of_singleton.
    destruct (within_first B n H). pose proof (wi_term _ _ H). unfold message_within, install_within. cbn. lia.
  - destruct (within_makeAppend B n peer H) as [H1 H2].
    destruct (makeAppendRequestLocked peer n) as [n1 [req|]]; cbn [fst snd] in *; [|by split].
    split; [done|]. intros m ->%list_elem_of_singleton. by apply H2.
Qed.

Lemma within_confirmSend B n term req :
  within B n → confirmSend term n = Some req → append_within B req.
Proof.
  intros H. unfold confirmSend. case_decide; [done|]. intros [= <-].
  destruct (within_last B n H). pose proof (wi_term _ _ H). pose proof (wi_commit _ _ H).
  unfold append_within, slen. cbn. split_and!; try lia. done.
Qed.

Lemma within_reply B n p v :
  within B n → 0 ≤ v ≤ B →
  within B (applyCommittedLocked (advanceCommitLocked (put_nextIndex p (v + 1) (put_matchIndex p v n)))).
Proof.
  intros H Hv. apply within_applyCommitted, within_advance, within_next; [lia|].
  by apply within_match.
Qed.

Lemma within_appendReply B n p req t resp :
  within B n → append_within B req → 0 ≤ aer_Term resp ≤ B →
  within B (replicateAppendReply p req t resp n).1.
Proof.
  intros H (Ht&Hp&_&Hlen&_) Hr. destruct (within_first B n H) as [Hf _].
  pose proof (wi_next _ _ H p) as Hn. unfold replicateAppendReply. case_decide; [done|].
  case_decide; [by apply within_stepDown|]. destruct (aer_Success resp); cbn [fst].
  - cbn zeta. cbn [matchIndex put_matchIndex set_matchIndex]. rewrite mapZ_insert_eq.
    apply within_reply; [done|]. unfold slen in *. lia.
  - repeat case_decide; try done; apply within_next; try done; lia.
Qed.

Lemma within_installReply B n p req t resp :
  within B n → install_within B req → 0 ≤ isr_Term resp ≤ B →
  within B (replicateInstallReply p req t resp n).1.
Proof.
  intros H (Ht&Hi&_) Hr. unfold replicateInstallReply. case_decide; [done|].
  case_decide; [by apply within_stepDown|]. cbn [fst]. by apply within_reply.
Qed.

(** ** Starting from a disk *)

Lemma within_restore B n : within B n → within B (restoreSnapshotLocked n).
Proof.
  intros H. destruct (within_first B n H) as [Hf _]. unfold restoreSnapshotLocked.
  destruct (_ || _); [done|]. destruct (sm_restore (snapshot n) (machine n)) as [m|]; [|done].
  cbn zeta. set (snap := lastIncludedIndexLocked (set_machine m n)).
  assert (Hs : 0 ≤ snap ≤ B) by exact Hf. clearbody snap.
  assert (H1 : within B (set_machine m n)) by (by eapply within_frame; [..|exact H]).
  revert H1. generalize (set_machine m n). intros n1 H1.
  assert (H2 : within B (if decide (lastApplied n1 < snap) then set_lastApplied snap n1 else n1)).
  { case_decide; [|done].
    apply (within_frame B (set_machine (machine n1) (set_lastApplied snap n1))); [done..|].
    by apply within_applied. }
  revert H2. generalize (if decide (lastApplied n1 < snap) then set_lastApplied snap n1 else n1).
  intros n2 H2. case_decide; [by apply within_commit|done].
Qed.

Lemma within_fresh B cfg (m : M) src :
  0 ≤ B → (∀ s, cfg_Storage cfg = Some s → disk_within B (st_Disk s)) →
  within B (freshNode cfg m src).
Proof.
  intros HB Hd. split; cbn; try lia.
  - split; [constructor; [unfold entry_within; cbn; lia|done]|unfold slen; cbn; lia].
  - intros p. unfold mapZ. rewrite lookup_empty. cbn. lia.
  - intros p. unfold mapZ. rewrite lookup_empty. cbn. lia.
  - by intros p req ?%elem_of_nil.
  - done.
Qed.

Lemma within_load B d n : within B n → disk_within B d → within B (loadDurable d n).
Proof.
  intros H [Ht Hl]. unfold loadDurable. cbn zeta.
  assert (H1 : within B (set_votedFor (ds_VotedFor d) (set_currentTerm (ds_CurrentTerm d) n))).
  { eapply (within_frame B (set_currentTerm _ n)); [done..|]. by apply within_term. }
  revert H1. generalize (set_votedFor (ds_VotedFor d) (set_currentTerm (ds_CurrentTerm d) n)).
  intros n1 H1.
  assert (H2 : within B (if bool_decide (ds_Log d ≠ []) then set_log (ds_Log d) n1 else n1))
    by (destruct (bool_decide _); [by apply within_log|done]).
  revert H2. generalize (if bool_decide (ds_Log d ≠ []) then set_log (ds_Log d) n1 else n1).
  intros n2 H2. case_decide; by eapply within_frame; [..|exact H2].
Qed.

Lemma within_startAt B n : within B n → within B (startAtSnapshot n).
Proof.
  intros H. destruct (within_first B n H) as [Hf _]. unfold startAtSnapshot.
  destruct (bool_decide _); [|done]. apply within_commit; [exact Hf|].
  eapply (within_frame B (set_machine (machine n) (set_lastApplied _ n))); [done..|].
  by apply within_applied.
Qed.

Lemma within_NewNode B cfg (m : M) src :
  0 ≤ B → (∀ s, cfg_Storage cfg = Some s → disk_within B (st_Disk s)) →
  within B (NewNode cfg m src).
Proof.
  intros HB Hd. pose proof (within_fresh B cfg m src HB Hd) as Hf. unfold NewNode. cbn zeta.
  destruct (cfg_Storage cfg) as [s|]; [|done]. unfold Load. destruct (st_LoadErr s); [done|].
  destruct (durableUsed (st_Disk s)); [|done]. unfold restoreDurable. cbn zeta.
  pose proof (within_rebuild B _ (within_restore B _ (within_startAt B _
    (within_load B (st_Disk s) _ Hf (Hd s eq_refl))))) as H.
  revert H. generalize (rebuildMembershipLocked (restoreSnapshotLocked (startAtSnapshot
    (loadDurable (st_Disk s) (freshNode cfg m src))))). intros n H.
  case_decide; [|done]. by eapply within_frame; [..|exact H].
Qed.

Lemma within_bootWith B base (m0 : M) cfg st src :
  0 ≤ B → cfg_Storage cfg = Some st → disk_within B (st_Disk st) →
  within B (bootWith base m0 cfg src).
Proof.
  intros HB Hs Hd. unfold bootWith. cbn zeta.
  pose proof (within_NewNode B cfg m0 src HB) as H.
  specialize (H ltac:(intros ? E; rewrite Hs in E; by injection E as <-)).
  revert H. generalize (NewNode cfg m0 src). intros n H.
  unfold Start. apply within_reset.
  eapply (within_frame B (SetSnapshotter (SetApply n))); [done..|].
  unfold SetSnapshotter. apply within_restore. by eapply within_frame; [..|exact H].
Qed.

Lemma fresh_within B : 0 ≤ B → disk_within B (st_Disk freshStorage).
Proof. intros HB. split; cbn; [lia|]. split; [done|]. unfold slen. cbn. lia. Qed.
End node.

(** ** The cluster *)

Section world.
Context {M : Type} `{!StateMachine M}.
Context (base : Config) (m0 : M).
Implicit Types (n : RaftNode M) (w : World M).

Definition world_within (B : Z) w : Prop :=
  (∀ i n, w_nodes w !! i = Some n → within B n) ∧ (∀ m, m ∈ w_net w → message_within B m).

Lemma world_within_init : world_within 0 (initWorld base m0).
Proof.
  split; [|by intros m ?%elem_of_nil]. intros i n Hn. cbn in Hn. rewrite map_lookup_imap in Hn.
  destruct (cfg_PeerAddrs base !! i); cbn in Hn; [|done]. injection Hn as <-.
  by eapply within_bootWith; [|reflexivity|apply fresh_within].
Qed.

Lemma world_within_put B i n msgs w :
  world_within B w → within B n → (∀ m, m ∈ msgs → message_within B m) →
  world_within B (putNode i n msgs w).
Proof.
  intros [Hn Hm] H1 H2. split; cbn.
  - intros j x Hx. apply lookup_insert_Some in Hx as [[<- <-]|[_ Hx]]; [|by eapply Hn].
    destruct H1. split; try assumption. cbn. by intros p req ?%elem_of_nil.
  - intros m. rewrite !elem_of_app. intros [Hin|[Hin|Hin]]; [by apply Hm| |by apply H2].
    destruct (transport n); [|by apply elem_of_nil in Hin].
    unfold voteRequestsOf in Hin. apply list_elem_of_omap in Hin as (g&Hg&E).
    destruct g as [|p req]; [done|]. injection E as <-. by eapply (wi_spawned _ _ H1).
Qed.

Lemma world_within_onNode B i f w :
  world_within B w →
  (∀ n, w_nodes w !! i = Some n → within B n →
     within (B + 1) (f n).1 ∧ ∀ m, m ∈ (f n).2 → message_within (B + 1) m) →
  world_within (B + 1) (onNode i f w).
Proof.
  intros [Hn Hm] Hf.
  assert (Hn' : ∀ j n, w_nodes w !! j = Some n → within (B + 1) n).
  { intros j n Hj. eapply within_mono; [|by eapply Hn]. lia. }
  assert (Hm' : ∀ m, m ∈ w_net w → message_within (B + 1) m).
  { intros m Hin. eapply message_within_mono; [|by apply Hm]. lia. }
  unfold onNode. destruct (w_nodes w !! i) as [n|] eqn:Ei; [|done].
  destruct (Hf n eq_refl (Hn i n Ei)) as [H1 H2]. destruct (f n) as [n1 msgs]. cbn in H1, H2.
  by apply world_within_put.
Qed.

Lemma world_within_deliver B m w :
  world_within B w → m ∈ w_net w → world_within (B + 1) (deliver m w).
Proof.
  intros Hw Hin. pose proof (proj2 Hw m Hin) as Hm.
  assert (Hq : ∀ n' : RaftNode M, within B n' → within (B + 1) n').
  { intros n'. apply within_mono. lia. }
  assert (Hmm : ∀ x, message_within B x → message_within (B + 1) x).
  { intros x. apply message_within_mono. lia. }
  destruct m as [i j req|i j req resp|i j req|i j req resp|i j req|i j req resp];
    cbn [deliver]; apply world_within_onNode; try done; intros n _ Hn; cbn [quiet fst snd].
  - destruct (within_HandleRequestVote B n req Hn Hm). destruct (HandleRequestVote req n).
    cbn in *. split; [by apply Hq|]. intros x ->%list_elem_of_singleton. by apply Hmm.
  - split; [by apply within_requestVoteReply, Hm|by intros ? ?%elem_of_nil].
  - destruct (within_HandleAppendEntries B n req Hn Hm). destruct (HandleAppendEntries req n).
    cbn in *. split; [by apply Hq|]. intros x ->%list_elem_of_singleton. by apply Hmm.
  - destruct Hm as [Hr Ht]. split; [by apply Hq, within_appendReply|by intros ? ?%elem_of_nil].
  - destruct (within_HandleInstallSnapshot B n req Hn Hm). destruct (HandleInstallSnapshot req n).
    cbn in *. split; [by apply Hq|]. intros x ->%list_elem_of_singleton. by apply Hmm.
  - destruct Hm as [Hr Ht]. split; [by apply Hq, within_installReply|by intros ? ?%elem_of_nil].
Qed.

(** A step raises the largest integer of the cluster by at most one. *)
Lemma world_within_step B l w :
  0 ≤ B → world_within B w → world_within (B + 1) (stepW base m0 l w).
Proof.
  intros HB Hw.
  assert (Hstay : world_within (B + 1) w).
  { destruct Hw as [Hn Hm]. split.
    - intros i n Hi. eapply within_mono; [|by eapply Hn]. lia.
    - intros m Hi. eapply message_within_mono; [|by apply Hm]. lia. }
  assert (Hnode : ∀ i f, (∀ n, within B n → within (B + 1) (f n)) →
    world_within (B + 1) (onNode i (quiet f) w)).
  { intros i f Hf. apply world_within_onNode; [done|]. intros n _ Hn. cbn.
    split; [by apply Hf|]. by intros ? ?%elem_of_nil. }
  assert (Hq : ∀ n' : RaftNode M, within B n' → within (B + 1) n').
  { intros n'. apply within_mono. lia. }
  destruct l; cbn [stepW].
  - apply Hnode. apply within_tick.
  - apply Hnode. intros n. apply within_Propose.
  - apply Hnode. intros n Hn. unfold AddServer. case_decide; [by apply Hq|]. by apply within_proposeChange.
  - apply Hnode. intros n Hn. unfold RemoveServer. case_decide; [by apply Hq|]. by apply within_proposeChange.
  - case_decide; [done|]. apply world_within_onNode; [done|]. intros n _ Hn.
    apply within_replicateSend. by apply Hq.
  - apply Hnode. intros n Hn. apply Hq. by eapply within_frame; [..|exact Hn].
  - case_decide; [done|]. apply world_within_onNode; [done|]. intros n _ Hn. cbn [fst snd].
    split; [by apply Hq|]. intros m. destruct (confirmSend term n) as [req|] eqn:E;
      [|by intros ?%elem_of_nil]. intros ->%list_elem_of_singleton.
    eapply within_confirmSend; [|exact E]. by apply Hq.
  - apply Hnode. intros n Hn. unfold waitCommittedPoll. case_decide; [by apply Hq|].
    case_match; [by apply Hq|]. by apply within_broadcast, Hq.
  - destruct (w_net w !! k) as [m|] eqn:Em; [|done]. apply world_within_deliver; [done|].
    by eapply list_elem_of_lookup_2.
  - destruct (w_net w !! k) as [m|] eqn:Em; [|done]. destruct m as [| | |i j req resp| |]; try done.
    apply list_elem_of_lookup_2 in Em. apply (proj2 Hw) in Em as [_ Ht]. apply Hnode. intros n Hn.
    apply Hq. unfold confirmReply. case_decide; [by apply within_stepDown|done].
  - apply Hnode. intros n Hn. apply Hq. by eapply within_frame; [..|exact Hn].
  - apply Hnode. intros n Hn. apply Hq. unfold Stop. case_match; [done|].
    by eapply within_frame; [..|exact Hn].
  - apply Hnode. intros n Hn. apply Hq. destruct (storage n) as [st|] eqn:Es; [|done].
    eapply within_bootWith; [done|reflexivity|]. by apply (wi_disk _ _ Hn).
  - case_decide; [done|]. destruct (w_nodes w !! i) as [n|] eqn:Ei.
    + destruct (storage n) as [st|] eqn:Es; [|done].
      apply world_within_put; [done| |by intros ? ?%elem_of_nil]. apply Hq.
      eapply within_bootWith; [done|reflexivity|]. by apply (wi_disk _ _ (proj1 Hw i n Ei)).
    + apply world_within_put; [done| |by intros ? ?%elem_of_nil]. apply Hq.
      by eapply within_bootWith; [|reflexivity|apply fresh_within].
Qed.

Lemma world_within_run ls w B :
  0 ≤ B → world_within B w → world_within (B + Z.of_nat (length ls)) (runW base m0 ls w).
Proof.
  revert w B. induction ls as [|l ls IH]; intros w B HB Hw; [by rewrite Z.add_0_r|].
  replace (B + Z.of_nat (length (l :: ls))) with (B + 1 + Z.of_nat (length ls)) by (cbn [length]; lia).
  apply (IH _ (B + 1)); [lia|by apply world_within_step].
Qed.

(** [C9] The integers of a cluster are 64-bit integers: in a run of fewer than
    2^63 - 2 steps, whatever its labels, every term and index in a node, on its
    disk or in a message, and every [nextIndex], lies between 0 and the number of
    steps (plus one), so no addition of the program overflows. *)
Theorem integers_in_range ls i n :
  Z.of_nat (length ls) + 2 < 2 ^ 63 →
  let w := runW base m0 ls (initWorld base m0) in
  w_nodes w !! i = Some n →
  in64 (currentTerm n) ∧ in64 (commitIndex n) ∧ in64 (lastApplied n) ∧
  in64 (lastLogIndexLocked n + 1) ∧
  (∀ p, in64 (mapZ (nextIndex n) p + 1) ∧ in64 (mapZ (matchIndex n) p + 1)) ∧
  Forall (λ e, in64 (e_Term e) ∧ in64 (e_Index e)) (log n) ∧
  (∀ s, storage n = Some s → disk_within (Z.of_nat (length ls)) (st_Disk s)) ∧
  ∀ m, m ∈ w_net w → message_within (Z.of_nat (length ls)) m.
Proof.
  intros Hlt w Hi. pose proof (world_within_run ls _ 0 (Z.le_refl 0) world_within_init) as [Hn Hm].
  rewrite Z.add_0_l in *. pose proof (Hn i n Hi) as H.
  destruct (within_last _ n H) as [Hl _]. destruct H. unfold in64.
  split_and!; try lia; [|destruct wi_log0 as [Hent _]|done|done].
  - intros p. specialize (wi_next0 p). specialize (wi_match0 p). lia.
  - eapply Forall_impl; [exact Hent|]. unfold entry_within. lia.
Qed.
End world.

Lemma integers_in_range_witness :
  match w_nodes (runW (config3 0) ([] : list bytes) electA (initWorld (config3 0) []))
          !! "a"%string with
  | Some n => in64 (currentTerm n) ∧ in64 (lastLogIndexLocked n + 1)
  | None => False
  end.
Proof.
  destruct (w_nodes (runW (config3 0) ([] : list bytes) electA (initWorld (config3 0) []))
    !! "a"%string) as [n|] eqn:E.
  - pose proof (integers_in_range (config3 0) ([] : list bytes) electA "a"%string n) as H.
    specialize (H eq_refl E). destruct H as (Ht&_&_&Hl&_). exact (conj Ht Hl).
  - vm_compute in E. discriminate E.
Defined.
