(* ===== verification/Divergence.v ===== *)
(** Three ways in which the cluster commits different entries at one index, each a
    run of the real handlers: a snapshot that cuts off entries a follower has
    acknowledged, membership changes of two leaders that have committed nothing in
    their terms, and a joining node that elects itself.  Each violates one of the
    conditions of the safety theorems and no other, so none of these ([Network]:
    [safe_installs], [settled_leader], [knows_cluster]) can be dropped for this
    code. *)
From S2P Require Import Prelude Types Node Persist Membership Snapshot Log Election RaftOps Read Machine NodeInv LogSpec Durable Network Demo SnapshotSpec.
Open Scope Z_scope.
Open Scope go_scope.

(** The steps of a run at which a condition on membership changes fails. *)
Fixpoint unsafe_changes (base : Config) (ls : list Label) (w : World (list bytes)) : list Label :=
  match ls with
  | [] => []
  | l :: ls => (if safe_change base l w then [] else [l]) ++
               unsafe_changes base ls (stepW base [] l w)
  end.

(** The node [i] of a world. *)
Definition memberOf (w : World (list bytes)) (i : string) : RaftNode (list bytes) :=
  default (boot (config3 0) [] i freshStorage []) (w_nodes w !! i).

(** ** A snapshot that cuts off acknowledged entries

    HandleInstallSnapshot replaces the whole log by the dummy entry of the
    snapshot, also when the log holds the last entry of the snapshot and more
    after it.  A leader can have two [replicateTo] goroutines for one peer: the
    map [replicating] is made anew at an election, and a goroutine of an earlier
    term clears the entry of the new one when it ends. *)

Abbreviation cutWorld ls := (runW (config3 2) ([] : list bytes) ls (initWorld (config3 2) [])).

(** Node a leads term 1 and its goroutine for b has sent the no-op entry; c
    campaigns in term 2 and a steps down, and then leads term 3. *)
Definition ledAgain : list Label :=
  electA ++ [LDeliver 1; LReplicate "a" "b"; LDeliver 4; LEnv "c" (500 * Millisecond) [];
    LTick "c"; LDeliver 6; LEnv "a" (900 * Millisecond) []; LTick "a"; LDeliver 9; LDeliver 11].

(** The goroutine of term 1 ends while the one of term 3 runs; c is asked for the
    no-op entries, and b for those and [cmdY]; the proposal starts one more
    goroutine for b. *)
Definition bothUnderWay : list Label :=
  ledAgain ++ [LReplicateDone "a" "b"; LReplicate "a" "c"; LDeliver 12; LDeliver 13;
    LReplicate "a" "c"; LPropose "a" cmdY; LReplicate "a" "b"].

(** c answers, so a commits index 2 and compacts; the other goroutine for b sends
    the snapshot.  b stores the entries and acknowledges index 3, then installs
    the snapshot; the acknowledgement reaches a, which commits index 3. *)
Definition acknowledgedY : list Label :=
  bothUnderWay ++ [LDeliver 14; LDeliver 16; LReplicate "a" "b"; LDeliver 15; LDeliver 17;
    LDeliver 18].

(** b is elected with the vote of c and commits its own entry at index 3. *)
Definition replacedY : list Label :=
  acknowledgedY ++ [LEnv "b" (2000 * Millisecond) []; LTick "b"; LDeliver 21; LDeliver 22;
    LReplicate "b" "c"; LDeliver 23; LDeliver 24].

(** [C35] A snapshot can undo a commit: in a run of a cluster of three with a
    fixed membership and compaction on, a command is accepted at index 3 by the
    leader a, committed with the acknowledgement of b and applied; b then cuts it
    off with a snapshot of index 2, and commits another entry at index 3 with c.
    Nodes a and b have applied the same number of entries and differ. *)
Theorem snapshot_undoes_commit :
  Forall fixed_label replacedY ∧
  mapB (replicating (memberOf (cutWorld ledAgain) "a")) "b" = true ∧
  mapB (replicating (memberOf (cutWorld (ledAgain ++ [LReplicateDone "a" "b"])) "a")) "b" = false ∧
  (Propose cmdY (memberOf (cutWorld (take 19 bothUnderWay)) "a")).2 = Ok (3, 3) ∧
  waitPoll 3 (memberOf (cutWorld acknowledgedY) "a") = Some (Ok tt) ∧
  (let a := memberOf (cutWorld replacedY) "a" in
   let b := memberOf (cutWorld replacedY) "b" in
   commitIndex a = 3 ∧ commitIndex b = 3 ∧
   entryAtLocked a 3 = Some (MkEntry 3 3 cmdY None) ∧
   entryAtLocked b 3 = Some (MkEntry 4 3 [] None) ∧
   lastApplied a = lastApplied b ∧ machine a ≠ machine b) ∧
  safe_installs (config3 2) [] replacedY (initWorld (config3 2) []) = false.
Proof.
  cbn zeta. split_and!.
  - repeat constructor.
  - vm_compute. reflexivity.
  - vm_compute. reflexivity.
  - vm_compute. reflexivity.
  - vm_compute. reflexivity.
  - vm_compute. reflexivity.
  - vm_compute. reflexivity.
  - vm_compute. reflexivity.
  - vm_compute. reflexivity.
  - vm_compute. reflexivity.
  - vm_compute. discriminate.
  - vm_compute. reflexivity.
Qed.

(** ** Membership changes before an entry of the term is committed

    [proposeChangeLocked] refuses a change while another one is uncommitted in
    the log of the leader, but lets a new leader change the membership before it
    has committed an entry of its own term.  Two leaders can then use
    configurations of which the majorities do not meet. *)

Definition config4 : Config :=
  MkConfig "" {[ "a" := addr "a"; "b" := addr "b"; "c" := addr "c"; "d" := addr "d" ]}
    (150 * Millisecond) (300 * Millisecond) (50 * Millisecond) None true 0 ∅ false.

Abbreviation memberWorld ls := (runW config4 ([] : list bytes) ls (initWorld config4 [])).

(** Node e is started to join; a leads term 1 with the votes of b and c, adds e
    and accepts [cmdX]; its entries reach e only. *)
Definition addedE : list Label :=
  [LJoin "e" (addr "e") "" []; LEnv "a" (200 * Millisecond) []; LTick "a"; LDeliver 0; LDeliver 1; LDeliver 3; LDeliver 4;
   LAddServer "a" "e" (addr "e") ""; LPropose "a" cmdX;
   LReplicate "a" "e"; LDeliver 5; LDeliver 6; LReplicate "a" "e"; LDeliver 7; LDeliver 8;
   LReplicate "a" "e"; LDeliver 9; LDeliver 10].

(** b leads term 2 with the votes of c and d, removes a and commits [cmdY] with c:
    a majority of b, c and d. *)
Definition removedA : list Label :=
  addedE ++ [LEnv "b" (500 * Millisecond) []; LTick "b"; LDeliver 12; LDeliver 13; LDeliver 14;
   LDeliver 15; LRemoveServer "b" "a"; LPropose "b" cmdY; LReplicate "b" "c"; LDeliver 16;
   LDeliver 17].

(** a leads term 3 with the votes of d and e, a majority of the five, and commits
    its entries with them. *)
Definition committedX : list Label :=
  removedA ++ [LDeliver 11; LEnv "a" (1500 * Millisecond) []; LTick "a"; LDeliver 21; LDeliver 22;
   LDeliver 23; LDeliver 24; LReplicate "a" "e"; LDeliver 25; LDeliver 26;
   LReplicate "a" "d"; LDeliver 27; LDeliver 28; LReplicate "a" "d"; LDeliver 29; LDeliver 30;
   LReplicate "a" "d"; LDeliver 31; LDeliver 32; LReplicate "a" "d"; LDeliver 33; LDeliver 34].

(** [C36] Two leaders can commit different entries at one index when the
    membership changes: b has committed and acknowledged [cmdY] at index 3 with a
    majority of its configuration, and a commits and acknowledges [cmdX] at index
    3 with a majority of its own.  No node crashes in the run, and what the safety
    theorems ask fails only where the two leaders, which have not committed an
    entry of their terms, propose a change. *)
Theorem changes_split_the_cluster :
  let b := memberOf (memberWorld committedX) "b" in
  let a := memberOf (memberWorld committedX) "a" in
  (Propose cmdX (memberOf (memberWorld (take 8 addedE)) "a")).2 = Ok (3, 1) ∧
  waitPoll 3 (memberOf (memberWorld removedA) "b") = Some (Ok tt) ∧
  waitPoll 3 a = Some (Ok tt) ∧
  peerIDs b = ["b"; "c"; "d"]%string ∧ peerIDs a = ["a"; "b"; "c"; "d"; "e"]%string ∧
  commitIndex b = 3 ∧ commitIndex a = 4 ∧
  entryAtLocked b 3 = Some (MkEntry 2 3 cmdY None) ∧
  entryAtLocked a 3 = Some (MkEntry 1 3 cmdX None) ∧
  machine b = [[]; cmdY] ∧ machine a = [[]; cmdX; []] ∧
  unsafe_changes config4 committedX (initWorld config4 []) =
    [LAddServer "a" "e" (addr "e") ""; LRemoveServer "b" "a"].
Proof.
  cbn zeta. split_and!; vm_compute; reflexivity.
Qed.

(** ** A joining node that elects itself

    A node that was started to join knows only itself.  HandleAppendEntries ends
    its joining phase with the first request of a leader, also when it refuses
    it: if the leader then falls silent, the node campaigns. *)

(** Node a has committed [cmdX] with b; d is started to join, is added by a and
    refuses its first request, elects itself and accepts [cmdY]. *)
Definition electedD : list Label :=
  electA ++ commitX ++
  [LJoin "d" (addr "d") "" []; LAddServer "a" "d" (addr "d") ""; LReplicate "a" "d"; LDeliver 9;
   LEnv "d" (500 * Millisecond) []; LTick "d"; LPropose "d" cmdY].

(** [C40] A joining node can become leader alone and divide the cluster: it
    refuses the leader's first request, at its next timeout elects itself in a
    configuration of one, and commits and acknowledges a command at an index where
    the cluster has committed another.  What the safety theorems ask fails only
    at the tick with which it campaigns. *)
Theorem joiner_elects_itself :
  let w := runW (config3 0) [] electedD (initWorld (config3 0) []) in
  let w0 := runW (config3 0) [] (take (length electedD - 3) electedD) (initWorld (config3 0) []) in
  let a := memberOf w "a" in
  let d := memberOf w "d" in
  last (w_net w0) = Some (MAppendResp "a" "d" (MkAppendReq 1 "a" 3 1 [] 2) (MkAppendResp 1 false)) ∧
  joining (memberOf w0 "d") = false ∧ peerIDs (memberOf w0 "d") = ["d"]%string ∧
  state d = Leader ∧ currentTerm d = 2 ∧
  waitPoll 2 a = Some (Ok tt) ∧ waitPoll 2 d = Some (Ok tt) ∧
  entryAtLocked a 2 = Some (MkEntry 1 2 cmdX None) ∧
  entryAtLocked d 2 = Some (MkEntry 2 2 cmdY None) ∧
  unsafe_changes (config3 0) electedD (initWorld (config3 0) []) = [LTick "d"].
Proof.
  cbn zeta. split_and!; vm_compute; reflexivity.
Qed.
