(* ===== verification/CutLog.v ===== *)
(** What a compacted log keeps of the full one.  [compactLocked] replaces the
    first positions of a log by one dummy entry with the index and the term of
    the last entry it drops; [cutAt k l] is the log that is left when the
    full log [l] has been cut at position [k].  The lemmas say that the log
    accessors of raft/log.go read the full log through it, at every position
    from [k] on. *)
From S2P Require Import Prelude Types Node Persist Membership Snapshot Log Election RaftOps Read Machine NodeInv.
Open Scope Z_scope.
Open Scope go_scope.

Definition cutAt (k : nat) (l : list LogEntry) : list LogEntry :=
  match l !! k with
  | Some e => dummyEntry (e_Term e) (Z.of_nat k) :: drop (S k) l
  | None => []
  end.

(** A log in which positions are indexes. *)
Definition positions (l : list LogEntry) : Prop :=
  ∀ k e, l !! k = Some e → e_Index e = Z.of_nat k.

Lemma cutAt_lt k l e :
  l !! k = Some e → cutAt k l = dummyEntry (e_Term e) (Z.of_nat k) :: drop (S k) l.
Proof. unfold cutAt. by intros ->. Qed.

Lemma length_cutAt k l : (k < length l)%nat → length (cutAt k l) = (length l - k)%nat.
Proof.
  intros Hk. destruct (lookup_lt_is_Some_2 _ _ Hk) as [e He].
  rewrite (cutAt_lt k l e He). cbn. rewrite length_drop. lia.
Qed.

Lemma slen_cutAt k l : (k < length l)%nat → slen (cutAt k l) = slen l - Z.of_nat k.
Proof. intros Hk. unfold slen. rewrite length_cutAt by done. lia. Qed.

Lemma cutAt_0 l : cutAt 0 (zeroEntry :: l) = zeroEntry :: l.
Proof. unfold cutAt. cbn. by rewrite drop_0. Qed.

(** The entries above the cut are the ones of the full log. *)
Lemma lookup_cutAt k l j :
  (k < length l)%nat → cutAt k l !! S j = l !! (S k + j)%nat.
Proof.
  intros Hk. destruct (lookup_lt_is_Some_2 _ _ Hk) as [e He].
  rewrite (cutAt_lt k l e He). change ((?x :: ?t) !! S ?i) with (t !! i). by rewrite lookup_drop.
Qed.

(** The terms are, from the cut on. *)
Lemma term_cutAt k l j :
  (k < length l)%nat → e_Term <$> cutAt k l !! j = e_Term <$> l !! (k + j)%nat.
Proof.
  intros Hk. destruct (lookup_lt_is_Some_2 _ _ Hk) as [e He].
  destruct j as [|j].
  - rewrite (cutAt_lt k l e He), Nat.add_0_r, He. done.
  - rewrite lookup_cutAt by done. by rewrite Nat.add_succ_comm.
Qed.

Lemma cutAt_snoc k l e :
  (k < length l)%nat → cutAt k (l ++ [e]) = cutAt k l ++ [e].
Proof.
  intros Hk. destruct (lookup_lt_is_Some_2 _ _ Hk) as [x Hx].
  rewrite (cutAt_lt k l x Hx), (cutAt_lt k (l ++ [e]) x)
    by (by apply lookup_app_l_Some).
  cbn [app]. by rewrite drop_app_le by lia.
Qed.

(** Two logs that agree on the terms up to the cut and on what follows it. *)
Lemma cutAt_ext k l1 l2 :
  take (S k) l1 = take (S k) l2 → drop (S k) l1 = drop (S k) l2 →
  cutAt k l1 = cutAt k l2.
Proof.
  intros Ht Hd. by rewrite <- (take_drop (S k) l1), <- (take_drop (S k) l2), Ht, Hd.
Qed.

(** Cutting a cut log again. *)
Lemma cutAt_again k k' l x :
  (k < k')%nat → l !! k' = Some x →
  dummyEntry (e_Term x) (Z.of_nat k') :: drop (S (k' - k)) (cutAt k l) = cutAt k' l.
Proof.
  intros Hlt Hx. rewrite (cutAt_lt k' l x Hx). f_equal.
  assert (Hk : (k < length l)%nat) by (apply lookup_lt_Some in Hx; lia).
  destruct (lookup_lt_is_Some_2 _ _ Hk) as [e He].
  rewrite (cutAt_lt k l e He). cbn [drop]. rewrite drop_drop. f_equal. lia.
Qed.

(** Taking a prefix and cutting commute. *)
Lemma take_cutAt k m l :
  (k < m)%nat → (k < length l)%nat → take (m - k) (cutAt k l) = cutAt k (take m l).
Proof.
  intros Hm Hk. destruct (lookup_lt_is_Some_2 _ _ Hk) as [e He].
  rewrite (cutAt_lt k l e He), (cutAt_lt k (take m l) e)
    by (rewrite lookup_take_lt by lia; done).
  replace (m - k)%nat with (S (m - S k))%nat by lia. cbn [take]. f_equal.
  rewrite skipn_firstn_comm. done.
Qed.

Lemma cutAt_app k l es :
  (k < length l)%nat → cutAt k (l ++ es) = cutAt k l ++ es.
Proof.
  intros Hk. destruct (lookup_lt_is_Some_2 _ _ Hk) as [x Hx].
  rewrite (cutAt_lt k l x Hx), (cutAt_lt k (l ++ es) x)
    by (by apply lookup_app_l_Some).
  cbn [app]. by rewrite drop_app_le by lia.
Qed.

(** Dropping below the cut. *)
Lemma drop_cutAt k p l :
  (k ≤ p)%nat → (k < length l)%nat → drop (S p - k) (cutAt k l) = drop (S p) l.
Proof.
  intros Hp Hk. destruct (lookup_lt_is_Some_2 _ _ Hk) as [e He].
  rewrite (cutAt_lt k l e He). replace (S p - k)%nat with (S (p - k)) by lia.
  cbn [drop]. rewrite drop_drop. f_equal. lia.
Qed.

Lemma cutAt_nochange k l :
  Forall (λ e, e_Change e = None) l → Forall (λ e, e_Change e = None) (cutAt k l).
Proof.
  intros H. unfold cutAt. destruct (l !! k); [|done].
  constructor; [done|]. by apply Forall_drop.
Qed.

Lemma cutAt_contiguous k l :
  positions l → (k < length l)%nat → contiguous (cutAt k l).
Proof.
  intros Hpos Hk. destruct (lookup_lt_is_Some_2 _ _ Hk) as [e He].
  rewrite (cutAt_lt k l e He). split; [done|]. intros [|j] x Hx; cbn in *.
  - injection Hx as <-. cbn. lia.
  - change (drop (S k) l !! j = Some x) in Hx. rewrite lookup_drop in Hx.
    apply Hpos in Hx. rewrite Hx. lia.
Qed.

Section node.
Context {M : Type}.
Implicit Types n : RaftNode M.

(** A node whose log is [l] cut at [k]. *)
Section cut.
Context (n : RaftNode M) (k : nat) (l : list LogEntry).
Context (Hlog : log n = cutAt k l) (Hk : (k < length l)%nat).

Lemma cut_first : lastIncludedIndexLocked n = Z.of_nat k.
Proof.
  destruct (lookup_lt_is_Some_2 _ _ Hk) as [e He].
  unfold lastIncludedIndexLocked, firstEntry. by rewrite Hlog, (cutAt_lt k l e He).
Qed.

Lemma cut_first_term e : l !! k = Some e → lastIncludedTermLocked n = e_Term e.
Proof.
  intros He. unfold lastIncludedTermLocked, firstEntry. by rewrite Hlog, (cutAt_lt k l e He).
Qed.

Lemma cut_entryAt idx :
  Z.of_nat k < idx → entryAtLocked n idx = l !z idx.
Proof.
  intros Hi. rewrite entryAtLocked_eq, cut_first, Hlog.
  unfold zlookup. rewrite !decide_True by lia.
  replace (Z.to_nat (idx - Z.of_nat k)) with (S (Z.to_nat idx - S k)) by lia.
  rewrite lookup_cutAt by done. f_equal. lia.
Qed.

(** The term at an index from the cut on. *)
Lemma cut_termAt idx :
  Z.of_nat k ≤ idx → termAtLocked n idx = e_Term <$> l !z idx.
Proof.
  intros Hi. unfold termAtLocked. rewrite entryAtLocked_eq, cut_first, Hlog.
  unfold zlookup. rewrite !decide_True by lia.
  pose proof (term_cutAt k l (Z.to_nat (idx - Z.of_nat k)) Hk) as E.
  replace (k + Z.to_nat (idx - Z.of_nat k))%nat with (Z.to_nat idx) in E by lia.
  destruct (cutAt k l !! _) eqn:E1, (l !! Z.to_nat idx) eqn:E2; cbn in *; congruence.
Qed.

Lemma cut_entryAt_term idx x :
  entryAtLocked n idx = Some x →
  Z.of_nat k ≤ idx ∧ ∃ y, l !! Z.to_nat idx = Some y ∧ e_Term y = e_Term x ∧
    (Z.of_nat k < idx → y = x).
Proof.
  intros Hx. assert (Hi : Z.of_nat k ≤ idx).
  { rewrite entryAtLocked_eq, cut_first in Hx. apply zlookup_Some in Hx as [? _]. lia. }
  split; [done|]. pose proof (cut_termAt idx Hi) as E. unfold termAtLocked in E. rewrite Hx in E.
  unfold zlookup in E. rewrite decide_True in E by lia.
  destruct (l !! Z.to_nat idx) as [y|] eqn:Ey; [|done]. exists y. cbn in E. simplify_eq.
  split_and!; [done|done|]. intros Hlt. rewrite (cut_entryAt idx Hlt) in Hx.
  unfold zlookup in Hx. rewrite decide_True, Ey in Hx by lia. congruence.
Qed.

Lemma cut_last (Hpos : positions l) : lastLogIndexLocked n = slen l - 1.
Proof.
  rewrite wf_log_last by (unfold wf_log; rewrite Hlog; by apply cutAt_contiguous).
  rewrite cut_first, Hlog, slen_cutAt by done. lia.
Qed.

(** The term of the last entry is the one of the full log. *)
Lemma cut_last_term : lastLogTermLocked n = e_Term (default zeroEntry (last l)).
Proof.
  unfold lastLogTermLocked, lastEntry. rewrite Hlog.
  pose proof (term_cutAt k l (pred (length (cutAt k l))) Hk) as E.
  rewrite !last_lookup. rewrite length_cutAt in * by done.
  replace (k + pred (length l - k))%nat with (pred (length l)) in E by lia.
  destruct (cutAt k l !! _) eqn:E1, (l !! pred (length l)) eqn:E2; cbn in *; congruence.
Qed.
End cut.
End node.
