(* ===== verification/RefineBase.v ===== *)
(** The relation between the real nodes of [Network] and the abstract protocol
    of [Spec]: the full log behind a node's compacted one
    and its snapshot, what each message in flight says about the history, and how
    both carry over when the history grows. *)
From S2P Require Import Prelude Types Node Persist Membership Snapshot Log Election RaftOps Read Machine NodeInv CutLog LogSpec Durable Spec SpecInv SpecSafety Network.
Open Scope Z_scope.
Open Scope go_scope.

(** ** Histories *)

Lemma hist_le_refl a : hist_le a a.
Proof. split; try done. intros t _. exists []. by rewrite app_nil_r. Qed.

Lemma hist_le_trans a b c : hist_le a b → hist_le b c → hist_le a c.
Proof.
  intros H1 H2. split.
  - intros t l Hl. by apply (hl_leader _ _ H2), (hl_leader _ _ H1).
  - intros t [l Hl]. destruct (hl_suffix _ _ H1 t) as (k&Hk&?); [by eexists|].
    destruct (hl_suffix _ _ H2 t) as (k'&Hk'&?); [eexists; by apply (hl_leader _ _ H1)|].
    exists (k ++ k'). split; [by rewrite Hk', Hk, app_assoc|by apply Forall_app].
  - intros t. etrans; [apply (hl_tlog _ _ H1)|apply (hl_tlog _ _ H2)].
  - intros x Hx. by apply (hl_cands _ _ H2), (hl_cands _ _ H1).
  - intros x Hx. by apply (hl_votes _ _ H2), (hl_votes _ _ H1).
  - intros x Hx. by apply (hl_acks _ _ H2), (hl_acks _ _ H1).
  - intros x Hx. by apply (hl_commits _ _ H2), (hl_commits _ _ H1).
Qed.

(** A change lists the members after it; [ch] says whether there are any. *)
Definition full_change (ch : bool) (e : LogEntry) : Prop :=
  ∀ c, e_Change e = Some c → ch = true ∧ ch_Peers c ≠ ∅.

(** The entries of the leaders' logs carry their position, and full changes. *)
Definition tidx (ch : bool) (a : AState) : Prop :=
  ∀ t k e, h_tlog a t !! k = Some e → e_Index e = Z.of_nat k ∧ full_change ch e.

Section good.
Context (B : gmap string string * gmap string string) (ch : bool).

(** The states the simulation goes through. *)
Definition good (a : AState) : Prop := areach B a ∧ tidx ch a.

Lemma good_einv a : good a → einv a.
Proof. intros [H _]. by apply areach_inv in H as [? _]. Qed.

Lemma good_cinv a : good a → cinv B a.
Proof. intros [H _]. by apply areach_inv in H as [_ ?]. Qed.

Lemma good_init : good ainit.
Proof.
  split; [apply rtc_refl|]. intros t k e. cbn. case_decide; [|done].
  destruct k as [|k]; [|done]. intros [= <-]. by split.
Qed.

(** Steps of one node. *)
Definition evolves (i : string) (a a' : AState) : Prop :=
  good a' ∧ hist_le a a' ∧ (∀ j, j ≠ i → a_nodes a' j = a_nodes a j) ∧ rtc (astep B) a a'.

Lemma evolves_refl i a : good a → evolves i a a.
Proof. intros. split_and!; [done|apply hist_le_refl|done|done]. Qed.

Lemma evolves_trans i a b c : evolves i a b → evolves i b c → evolves i a c.
Proof.
  intros (_&H1&H2&H5) (?&H3&H4&H6). split_and!; [done|by eapply hist_le_trans| |by etrans].
  intros j Hj. by rewrite H4, H2.
Qed.

Lemma evolves_step i a a' :
  good a → astep B a a' → tidx ch a' → (∀ j, j ≠ i → a_nodes a' j = a_nodes a j) →
  evolves i a a'.
Proof.
  intros [Hr Ht] Hs Ht' Hj.
  split_and!; [|by eapply hist_le_step; [apply good_einv|apply elect_fresh; [apply good_einv|apply good_cinv]|]|done|by apply rtc_once].
  split; [|done]. by eapply rtc_r.
Qed.

(** What the invariants say of a node's log: positions are indexes. *)
Lemma good_log a i k e :
  good a → a_log (a_nodes a i) !! k = Some e → e_Index e = Z.of_nat k ∧ full_change ch e.
Proof.
  intros Hg Hk. destruct (ei_log _ (good_einv a Hg) i) as [[_ _ Hm] _].
  pose proof (Hm k e Hk) as Hp. destruct Hg as [_ Ht]. apply (Ht (e_Term e)).
  eapply prefix_lookup_Some; [|exact Hp]. rewrite lookup_take_lt by lia. done.
Qed.

Lemma good_head a i : good a → ∃ l, a_log (a_nodes a i) = zeroEntry :: l.
Proof.
  intros Hg. destruct (ei_log _ (good_einv a Hg) i) as [[Hh _ _] _].
  destruct (a_log (a_nodes a i)); naive_solver.
Qed.

Lemma good_contiguous a i : good a → contiguous (a_log (a_nodes a i)).
Proof.
  intros Hg. destruct (good_head a i Hg) as [l Hl]. split; [by rewrite Hl|].
  intros k e Hk. destruct (good_log a i k e Hg Hk) as [-> _]. rewrite Hl. done.
Qed.

Lemma good_positions a i : good a → positions (a_log (a_nodes a i)).
Proof. intros Hg k e Hk. by eapply good_log. Qed.

Lemma good_full a i : good a → Forall (full_change ch) (a_log (a_nodes a i)).
Proof. intros Hg. apply Forall_lookup_2. intros k e Hk. by eapply good_log. Qed.

(** The commit index lies inside the log. *)
Lemma good_commit_lt a i :
  good a → (a_commit (a_nodes a i) < length (a_log (a_nodes a i)))%nat.
Proof.
  intros Hg. destruct (good_head a i Hg) as [l Hl].
  destruct (ci_commit _ _ (good_cinv a Hg) i) as [->|(t&k&Hin&_&Hle&Hp)].
  - rewrite Hl. cbn. lia.
  - destruct (ci_commits _ _ _ _ (good_cinv a Hg) Hin) as (e&He&_).
    apply lookup_lt_Some in He. apply take_prefix_iff in Hp; lia.
Qed.

(** Two logs with an entry of the same term at a position agree up to it. *)
Lemma matching_take_eq (T : Z → list LogEntry) l1 l2 k x y :
  matching T l1 → matching T l2 → l1 !! k = Some x → l2 !! k = Some y →
  e_Term x = e_Term y → take (S k) l1 = take (S k) l2.
Proof.
  intros H1 H2 Hx Hy Ht. pose proof (H1 _ _ Hx) as Hp1. pose proof (H2 _ _ Hy) as Hp2.
  rewrite <- Ht in Hp2. apply lookup_lt_Some in Hx, Hy.
  pose proof (prefix_le_eq _ _ _ Hp1 Hp2) as Hp. rewrite !length_take_le in Hp by lia.
  specialize (Hp ltac:(lia)). apply prefix_length_eq in Hp; [done|].
  by rewrite !length_take_le by lia.
Qed.
End good.

#[export] Hint Resolve good_einv good_cinv evolves_refl : raft.

(** ** Nodes and messages *)

Section relation.
Context {M : Type} `{!StateMachine M}.
Context (base : Config) (m0 : M) (ch : bool).
Implicit Types (n : RaftNode M) (w : World M).

(** The members the cluster starts with, and their HTTP addresses. *)
Let P := cfg_PeerAddrs base.
Let B := (cfg_PeerAddrs base, cfg_HTTPAddrs base).
Let good := good B ch.

(** What a node that was started to join knows, until it has been told more. *)
Definition newcomer (m : gmap string string) : Prop :=
  ch = true ∧ ∃ s x, m = {[s := x]} ∧ P !! s = None.

(** A membership that is the one the log [l] determines, unless it is that of a
    joining node. *)
Definition memberOf (l : list LogEntry) (m : gmap string string * gmap string string) : Prop :=
  m = configOf B l ∨ newcomer m.1.

Lemma applyEntry_full m1 m2 e :
  full_change ch e → is_change e → applyEntry m1 e = applyEntry m2 e.
Proof.
  intros Hf Hc. unfold applyEntry. destruct (e_Change e) as [c|] eqn:E; [|by destruct Hc].
  destruct (Hf c E) as [_ Hne]. unfold applyChange.
  by rewrite !decide_True by (by apply map_size_pos).
Qed.

Lemma applyEntries_snoc m es e : applyEntries m (es ++ [e]) = applyEntry (applyEntries m es) e.
Proof. by rewrite applyEntries_app. Qed.

Lemma configOf_app l es : l ≠ [] → configOf B (l ++ es) = applyEntries (configOf B l) es.
Proof. intros Hl. unfold configOf. destruct l; [done|]. cbn [app tail]. by rewrite applyEntries_app. Qed.

(** Applying the entries that follow a log. *)
Lemma memberOf_app l es m :
  l ≠ [] → Forall (full_change ch) es → memberOf l m → memberOf (l ++ es) (applyEntries m es).
Proof.
  intros Hl Hes Hm. induction es as [|e es IH] using rev_ind; [by rewrite app_nil_r|].
  apply Forall_app in Hes as [Hes He]. rewrite Forall_singleton in He. specialize (IH Hes).
  rewrite app_assoc, applyEntries_snoc. unfold memberOf.
  rewrite configOf_app by (destruct l; done).
  change (applyEntries (configOf B (l ++ es)) [e]) with (applyEntry (configOf B (l ++ es)) e).
  destruct (decide (is_change e)) as [Hc|Hc].
  { left. by apply applyEntry_full. }
  assert (E : ∀ m', applyEntry m' e = m').
  { intros m'. unfold applyEntry, is_change in *. destruct (e_Change e); [by destruct Hc|done]. }
  by rewrite !E.
Qed.

(** A membership is never empty. *)
Lemma configOf_ne l : P ≠ ∅ → Forall (full_change ch) l → (configOf B l).1 ≠ ∅.
Proof.
  intros HP Hl. unfold configOf. apply (Forall_tail (full_change ch)) in Hl. revert Hl.
  generalize (tail l). intros es. induction es as [|e es IH] using rev_ind; [done|].
  intros [Hes He]%Forall_app. rewrite Forall_singleton in He. rewrite applyEntries_snoc.
  unfold applyEntry. destruct (e_Change e) as [c|] eqn:E; [|by apply IH].
  destruct (He c E) as [_ Hne]. unfold applyChange. by rewrite decide_True by (by apply map_size_pos).
Qed.

Lemma memberOf_ne l m : P ≠ ∅ → Forall (full_change ch) l → memberOf l m → m.1 ≠ ∅.
Proof.
  intros HP Hl [->|[_ (s&x&->&_)]]; [by apply configOf_ne|apply map_non_empty_singleton].
Qed.

(** A voter that started with the cluster, or knows another member, has the
    membership of its log. *)
Lemma memberOf_voter l m i :
  memberOf l m → is_Some (m.1 !! i) → is_Some (P !! i) ∨ (1 < size m.1)%nat → m = configOf B l.
Proof.
  intros [?|[_ (s&x&->&Hs)]] [y Hy] Hk; [done|]. apply lookup_singleton_Some in Hy as [<- _].
  rewrite map_size_singleton in Hk. destruct Hk as [[? ?]|?]; [congruence|lia].
Qed.

(** The state machine that has applied [es] in order. *)
Definition replay (es : list LogEntry) : M := foldl (applyOne true) m0 es.

(** The machine after the first [k] entries of the log [l]. *)
Definition machineAt (k : nat) (l : list LogEntry) : M := replay (take k (tail l)).

(** The abstraction of a node with the full log [l]. *)
Definition absNode (l : list LogEntry) n : ANode :=
  MkANode (currentTerm n) (votedFor n) (state n) l (Z.to_nat (commitIndex n)).

(** The snapshot of a node that has cut [l] at [k]. *)
Definition snapshotAt (k : nat) (l : list LogEntry) (snap : bytes) : Prop :=
  match k with
  | O => snap = []
  | S _ => sm_snapshot (machineAt k l) = Some snap
  end.

(** The full log [l] stands behind the log, the snapshot and the machine of a
    node, which has cut it at position [k]. *)
Record backs (l : list LogEntry) (k : nat) (lg : list LogEntry) (snap : bytes)
    (applied commit threshold : Z) (m : M) : Prop := {
  bh_lt : (k < length l)%nat;
  bh_log : lg = cutAt k l;
  bh_snap : snapshotAt k l snap;
  bh_applied : Z.of_nat k ≤ applied ≤ commit;
  bh_machine : m = machineAt (Z.to_nat applied) l;
  bh_off : threshold ≤ 0 → k = 0%nat;
}.

(** What a message in flight says about the history. *)
Definition mrel (a : AState) (m : Message) : Prop :=
  match m with
  | MVoteReq i j req =>
      rv_CandidateID req = i ∧ i ≠ ""%string ∧
      ∃ lc, (rv_Term req, i, lc) ∈ h_cands a ∧ j ∈ conf B lc ∧
        rv_LastLogIndex req = slen lc - 1 ∧ rv_LastLogTerm req = last_term lc
  | MVoteResp i j req resp =>
      rvr_VoteGranted resp = true → (rv_Term req, j, i) ∈ h_votes a ∧
        ∃ lc, (rv_Term req, i, lc) ∈ h_cands a ∧ j ∈ conf B lc
  | MAppendReq i j req =>
      let tl := h_tlog a (ae_Term req) in
      let p := Z.to_nat (ae_PrevLogIndex req) in
      h_leader a (ae_Term req) = Some i ∧ 0 ≤ ae_PrevLogIndex req ∧
      (∃ x, tl !! p = Some x ∧ e_Term x = ae_PrevLogTerm req) ∧
      ae_Entries req = take (length (ae_Entries req)) (drop (S p) tl) ∧
      (S p + length (ae_Entries req) ≤ length tl)%nat ∧
      ae_LeaderCommit req ≤ ae_PrevLogIndex req + slen (ae_Entries req) ∧
      (ae_LeaderCommit req ≤ 0 ∨ ∃ t k, committed a t k ∧ t ≤ ae_Term req ∧
         ae_LeaderCommit req ≤ Z.of_nat k)
  | MAppendResp i j req resp =>
      aer_Success resp = true →
      0 ≤ ae_PrevLogIndex req ∧
      acked a (ae_Term req) j
        (S (Z.to_nat (ae_PrevLogIndex req + slen (ae_Entries req))))
  | MInstallReq i j req =>
      let tl := h_tlog a (is_Term req) in
      let k := Z.to_nat (is_LastIncludedIndex req) in
      0 < cfg_SnapshotThreshold base ∧
      h_leader a (is_Term req) = Some i ∧ 0 < is_LastIncludedIndex req ∧
      (∃ x, tl !! k = Some x ∧ e_Term x = is_LastIncludedTerm req) ∧
      (∃ t c, committed a t c ∧ t ≤ is_Term req ∧ (k ≤ c)%nat) ∧
      sm_snapshot (machineAt k tl) = Some (is_Data req) ∧
      is_Peers req ≠ ∅ ∧ memberOf (take (S k) tl) (is_Peers req, is_HTTP req)
  | MInstallResp i j req resp =>
      isr_Term resp ≤ is_Term req →
      acked a (is_Term req) j (S (Z.to_nat (is_LastIncludedIndex req)))
  end.

Lemma machineAt_app k l l' : (k < length l)%nat → machineAt k (l ++ l') = machineAt k l.
Proof.
  intros Hk. unfold machineAt. destruct l as [|e l]; cbn in *; [lia|].
  by rewrite take_app_le by lia.
Qed.

Lemma snapshotAt_ext k l1 l2 snap :
  take (S k) l1 = take (S k) l2 → snapshotAt k l1 snap → snapshotAt k l2 snap.
Proof.
  intros E. destruct k; cbn; [done|]. unfold machineAt. by rewrite !take_tail, E.
Qed.

(** The machine depends only on the positions it has applied. *)
Lemma machineAt_take k l1 l2 : take (S k) l1 = take (S k) l2 → machineAt k l1 = machineAt k l2.
Proof. intros E. unfold machineAt. by rewrite !take_tail, E. Qed.

Lemma mrel_mono a a' m : hist_le a a' → mrel a m → mrel a' m.
Proof.
  intros H. destruct m; cbn; try done.
  - intros (?&?&lc&?&?&?&?). split_and!; [done..|]. exists lc.
    split_and!; [by apply (hl_cands _ _ H)|done..].
  - intros Hv Hg. destruct (Hv Hg) as (?&lc&?&?). split; [by apply (hl_votes _ _ H)|].
    exists lc. split; [by apply (hl_cands _ _ H)|done].
  - intros (Hl&Hp&(x&Hx&Hxt)&He&Hlen&Hc&Hcm).
    destruct (hl_tlog _ _ H (ae_Term req)) as [k Hk]. rewrite Hk.
    split_and!; [by apply (hl_leader _ _ H)|done| |..].
    + exists x. split; [by apply lookup_app_l_Some|done].
    + rewrite drop_app_le by lia. rewrite take_app_le; [done|]. rewrite length_drop. lia.
    + rewrite length_app. lia.
    + done.
    + destruct Hcm as [?|(t&i&?&?&?)]; [by left|right]. exists t, i.
      split_and!; [by eapply committed_mono|done..].
  - intros Ha Hs'. destruct (Ha Hs'). split; [done|]. by eapply acked_mono.
  - intros (Hthr&Hl&Hp&(x&Hx&Hxt)&(t&c&Hin&Htc)&Hd&Hne&Hpe).
    destruct (hl_tlog _ _ H (is_Term req)) as [k Hk]. rewrite Hk.
    apply lookup_lt_Some in Hx as Hlt.
    split_and!; [done|by apply (hl_leader _ _ H)|done| | | |done|].
    + exists x. split; [by apply lookup_app_l_Some|done].
    + exists t, c. split; [by eapply committed_mono|done].
    + by rewrite machineAt_app.
    + by rewrite take_app_le by lia.
  - intros Ha Hs'. eapply acked_mono; [done|by apply Ha].
Qed.

(** A real node and its abstract counterpart. *)
Record nrel (a : AState) (i : string) n : Prop := {
  nr_id : nodeID n = i;
  nr_named : i ≠ ""%string;
  nr_members : wf_members n;
  nr_known : state n ≠ Follower →
    (peerAddrs n, peerHTTP n) = configOf B (a_log (a_nodes a i));
  nr_voter : state n ≠ Follower → is_Some (peerAddrs n !! i);
  nr_threshold : snapshotThreshold n = cfg_SnapshotThreshold base;
  nr_snapshotter : snapshotterSet n = true;
  nr_apply : applySet n = true;
  nr_full : ∃ l k, a_nodes a i = absNode l n ∧
    backs l k (log n) (snapshot n) (lastApplied n) (commitIndex n) (snapshotThreshold n)
      (machine n) ∧ memberOf (take (S k) l) (basePeers n, baseHTTP n);
  nr_votes : state n = Candidate → ∀ q, is_Some (votesReceived n !! q) →
    is_Some (peerAddrs n !! q) ∧ (currentTerm n, q, i) ∈ h_votes a;
  nr_match : state n = Leader → ∀ p, 0 < mapZ (matchIndex n) p →
    acked a (currentTerm n) p (S (Z.to_nat (mapZ (matchIndex n) p)));
  nr_spawned : ∀ p req, GoSendRequestVote p req ∈ spawned n → mrel a (MVoteReq i p req);
}.

Lemma nrel_mono a a' i n :
  hist_le a a' → a_nodes a' i = a_nodes a i → nrel a i n → nrel a' i n.
Proof.
  intros H Hi []. split; try done.
  - by rewrite Hi.
  - by rewrite Hi.
  - intros Hc q Hq. destruct (nr_votes0 Hc q Hq). split; [done|by apply (hl_votes _ _ H)].
  - intros Hl p Hp. eapply acked_mono; [done|by apply nr_match0].
  - intros p req Hp. eapply mrel_mono; [done|by apply nr_spawned0].
Qed.

(** ** Reading a node through the relation *)

(** The full log of a node, with everything the proofs read from it. *)
Record view (a : AState) (i : string) n (l : list LogEntry) (k : nat) : Prop := {
  vw_abs : a_nodes a i = absNode l n;
  vw_lt : (k < length l)%nat;
  vw_log : log n = cutAt k l;
  vw_snap : snapshotAt k l (snapshot n);
  vw_applied : Z.of_nat k ≤ lastApplied n ≤ commitIndex n;
  vw_machine : machine n = machineAt (Z.to_nat (lastApplied n)) l;
  vw_off : snapshotThreshold n ≤ 0 → k = 0%nat;
  vw_head : ∃ l', l = zeroEntry :: l';
  vw_positions : positions l;
  vw_base : memberOf (take (S k) l) (basePeers n, baseHTTP n);
  vw_full : Forall (full_change ch) l;
  vw_commit : commitIndex n < slen l;
  vw_first : lastIncludedIndexLocked n = Z.of_nat k;
  vw_last : lastLogIndexLocked n = slen l - 1;
}.

Lemma nrel_view a i n : good a → nrel a i n → ∃ l k, view a i n l k.
Proof.
  intros Hg H. destruct (nr_full _ _ _ H) as (l&k&Ha&[]&Hb). exists l, k.
  assert (El : a_log (a_nodes a i) = l) by (by rewrite Ha).
  pose proof (good_positions _ _ a i Hg) as Hp. rewrite El in Hp.
  pose proof (good_commit_lt _ _ a i Hg) as Hc. rewrite Ha in Hc. cbn in Hc.
  split; try done.
  - rewrite <- El. by eapply good_head.
  - rewrite <- El. by eapply good_full.
  - unfold slen. lia.
  - by eapply cut_first.
  - by eapply cut_last.
Qed.

(** The membership a node uses. *)
Lemma view_members a i n l k :
  wf_members n → view a i n l k → memberOf l (peerAddrs n, peerHTTP n).
Proof.
  intros [-> _] []. rewrite vw_log0. destruct (lookup_lt_is_Some_2 _ _ vw_lt0) as [e He].
  rewrite (cutAt_lt k l e He). cbn [tail]. rewrite <- (take_drop (S k) l) at 1.
  apply memberOf_app; [|by apply Forall_drop|done].
  intros E. apply (f_equal length) in E. rewrite length_take in E. change (length (@nil LogEntry)) with 0%nat in E. lia.
Qed.

Lemma nrel_known a i n l :
  nrel a i n → a_nodes a i = absNode l n → state n ≠ Follower →
  (peerAddrs n, peerHTTP n) = configOf B l.
Proof. intros H Ha Hs. rewrite (nr_known _ _ _ H Hs), Ha. done. Qed.

Lemma nrel_wf a i n : good a → nrel a i n → wf_node n.
Proof.
  intros Hg H. destruct (nrel_view a i n Hg H) as (l&k&V). split.
  - unfold wf_log. rewrite (vw_log _ _ _ _ _ V).
    apply cutAt_contiguous; [apply (vw_positions _ _ _ _ _ V)|apply (vw_lt _ _ _ _ _ V)].
  - apply (nr_members _ _ _ H).
  - rewrite (vw_first _ _ _ _ _ V). apply (vw_applied _ _ _ _ _ V).
Qed.

(** Where the membership never changes, every node has the one the cluster was
    started with. *)
Lemma nrel_fixed a i n :
  ch = false → good a → nrel a i n →
  basePeers n = P ∧ baseHTTP n = cfg_HTTPAddrs base ∧ peerAddrs n = P ∧
  peerHTTP n = cfg_HTTPAddrs base ∧ peerIDs n = sorted_keys P.
Proof.
  intros Hch Hg H. destruct (nrel_view a i n Hg H) as (l&k&V).
  pose proof (nr_members _ _ _ H) as Hwm.
  assert (Hno : ∀ l', Forall (full_change ch) l' → configOf B l' = B).
  { intros l' Hl. unfold configOf. apply applyEntries_no_change, Forall_tail.
    eapply Forall_impl; [exact Hl|]. intros e He. destruct (e_Change e) as [c|] eqn:E; [|done].
    destruct (He c E). congruence. }
  assert (Hm : ∀ l' m, Forall (full_change ch) l' → memberOf l' m → m = B).
  { intros l' m Hl [->|[? _]]; [by apply Hno|congruence]. }
  pose proof (vw_full _ _ _ _ _ V) as Hf.
  pose proof (Hm _ _ (Forall_take _ _ _ Hf) (vw_base _ _ _ _ _ V)) as [= E1 E2].
  pose proof (Hm _ _ Hf (view_members a i n l k Hwm V)) as [= E3 E4].
  destruct Hwm as [_ E5]. by rewrite E5, E3.
Qed.
End relation.

Arguments mrel : simpl never.

(** The machines of a run are ones whose snapshots restore them. *)
Lemma replay_ok {M} `{!StateMachine M, !StateMachineLaws M} (m0 : M) es :
  sm_ok m0 → sm_ok (replay m0 es).
Proof.
  unfold replay. revert m0. induction es as [|e es IH]; intros m0 H; [done|].
  apply IH. unfold applyOne. case_match; [by apply sm_apply_ok|done].
Qed.

Lemma machineAt_ok {M} `{!StateMachine M, !StateMachineLaws M} (m0 : M) k l :
  sm_ok m0 → sm_ok (machineAt m0 k l).
Proof. apply replay_ok. Qed.
