(* ===== verification/RefineOps.v ===== *)
(** Each operation of a node, as steps of the abstract protocol: for every
    operation, what it does to the node is matched by a sequence of steps of the
    node's abstract counterpart, and what it sends says only true things about
    the history. *)
From S2P Require Import Prelude Types Node Persist Membership Snapshot Log Election RaftOps Read Machine NodeInv Durable Spec SpecInv SpecSafety Network CutLog RefineBase LogSpec.
Open Scope Z_scope.
Open Scope go_scope.

(** Close [nrel a i n'] from [H : nrel a i n] when [n'] differs from [n] only in
    fields the relation does not read. *)
Ltac nr_frame H :=
  let H1 := fresh in let H2 := fresh in let H3 := fresh in let H4 := fresh in
  let H5 := fresh in let H6 := fresh in let H7 := fresh in let H8 := fresh in
  let H9 := fresh in let H10 := fresh in let H11 := fresh in let H12 := fresh in
  destruct H as [H1 H2 H3 H4 H5 H6 H7 H8 H9 H10 H11 H12];
  split; [exact H1|exact H2|exact H3|exact H4|exact H5|exact H6|exact H7|exact H8
         |exact H9|exact H10|exact H11|exact H12].

Section ops.
Context {M : Type} `{!StateMachine M}.
Context (base : Config) (m0 : M) (ch : bool).
Implicit Types (n : RaftNode M) (w : World M) (a : AState).

Abbreviation P := (cfg_PeerAddrs base).
Abbreviation B := (cfg_PeerAddrs base, cfg_HTTPAddrs base).
Abbreviation nrel := (nrel base m0 ch).
Abbreviation mrel := (mrel base m0 ch).
Abbreviation view := (view base m0 ch).
Abbreviation good := (good B ch).
Abbreviation evolves := (evolves B ch).
Abbreviation memberOf := (memberOf base ch).

(** The state [a] can evolve by steps of node [i] to one that matches [n'] and
    the messages [msgs]. *)
Definition sim a (i : string) n' (msgs : list Message) : Prop :=
  ∃ a', evolves i a a' ∧ nrel a' i n' ∧ ∀ m, m ∈ msgs → mrel a' m.

Lemma sim_here a i n : good a → nrel a i n → sim a i n [].
Proof.
  intros. exists a. split_and!; [by apply evolves_refl|done|]. by intros m ?%elem_of_nil.
Qed.

(** A step that sends nothing, with more known of the history after it. *)
Lemma sim_silent a i n' (P : AState → Prop) :
  (∃ a', evolves i a a' ∧ nrel a' i n' ∧ P a') → sim a i n' [].
Proof. intros (a'&?&?&_). exists a'. split_and!; [done..|]. by intros m ?%elem_of_nil. Qed.

Lemma sim_bind a i n n' msgs :
  sim a i n [] → (∀ a', evolves i a a' → good a' → nrel a' i n → sim a' i n' msgs) →
  sim a i n' msgs.
Proof.
  intros (a1&He&Hn&_) H. destruct (H a1 He (proj1 He) Hn) as (a2&He2&?&?).
  exists a2. split_and!; [by eapply evolves_trans|done..].
Qed.

(** A last part that changes nothing the relation reads. *)
Lemma sim_map a i n n' msgs :
  (∀ a', nrel a' i n → nrel a' i n') → sim a i n msgs → sim a i n' msgs.
Proof. intros H (a'&?&?&?). exists a'. split_and!; auto. Qed.

(** ** Parts that change nothing the relation reads *)

Lemma nrel_persist a i n : nrel a i n → nrel a i (persistLocked n).
Proof. intros H. destruct (persistLocked_shape n) as [s ->]. nr_frame H. Qed.

Lemma nrel_reset a i n : nrel a i n → nrel a i (resetElectionTimerLocked n).
Proof. intros H. destruct (resetElectionTimerLocked_shape n) as (d&r&->). nr_frame H. Qed.

Lemma nrel_notify a i n : nrel a i n → nrel a i (notifyPeersLocked n).
Proof. intros H. destruct (notifyPeersLocked_shape n) as (t&h&->). nr_frame H. Qed.

(** [broadcastAppendEntriesLocked] starts no vote request. *)
Lemma broadcast_votes n p req :
  GoSendRequestVote p req ∈ spawned (broadcastAppendEntriesLocked n) →
  GoSendRequestVote p req ∈ spawned n.
Proof.
  unfold broadcastAppendEntriesLocked. destruct (transport n); [|done].
  generalize (peerIDs n). intros ps. revert n. induction ps as [|q ps IH]; intros n; [done|].
  cbn. intros H. apply IH in H. revert H. unfold broadcastTo.
  case_decide; [done|]. destruct (mapB (replicating n) q); [done|]. cbn.
  rewrite elem_of_app, list_elem_of_singleton. naive_solver.
Qed.

Lemma nrel_broadcast a i n : nrel a i n → nrel a i (broadcastAppendEntriesLocked n).
Proof.
  intros H. pose proof (broadcast_votes n) as Hv.
  destruct (broadcast_shape n) as (r&s&E). rewrite E in *. cbn in Hv.
  destruct H. split; try assumption. intros p req Hp. apply nr_spawned. by apply Hv.
Qed.

(** Rebuilding the membership changes nothing where the log has not changed. *)
Lemma rebuild_id n : wf_members n → rebuildMembershipLocked n = n.
Proof.
  intros [Hm Hids]. rewrite rebuildMembershipLocked_eq, <- Hm. cbn. rewrite <- Hids.
  by destruct n.
Qed.

Lemma nrel_rebuild a i n : nrel a i n → nrel a i (rebuildMembershipLocked n).
Proof. intros H. by rewrite rebuild_id by apply (nr_members _ _ _ _ _ _ H). Qed.

(** ** Steps down *)

Lemma evolves_local i a a' nd :
  good a → astep B a a' → h_tlog a' = h_tlog a → a_nodes a' = update i nd (a_nodes a) →
  evolves i a a' ∧ a_nodes a' i = nd.
Proof.
  intros Hg Hs Ht Hn. rewrite Hn, update_eq. split; [|done].
  apply evolves_step; [done..| |].
  - unfold tidx. rewrite Ht. apply Hg.
  - intros j Hj. rewrite Hn. by apply update_ne.
Qed.

(** The log of the abstract counterpart stands behind the node. *)
Lemma nrel_backs a i n l :
  nrel a i n → a_nodes a i = absNode l n →
  ∃ k, backs m0 l k (log n) (snapshot n) (lastApplied n) (commitIndex n)
    (snapshotThreshold n) (machine n) ∧ memberOf (take (S k) l) (basePeers n, baseHTTP n).
Proof.
  intros H Ha. destruct (nr_full _ _ _ _ _ _ H) as (l'&k&Ha'&Hb). exists k.
  rewrite Ha in Ha'. unfold absNode in Ha'. by simplify_eq.
Qed.

(** A node that becomes a follower, keeping its log. *)
Lemma nrel_follower a a' i n n' l :
  nrel a i n → a_nodes a i = absNode l n → hist_le a a' → a_nodes a' i = absNode l n' →
  state n' = Follower →
  (∃ t v s l, n' = set_leaderID l (set_state Follower (set_storage s
     (set_votedFor v (set_currentTerm t n))))) →
  nrel a' i n'.
Proof.
  intros H Hl Hh Ha Hst (t&v&s&ld&->).
  destruct (nrel_backs a i n l H Hl) as [k Hb]. destruct H.
  split; try assumption; cbn; try done.
  - by exists l, k.
  - intros p req Hp. eapply mrel_mono; [done|by apply nr_spawned].
Qed.

Lemma sim_becomeFollower a i n t ld :
  good a → nrel a i n → currentTerm n ≤ t → sim a i (becomeFollowerLocked t ld n) [].
Proof.
  intros Hg H Hle. destruct (nr_full _ _ _ _ _ _ H) as (l&k&Ha&_). unfold becomeFollowerLocked.
  case_decide.
  - destruct (persistLocked_shape (set_votedFor "" (set_currentTerm t n))) as [s ->].
    destruct (evolves_local i a _ _ Hg
      (AS_new_term B a i t ltac:(rewrite Ha; cbn; lia)) eq_refl eq_refl) as [He Hi].
    eexists. split_and!; [exact He| |by intros m ?%elem_of_nil].
    eapply nrel_follower; [exact H|exact Ha|apply He| |done|by eexists _, _, _, _].
    rewrite Hi, Ha. done.
  - assert (t = currentTerm n) as -> by lia.
    destruct (evolves_local i a _ _ Hg (AS_step_down B a i) eq_refl eq_refl) as [He Hi].
    eexists. split_and!; [exact He| |by intros m ?%elem_of_nil].
    eapply nrel_follower; [exact H|exact Ha|apply He| |done|].
    + rewrite Hi, Ha. done.
    + exists (currentTerm n), (votedFor n), (storage n), ld. by destruct n.
Qed.

Lemma sim_stepDown a i n t :
  good a → nrel a i n → currentTerm n ≤ t →
  sim a i (resetElectionTimerLocked (becomeFollowerLocked t "" n)) [].
Proof.
  intros. eapply sim_map; [intros ?; apply nrel_reset|]. by apply sim_becomeFollower.
Qed.

Lemma sim_acceptLeader a i n t l :
  good a → nrel a i n → currentTerm n ≤ t → sim a i (acceptLeader t l n) [].
Proof.
  intros Hg H Hle. unfold acceptLeader.
  assert (Hs : sim a i (if decide (t > currentTerm n ∨ state n ≠ Follower)
    then becomeFollowerLocked t l n else n) []).
  { case_decide; [by apply sim_becomeFollower|by apply sim_here]. }
  revert Hs. generalize (if decide (t > currentTerm n ∨ state n ≠ Follower)
    then becomeFollowerLocked t l n else n). intros n'. apply sim_map. intros a' H'.
  destruct (resetElectionTimerLocked_shape (set_leaderID l n')) as (d&r&->). nr_frame H'.
Qed.

Lemma acceptLeader_facts t l n :
  currentTerm n ≤ t →
  currentTerm (acceptLeader t l n) = t ∧ state (acceptLeader t l n) = Follower.
Proof.
  intros Hle. unfold acceptLeader.
  assert (Hs : let n' := if decide (t > currentTerm n ∨ state n ≠ Follower)
    then becomeFollowerLocked t l n else n in currentTerm n' = t ∧ state n' = Follower).
  { cbn. case_decide as Hd.
    - unfold becomeFollowerLocked. case_decide; [|cbn; split; [lia|done]].
      destruct (persistLocked_shape (set_votedFor "" (set_currentTerm t n))) as [s ->]. done.
    - split; [lia|]. destruct (state n); naive_solver. }
  revert Hs. cbn zeta. generalize (if decide (t > currentTerm n ∨ state n ≠ Follower)
    then becomeFollowerLocked t l n else n). intros n' [H1 H2].
  destruct (resetElectionTimerLocked_shape (set_leaderID l n')) as (d&r&->). done.
Qed.

(** ** Committing and applying *)

(** The peers of a set that a count of [peerIDs] reaches form a quorum. *)
Lemma count_quorum n (F : string → Prop) `{Hdec : !∀ p, Decision (F p)} :
  wf_members n → majority n ≤ slen (filter F (peerIDs n)) →
  quorum (dom (peerAddrs n)) (list_to_set (filter F (peerIDs n))).
Proof.
  intros [_ Hids] Hm. unfold majority in Hm. rewrite Hids in *.
  unfold slen in Hm. rewrite length_sorted_keys in Hm. split.
  - intros p Hp. rewrite elem_of_list_to_set, list_elem_of_filter, elem_of_sorted_keys in Hp.
    apply elem_of_dom. by destruct Hp.
  - rewrite size_list_to_set by apply NoDup_filter, NoDup_sorted_keys.
    by rewrite size_dom.
Qed.

Lemma sim_advance a i n :
  good a → nrel a i n → state n = Leader → sim a i (advanceCommitLocked n) [].
Proof.
  intros Hg H Hl. destruct (nrel_view _ _ _ a i n Hg H) as (l&k&[]).
  destruct (advanceCommitLocked_spec n) as [[-> _]|(c&Hc&[Ht Hm]&_&->)];
    [lia|by apply sim_here|].
  rewrite (cut_termAt n k l) in Ht by (done || lia).
  destruct (l !z c) as [e|] eqn:Ee; [|done]. apply zlookup_Some in Ee as [_ Ee].
  set (Q := list_to_set (filter (λ p, c ≤ mapZ (matchIndex n) p) (peerIDs n)) : gset string).
  assert (Hq : quorum (conf B l) Q).
  { pose proof (nrel_known _ _ _ _ _ _ _ H vw_abs ltac:(congruence)) as Hk. unfold conf.
    rewrite <- Hk. apply count_quorum; [apply (nr_members _ _ _ _ _ _ H)|exact Hm]. }
  assert (Hs := AS_commit B a i (Z.to_nat c) e Q). rewrite !vw_abs in Hs. cbn in Hs.
  assert (Hacks : ∀ q, q ∈ Q → acked a (currentTerm n) q (S (Z.to_nat c))).
  { intros q Hin. unfold Q in Hin. rewrite elem_of_list_to_set, list_elem_of_filter in Hin.
    destruct Hin as [Hge _]. destruct (nr_match _ _ _ _ _ _ H Hl q ltac:(lia)) as (m'&?&?).
    exists m'. split; [done|]. lia. }
  cbn in Ht. injection Ht as Ht.
  destruct (evolves_local i a _ _ Hg
    (Hs Hl Ee Ht Hq Hacks ltac:(lia)) eq_refl eq_refl) as [He Hi].
  eexists. split_and!; [exact He| |by intros m ?%elem_of_nil].
  match type of Hi with _ = ?x =>
    assert (E : x = absNode l (set_commitIndex c n)) by (unfold absNode; cbn; by rewrite Hl) end.
  pose proof (eq_trans Hi E) as Hi'. clear E Hi Hs.
  destruct H. split; try assumption; cbn.
  - intros Hf. rewrite (nr_known Hf), vw_abs. f_equal. exact (f_equal a_log (eq_sym Hi')).
  - exists l, k. split; [exact Hi'|]. split; [|done]. split; try done. lia.
Qed.

(** The machine after more entries of the log. *)
Lemma machineAt_drop p q l :
  (p ≤ q)%nat →
  foldl (applyOne true) (machineAt m0 p l) (take (q - p) (drop (S p) l)) = machineAt m0 q l.
Proof.
  intros Hpq. unfold machineAt, replay. rewrite <- foldl_app. f_equal.
  rewrite <- (take_drop p (take q (tail l))), take_take, Nat.min_l by lia. f_equal.
  rewrite skipn_firstn_comm. by destruct l; cbn; rewrite ?drop_nil, ?take_nil.
Qed.

(** The loop that applies the committed entries. *)
Lemma applyLoop_view a i n l k :
  nrel a i n → view a i n l k →
  applyLoop (Z.to_nat (commitIndex n - lastApplied n)) n =
    set_machine (machineAt m0 (Z.to_nat (commitIndex n)) l) (set_lastApplied (commitIndex n) n).
Proof.
  intros H []. rewrite applyLoop_eq; [| |lia..].
  2:{ unfold wf_log. rewrite vw_log. by apply cutAt_contiguous. }
  replace (lastApplied n + Z.of_nat (Z.to_nat (commitIndex n - lastApplied n)))
    with (commitIndex n) by lia.
  f_equal. rewrite (nr_apply _ _ _ _ _ _ H), vw_machine, vw_log, vw_first.
  replace (Z.to_nat (lastApplied n + 1 - Z.of_nat k)) with (S (Z.to_nat (lastApplied n)) - k)%nat by lia.
  rewrite drop_cutAt by (done || lia).
  replace (Z.to_nat (commitIndex n - lastApplied n)) with
    (Z.to_nat (commitIndex n) - Z.to_nat (lastApplied n))%nat by lia.
  apply machineAt_drop. lia.
Qed.

Lemma nrel_applyLoop a i n :
  good a → nrel a i n → nrel a i (applyLoop (Z.to_nat (commitIndex n - lastApplied n)) n).
Proof.
  intros Hg H. destruct (nrel_view _ _ _ a i n Hg H) as (l&k&V).
  rewrite (applyLoop_view a i n l k H V). destruct V. destruct H.
  split; try assumption; cbn. exists l, k. split; [done|]. split; [|done]. split; try done. lia.
Qed.

(** The entries of a cut log up to an index. *)
Lemma entriesUpTo_cut k q l :
  positions l → (k < length l)%nat → (k ≤ q)%nat →
  entriesUpTo (Z.of_nat q) (tail (cutAt k l)) = drop (S k) (take (S q) l) ∧
  tail (cutAt k l) = drop (S k) (take (S q) l) ++ drop (S q) l.
Proof.
  intros Hpos Hk Hq. destruct (lookup_lt_is_Some_2 _ _ Hk) as [e He].
  rewrite (cutAt_lt k l e He). cbn [tail].
  assert (E : drop (S k) l = drop (S k) (take (S q) l) ++ drop (S q) l).
  { rewrite <- (take_drop (S q) l) at 1. destruct (decide (S q ≤ length l)%nat).
    - rewrite drop_app_le; [done|]. rewrite length_take. lia.
    - rewrite (drop_ge l (S q)) by lia. by rewrite !app_nil_r. }
  split; [|done]. rewrite E. apply entriesUpTo_split.
  - apply Forall_lookup_2. intros p x Hx. rewrite lookup_drop in Hx.
    apply lookup_take_Some in Hx as [Hx ?]. rewrite (Hpos _ _ Hx). lia.
  - intros x Hx. rewrite head_lookup, lookup_drop in Hx. rewrite (Hpos _ _ Hx). lia.
Qed.

(** Compaction keeps the full log and moves the cut. *)
Lemma nrel_compact a i n :
  good a → nrel a i n → ¬ snapshotThreshold n ≤ 0 → nrel a i (compactLocked (lastApplied n) n).
Proof.
  intros Hg H Hon. destruct (nrel_view _ _ _ a i n Hg H) as (l&k&V). destruct V.
  pose proof (nr_members _ _ _ _ _ _ H) as [Hm Hids]. unfold compactLocked.
  case_decide as Hgt; [done|]. rewrite (cut_entryAt n k l) by (done || lia).
  destruct (l !z lastApplied n) as [e|] eqn:Ee; [|done]. apply zlookup_Some in Ee as [_ Ee].
  destruct (sm_snapshot (machine n)) as [data|] eqn:Ed; [|done].
  unfold sliceIndexLocked. change (e_Index (firstEntry n)) with (lastIncludedIndexLocked n).
  rewrite vw_first. case_decide; [done|].
  destruct (entriesUpTo_cut k (Z.to_nat (lastApplied n)) l) as [Eu Et]; [done|done|lia|].
  rewrite <- vw_log in Eu, Et. rewrite Z2Nat.id in Eu by lia.
  unfold membershipAtLocked. rewrite Eu. rewrite Et, applyEntries_app in Hm.
  set (ap := Z.to_nat (lastApplied n)) in *.
  assert (Hb : memberOf (take (S ap) l)
    (applyEntries (basePeers n, baseHTTP n) (drop (S k) (take (S ap) l)))).
  { rewrite <- (take_drop (S k) (take (S ap) l)) at 1. rewrite take_take, Nat.min_l by lia.
    apply memberOf_app; [|by apply Forall_drop, Forall_take|done].
    destruct vw_head as [l' ->]. done. }
  destruct (applyEntries (basePeers n, baseHTTP n) (drop (S k) (take (S ap) l))) as [bp bh].
  rewrite vw_log.
  replace (Z.to_nat (lastApplied n - Z.of_nat k + 1)) with (S (ap - k)) by lia.
  replace (lastApplied n) with (Z.of_nat ap) at 1 by lia.
  rewrite (cutAt_again k _ l e) by (done || lia).
  assert (Hlt : (ap < length l)%nat) by (by apply lookup_lt_Some in Ee).
  apply nrel_persist, nrel_notify. rewrite rebuild_id.
  2:{ split; [|exact Hids]. cbn. rewrite (cutAt_lt ap l e Ee). exact Hm. }
  destruct H. split; try assumption; try done; cbn.
  - split; [|exact Hids]. cbn. rewrite (cutAt_lt ap l e Ee). exact Hm.
  - exists l, ap. split; [done|]. split; [|done]. split; try done.
    + unfold snapshotAt. destruct ap eqn:E; [lia|]. by rewrite <- vw_machine.
    + lia.
Qed.

Lemma nrel_maybeCompact a i n : good a → nrel a i n → nrel a i (maybeCompactLocked n).
Proof.
  intros Hg H. unfold maybeCompactLocked. destruct (negb _ || _) eqn:E; [done|].
  apply orb_false_iff in E as [_ Hon%bool_decide_eq_false]. case_decide; [done|].
  by apply nrel_compact.
Qed.

Lemma nrel_applyCommitted a i n : good a → nrel a i n → nrel a i (applyCommittedLocked n).
Proof. intros Hg H. by apply nrel_maybeCompact, nrel_applyLoop. Qed.

Lemma sim_commit a i n :
  good a → nrel a i n → state n = Leader →
  sim a i (applyCommittedLocked (advanceCommitLocked n)) [].
Proof.
  intros Hg H Hl. eapply sim_bind; [by apply sim_advance|]. intros a' _ Hg' H'.
  apply sim_here; [done|]. by apply nrel_applyCommitted.
Qed.

(** ** A leader's own entries *)

(** The fields of the relation that a leader's append does not change. *)
Definition static n :=
  (nodeID n, basePeers n, baseHTTP n, (snapshotThreshold n, snapshot n, applySet n, snapshotterSet n)).

(** The membership of a node. *)
Definition members n := (peerAddrs n, peerHTTP n, peerIDs n).

(** The membership after an entry without a change. *)
Lemma own_members a i n n' l k e :
  nrel a i n → view a i n l k → state n ≠ Follower → ¬ is_change e →
  static n' = static n → members n' = members n → log n' = log n ++ [e] →
  wf_members n' ∧ (peerAddrs n', peerHTTP n') = configOf B (l ++ [e]) ∧
  is_Some (peerAddrs n' !! i).
Proof.
  intros H [] Hs Hc Hst Hme Hlog. pose proof (nr_voter _ _ _ _ _ _ H Hs) as Hv. unfold static in Hst. unfold members in Hme. simplify_eq.
  pose proof (nrel_known _ _ _ _ _ _ _ H vw_abs Hs) as Hk.
  assert (E : ∀ m, applyEntry m e = m).
  { intros m. unfold applyEntry, is_change in *. destruct (e_Change e); [by destruct Hc|done]. }
  destruct vw_head as [l' ->]. split_and!; [| |congruence].
  - destruct (nr_members _ _ _ _ _ _ H) as [Hm Hids]. split; [|congruence].
    destruct (log n) as [|x lg] eqn:El.
    { by apply (f_equal length) in vw_log; rewrite length_cutAt in vw_log by done; cbn in *; lia. }
    rewrite Hlog. cbn [app tail]. rewrite applyEntries_snoc, E. cbn [tail] in Hm. congruence.
  - rewrite configOf_app by done.
    change (applyEntries (configOf B (zeroEntry :: l')) [e]) with
      (applyEntry (configOf B (zeroEntry :: l')) e). rewrite E. congruence.
Qed.

Lemma tidx_own a i n l e t :
  good a → a_nodes a i = absNode l n → e_Index e = slen l → full_change ch e →
  ∀ t' k x, updateZ t (l ++ [e]) (h_tlog a) t' !! k = Some x →
    e_Index x = Z.of_nat k ∧ full_change ch x.
Proof.
  intros Hg Ha Hi Hc t' k x. unfold updateZ. case_decide; [|apply Hg].
  intros Hx. apply lookup_app_Some in Hx as [Hx|[Hge Hx]].
  - pose proof (good_log _ _ a i k x Hg) as Hgl. rewrite Ha in Hgl. by apply Hgl.
  - apply list_lookup_singleton_Some in Hx as [Hk <-]. split; [|done].
    rewrite Hi. unfold slen. lia.
Qed.

(** The node after it has appended its own entry [e] as leader. *)
Lemma nrel_own a a' i n n' l k e :
  nrel a i n → view a i n l k → hist_le a a' → a_nodes a' i = absNode (l ++ [e]) n' →
  acked a' (currentTerm n) i (S (length l)) →
  wf_members n' → (peerAddrs n', peerHTTP n') = configOf B (l ++ [e]) →
  is_Some (peerAddrs n' !! i) →
  static n' = static n → log n' = log n ++ [e] → state n' = Leader →
  currentTerm n' = currentTerm n →
  commitIndex n' = commitIndex n → lastApplied n' = lastApplied n →
  machine n' = machine n → spawned n' = spawned n →
  (∀ p, 0 < mapZ (matchIndex n') p →
     (p = i ∧ mapZ (matchIndex n') p = slen l) ∨
     (state n = Leader ∧ mapZ (matchIndex n') p = mapZ (matchIndex n) p)) →
  nrel a' i n'.
Proof.
  intros H [] Hh Habs Hack Hwm Hcf Hvt Hst Hlog Hrole Ht Hc Hap Hm Hsp Hmatch.
  unfold static in Hst. injection Hst as ? ? ? ? Hsn ? ?. destruct H. split; try congruence.
  - intros _. by rewrite Habs.
  - exists (l ++ [e]), k. split; [done|]. split; [|by rewrite take_app_le by lia; congruence]. split.
    + rewrite length_app. lia.
    + rewrite Hlog, vw_log. by rewrite cutAt_snoc.
    + rewrite Hsn. eapply snapshotAt_ext; [|exact vw_snap]. by rewrite take_app_le by lia.
    + lia.
    + rewrite Hm, Hap, vw_machine. rewrite machineAt_app; [done|]. unfold slen in *. lia.
    + intros ?. apply vw_off. congruence.
  - intros _ p Hp. rewrite Ht. destruct (Hmatch p Hp) as [[-> Hv]|[HL Hv]].
    + rewrite Hv. unfold slen. by rewrite Nat2Z.id.
    + rewrite Hv in Hp |- *. eapply acked_mono; [exact Hh|]. by apply nr_match.
  - intros p req Hp. rewrite Hsp in Hp. eapply mrel_mono; [exact Hh|by apply nr_spawned].
Qed.

Lemma acked_now a t i m : (t, i, m) ∈ h_acks a → acked a t i m.
Proof. intros H. by exists m. Qed.

(** [Propose] and the append of [proposeChangeLocked]: the entry is in the log of
    the term. *)
Lemma appends_own a i n n' l k e :
  good a → nrel a i n → view a i n l k → state n = Leader →
  e_Term e = currentTerm n → e_Index e = slen l → full_change ch e →
  (is_change e → meets (conf B l) (conf B (l ++ [e])) ∧
     (∀ p x, l !! p = Some x → is_change x → (p ≤ Z.to_nat (commitIndex n))%nat) ∧
     ∃ x, l !! Z.to_nat (commitIndex n) = Some x ∧ e_Term x = currentTerm n) →
  wf_members n' → (peerAddrs n', peerHTTP n') = configOf B (l ++ [e]) →
  is_Some (peerAddrs n' !! i) →
  static n' = static n → log n' = log n ++ [e] → state n' = Leader →
  currentTerm n' = currentTerm n → votedFor n' = votedFor n →
  commitIndex n' = commitIndex n → lastApplied n' = lastApplied n →
  machine n' = machine n → spawned n' = spawned n →
  (∀ p, 0 < mapZ (matchIndex n') p →
     (p = i ∧ mapZ (matchIndex n') p = slen l) ∨
     (state n = Leader ∧ mapZ (matchIndex n') p = mapZ (matchIndex n) p)) →
  ∃ a', evolves i a a' ∧ nrel a' i n' ∧ h_tlog a' (currentTerm n) = l ++ [e].
Proof.
  intros Hg H V Hl Het Hei Hec Hch Hwm Hcf Hvt Hst Hlog Hrole Ht Hv Hc Hap Hm Hsp Hmatch.
  pose proof (vw_abs _ _ _ _ _ _ _ _ V) as Ha.
  assert (Hs := AS_propose B a i e). rewrite !Ha in Hs. cbn in Hs. specialize (Hs Hl Het Hch).
  assert (He := evolves_step _ _ i a _ Hg Hs (tidx_own a i n l e _ Hg Ha Hei Hec)
    ltac:(intros j Hj; cbn; by apply update_ne)).
  eexists. split_and!; [exact He| |cbn; unfold updateZ; by rewrite decide_True].
  eapply (nrel_own a _ i n n' l k e); try done; [apply He| |].
  - cbn. rewrite update_eq. unfold absNode. by rewrite Ht, Hv, Hrole, Hc.
  - apply acked_now. cbn. rewrite length_app. cbn. rewrite Nat.add_1_r. apply elem_of_cons. by left.
Qed.

Lemma zero_matchIndex ps (m : gmap string Z) p :
  (∀ q, mapZ m q = 0) → mapZ (foldl (λ m p, <[p := 0]> m) m ps) p = 0.
Proof.
  revert m. induction ps as [|q ps IH]; intros m Hm; cbn; [done|].
  apply IH. intros r. rewrite mapZ_insert. by case_decide.
Qed.

Lemma sim_becomeLeader a i n :
  good a → nrel a i n → state n = Candidate →
  majority n ≤ Z.of_nat (size (votesReceived n)) →
  sim a i (becomeLeaderLocked n) [].
Proof.
  intros Hg H Hc Hmaj. unfold becomeLeaderLocked. cbn zeta.
  destruct (nrel_view _ _ _ a i n Hg H) as (l&k&V). pose proof (vw_abs _ _ _ _ _ _ _ _ V) as Ha.
  pose proof (vw_last _ _ _ _ _ _ _ _ V) as Hlast.
  eapply sim_map; [intros ?; apply nrel_broadcast|].
  eapply (sim_bind _ _ (elected n)).
  2:{ intros a' _ Hg' H'. apply sim_commit; [done..|]. unfold elected. cbn zeta.
      match goal with |- context [persistLocked ?x] =>
        destruct (persistLocked_shape x) as [s ->] end. done. }
  set (e := MkEntry (currentTerm n) (lastLogIndexLocked n + 1) [] None).
  assert (Hne : state n ≠ Follower) by congruence.
  assert (Hq : quorum (conf B l) (dom (votesReceived n))).
  { pose proof (nrel_known _ _ _ _ _ _ _ H Ha Hne) as Hk. unfold conf. rewrite <- Hk. cbn [fst].
    unfold majority in Hmaj. destruct (nr_members _ _ _ _ _ _ H) as [_ Hids].
    rewrite Hids in Hmaj. unfold slen in Hmaj.
    rewrite length_sorted_keys in Hmaj. split; [|by rewrite !size_dom].
    intros q Hq. apply elem_of_dom in Hq. apply elem_of_dom.
    by apply (nr_votes _ _ _ _ _ _ H Hc). }
  assert (Hs := AS_elect B a i e (dom (votesReceived n))). rewrite !Ha in Hs. cbn in Hs.
  assert (Hv : ∀ q, q ∈ dom (votesReceived n) → (currentTerm n, q, i) ∈ h_votes a).
  { intros q Hin. apply elem_of_dom in Hin. by apply (nr_votes _ _ _ _ _ _ H Hc). }
  assert (Hnc : ¬ is_change e) by (by intros []).
  specialize (Hs Hc Hq Hv eq_refl Hnc).
  assert (He := evolves_step _ _ i a _ Hg Hs
    (tidx_own a i n l e _ Hg Ha ltac:(cbn; lia) ltac:(by intros ?))
    ltac:(intros j Hj; cbn; by apply update_ne)).
  eexists. split_and!; [exact He| |by intros m ?%elem_of_nil].
  unfold elected. cbn zeta. apply nrel_persist.
  match goal with |- nrel _ _ ?x => pose proof (own_members a i n x l k e H V Hne Hnc
    eq_refl eq_refl eq_refl) as (Hwm&Hcf&Hvt) end.
  eapply (nrel_own a _ i n _ l k e); try done; [apply He| | |].
  - cbn. by rewrite update_eq.
  - apply acked_now. cbn. rewrite length_app. cbn. rewrite Nat.add_1_r. apply elem_of_cons. by left.
  - intros p. cbn. rewrite mapZ_insert, (nr_id _ _ _ _ _ _ H). case_decide as Hp.
    + intros _. left. split; [done|]. subst p.
      change (lastLogIndexLocked n + 1 = slen l). lia.
    + rewrite zero_matchIndex by done. lia.
Qed.

(** ** Elections *)

(** The node is a voter by the membership of its log. *)
Definition aware a (i : string) n : Prop :=
  (peerAddrs n, peerHTTP n) = configOf B (a_log (a_nodes a i)) ∧ is_Some (peerAddrs n !! i).

Lemma sim_becomeCandidate a i n : good a → nrel a i n → aware a i n → sim a i (becomeCandidate n) [].
Proof.
  intros Hg H [Hk Hv]. destruct (nr_full _ _ _ _ _ _ H) as (l&k&Ha&Hb). unfold becomeCandidate. cbn zeta.
  eapply sim_map; [intros ?; apply nrel_persist|].
  eapply sim_map; [intros ?; apply nrel_reset|].
  assert (Hs := AS_timeout B a i). rewrite !Ha in Hs. cbn in Hs.
  assert (Hin : i ∈ conf B l) by (unfold conf; rewrite Ha in Hk; cbn in Hk; rewrite <- Hk; by apply elem_of_dom).
  specialize (Hs Hin (nr_named _ _ _ _ _ _ H)).
  destruct (evolves_local i a _ _ Hg Hs eq_refl eq_refl) as [He Hi].
  eexists. split_and!; [exact He| |by intros m ?%elem_of_nil].
  destruct He as (_&Hh&_). destruct H. split; try assumption; cbn.
  - intros _. rewrite Hk, Ha, update_eq. done.
  - done.
  - exists l, k. split; [|done]. rewrite update_eq. unfold absNode. cbn. by rewrite nr_id.
  - intros _ q [x Hq]. rewrite nr_id in Hq. apply lookup_singleton_Some in Hq as [<- _].
    split; [done|]. apply elem_of_cons. by left.
  - done.
  - intros p req Hp. eapply mrel_mono; [exact Hh|by apply nr_spawned].
Qed.

Lemma becomeCandidate_state n : state (becomeCandidate n) = Candidate.
Proof.
  unfold becomeCandidate. cbn zeta.
  match goal with |- context [persistLocked ?x] => destruct (persistLocked_shape x) as [s ->] end.
  match goal with |- context [resetElectionTimerLocked ?x] =>
    destruct (resetElectionTimerLocked_shape x) as (d&r&->) end. done.
Qed.

(** The request of a candidate says what its abstract candidature says. *)
Lemma mrel_voteRequest a i n p :
  good a → nrel a i n → state n = Candidate → p ∈ peerIDs n →
  mrel a (MVoteReq i p (voteRequest n)).
Proof.
  intros Hg H Hc Hp. destruct (nrel_view _ _ _ a i n Hg H) as (l&k&[]).
  destruct (ei_candidate _ (good_einv _ _ a Hg) i) as (_&_&Hin); [by rewrite vw_abs|].
  rewrite vw_abs in Hin. cbn in Hin. unfold mrel, voteRequest. cbn.
  split_and!; [apply (nr_id _ _ _ _ _ _ H)|apply (nr_named _ _ _ _ _ _ H)|].
  exists l. split_and!; [done| |done|by eapply cut_last_term]. unfold conf.
  rewrite <- (nrel_known _ _ _ _ _ _ _ H vw_abs) by congruence. apply elem_of_dom.
  destruct (nr_members _ _ _ _ _ _ H) as [_ Hids]. rewrite Hids in Hp. by apply elem_of_sorted_keys.
Qed.

Lemma requestVotes_spawned req ps n p r :
  GoSendRequestVote p r ∈ spawned (foldl (requestVoteFrom req) n ps) →
  GoSendRequestVote p r ∈ spawned n ∨ r = req ∧ p ∈ ps.
Proof.
  revert n. induction ps as [|q ps IH]; intros n; cbn; [by left|].
  intros Hin. apply IH in Hin as [Hin|[? ?]]; [|right; by split; [|right]]. revert Hin.
  unfold requestVoteFrom. case_decide; [by left|]. cbn.
  rewrite elem_of_app, list_elem_of_singleton. intros [?|[= -> ->]]; [by left|right].
  split; [done|by left].
Qed.

Lemma sim_startElection a i n :
  good a → nrel a i n → aware a i n → sim a i (startElectionLocked n) [].
Proof.
  intros Hg H Haw. unfold startElectionLocked.
  destruct (_ || _); [by apply sim_here; [|apply nrel_reset]|].
  pose proof (becomeCandidate_state n) as Hc. pose proof (sim_becomeCandidate a i n Hg H Haw) as Hs.
  revert Hc Hs. generalize (becomeCandidate n). intros c Hc Hs. cbn zeta.
  eapply sim_bind; [exact Hs|]. intros a' _ Hg' H'.
  case_decide; [by apply sim_becomeLeader|].
  pose proof (mrel_voteRequest a' i c) as Hreq.
  pose proof (requestVotes_spawned (voteRequest c) (peerIDs c) c) as Hsp.
  destruct (requestVotes_shape (voteRequest c) (peerIDs c) c) as [s E]. rewrite E in *.
  cbn in Hsp. apply sim_here; [done|]. specialize (λ p, Hreq p Hg' H' Hc).
  clear -H' Hreq Hsp. destruct H'. split; try assumption.
  intros p r Hp. destruct (Hsp p r Hp) as [?|[-> ?]]; [by apply nr_spawned|by apply Hreq].
Qed.

Lemma sim_requestVoteReply a i n j req resp :
  good a → nrel a i n → mrel a (MVoteResp i j req resp) →
  sim a i (requestVoteReply j req resp n) [].
Proof.
  intros Hg H Hm. unfold requestVoteReply. case_decide; [apply sim_stepDown; [done..|lia]|].
  case_decide as Hd; [by apply sim_here|].
  destruct (rvr_VoteGranted resp) eqn:Hgr; cbn [negb]; [|by apply sim_here].
  destruct (Hm Hgr) as (Hv&lc&Hlc&Hj'). cbn zeta.
  assert (Hcand : state n = Candidate) by (destruct (state n); naive_solver).
  assert (Hterm : currentTerm n = rv_Term req) by lia.
  assert (Hj : is_Some (peerAddrs n !! j)).
  { destruct (nrel_view _ _ _ a i n Hg H) as (l&k&[]).
    destruct (ei_candidate _ (good_einv _ _ a Hg) i) as (_&_&Hin); [by rewrite vw_abs|].
    rewrite vw_abs in Hin. cbn in Hin. rewrite Hterm in Hin.
    assert (lc = l) as -> by (by eapply (ei_cands_fun _ (good_einv _ _ a Hg))).
    unfold conf in Hj'. rewrite <- (nrel_known _ _ _ _ _ _ _ H vw_abs) in Hj' by congruence.
    by apply elem_of_dom in Hj'. }
  assert (H' : nrel a i (put_votesReceived j true n)).
  { clear -H Hv Hj Hcand Hterm. destruct H. split; try assumption. cbn.
    intros _ q [x Hq]. apply lookup_insert_Some in Hq as [[<- _]|[_ Hq]].
    - by rewrite Hterm.
    - apply nr_votes; [done|by eexists]. }
  case_decide; [by apply sim_becomeLeader|by apply sim_here].
Qed.

(** The comparison of logs is the one of the protocol. *)
Lemma isLogUpToDate_spec a i n l k lc :
  view a i n l k →
  isLogUpToDateLocked (slen lc - 1) (last_term lc) n = true → up_to_date lc l.
Proof.
  intros []. unfold isLogUpToDateLocked. rewrite (cut_last_term n k l) by done.
  change (e_Term (default zeroEntry (last l))) with (last_term l). unfold up_to_date.
  case_decide; intros Hb%bool_decide_eq_true_1; [left; lia|right].
  unfold slen in *. split; lia.
Qed.

(** A vote that is granted. *)
Lemma sim_grant a i j n l k lc :
  good a → nrel a j n → view a j n l k → (currentTerm n, i, lc) ∈ h_cands a → i ≠ ""%string →
  votedFor n = ""%string ∨ votedFor n = i → up_to_date lc l →
  ∃ a', evolves j a a' ∧ nrel a' j (set_votedFor i n) ∧ (currentTerm n, j, i) ∈ h_votes a'.
Proof.
  intros Hg H [] Hin Hne Hvote Hup.
  assert (Hs := AS_grant B a j i lc). rewrite !vw_abs in Hs. cbn in Hs.
  specialize (Hs Hin Hne Hvote Hup).
  destruct (evolves_local j a _ _ Hg Hs eq_refl eq_refl) as [He Hi].
  eexists. split_and!; [exact He| |cbn; apply elem_of_cons; by left].
  destruct He as (_&Hh&_). destruct H. split; try assumption; cbn.
  - intros Hf. rewrite (nr_known Hf), vw_abs, update_eq. done.
  - exists l, k. by split.
  - intros Hst q Hq. destruct (nr_votes Hst q Hq). split; [done|]. apply elem_of_cons. by right.
Qed.

Lemma sim_HandleRequestVote a i j n req :
  good a → nrel a j n → mrel a (MVoteReq i j req) →
  sim a j (HandleRequestVote req n).1 [MVoteResp i j req (HandleRequestVote req n).2].
Proof.
  intros Hg H Hm. unfold HandleRequestVote.
  assert (Hfalse : ∀ a n' t, sim a j n' [] → sim a j n' [MVoteResp i j req (MkVoteResp t false)]).
  { intros ? n' t (a'&?&?&_). exists a'. split_and!; [done..|]. by intros m ->%list_elem_of_singleton. }
  case_decide as Hlt; [by apply Hfalse, sim_here|].
  assert (Hs : let n' := if decide (rv_Term req > currentTerm n)
    then becomeFollowerLocked (rv_Term req) "" n else n in
    sim a j n' [] ∧ currentTerm n' = rv_Term req).
  { cbn. case_decide.
    - split; [apply sim_becomeFollower; [done..|lia]|].
      unfold becomeFollowerLocked. rewrite decide_True by done.
      destruct (persistLocked_shape (set_votedFor "" (set_currentTerm (rv_Term req) n))) as [s ->].
      done.
    - split; [by apply sim_here|lia]. }
  revert Hs. cbn zeta. generalize (if decide (rv_Term req > currentTerm n)
    then becomeFollowerLocked (rv_Term req) "" n else n). intros n1 [Hs Ht].
  eapply sim_bind; [exact Hs|]. clear Hs H Hlt. intros a1 (_&Hh&_) Hg1 H.
  apply (mrel_mono _ _ _ _ _ _ Hh) in Hm. destruct Hm as (Hid&Hne&lc&Hlc&Hj&Hli&Hlt).
  rewrite Hid, Hli, Hlt.
  destruct (bool_decide _ && _) eqn:Eb; cbn [fst snd]; [|by apply Hfalse, sim_here].
  apply andb_true_iff in Eb as [Hv%bool_decide_eq_true_1 Hup].
  rewrite <- Ht in Hlc. destruct (nrel_view _ _ _ a1 j n1 Hg1 H) as (l&k&V).
  destruct (sim_grant a1 i j n1 l k lc) as (a2&He&H2&Hv2); try done.
  { by eapply isLogUpToDate_spec. }
  exists a2. split_and!; [done|by apply nrel_persist, nrel_reset|].
  intros m ->%list_elem_of_singleton. intros _. rewrite <- Ht.
  split; [done|]. exists lc. split; [by apply (hl_cands _ _ (proj1 (proj2 He)))|done].
Qed.

(** ** The ticker and proposals *)

(** What a voter needs to know to campaign. *)
Lemma nrel_aware a i n :
  good a → nrel a i n → ch = false ∨ knows_cluster base i n → campaigns n → aware a i n.
Proof.
  intros Hg H Hk Hca. pose proof Hca as (_&_&Hv&_). rewrite (nr_id _ _ _ _ _ _ H) in Hv.
  split; [|done]. destruct (nrel_view _ _ _ a i n Hg H) as (l&k&V).
  rewrite (vw_abs _ _ _ _ _ _ _ _ V). cbn.
  apply (memberOf_voter base ch l _ i); [|done|].
  - eapply view_members; [apply (nr_members _ _ _ _ _ _ H)|done].
  - destruct Hk as [Hch|[?|[?|?]]]; [left|by left|by right|done].
    destruct (nrel_fixed _ _ _ a i n Hch Hg H) as (_&_&E&_). by rewrite <- E.
Qed.

Lemma sim_tick a i n :
  good a → nrel a i n → ch = false ∨ knows_cluster base i n → sim a i (tick n) [].
Proof.
  intros Hg H Hkn. pose proof (nrel_aware a i n Hg H Hkn) as Haw. unfold campaigns in Haw. unfold tick.
  match goal with |- sim _ _ (applyCommittedLocked ?x) _ => assert (Hs : sim a i x []) end.
  { destruct (state n) eqn:Est.
    1,2: destruct (_ && _) eqn:Eb; [|by apply sim_here];
      apply andb_true_iff in Eb as [[Ej%negb_true_iff Ev%bool_decide_eq_true_1]%andb_true_iff
        Ed%bool_decide_eq_true_1]; apply sim_startElection; [done..|]; by apply Haw; split_and!.
    case_decide; [|by apply sim_here]. apply sim_here; [done|]. apply nrel_broadcast.
    nr_frame H. }
  eapply sim_bind; [exact Hs|]. intros a' _ Hg' H'. apply sim_here; [done|].
  by apply nrel_applyCommitted.
Qed.

(** A leader that accepts a command has it in the log of its term. *)
Lemma propose_logged a i n cmd :
  good a → nrel a i n → state n = Leader → stopped n = false →
  let e := MkEntry (currentTerm n) (lastLogIndexLocked n + 1) cmd None in
  ∃ a', evolves i a a' ∧ nrel a' i (Propose cmd n).1 ∧
    h_tlog a' (currentTerm n) !z e_Index e = Some e.
Proof.
  intros Hg H Hst Hr e. unfold Propose. rewrite Hr, decide_False by (intros []; congruence). cbn [fst].
  destruct (nrel_view _ _ _ a i n Hg H) as (l&k&V). pose proof (vw_last _ _ _ _ _ _ _ _ V) as Hlast.
  unfold recordOwn. cbn zeta. fold e. destruct (persistLocked_shape (appendLog e n)) as [s ->].
  assert (Hnc : ¬ is_change e) by (by intros []).
  match goal with |- context [advanceCommitLocked ?x] => set (n1 := x) end.
  pose proof (own_members a i n n1 l k e H V ltac:(congruence) Hnc eq_refl eq_refl eq_refl)
    as (Hwm&Hcf&Hvt).
  destruct (appends_own a i n n1 l k e) as (a1&He1&H1&El); try done; [cbn; lia| |].
  { intros p. cbn. rewrite mapZ_insert, (nr_id _ _ _ _ _ _ H). case_decide as Hp; [|by auto].
    intros _. left. split; [done|]. change (lastLogIndexLocked n + 1 = slen l). lia. }
  destruct (sim_commit a1 i n1 (proj1 He1) H1 Hst) as (a2&He2&H2&_).
  exists a2. split_and!; [by eapply evolves_trans|by apply nrel_broadcast|].
  eapply zlookup_prefix; [apply (hl_tlog _ _ (proj1 (proj2 He2)))|]. rewrite El. cbn.
  replace (lastLogIndexLocked n + 1) with (Z.of_nat (length l)) by (unfold slen in *; lia).
  rewrite zlookup_nat. by apply list_lookup_middle.
Qed.

Lemma sim_Propose a i n cmd : good a → nrel a i n → sim a i (Propose cmd n).1 [].
Proof.
  intros Hg H. destruct (stopped n) eqn:Es; [unfold Propose; rewrite Es; by apply sim_here|].
  destruct (decide (state n = Leader)) as [Hl|Hl].
  - by eapply sim_silent, propose_logged.
  - unfold Propose. rewrite Es, decide_True by done. by apply sim_here.
Qed.

(** ** Requests of a leader *)

(** The request a leader builds from position [p] of its log. *)
Lemma mrel_append a i n l k j p x :
  good a → view a i n l k → state n = Leader → l !! p = Some x →
  mrel a (MAppendReq i j (MkAppendReq (currentTerm n) (nodeID n) (Z.of_nat p) (e_Term x)
    (drop (S p) l) (commitIndex n))).
Proof.
  intros Hg [] Hl Hx.
  destruct (ei_is_leader _ (good_einv _ _ a Hg) i) as [Hlead Hlog]; [by rewrite vw_abs|].
  rewrite vw_abs in Hlead, Hlog. cbn in Hlead, Hlog. unfold mrel. cbn.
  rewrite <- Hlog, Nat2Z.id. apply lookup_lt_Some in Hx as Hp.
  split_and!; [done|lia|by exists x|by rewrite firstn_all| | |].
  - rewrite length_drop. lia.
  - unfold slen in *. rewrite length_drop. lia.
  - destruct (ci_commit _ _ (good_cinv _ _ a Hg) i) as [Hz|(t&c&Hin&Ht&Hk&_)];
      rewrite vw_abs in *; cbn in *; [left; lia|right]. exists t, c. split_and!; [done..|lia].
Qed.

Lemma drop_length_nil {A} (l : list A) k : (length l ≤ k)%nat → drop k l = [].
Proof. apply drop_ge. Qed.

(** What [makeAppendRequestLocked] builds. *)
Lemma makeAppendRequest_spec a i n peer :
  good a → nrel a i n → state n = Leader →
  let '(n', req) := makeAppendRequestLocked peer n in
  nrel a i n' ∧ ∀ r j, req = Some r → mrel a (MAppendReq i j r).
Proof.
  intros Hg H Hl. destruct (nrel_view _ _ _ a i n Hg H) as (l&k&V).
  pose proof (vw_first _ _ _ _ _ _ _ _ V) as Hfirst. pose proof (vw_last _ _ _ _ _ _ _ _ V) as Hlast.
  pose proof (vw_lt _ _ _ _ _ _ _ _ V) as Hk.
  unfold makeAppendRequestLocked. rewrite Hfirst. case_decide as Hpos; [done|].
  set (p := mapZ (nextIndex n) peer `min` (lastLogIndexLocked n + 1)).
  assert (E : (if decide (mapZ (nextIndex n) peer > lastLogIndexLocked n + 1)
    then (put_nextIndex peer (lastLogIndexLocked n + 1) n, lastLogIndexLocked n + 1)
    else (n, mapZ (nextIndex n) peer)) =
    ((if decide (mapZ (nextIndex n) peer > lastLogIndexLocked n + 1)
      then put_nextIndex peer (lastLogIndexLocked n + 1) n else n), p)).
  { unfold p. case_decide; f_equal; lia. }
  rewrite E. clear E.
  assert (Hp : Z.of_nat k + 1 ≤ p ≤ slen l) by (unfold slen in *; lia).
  clearbody p. clear Hpos.
  set (n1 := if decide _ then _ else _).
  assert (H1 : nrel a i n1) by (unfold n1; case_decide; nr_frame H).
  assert (Hsame : log n1 = log n ∧ currentTerm n1 = currentTerm n ∧ nodeID n1 = nodeID n ∧
    commitIndex n1 = commitIndex n) by (unfold n1; by case_decide).
  clearbody n1. destruct Hsame as (E1&E2&E3&E4).
  pose proof (vw_log _ _ _ _ _ _ _ _ V) as Hlog. rewrite <- E1 in Hlog.
  rewrite (cut_termAt n1 k l), E2, E3, E4 by (done || lia).
  destruct (l !z (p - 1)) as [x|] eqn:Ex; [|done].
  split; [done|]. intros r j [= <-]. unfold sliceIndexLocked.
  change (e_Index (firstEntry n1)) with (lastIncludedIndexLocked n1).
  rewrite (cut_first n1 k l Hlog Hk), Hlog, slen_cutAt by done.
  apply zlookup_Some in Ex as [_ Ex].
  destruct (decide (p - Z.of_nat k < 1)); [lia|].
  destruct (decide (p - Z.of_nat k > slen l - Z.of_nat k)); [lia|].
  pose proof (mrel_append a i n l k j _ x Hg V Hl Ex) as Hm.
  replace (Z.of_nat (Z.to_nat (p - 1))) with (p - 1) in Hm by lia.
  rewrite <- (drop_cutAt k) in Hm by (done || lia).
  by replace (S (Z.to_nat (p - 1)) - k)%nat with (Z.to_nat (p - Z.of_nat k)) in Hm by lia.
Qed.

(** The snapshot a leader sends. *)
Lemma mrel_install a i n j :
  P ≠ ∅ → good a → nrel a i n → state n = Leader → 0 < lastIncludedIndexLocked n →
  mrel a (MInstallReq i j (installSnapshotRequestLocked n)).
Proof.
  intros HP Hg H Hl Hpos. destruct (nrel_view _ _ _ a i n Hg H) as (l&k&[]).
  destruct (ei_is_leader _ (good_einv _ _ a Hg) i) as [Hlead Hlog]; [by rewrite vw_abs|].
  rewrite vw_abs in Hlead, Hlog. cbn in Hlead, Hlog. unfold mrel, installSnapshotRequestLocked.
  cbn. rewrite <- Hlog, vw_first, Nat2Z.id. rewrite vw_first in Hpos.
  split_and!; [|done|done| | | | |done].
  - rewrite <- (nr_threshold _ _ _ _ _ _ H). destruct (decide (snapshotThreshold n ≤ 0)); [|lia].
    rewrite vw_off in Hpos by done. done.
  - destruct (lookup_lt_is_Some_2 _ _ vw_lt) as [e He]. exists e. split; [done|].
    symmetry. by eapply cut_first_term.
  - destruct (ci_commit _ _ (good_cinv _ _ a Hg) i) as [Hz|(t&c&Hin&Ht&Hk&_)];
      rewrite vw_abs in *; cbn in *; [lia|]. exists t, c. split_and!; [done..|lia].
  - destruct k; [lia|exact vw_snap].
  - by apply (memberOf_ne base ch _ _ HP (Forall_take _ _ _ vw_full) vw_base).
Qed.

Lemma sim_replicateSend a i n peer :
  P ≠ ∅ → good a → nrel a i n → sim a i (replicateSend i peer n).1 (replicateSend i peer n).2.
Proof.
  intros HP Hg H. unfold replicateSend, replicateHead. case_decide as Hd; [by apply sim_here|].
  assert (Hl : state n = Leader) by (destruct (state n); naive_solver).
  destruct (shouldInstallSnapshotLocked peer n) eqn:Es.
  - unfold shouldInstallSnapshotLocked in Es. apply bool_decide_eq_true in Es as [Hpos _].
    exists a. split_and!; [by apply evolves_refl|done|]. cbn [snd].
    intros m ->%list_elem_of_singleton. apply mrel_install; [done..|lia].
  - pose proof (makeAppendRequest_spec a i n peer Hg H Hl) as Hm.
    destruct (makeAppendRequestLocked peer n) as [n' [r|]]; destruct Hm as [H' Hr];
      cbn [fst snd]; [|by apply sim_here].
    exists a. split_and!; [by apply evolves_refl|done|].
    intros m ->%list_elem_of_singleton. by apply Hr.
Qed.

Lemma mrel_confirmSend a i n j term req :
  good a → nrel a i n → confirmSend term n = Some req → mrel a (MAppendReq i j req).
Proof.
  intros Hg H. unfold confirmSend. case_decide as Hd; [done|]. intros [= <-].
  assert (Hl : state n = Leader) by (destruct (state n); naive_solver).
  destruct (nrel_view _ _ _ a i n Hg H) as (l&k&V).
  unfold confirmHeartbeatLocked. rewrite (vw_last _ _ _ _ _ _ _ _ V).
  rewrite (cut_last_term n k l) by apply V.
  destruct (last l) as [x|] eqn:Ex.
  2:{ apply last_None in Ex. destruct (vw_head _ _ _ _ _ _ _ _ V). congruence. }
  rewrite last_lookup in Ex. pose proof (mrel_append a i n l k j _ x Hg V Hl Ex) as Hm.
  apply lookup_lt_Some in Ex. rewrite drop_length_nil in Hm by lia. cbn [default].
  replace (Z.of_nat (pred (length l))) with (slen l - 1) in Hm; [done|].
  unfold slen. lia.
Qed.

(** ** Replies to a leader *)

Lemma sim_replicateAppendReply a i n j req resp :
  good a → nrel a i n → mrel a (MAppendResp i j req resp) →
  sim a i (replicateAppendReply j req (ae_Term req) resp n).1 [].
Proof.
  intros Hg H Hm. unfold replicateAppendReply. case_decide as Hd; [by apply sim_here|].
  case_decide; [apply sim_stepDown; [done..|lia]|].
  assert (Hl : state n = Leader) by (destruct (state n); naive_solver).
  assert (Ht : currentTerm n = ae_Term req) by lia.
  destruct (aer_Success resp) eqn:Hs; cbn [fst].
  - destruct (Hm Hs) as [_ Hack]. cbn zeta. apply sim_commit; [done| |done].
    clear -H Hack Ht. destruct H. split; try assumption. cbn. intros Hst p.
    rewrite mapZ_insert. case_decide as Hp; [|by apply nr_match].
    intros _. subst p. by rewrite Ht.
  - apply sim_here; [done|]. repeat case_decide; nr_frame H.
Qed.

Lemma sim_confirmReply a i n term resp :
  good a → nrel a i n → sim a i (confirmReply term resp n).1 [].
Proof.
  intros Hg H. unfold confirmReply.
  case_decide; [apply sim_stepDown; [done..|lia]|by apply sim_here].
Qed.

Lemma nrel_waitCommitted a i n : nrel a i n → nrel a i (waitCommittedPoll n).1.
Proof.
  intros H. unfold waitCommittedPoll. case_decide; [done|]. case_match; [done|].
  by apply nrel_broadcast.
Qed.

(** ** HandleAppendEntries *)

Lemma renumber_id start es :
  (∀ k e, es !! k = Some e → e_Index e = start + Z.of_nat k) → renumber start es = es.
Proof.
  revert start. induction es as [|e es IH]; intros start H; [done|]. cbn. f_equal.
  - pose proof (H 0%nat e eq_refl). destruct e; cbn in *. f_equal. lia.
  - apply IH. intros k x Hx. rewrite (H (S k) x Hx). lia.
Qed.

(** What a node has committed is in the log of the leader of its term. *)
Lemma committed_in_own a j k :
  good a → is_Some (h_leader a (a_term (a_nodes a j))) → (k ≤ a_commit (a_nodes a j))%nat →
  take (S k) (h_tlog a (a_term (a_nodes a j))) = take (S k) (a_log (a_nodes a j)) ∧
  (k < length (h_tlog a (a_term (a_nodes a j))))%nat.
Proof.
  intros Hg Hl Hk. pose proof (good_einv _ _ a Hg) as Hi. pose proof (good_cinv _ _ a Hg) as Hc.
  destruct (ei_log _ Hi j) as [[Hh1 _ _] _].
  destruct (ei_tlog _ Hi _ Hl) as [[Hh2 _ _] _].
  assert (∃ q, (S k ≤ length q)%nat ∧ q `prefix_of` h_tlog a (a_term (a_nodes a j)) ∧
    q `prefix_of` a_log (a_nodes a j)) as (q&Hq&Hp1&Hp2).
  { destruct (ci_commit _ _ Hc j) as [Hz|(t&c&Hin&Ht&Hcle&Hp)].
    - exists [zeroEntry]. split; [cbn; lia|].
      destruct (h_tlog a _); [done|]. destruct (a_log _); [done|]. simplify_eq/=.
      split; by eexists.
    - exists (take (S (a_commit (a_nodes a j))) (h_tlog a t)).
      destruct (ci_commits _ _ _ _ Hc Hin) as (e&He&_). apply lookup_lt_Some in He.
      split_and!; [rewrite length_take; lia| |done].
      etrans; [|by eapply (committed_in_later _ a Hi Hc t c)]. apply take_prefix_mono. lia. }
  split.
  - by rewrite <- (prefix_take_eq _ _ _ Hp1 Hq), <- (prefix_take_eq _ _ _ Hp2 Hq).
  - apply prefix_length in Hp1. lia.
Qed.

(** What is committed survives an append of the current leader. *)
Lemma accept_committed a j m k :
  good a → is_Some (h_leader a (a_term (a_nodes a j))) → (k ≤ a_commit (a_nodes a j))%nat →
  take (S k) (accept m (h_tlog a (a_term (a_nodes a j))) (a_log (a_nodes a j))) =
  take (S k) (a_log (a_nodes a j)).
Proof.
  intros Hg Hl Hk. destruct (committed_in_own a j k Hg Hl Hk) as [E Hlt].
  assert (Hp : take (S k) (a_log (a_nodes a j)) `prefix_of`
    accept m (h_tlog a (a_term (a_nodes a j))) (a_log (a_nodes a j))).
  { apply accept_keeps; [rewrite <- E|]; apply prefix_take. }
  symmetry. apply (prefix_take_eq _ _ (S k)) in Hp; [by rewrite take_take, Nat.min_id in Hp|].
  rewrite <- E, length_take. lia.
Qed.

(** The loop over the entries of a request that the history vouches for. *)
Lemma reconcile_accept a i j n l k req x :
  good a → view a j n l k → mrel a (MAppendReq i j req) → ae_Term req = currentTerm n →
  Z.of_nat k ≤ ae_PrevLogIndex req →
  l !! Z.to_nat (ae_PrevLogIndex req) = Some x → e_Term x = ae_PrevLogTerm req →
  ∃ d, let l' := accept (S (Z.to_nat (ae_PrevLogIndex req)) + length (ae_Entries req))
                  (h_tlog a (ae_Term req)) l in
    reconcile (ae_Entries req) (ae_PrevLogIndex req + 1) n = (set_log (cutAt k l') n, d) ∧
    (d = false → l' = l).
Proof.
  intros Hg V (Hl&Hpos&(y&Hy&Hyt)&Hes&Hlen&_) Ht Hkp Hx Hxt. cbn zeta.
  set (tl := h_tlog a (ae_Term req)) in *. set (p := Z.to_nat (ae_PrevLogIndex req)) in *.
  set (es := ae_Entries req) in *. destruct V.
  assert (Hml : matching (h_tlog a) l).
  { destruct (ei_log _ (good_einv _ _ a Hg) j) as [[_ _ Hm] _]. by rewrite vw_abs in Hm. }
  assert (Hmt : matching (h_tlog a) tl).
  { by eapply (ei_tlog _ (good_einv _ _ a Hg)). }
  assert (Hes' : ∀ q e, es !! q = Some e → tl !! (S p + q)%nat = Some e).
  { intros q e He. rewrite Hes, lookup_take_Some, lookup_drop in He. apply He. }
  apply lookup_lt_Some in Hx as Hpl.
  assert (Hat : ∀ q, entryAtLocked n (ae_PrevLogIndex req + 1 + Z.of_nat q) = l !! (S p + q)%nat).
  { intros q. rewrite (cut_entryAt n k l) by (done || lia).
    replace (ae_PrevLogIndex req + 1 + Z.of_nat q) with (Z.of_nat (S p + q)) by lia.
    apply zlookup_nat. }
  (* the logs agree up to an entry that is present *)
  assert (Hag : ∀ q, (q ≤ length es)%nat →
    (∀ r e, (r < q)%nat → es !! r = Some e →
       ∃ z, entryAtLocked n (ae_PrevLogIndex req + 1 + Z.of_nat r) = Some z ∧
         e_Term z = e_Term e) →
    take (S p + q) l = take (S p + q) tl).
  { intros [|q] Hq Hpres.
    - rewrite Nat.add_0_r. eapply matching_take_eq; [done|exact Hmt|exact Hx|exact Hy|congruence].
    - destruct (lookup_lt_is_Some_2 es q ltac:(lia)) as [e He].
      destruct (Hpres q e ltac:(lia) He) as (z&Hz&Hzt). rewrite Hat in Hz.
      replace (S p + S q)%nat with (S (S p + q)) by lia.
      eapply matching_take_eq; [done|exact Hmt|exact Hz|by apply Hes'|done]. }
  assert (Hwf : wf_log n).
  { unfold wf_log. rewrite vw_log. by apply cutAt_contiguous. }
  destruct (reconcile_spec es (ae_PrevLogIndex req + 1) n Hwf) as [[-> Hall]|(q&e&Hq&Hn&Hp&Hle&->)].
  { unfold slen in *. lia. }
  - exists false. assert (El : accept (S p + length es) tl l = l).
    { unfold accept. rewrite decide_True; [done|]. apply take_prefix_iff; [done|].
      pose proof (Hag (length es) ltac:(lia) ltac:(naive_solver)) as E. split; [|done].
      apply (f_equal length) in E. rewrite !length_take in E. lia. }
    rewrite El, <- vw_log. split; [by destruct n|done].
  - exists true. split; [|done]. apply lookup_lt_Some in Hq as Hql.
    pose proof (Hag q ltac:(lia) Hp) as E.
    assert (El : accept (S p + length es) tl l = take (S p + length es) tl).
    { unfold accept. rewrite decide_False; [done|]. intros Hpre. apply Hn.
      exists e. split; [|done]. rewrite Hat.
      eapply prefix_lookup_Some; [|exact Hpre]. rewrite lookup_take_lt by lia. by apply Hes'. }
    rewrite El. do 2 f_equal. rewrite vw_first, vw_log.
    replace (Z.to_nat (ae_PrevLogIndex req + 1 + Z.of_nat q - Z.of_nat k)) with
      (S p + q - k)%nat by lia.
    rewrite take_cutAt, E, <- cutAt_app by (done || (rewrite ?length_take; lia)).
    rewrite renumber_id.
    + f_equal.
      assert (Ed : drop q es = drop (S p + q) (take (S p + length es) tl)).
      { rewrite Hes at 1. rewrite <- drop_drop. f_equal. rewrite skipn_firstn_comm. f_equal. lia. }
      rewrite Ed. rewrite <- (take_drop (S p + q) (take (S p + length es) tl)) at 2. f_equal.
      rewrite take_take. f_equal. lia.
    + intros r z Hz. rewrite lookup_drop in Hz. apply Hes' in Hz.
      destruct (proj2 Hg _ _ _ Hz) as [-> _]. lia.
Qed.

(** Taking over the first [m] positions of the leader's log is one append of the
    abstract protocol. *)
Lemma sim_accept a j n l k m t :
  good a → nrel a j n → view a j n l k → t = currentTerm n → is_Some (h_leader a t) →
  state n = Follower → (0 < m ≤ length (h_tlog a t))%nat →
  let l' := accept m (h_tlog a t) l in
  ∃ a', evolves j a a' ∧ a_nodes a' j = absNode l' n ∧ acked a' t j m ∧
    nrel a' j (rebuildMembershipLocked (set_log (cutAt k l') n)).
Proof.
  intros Hg H V Ht Hls Hf Hm l'. pose proof (vw_abs _ _ _ _ _ _ _ _ V) as Ha.
  assert (Hacc : ∀ q, (q ≤ Z.to_nat (commitIndex n))%nat → take (S q) l' = take (S q) l).
  { intros q Hq. pose proof (accept_committed a j m q Hg) as Hac. rewrite Ha in Hac.
    cbn in Hac. rewrite <- Ht in Hac. by apply Hac. }
  assert (Hs := AS_append B a j m). rewrite !Ha in Hs. cbn in Hs. rewrite <- Ht in Hs.
  specialize (Hs Hls Hf Hm).
  destruct (evolves_local j a _ _ Hg Hs eq_refl eq_refl) as [He Hi].
  match type of Hi with _ = ?x =>
    assert (E : x = absNode l' n) by (unfold absNode; by rewrite <- Ht) end.
  pose proof (eq_trans Hi E) as Hi'. clear E.
  eexists. split_and!; [exact He|exact Hi'| |].
  - exists m. split; [|done]. cbn. apply elem_of_cons. by left.
  - clear Hs. destruct V. destruct H.
    rewrite rebuildMembershipLocked_eq. split; try assumption; cbn; try congruence.
    + split; cbn; [by destruct (applyEntries _ _)|done].
    + exists l', k. split; [exact Hi'|].
      pose proof (Hacc k ltac:(lia)) as Ek. split; [|by rewrite Ek]. split; try done.
      * apply (f_equal length) in Ek. rewrite !length_take in Ek. lia.
      * by eapply snapshotAt_ext.
      * rewrite vw_machine. symmetry. apply machineAt_take, Hacc. lia.
Qed.

Lemma sim_append a i j n l k req :
  good a → nrel a j n → view a j n l k → mrel a (MAppendReq i j req) →
  ae_Term req = currentTerm n → state n = Follower →
  let m := (S (Z.to_nat (ae_PrevLogIndex req)) + length (ae_Entries req))%nat in
  let l' := accept m (h_tlog a (ae_Term req)) l in
  ∃ a', evolves j a a' ∧ a_nodes a' j = absNode l' n ∧ acked a' (ae_Term req) j m ∧
    nrel a' j (rebuildMembershipLocked (set_log (cutAt k l') n)).
Proof.
  intros Hg H V (Hl&Hpos&_&_&Hlen&_) Ht Hf m l'.
  apply sim_accept; try done; (by eexists) || lia.
Qed.

(** A commit point of the history that the log reaches can be learnt. *)
Lemma sim_learn a j n l k c t i :
  good a → nrel a j n → view a j n l k → committed a t i → t ≤ currentTerm n →
  is_Some (h_leader a (currentTerm n)) → (c ≤ i)%nat →
  take (S c) (h_tlog a (currentTerm n)) `prefix_of` l → commitIndex n ≤ Z.of_nat c →
  ∃ a', evolves j a a' ∧ nrel a' j (set_commitIndex (Z.of_nat c) n) ∧
    a_nodes a' j = absNode l (set_commitIndex (Z.of_nat c) n).
Proof.
  intros Hg H [] Hin Ht Hls Hc Hpre Hle.
  assert (Hs := AS_learn B a j t i c). rewrite !vw_abs in Hs. cbn in Hs.
  specialize (Hs Hin Ht Hc).
  assert (Hp : take (S c) (h_tlog a t) `prefix_of` l).
  { pose proof (good_einv _ _ a Hg) as Hi. pose proof (good_cinv _ _ a Hg) as Hci.
    pose proof (committed_in_later _ a Hi Hci t i _ Hin Ht Hls) as Hin'.
    destruct (ci_commits _ _ _ _ Hci Hin) as (e&He&_). apply lookup_lt_Some in He.
    apply prefix_length in Hin' as Hlen. rewrite length_take in Hlen.
    etrans; [|exact Hpre]. eapply prefix_le_eq; [etrans; [|exact Hin']; apply take_prefix_mono; lia
      |apply prefix_take|]. rewrite !length_take. lia. }
  destruct (evolves_local j a _ _ Hg (Hs Hp ltac:(lia)) eq_refl eq_refl) as [He Hi].
  match type of Hi with _ = ?x =>
    assert (E : x = absNode l (set_commitIndex (Z.of_nat c) n))
      by (unfold absNode; cbn; by rewrite Nat2Z.id) end.
  pose proof (eq_trans Hi E) as Hi'. clear E.
  eexists. split_and!; [exact He| |exact Hi'].
  clear Hs. destruct H. split; try assumption; cbn.
  - intros Hf. rewrite (nr_known Hf), vw_abs. f_equal. exact (f_equal a_log (eq_sym Hi')).
  - exists l, k. split; [exact Hi'|]. split; [|done]. split; try done. lia.
Qed.

(** The commit index of a request is followed inside what it vouches for. *)
Lemma sim_followCommit a i j n l req :
  good a → nrel a j n → a_nodes a j = absNode l n → mrel a (MAppendReq i j req) →
  ae_Term req = currentTerm n →
  take (S (Z.to_nat (ae_PrevLogIndex req)) + length (ae_Entries req))
    (h_tlog a (ae_Term req)) `prefix_of` l →
  sim a j (followCommit (ae_LeaderCommit req) n) [].
Proof.
  intros Hg H Ha (Hl&Hpos&_&_&Hlen&Hcle&Hcm) Ht Hpre.
  destruct (nrel_view _ _ _ a j n Hg H) as (l0&k&V).
  assert (l0 = l) as ->.
  { pose proof (vw_abs _ _ _ _ _ _ _ _ V) as E. rewrite Ha in E. unfold absNode in E. by simplify_eq. }
  unfold followCommit. case_decide as Hgt; [|by apply sim_here].
  pose proof (vw_applied _ _ _ _ _ _ _ _ V) as Hap. pose proof (vw_last _ _ _ _ _ _ _ _ V) as Hlast.
  destruct Hcm as [?|(t&c&Hin&Htc&Hc)]; [lia|].
  apply prefix_length in Hpre as Hlp. rewrite length_take_le in Hlp by done. cbn zeta.
  cbn [commitIndex set_commitIndex].
  rewrite decide_False by (unfold slen in *; cbn; lia).
  destruct (sim_learn a j n l k (Z.to_nat (ae_LeaderCommit req)) t c Hg H V Hin)
    as (a'&He&H'&_); rewrite <- ?Ht; try done; try lia.
  { etrans; [|exact Hpre]. apply take_prefix_mono. unfold slen in *. lia. }
  rewrite Z2Nat.id in H' by lia. exists a'. split_and!; [exact He| |by intros m ?%elem_of_nil].
  apply nrel_applyCommitted; [apply He|done].
Qed.

Lemma sim_HandleAppendEntries a i j n req :
  good a → nrel a j n → mrel a (MAppendReq i j req) →
  sim a j (HandleAppendEntries req n).1 [MAppendResp i j req (HandleAppendEntries req n).2].
Proof.
  intros Hg H Hm. unfold HandleAppendEntries.
  assert (Hfalse : ∀ a n' t, sim a j n' [] →
    sim a j n' [MAppendResp i j req (MkAppendResp t false)]).
  { intros ? n' t (a'&?&?&_). exists a'. split_and!; [done..|].
    by intros m ->%list_elem_of_singleton. }
  case_decide as Hlt; [by apply Hfalse, sim_here|].
  pose proof (sim_acceptLeader a j n (ae_Term req) (ae_LeaderID req) Hg H ltac:(lia)) as Hs.
  destruct (acceptLeader_facts (ae_Term req) (ae_LeaderID req) n ltac:(lia)) as [Ht Hf].
  revert Hs Ht Hf. generalize (acceptLeader (ae_Term req) (ae_LeaderID req) n).
  intros n0 Hs Ht Hf. eapply sim_bind; [exact Hs|]. clear Hs H. intros a0 (_&Hh&_) Hg0 H.
  apply (mrel_mono _ _ _ _ _ _ Hh) in Hm. clear a Hg Hh. cbn zeta.
  case_decide; [by apply Hfalse, sim_here|].
  destruct (nrel_view _ _ _ a0 j n0 Hg0 H) as (l&k&V).
  destruct (entryAtLocked n0 (ae_PrevLogIndex req)) as [x|] eqn:Ex; [|by apply Hfalse, sim_here].
  case_decide as Hxt; [by apply Hfalse, sim_here|].
  apply (cut_entryAt_term n0 k l (vw_log _ _ _ _ _ _ _ _ V) (vw_lt _ _ _ _ _ _ _ _ V)) in Ex
    as (Hpos&y&Ey&Hyt&_).
  destruct (reconcile_accept a0 i j n0 l k req y Hg0 V Hm (eq_sym Ht) Hpos Ey ltac:(lia))
    as (d&->&Hd).
  destruct (sim_append a0 i j n0 l k req Hg0 H V Hm (eq_sym Ht) Hf) as (a1&He1&Ha1&Hack&H1).
  revert Ha1 H1 Hd. generalize (accept_has (S (Z.to_nat (ae_PrevLogIndex req)) + length (ae_Entries req))
    (h_tlog a0 (ae_Term req)) l). generalize (accept
    (S (Z.to_nat (ae_PrevLogIndex req)) + length (ae_Entries req))
    (h_tlog a0 (ae_Term req)) l). intros l1 Hpre Ha1 H1 Hd. cbn [fst snd].
  destruct He1 as (Hg1&Hh1&Hn1).
  pose proof Hm as (_&_&_&_&Hlen&_).
  apply (mrel_mono _ _ _ _ _ _ Hh1) in Hm.
  rewrite <- (take_tlog_mono a0 a1) in Hpre by done.
  set (n1 := set_log (cutAt k l1) n0) in *.
  assert (H2 : ∃ n2, nrel a1 j n2 ∧ absNode l1 n2 = absNode l1 n0 ∧
    (if d then persistLocked (notifyPeersLocked (rebuildMembershipLocked n1)) else n1) = n2).
  { eexists. split_and!; [| |reflexivity]; destruct d; try done.
    - by apply nrel_persist, nrel_notify.
    - rewrite (rebuild_id n1) in H1; [done|]. unfold n1. rewrite Hd by done.
      rewrite <- (vw_log _ _ _ _ _ _ _ _ V). exact (nr_members _ _ _ _ _ _ H).
    - match goal with |- context [persistLocked ?x] => destruct (persistLocked_shape x) as [s ->] end.
      match goal with |- context [notifyPeersLocked ?x] =>
        destruct (notifyPeersLocked_shape x) as (tr&h&->) end.
      by rewrite rebuildMembershipLocked_eq. }
  destruct H2 as (n2&H2&Eabs&->). rewrite <- Eabs in Ha1.
  assert (Et : currentTerm n2 = currentTerm n0) by (unfold absNode in Eabs; by simplify_eq).
  destruct (sim_followCommit a1 i j n2 l1 req Hg1 H2 Ha1 Hm) as (a2&He2&H3&_); [congruence|done|].
  exists a2. split_and!; [exact (evolves_trans _ _ _ _ _ _ (conj Hg1 (conj Hh1 Hn1)) He2)|done|].
  intros m ->%list_elem_of_singleton. intros _. split; [lia|].
  eapply acked_mono; [apply He2|].
  by replace (S (Z.to_nat (ae_PrevLogIndex req + slen (ae_Entries req)))) with
    (S (Z.to_nat (ae_PrevLogIndex req)) + length (ae_Entries req))%nat by (unfold slen; lia).
Qed.
End ops.
