(* ===== verification/RefineChange.v ===== *)
(** The simulation of [RefineOps], continued: membership changes.  A leader that
    has committed an entry of its term appends a change that the abstract protocol
    allows. *)
From S2P Require Import Prelude Types Node Persist Membership Snapshot Log Election RaftOps Read Machine NodeInv CutLog LogSpec Durable Spec SpecInv SpecSafety Network MembershipSpec RefineBase RefineOps.
Open Scope Z_scope.
Open Scope go_scope.

Section change.
Context {M : Type} `{!StateMachine M}.
Context (base : Config) (m0 : M).
Implicit Types (n : RaftNode M) (w : World M) (a : AState).

Abbreviation P := (cfg_PeerAddrs base).
Abbreviation B := (cfg_PeerAddrs base, cfg_HTTPAddrs base).
Abbreviation nrel := (nrel base m0 true).
Abbreviation view := (view base m0 true).
Abbreviation good := (good B true).
Abbreviation sim := (sim base m0 true).

(** A peer that is tracked from now on has acknowledged nothing. *)
Lemma ensure_matchIndex n p :
  mapZ (matchIndex (ensurePeerTrackingLocked n)) p = mapZ (matchIndex n) p ∨
  mapZ (matchIndex (ensurePeerTrackingLocked n)) p = 0.
Proof.
  unfold ensurePeerTrackingLocked.
  generalize (lastLogIndexLocked n), (lastIncludedIndexLocked n). intros last snap.
  generalize (peerIDs n). intros ps. revert n.
  induction ps as [|q ps IH]; intros n; cbn; [by left|].
  assert (Hq : mapZ (matchIndex (ensurePeer last snap n q)) p = mapZ (matchIndex n) p ∨
    mapZ (matchIndex (ensurePeer last snap n q)) p = 0).
  { unfold ensurePeer. destruct (nextIndex n !! q); [by left|]. cbn. rewrite mapZ_insert.
    case_decide; [by right|by left]. }
  destruct (IH (ensurePeer last snap n q)) as [->|?]; [done|by right].
Qed.

(** The changes of the log are committed when no change is in flight. *)
Lemma changes_committed a i n l k :
  nrel a i n → view a i n l k → hasUncommittedConfigLocked n = false →
  ∀ p x, l !! p = Some x → is_change x → (p ≤ Z.to_nat (commitIndex n))%nat.
Proof.
  intros H [] Hno p x Hx Hc. destruct (decide (p ≤ Z.to_nat (commitIndex n))%nat) as [|Hgt]; [done|].
  exfalso. assert (Hu : hasUncommittedConfigLocked n = true); [|congruence].
  apply uncommitted_config_iff. exists (Z.of_nat p), x. apply lookup_lt_Some in Hx as Hlt.
  split_and!; [lia|unfold slen in *; lia| |done].
  rewrite (cut_entryAt n k l) by (done || lia). by rewrite zlookup_nat.
Qed.

Lemma sim_proposeChange a i n c :
  good a → nrel a i n → settled_leader n → sim a i (proposeChangeLocked c n).1 [].
Proof.
  intros Hg H Hset. unfold proposeChangeLocked. destruct (stopped n); [by apply sim_here|].
  case_decide as Hl; [by apply sim_here|].
  assert (Hst : state n = Leader) by (destruct (state n); naive_solver).
  destruct (hasUncommittedConfigLocked n) eqn:Eu; [by apply sim_here|].
  destruct (changedPeers c n) as [[np nh]|] eqn:Ec; [|by apply sim_here]. cbn [fst].
  pose proof (nr_members _ _ _ _ _ _ H) as Hwm.
  destruct (changedPeers_size c n np nh Hwm Ec) as [Hne _].
  destruct (nrel_view _ _ _ a i n Hg H) as (l&k&V).
  pose proof (nrel_known _ _ _ _ _ _ _ H (vw_abs _ _ _ _ _ _ _ _ V) ltac:(congruence)) as Hk.
  set (e := MkEntry (currentTerm n) (lastLogIndexLocked n + 1) [] _).
  assert (Hap : ∀ m, applyEntry m e = (np, nh)).
  { intros m. unfold applyEntry, applyChange. cbn. by rewrite decide_True by (by apply map_size_pos). }
  assert (Hcf : configOf B (l ++ [e]) = (np, nh)).
  { destruct (vw_head _ _ _ _ _ _ _ _ V) as [l' ->]. rewrite configOf_app by done. apply Hap. }
  set (n1 := rebuildMembershipLocked (appendLog e n)).
  assert (H1 : static n1 = static n ∧ members n1 = (np, nh, sorted_keys np) ∧
    log n1 = log n ++ [e] ∧ state n1 = Leader ∧ currentTerm n1 = currentTerm n ∧
    votedFor n1 = votedFor n ∧ commitIndex n1 = commitIndex n ∧ lastApplied n1 = lastApplied n ∧
    machine n1 = machine n ∧ spawned n1 = spawned n ∧ matchIndex n1 = matchIndex n ∧
    wf_members n1).
  { pose proof (vw_log _ _ _ _ _ _ _ _ V) as Hlog. pose proof (vw_lt _ _ _ _ _ _ _ _ V) as Hlt.
    unfold n1. rewrite rebuildMembershipLocked_eq. unfold appendLog. cbn.
    destruct (log n) as [|x lg].
    { apply (f_equal length) in Hlog. rewrite length_cutAt in Hlog by done. cbn in Hlog. lia. }
    cbn. rewrite applyEntries_snoc, Hap. split_and!; try done. split; cbn; [|done].
    by rewrite applyEntries_snoc, Hap. }
  clearbody n1. destruct H1 as (A1&A2&A3&A4&A5&A6&A7&A8&A9&A10&A11&A12).
  pose proof (ensure_matchIndex n1) as Hmi.
  destruct (ensurePeerTrackingLocked_shape n1) as (nx&mi&E). rewrite E in *. cbn in Hmi.
  destruct (notifyPeersLocked_shape (set_matchIndex mi (set_nextIndex nx n1))) as (t&h&->).
  match goal with |- context [persistLocked ?x] => destruct (persistLocked_shape x) as [s ->] end.
  unfold recordOwn. cbn zeta. eapply sim_map; [intros ?; apply nrel_broadcast|].
  match goal with |- context [advanceCommitLocked ?x] => eapply (sim_bind _ _ _ _ _ x) end.
  2:{ intros a' _ Hg' H'. apply sim_commit; [done..|exact A4]. }
  unfold members in A2. injection A2 as M1 M2 M3.
  eapply sim_silent, (appends_own base m0 true a i n _ l k e Hg H V Hst); try assumption.
  - done.
  - cbn. rewrite (vw_last _ _ _ _ _ _ _ _ V). lia.
  - intros c'. cbn. intros [= <-]. by split.
  - intros _. split_and!.
    + unfold conf. rewrite <- Hk, Hcf. by apply (changedPeers_meet c n np nh).
    + by eapply changes_committed.
    + pose proof (Hset Hst) as Ht. destruct V. rewrite (cut_termAt n k l) in Ht by (done || lia).
      destruct (l !z commitIndex n) as [x|] eqn:Ex; [|done]. apply zlookup_Some in Ex as [_ Ex].
      exists x. cbn in Ht. split; [done|congruence].
  - rewrite Hcf. cbn. by rewrite M1, M2.
  - cbn. rewrite M1. pose proof (nr_voter _ _ _ _ _ _ H ltac:(congruence)) as Hv.
    eapply changedPeers_self; [exact Ec|symmetry; apply (nr_id _ _ _ _ _ _ H)|done].
  - intros p. cbn. rewrite mapZ_insert. case_decide as Hp.
    + intros _. left. subst p. injection A1 as A1 _ _ _ _ _ _.
      rewrite A1, (nr_id _ _ _ _ _ _ H). split; [done|].
      rewrite (vw_last _ _ _ _ _ _ _ _ V). lia.
    + intros Hpos. right. split; [done|]. rewrite <- A11. destruct (Hmi p); [done|lia].
Qed.
End change.
