(* ===== verification/RefineSnapshot.v ===== *)
(** The simulation of [RefineOps], continued: snapshots that are installed and
    acknowledged, and nodes that are started from an empty disk or restarted from
    one that may hold a snapshot. *)
From S2P Require Import Prelude Types Node Persist Membership Snapshot Log Election RaftOps Read Machine NodeInv CutLog LogSpec Durable Spec SpecInv SpecSafety Network Demo SnapshotSpec RefineBase RefineOps.
Open Scope Z_scope.
Open Scope go_scope.

Section ops.
Context {M : Type} `{!StateMachine M, !StateMachineLaws M}.
Context (base : Config) (m0 : M) (ch : bool).
Context (Hm0 : sm_ok m0).
Implicit Types (n : RaftNode M) (w : World M) (a : AState).

Abbreviation P := (cfg_PeerAddrs base).
Abbreviation B := (cfg_PeerAddrs base, cfg_HTTPAddrs base).
Abbreviation nrel := (nrel base m0 ch).
Abbreviation mrel := (mrel base m0 ch).
Abbreviation view := (view base m0 ch).
Abbreviation good := (good B ch).
Abbreviation evolves := (evolves B ch).
Abbreviation sim := (sim base m0 ch).
Abbreviation memberOf := (memberOf base ch).

(** ** HandleInstallSnapshot *)

(** What a node adopts from a snapshot whose data restores [s]. *)
Lemma adoptSnapshot_restored req n s :
  is_Peers req ≠ ∅ → is_Data req ≠ [] → snapshotterSet n = true →
  (∀ m, sm_restore (is_Data req) m = Some s) →
  ∃ t h st, adoptSnapshot req n =
    set_storage st (set_commitIndex (Z.max (commitIndex n) (is_LastIncludedIndex req))
    (set_lastApplied (is_LastIncludedIndex req) (set_machine s
    (set_hookCalls h (set_transport t (set_peerIDs (sorted_keys (is_Peers req))
    (set_peerHTTP (is_HTTP req) (set_peerAddrs (is_Peers req)
    (set_baseHTTP (is_HTTP req) (set_basePeers (is_Peers req)
    (set_snapshot (is_Data req)
    (set_log [dummyEntry (is_LastIncludedTerm req) (is_LastIncludedIndex req)] n)))))))))))).
Proof.
  intros Hp Hd Hset Hr. unfold adoptSnapshot.
  set (n1 := set_snapshot _ _).
  destruct (adoptMembers_spec req n1 _ eq_refl Hp) as (t&h&->).
  set (n2 := set_hookCalls h _).
  assert (E : (if snapshotterSet n2 && bool_decide (snapshot n2 ≠ [])
    then restoreMachine (snapshot n2) n2 else n2) = set_machine s n2).
  { change (snapshotterSet n2) with (snapshotterSet n).
    change (snapshot n2) with (is_Data req). rewrite Hset, bool_decide_eq_true_2 by done.
    cbn [andb]. unfold restoreMachine. by rewrite Hr. }
  rewrite E. clear E. cbn zeta.
  match goal with |- context [persistLocked ?x] => destruct (persistLocked_shape x) as [st ->] end.
  exists t, h, st. f_equal. cbn. case_decide.
  - by rewrite Z.max_r by lia.
  - rewrite Z.max_l by lia. by destruct n.
Qed.

(** A snapshot that is not ahead of the node's own acknowledges what the node
    has committed. *)
Lemma sim_ignoreSnapshot a i j n req :
  good a → nrel a j n → mrel a (MInstallReq i j req) → is_Term req = currentTerm n →
  state n = Follower → is_LastIncludedIndex req ≤ lastIncludedIndexLocked n →
  sim a j n [MInstallResp i j req (MkInstallResp (is_Term req))].
Proof.
  intros Hg H Hm Ht Hf Hle. destruct (nrel_view _ _ _ a j n Hg H) as (l&k0&V).
  destruct Hm as (_&Hl&Hpos&(x&Hx&_)&_). apply lookup_lt_Some in Hx as Hlt.
  set (k := Z.to_nat (is_LastIncludedIndex req)) in *.
  assert (Hls : is_Some (h_leader a (is_Term req))) by (by eexists).
  destruct (sim_accept base m0 ch a j n l k0 (S k) (is_Term req)) as (a'&He&_&Hack&H');
    try done; [lia|].
  assert (El : accept (S k) (h_tlog a (is_Term req)) l = l).
  { unfold accept. rewrite decide_True; [done|].
    pose proof (committed_in_own base ch a j k Hg) as Hc. rewrite (vw_abs _ _ _ _ _ _ _ _ V) in Hc.
    cbn in Hc. rewrite <- Ht in Hc. destruct V. destruct Hc as [-> _]; [done|lia|].
    apply prefix_take. }
  rewrite El, <- (vw_log _ _ _ _ _ _ _ _ V) in H'.
  replace (set_log (log n) n) with n in H' by (by destruct n).
  rewrite rebuild_id in H' by apply (nr_members _ _ _ _ _ _ H).
  exists a'. split_and!; [done..|]. by intros m ->%list_elem_of_singleton _.
Qed.

(** A snapshot that keeps the suffix of a node is not behind what the node has
    committed: the node would hold the last entry of the snapshot and more. *)
Lemma snapshot_covers a i j n req :
  good a → nrel a j n → mrel a (MInstallReq i j req) → is_Term req = currentTerm n →
  lastIncludedIndexLocked n < is_LastIncludedIndex req → keeps_suffix req n →
  commitIndex n ≤ is_LastIncludedIndex req.
Proof.
  intros Hg H Hm Ht Hgt Hkeep. destruct (nrel_view _ _ _ a j n Hg H) as (l&k0&V).
  destruct Hm as (_&Hl&Hpos&(x&Hx&Hxt)&_).
  set (k := Z.to_nat (is_LastIncludedIndex req)) in *. set (tl := h_tlog a (is_Term req)) in *.
  destruct (decide (commitIndex n ≤ is_LastIncludedIndex req)) as [|Hgc]; [done|exfalso].
  pose proof (committed_in_own base ch a j k Hg) as Hca. rewrite (vw_abs _ _ _ _ _ _ _ _ V) in Hca.
  cbn in Hca. rewrite <- Ht in Hca. destruct Hca as [E _]; [by eexists|lia|].
  pose proof (vw_commit _ _ _ _ _ _ _ _ V) as Hcl. unfold slen in Hcl.
  assert (Hxl : l !! k = Some x).
  { rewrite <- (lookup_take_lt l (S k)) by lia. rewrite <- E, lookup_take_lt by lia. done. }
  destruct V. destruct Hkeep as [?|[?|[Hk|?]]]; [lia|lia| |unfold slen in *; lia].
  apply Hk. rewrite (cut_termAt n k0 l) by (done || lia).
  replace (is_LastIncludedIndex req) with (Z.of_nat k) by lia. rewrite zlookup_nat, Hxl.
  cbn. by rewrite Hxt.
Qed.

(** Adopting a snapshot is the append of the positions it covers, and the
    commit of them. *)
Lemma sim_adoptSnapshot a i j n req :
  good a → nrel a j n → mrel a (MInstallReq i j req) → is_Term req = currentTerm n →
  state n = Follower → lastIncludedIndexLocked n < is_LastIncludedIndex req →
  keeps_suffix req n →
  sim a j (adoptSnapshot req n) [MInstallResp i j req (MkInstallResp (is_Term req))].
Proof.
  intros Hg H Hm Ht Hf Hgt Hkeep. destruct (nrel_view _ _ _ a j n Hg H) as (l&k0&V).
  pose proof (snapshot_covers a i j n req Hg H Hm Ht Hgt Hkeep) as Hcle.
  destruct Hm as (Hthr&Hl&Hpos&(x&Hx&Hxt)&(t&c&Hin&Htc&Hc)&Hdata&Hpeers&Hpe).
  apply lookup_lt_Some in Hx as Hlt.
  set (k := Z.to_nat (is_LastIncludedIndex req)) in *. set (tl := h_tlog a (is_Term req)) in *.
  assert (Hck : commitIndex n ≤ Z.of_nat k) by lia.
  assert (Hls : is_Some (h_leader a (is_Term req))) by (by eexists).
  (* the log that is left holds exactly the positions of the snapshot *)
  assert (Hpre : take (S k) tl `prefix_of` l → length l = S k).
  { intros Hp. apply prefix_length in Hp as Hlen. rewrite length_take_le in Hlen by lia.
    destruct V. destruct Hkeep as [?|[?|[Hk|?]]]; [lia|lia| |unfold slen in *; lia].
    exfalso. apply Hk. rewrite (cut_termAt n k0 l) by (done || lia).
    replace (is_LastIncludedIndex req) with (Z.of_nat k) by lia. rewrite zlookup_nat.
    erewrite prefix_lookup_Some; [| |exact Hp]; [|by rewrite lookup_take_lt by lia].
    cbn. by rewrite Hxt. }
  destruct (sim_accept base m0 ch a j n l k0 (S k) (is_Term req)) as (a1&He1&Ha1&Hack&H1);
    try done; [fold tl; lia|].
  assert (El : accept (S k) tl l = take (S k) tl).
  { unfold accept. case_decide as Hp; [|done]. symmetry. apply prefix_length_eq; [done|].
    rewrite (Hpre Hp), length_take. lia. }
  fold tl in Ha1, H1. rewrite El in Ha1, H1.
  destruct (nrel_view _ _ _ a1 j _ (proj1 He1) H1) as (l1&k1&V1).
  assert (l1 = take (S k) tl) as ->.
  { pose proof (vw_abs _ _ _ _ _ _ _ _ V1) as E. rewrite Ha1 in E. unfold absNode in E.
    rewrite rebuildMembershipLocked_eq in E. cbn in E. by simplify_eq. }
  destruct (sim_learn base m0 ch a1 j _ _ k1 k t c (proj1 He1) H1 V1) as (a2&He2&_&Ha2); rewrite ?rebuildMembershipLocked_eq; cbn.
  { eapply committed_mono; [apply He1|exact Hin]. }
  { lia. }
  { destruct Hls as [ld Hld]. exists ld. rewrite <- Ht.
    apply (hl_leader _ _ (proj1 (proj2 He1))), Hld. }
  { done. }
  { rewrite <- Ht. rewrite (take_tlog_mono a a1) by (apply He1 || (unfold tl in *; lia)). done. }
  { done. }
  destruct (adoptSnapshot_restored req n (machineAt m0 k tl)) as (tr&hk&st&->); try done.
  { by eapply sm_snapshot_nonempty. }
  { apply (nr_snapshotter _ _ _ _ _ _ H). }
  { intros m. apply sm_restore_snapshot; [by apply machineAt_ok|done]. }
  exists a2. split_and!; [by eapply evolves_trans| |].
  - destruct H. split; cbn; try done; try congruence.
    + exists (take (S k) tl), k. split; [|split].
      * rewrite Ha2, rebuildMembershipLocked_eq. unfold absNode. cbn. f_equal. lia.
      * assert (Em : machineAt m0 k (take (S k) tl) = machineAt m0 k tl).
        { apply machineAt_take. by rewrite take_take, Nat.min_id. }
        split; try lia.
        -- rewrite length_take. lia.
        -- rewrite (cutAt_lt _ _ x) by (by rewrite lookup_take_lt by lia).
           rewrite drop_ge by (rewrite length_take; lia). rewrite Hxt.
           do 2 f_equal. lia.
        -- destruct k eqn:Ek; [lia|]. cbn [snapshotAt]. by rewrite Em.
        -- symmetry. exact Em.
      * rewrite take_take, Nat.min_id. exact Hpe.
    + intros p rq Hp. eapply mrel_mono; [exact (proj1 (proj2 He2))|].
      eapply mrel_mono; [exact (proj1 (proj2 He1))|by apply nr_spawned].
  - intros m ->%list_elem_of_singleton _. eapply acked_mono; [apply He2|done].
Qed.

Lemma sim_HandleInstallSnapshot a i j n req :
  good a → nrel a j n → mrel a (MInstallReq i j req) → keeps_suffix req n →
  sim a j (HandleInstallSnapshot req n).1 [MInstallResp i j req (HandleInstallSnapshot req n).2].
Proof.
  intros Hg H Hm Hkeep. unfold HandleInstallSnapshot. case_decide as Hlt.
  { exists a. split_and!; [by apply evolves_refl|done|].
    intros m ->%list_elem_of_singleton. unfold mrel, RefineBase.mrel. cbn. lia. }
  pose proof (sim_acceptLeader base m0 ch a j n (is_Term req) (is_LeaderID req) Hg H ltac:(lia)) as Hs.
  destruct (acceptLeader_shape (is_Term req) (is_LeaderID req) n ltac:(lia)) as (s&v&d&r&E).
  assert (Hn0 : let n0 := acceptLeader (is_Term req) (is_LeaderID req) n in
    currentTerm n0 = is_Term req ∧ state n0 = Follower ∧ log n0 = log n) by (by rewrite E).
  clear E. revert Hs Hn0. generalize (acceptLeader (is_Term req) (is_LeaderID req) n).
  intros n0 Hs (Ht&Hf&El). eapply sim_bind; [exact Hs|]. clear Hs.
  intros a0 (_&Hh&_) Hg0 H0. apply (mrel_mono _ _ _ _ _ _ Hh) in Hm. cbn zeta.
  rewrite Ht. case_decide; cbn [fst snd]; [by apply sim_ignoreSnapshot|].
  apply sim_adoptSnapshot; try done; [lia|].
  destruct Hkeep as [?|Hkeep]; [lia|right].
  unfold lastIncludedIndexLocked, firstEntry, lastLogIndexLocked, lastEntry, termAtLocked,
    entryAtLocked, sliceIndexLocked, firstEntry in *. by rewrite El.
Qed.

(** Installing a snapshot that keeps the suffix never undoes what was applied. *)
Lemma install_applied a i j n req :
  good a → nrel a j n → mrel a (MInstallReq i j req) → keeps_suffix req n →
  lastApplied n ≤ lastApplied (HandleInstallSnapshot req n).1.
Proof.
  intros Hg H Hm Hkeep. assert (Hp : is_Peers req ≠ ∅) by (by destruct Hm as (_&_&_&_&_&_&?&_)).
  pose proof (install_snapshot req n Hp) as Hi.
  destruct (HandleInstallSnapshot req n) as [n' resp]. destruct Hi as (_&Hold&_&Hign&Had). cbn [fst].
  destruct (decide (is_Term req < currentTerm n)) as [Hlt|Hge]; [by rewrite Hold|].
  destruct (decide (is_LastIncludedIndex req ≤ lastIncludedIndexLocked n)) as [Hle|Hgt].
  { destruct Hign as (_&_&->); [lia|done|done]. }
  destruct Had as (_&_&->&_); [lia..|]. clear Hold Hign.
  destruct (sim_acceptLeader base m0 ch a j n (is_Term req) (is_LeaderID req) Hg H ltac:(lia))
    as (a'&He&H'&_). pose proof (mrel_mono _ _ _ _ _ _ (proj1 (proj2 He)) Hm) as Hm'.
  destruct (acceptLeader_shape (is_Term req) (is_LeaderID req) n ltac:(lia)) as (s&v&d&r&E).
  rewrite E in H'. pose proof (snapshot_covers a' i j _ req (proj1 He) H' Hm' eq_refl) as Hc.
  destruct (nrel_view _ _ _ a j n Hg H) as (l&k&V). pose proof (vw_applied _ _ _ _ _ _ _ _ V).
  etrans; [|apply Hc]; [cbn; lia|unfold lastIncludedIndexLocked, firstEntry in *; cbn; lia|].
  destruct Hkeep as [?|Hkeep]; [lia|by right].
Qed.

(** The reply to a leader. *)
Lemma sim_replicateInstallReply a i n j req resp :
  good a → nrel a i n → mrel a (MInstallResp i j req resp) →
  sim a i (replicateInstallReply j req (is_Term req) resp n).1 [].
Proof.
  intros Hg H Hm. unfold replicateInstallReply. case_decide as Hd; [by apply sim_here|].
  case_decide; [apply sim_stepDown; [done..|lia]|].
  assert (Hl : state n = Leader) by (destruct (state n); naive_solver).
  assert (Ht : currentTerm n = is_Term req) by lia.
  assert (Hack : acked a (is_Term req) j (S (Z.to_nat (is_LastIncludedIndex req))))
    by (apply Hm; lia).
  cbn [fst]. cbn zeta. apply sim_commit; [done| |done].
  clear -H Hack Ht. destruct H. split; try assumption. cbn. intros Hst p.
  rewrite mapZ_insert. case_decide as Hp; [|by apply nr_match].
  intros _. subst p. by rewrite Ht.
Qed.

(** ** Starting and restarting *)

Lemma restoreSnapshot_none n : snapshot n = [] → restoreSnapshotLocked n = n.
Proof.
  intros E. unfold restoreSnapshotLocked. rewrite E, bool_decide_eq_true_2 by done.
  by rewrite orb_true_r.
Qed.

Lemma startAtSnapshot_none n : snapshot n = [] → startAtSnapshot n = n.
Proof.
  intros E. unfold startAtSnapshot. rewrite E. by rewrite bool_decide_eq_false_2 by (by intros []).
Qed.

(** The volatile part of a node that starts with the snapshot it has: nothing
    applied without one, and with one that restores [x] everything up to it. *)
Definition starts (m : M) n : Prop :=
  (snapshot n = [] → commitIndex n = 0 ∧ lastApplied n = 0 ∧ machine n = m) ∧
  (∀ x, snapshot n ≠ [] → (∀ m', sm_restore (snapshot n) m' = Some x) →
     commitIndex n = lastIncludedIndexLocked n ∧ lastApplied n = lastIncludedIndexLocked n ∧
     machine n = x).

Lemma starts_ext m n n' :
  snapshot n' = snapshot n → log n' = log n → commitIndex n' = commitIndex n →
  lastApplied n' = lastApplied n → machine n' = machine n → starts m n → starts m n'.
Proof.
  intros Es El Ec Ea Em. unfold starts, lastIncludedIndexLocked, firstEntry.
  by rewrite Es, El, Ec, Ea, Em.
Qed.

Lemma starts_restored m n :
  log n ≠ [] → snapshotterSet n = true → commitIndex n = 0 → lastApplied n = 0 →
  machine n = m → starts m (restoreSnapshotLocked (startAtSnapshot n)).
Proof.
  intros Hl Hset Hc Ha Hm. split.
  - intros Hs. assert (E : snapshot n = []).
    { destruct (startAtSnapshot_shape n) as (x&y&E). rewrite E in Hs.
      destruct (restoreSnapshot_shape (set_commitIndex y (set_lastApplied x n))) as (?&?&?&E').
      by rewrite E' in Hs. }
    by rewrite startAtSnapshot_none, restoreSnapshot_none.
  - intros x Hs Hr.
    assert (E : snapshot (restoreSnapshotLocked (startAtSnapshot n)) = snapshot n).
    { destruct (startAtSnapshot_shape n) as (u&y&->).
      by destruct (restoreSnapshot_shape (set_commitIndex y (set_lastApplied u n))) as (?&?&?&->). }
    rewrite E in Hs, Hr. unfold startAtSnapshot. rewrite bool_decide_eq_true_2 by done. cbn zeta.
    change (e_Index (firstEntry n)) with (lastIncludedIndexLocked n).
    by rewrite (restoreSnapshot_some _ x).
Qed.

(** What [NewNode] gives that is not on disk. *)
Lemma NewNode_volatile cfg (m : M) src :
  cfg_Snapshotter cfg = true →
  let n := NewNode cfg m src in
  nodeID n = cfg_ID cfg ∧ snapshotThreshold n = cfg_SnapshotThreshold cfg ∧
  snapshotterSet n = true ∧ spawned n = [] ∧ starts m n.
Proof.
  intros Hset. unfold NewNode. cbn zeta.
  assert (Hfresh : nodeID (freshNode cfg m src) = cfg_ID cfg ∧
    snapshotThreshold (freshNode cfg m src) = cfg_SnapshotThreshold cfg ∧
    snapshotterSet (freshNode cfg m src) = true ∧ spawned (freshNode cfg m src) = [] ∧
    starts m (freshNode cfg m src)).
  { by split_and!. }
  destruct (cfg_Storage cfg) as [s|]; [|done]. destruct (Load s) as [st|]; [|done].
  destruct (durableUsed st); [|done]. unfold restoreDurable.
  assert (Hl : let n := loadDurable st (freshNode cfg m src) in
    nodeID n = cfg_ID cfg ∧ snapshotThreshold n = cfg_SnapshotThreshold cfg ∧
    snapshotterSet n = true ∧ spawned n = [] ∧ log n ≠ [] ∧
    commitIndex n = 0 ∧ lastApplied n = 0 ∧ machine n = m).
  { unfold loadDurable. destruct (bool_decide (ds_Log st ≠ [])) eqn:E; case_decide;
      split_and!; try done; by apply bool_decide_eq_true in E. }
  revert Hl. cbn zeta. generalize (loadDurable st (freshNode cfg m src)). clear Hfresh.
  intros n (H1&H2&H3&H4&H5&H6&H7&H8).
  pose proof (starts_restored m n H5 H3 H6 H7 H8) as Hst.
  destruct (startAtSnapshot_shape n) as (x&y&E). rewrite E in *.
  destruct (restoreSnapshot_shape (set_commitIndex y (set_lastApplied x n))) as (u&z&v&E').
  rewrite E' in *. rewrite rebuildMembershipLocked_eq. cbn zeta.
  case_decide; split_and!; try (cbn; done); eapply starts_ext; (try exact Hst); cbn; reflexivity.
Qed.

(** Installing the snapshotter restores the snapshot once more. *)
Lemma starts_again m n :
  starts m n → starts m (restoreSnapshotLocked (set_snapshotterSet true (set_applySet true n))).
Proof.
  intros [H1 H2]. destruct (decide (snapshot n = [])) as [Hs|Hs].
  - rewrite restoreSnapshot_none by done. by split.
  - assert (E : snapshot (restoreSnapshotLocked (set_snapshotterSet true (set_applySet true n))) =
      snapshot n) by (by destruct (restoreSnapshot_shape
        (set_snapshotterSet true (set_applySet true n))) as (?&?&?&->)).
    split; rewrite E; [done|]. intros x _ Hr. destruct (H2 x Hs Hr) as (Hc&Ha&Hm).
    rewrite (restoreSnapshot_some _ x); [by split_and!|done|done|by apply Hr| |].
    + change (lastIncludedIndexLocked n ≤ lastApplied n). lia.
    + change (lastIncludedIndexLocked n ≤ commitIndex n). lia.
Qed.

Lemma boot_shape cfg src :
  cfg_Snapshotter cfg = true →
  let n1 := NewNode cfg m0 src in
  (∃ d r t m x c, bootWith base m0 cfg src =
    set_electionDeadline d (set_rng r (set_peerHook true (set_transport t
      (set_commitIndex c (set_lastApplied x (set_machine m
        (set_snapshotterSet true (set_applySet true n1))))))))) ∧
  starts m0 (bootWith base m0 cfg src).
Proof.
  intros Hsn. cbn zeta. destruct (NewNode_volatile cfg m0 src Hsn) as (_&_&_&_&Hs).
  unfold bootWith, SetSnapshotter, SetApply. cbn zeta. apply starts_again in Hs. revert Hs.
  generalize (NewNode cfg m0 src). intros n1 Hs.
  destruct (restoreSnapshot_shape (set_snapshotterSet true (set_applySet true n1)))
    as (m&x&c&E). rewrite E in *. unfold Start.
  match goal with |- context [resetElectionTimerLocked ?x] =>
    destruct (resetElectionTimerLocked_shape x) as (d&r&->) end.
  split; [by eexists _, _, _, _, _, _|exact Hs].
Qed.

(** How a node [i] is started: as a member that was there from the start, or to
    join. *)
Record starter (i : string) (cfg : Config) : Prop := {
  sr_named : i ≠ ""%string;
  sr_id : cfg_ID cfg = i;
  sr_snapshotter : cfg_Snapshotter cfg = true;
  sr_threshold : cfg_SnapshotThreshold cfg = cfg_SnapshotThreshold base;
  sr_members : memberOf [zeroEntry] (cfg_PeerAddrs cfg, cfg_HTTPAddrs cfg);
}.

Lemma starter_node i st : i ≠ ""%string → starter i (nodeConfig base i st).
Proof. intros Hi. split; try done. by left. Qed.

Lemma starter_join i addr http st :
  ch = true → i ≠ ""%string → P !! i = None → starter i (joinConfig base i addr http st).
Proof. intros Hch Hi HPi. split; try done. right. split; [done|]. by exists i, addr. Qed.

(** What starting from a disk gives, when the log [l] cut at [k] stands behind
    what the disk holds. *)
Lemma nrel_boot a i cfg src n1 l k :
  starter i cfg → NewNode cfg m0 src = n1 →
  wf_members n1 → memberOf (take (S k) l) (basePeers n1, baseHTTP n1) → state n1 = Follower →
  (k < length l)%nat → log n1 = cutAt k l → snapshotAt m0 k l (snapshot n1) →
  (cfg_SnapshotThreshold base ≤ 0 → k = 0%nat) →
  a_nodes a i = MkANode (currentTerm n1) (votedFor n1) Follower l k →
  nrel a i (bootWith base m0 cfg src).
Proof.
  intros [] En H1 H2 H6 Hk Hlog Hsn Hoff Ha.
  destruct (NewNode_volatile cfg m0 src sr_snapshotter0) as (V1&V2&V3&V4&_).
  destruct (boot_shape cfg src sr_snapshotter0) as [(d&r&t&m&x&c&E) [S1 S2]]. rewrite En in *.
  assert (Hst : commitIndex (bootWith base m0 cfg src) = Z.of_nat k ∧
    lastApplied (bootWith base m0 cfg src) = Z.of_nat k ∧
    machine (bootWith base m0 cfg src) = machineAt m0 k l).
  { assert (Hfirst : lastIncludedIndexLocked (bootWith base m0 cfg src) = Z.of_nat k).
    { rewrite E. eapply (cut_first _ k l); [exact Hlog|done]. }
    assert (Hs : snapshot (bootWith base m0 cfg src) = snapshot n1) by (by rewrite E).
    rewrite Hs in *. rewrite Hfirst in *. destruct k as [|k].
    - apply S1. exact Hsn.
    - apply S2; [by eapply sm_snapshot_nonempty|]. intros m'.
      apply sm_restore_snapshot; [by apply machineAt_ok|exact Hsn]. }
  clear S1 S2. rewrite E in *. cbn in Hst. destruct Hst as (-> & -> & ->). cbn in V1, V2.
  split; try done; cbn; try (rewrite H6; done); try congruence.
  - exists l, k. split; [|split; [|done]].
    + rewrite Ha. unfold absNode. cbn. by rewrite H6, Nat2Z.id.
    + split; try done; [by rewrite Nat2Z.id|by rewrite V2, sr_threshold0].
  - intros p req. rewrite V4. by intros ?%elem_of_nil.
Qed.

Lemma saved_boot ps hs cfg src :
  cfg_Snapshotter cfg = true →
  saved ps hs (NewNode cfg m0 src) → saved ps hs (bootWith base m0 cfg src).
Proof.
  intros Hsn H. destruct (boot_shape cfg src Hsn) as [(d&r&t&m&x&c&->) _].
  by eapply saved_frame; [..|exact H].
Qed.

(** A node that starts with nothing on its disk. *)
Lemma boot_fresh a i cfg src :
  starter i cfg → cfg_Storage cfg = Some freshStorage →
  a_nodes a i = MkANode 0 "" Follower [zeroEntry] 0 →
  nrel a i (bootWith base m0 cfg src) ∧ ∃ ps hs, saved ps hs (bootWith base m0 cfg src).
Proof.
  intros Hs Hst Ha.
  assert (En : NewNode cfg m0 src = freshNode cfg m0 src) by (unfold NewNode; by rewrite Hst).
  split.
  - apply (nrel_boot a i cfg src (freshNode cfg m0 src) [zeroEntry] 0); try done; [apply Hs|cbn; lia].
  - exists (cfg_PeerAddrs cfg), (cfg_HTTPAddrs cfg). apply saved_boot; [apply Hs|].
    rewrite En. intros s Es. cbn in Es. rewrite Hst in Es. injection Es as <-.
    split_and!; [done..|]. by right.
Qed.

(** A node that restarts forgets its commit index, and learns again the part of
    it that its snapshot covers. *)
Lemma evolves_restart a i t v r l c k :
  good a → a_nodes a i = MkANode t v r l c → (k ≤ c)%nat →
  ∃ a', evolves i a a' ∧ a_nodes a' i = MkANode t v Follower l k.
Proof.
  intros Hg Ha Hk.
  destruct (evolves_local base ch i a _ _ Hg (AS_restart B a i) eq_refl eq_refl) as [He1 Hi1].
  rewrite Ha in He1, Hi1. cbn in He1, Hi1.
  destruct (decide (k = 0%nat)) as [->|Hpos]; [by eexists|].
  destruct (ci_commit _ _ (good_cinv _ _ a Hg) i) as [Hz|(t'&i'&Hin&Ht&Hle&Hp)];
    rewrite Ha in *; cbn in *; [lia|].
  match type of He1 with RefineBase.evolves _ _ _ _ ?b => set (a1 := b) in * end.
  change (a_nodes a1 i = MkANode t v Follower l 0) in Hi1.
  assert (Hin1 : committed a1 t' i') by done.
  assert (Hp1 : take (S k) (h_tlog a1 t') `prefix_of` l).
  { etrans; [|exact Hp]. apply take_prefix_mono. lia. }
  clearbody a1. pose proof (AS_learn B a1 i t' i' k) as Hs. rewrite Hi1 in Hs. cbn in Hs.
  specialize (Hs Hin1 Ht ltac:(lia) Hp1 ltac:(lia)).
  destruct (evolves_local base ch i a1 _ _ (proj1 He1) Hs eq_refl eq_refl) as [He2 Hi2].
  eexists. split; [by eapply evolves_trans|exact Hi2].
Qed.

(** A node that has never saved anything restarts as it was started. *)
Lemma unsaved_view a i n l k ps hs :
  view a i n l k → durableOf n = unsaved ps hs →
  a_nodes a i = MkANode 0 "" (state n) [zeroEntry] (Z.to_nat (commitIndex n)) ∧ k = 0%nat.
Proof.
  intros [] Hd. pose proof (f_equal ds_CurrentTerm Hd) as D1. pose proof (f_equal ds_VotedFor Hd) as D2.
  pose proof (f_equal ds_Log Hd) as D3. pose proof (f_equal ds_Snapshot Hd) as D4.
  cbn in D1, D2, D3, D4. assert (k = 0%nat) as ->.
  { destruct k; [done|]. cbn in vw_snap. rewrite D4 in vw_snap.
    by apply sm_snapshot_nonempty in vw_snap. }
  destruct vw_head as [l' ->]. rewrite cutAt_0, D3 in vw_log. simplify_eq.
  rewrite vw_abs. unfold absNode. by rewrite D1, D2.
Qed.

Lemma sim_restart a i n s ps hs cfg src :
  P ≠ ∅ → good a → nrel a i n → saved ps hs n → storage n = Some s →
  starter i cfg → cfg_Storage cfg = Some s →
  sim a i (bootWith base m0 cfg src) [] ∧ ∃ ps hs, saved ps hs (bootWith base m0 cfg src).
Proof.
  intros HP Hg H Hsv Hs Hsr Hst. pose proof (nrel_wf _ _ _ a i n Hg H) as Hwf.
  destruct (nrel_view _ _ _ a i n Hg H) as (l&k&V).
  destruct (evolves_restart a i _ _ _ _ _ k Hg (vw_abs _ _ _ _ _ _ _ _ V)) as (a'&He&Ha');
    [destruct V; lia|].
  destruct (Hsv s Hs) as (He1&He2&[Hd|[Hd Hu]]).
  - assert (Hb : basePeers n ≠ ∅) by (by apply (memberOf_ne base ch _ _ HP
      (Forall_take _ _ _ (vw_full _ _ _ _ _ _ _ _ V)) (vw_base _ _ _ _ _ _ _ _ V))).
    assert (Hsv' : saved (cfg_PeerAddrs cfg) (cfg_HTTPAddrs cfg) n).
    { intros s' Hs'. assert (s' = s) as -> by congruence. split_and!; [done..|by left]. }
    destruct (recover _ _ n s cfg m0 src Hwf Hsv' Hs Hb Hst eq_refl eq_refl) as (R1&R2&R3&R4&R5&R6).
    split.
    + exists a'. split_and!; [exact He| |by intros m ?%elem_of_nil].
      pose proof (f_equal ds_CurrentTerm R1) as D1. pose proof (f_equal ds_VotedFor R1) as D2.
      pose proof (f_equal ds_Log R1) as D3. pose proof (f_equal ds_Snapshot R1) as D4.
      pose proof (f_equal ds_SnapshotPeers R1) as D5. pose proof (f_equal ds_SnapshotHTTP R1) as D6.
      cbn in D1, D2, D3, D4, D5, D6.
      eapply (nrel_boot _ _ _ _ _ l k); [done|reflexivity|..].
      * destruct (nr_members _ _ _ _ _ _ H) as [Hm Hids].
        split; [by rewrite D3, D5, D6, R2, R3|by rewrite R4, R2].
      * rewrite D5, D6. apply V.
      * done.
      * apply V.
      * rewrite D3. apply V.
      * rewrite D4. apply V.
      * rewrite <- (nr_threshold _ _ _ _ _ _ H). apply V.
      * by rewrite D1, D2.
    + eexists _, _. apply saved_boot; [apply Hsr|exact R6].
  - destruct (unsaved_view a i n l k ps hs V Hu) as [Ha0 ->]. rewrite (vw_abs _ _ _ _ _ _ _ _ V) in Ha0.
    unfold absNode in Ha0. injection Ha0 as T0 V0 L0. rewrite T0, V0, L0 in Ha'.
    assert (Es : s = freshStorage) by (destruct s; cbn in *; by subst).
    rewrite Es in Hst. destruct (boot_fresh a' i cfg src Hsr Hst Ha') as [Hn Hsv'].
    split; [|done]. exists a'. split_and!; [exact He|done|by intros m ?%elem_of_nil].
Qed.
End ops.
