(* ===== verification/Refine.v ===== *)
(** The cluster of real nodes implements the abstract protocol: every step of
    [Network] is matched by steps of [Spec], whatever the network loses, delays,
    repeats or reorders, whichever nodes crash, restart, join or are removed, and
    whichever part of their logs the nodes have compacted into snapshots.  The
    safety of the protocol carries over to the nodes. *)
From S2P Require Import Prelude Types Node Persist Membership Snapshot Log Election RaftOps Read Machine NodeInv LogSpec Durable Spec SpecInv SpecSafety Network CutLog RefineBase RefineOps RefineChange RefineSnapshot.
Open Scope Z_scope.
Open Scope go_scope.

Section refine.
Context {M : Type} `{!StateMachine M, !StateMachineLaws M}.
Context (base : Config) (m0 : M) (ch : bool).
Implicit Types (n : RaftNode M) (w : World M) (a : AState).

Abbreviation P := (cfg_PeerAddrs base).
Abbreviation B := (cfg_PeerAddrs base, cfg_HTTPAddrs base).

(** The clusters considered: there is a member, every member has a name, and the
    state machine they start with is one that its snapshots restore. *)
Record fixed_cluster : Prop := {
  fc_members : P ≠ ∅;
  fc_named : P !! ""%string = None;
  fc_machine : sm_ok m0;
}.

Record wrel w a : Prop := {
  wr_good : good B ch a;
  wr_dom : ch = false → dom (w_nodes w) = dom P;
  wr_absent : ∀ i, w_nodes w !! i = None → a_nodes a i = MkANode 0 "" Follower [zeroEntry] 0;
  wr_nodes : ∀ i n, w_nodes w !! i = Some n → nrel base m0 ch a i n ∧ ∃ ps hs, saved ps hs n;
  wr_net : ∀ m, m ∈ w_net w → mrel base m0 ch a m;
}.

Lemma wrel_init : fixed_cluster → wrel (initWorld base m0) ainit.
Proof.
  intros [Hne Hnm Hok]. split.
  - apply good_init.
  - intros _. cbn. apply set_eq. intros i. rewrite !elem_of_dom, map_lookup_imap.
    destruct (P !! i); cbn; [|done]. split; by eexists.
  - done.
  - intros i n Hn. cbn in Hn. rewrite map_lookup_imap in Hn.
    destruct (P !! i) as [x|] eqn:Ei; cbn in Hn; [|done]. simplify_eq.
    apply boot_fresh; [done..| |done|done]. apply starter_node. intros ->. congruence.
  - intros m. cbn. by intros ?%elem_of_nil.
Qed.

Lemma voteRequestsOf_mrel a i gs m :
  (∀ p req, GoSendRequestVote p req ∈ gs → mrel base m0 ch a (MVoteReq i p req)) →
  m ∈ voteRequestsOf i gs → mrel base m0 ch a m.
Proof.
  intros H Hm. unfold voteRequestsOf in Hm. apply list_elem_of_omap in Hm as (g&Hg&E).
  destruct g as [|p req]; [done|]. simplify_eq. by apply H.
Qed.

(** A step of node [i] to [n'] that the history [a'] matches. *)
Lemma wrel_putNode_at w a a' i n' msgs :
  wrel w a → ch = true ∨ is_Some (w_nodes w !! i) → evolves B ch i a a' →
  nrel base m0 ch a' i n' → (∀ m, m ∈ msgs → mrel base m0 ch a' m) →
  (∃ ps hs, saved ps hs n') → wrel (putNode i n' msgs w) a'.
Proof.
  intros Hw Hi (Hg&Hh&Hj&Hr) Hn Hm Hsv. split.
  - done.
  - intros Hch. cbn. rewrite dom_insert_L, (wr_dom _ _ Hw Hch).
    destruct Hi as [?|Hi]; [congruence|]. apply elem_of_dom in Hi.
    rewrite (wr_dom _ _ Hw Hch) in Hi. set_solver.
  - intros j. cbn. intros [Hne Hn0]%lookup_insert_None. rewrite Hj by done. by apply (wr_absent _ _ Hw).
  - intros j x Hx. cbn in Hx. apply lookup_insert_Some in Hx as [[<- <-]|[Hne Hx]].
    + split; [|destruct Hsv as (ps&hs&Hsv); exists ps, hs; by eapply saved_frame; [..|exact Hsv]].
      destruct Hn. split; try assumption. cbn. by intros p req ?%elem_of_nil.
    + destruct (wr_nodes _ _ Hw j x Hx). split; [|done].
      eapply nrel_mono; [exact Hh|by apply Hj|done].
  - intros m. cbn. rewrite !elem_of_app. intros [Hin|[Hin|Hin]].
    + eapply mrel_mono; [exact Hh|]. by apply (wr_net _ _ Hw).
    + destruct (transport n'); [|by apply elem_of_nil in Hin].
      eapply voteRequestsOf_mrel; [|exact Hin]. apply (nr_spawned _ _ _ _ _ _ Hn).
    + by apply Hm.
Qed.

Lemma wrel_putNode w a i n' msgs :
  wrel w a → ch = true ∨ is_Some (w_nodes w !! i) → sim base m0 ch a i n' msgs →
  (∃ ps hs, saved ps hs n') → ∃ a', rtc (astep B) a a' ∧ wrel (putNode i n' msgs w) a'.
Proof.
  intros Hw Hi (a'&He&Hn&Hm) Hsv. exists a'. split; [apply He|]. by eapply wrel_putNode_at.
Qed.

Lemma wrel_onNode w a i f :
  wrel w a →
  (∀ n ps hs, w_nodes w !! i = Some n → nrel base m0 ch a i n → wf_node n → saved ps hs n →
     sim base m0 ch a i (f n).1 (f n).2 ∧ ∃ ps hs, saved ps hs (f n).1) →
  ∃ a', rtc (astep B) a a' ∧ wrel (onNode i f w) a'.
Proof.
  intros Hw H. unfold onNode. destruct (w_nodes w !! i) as [n|] eqn:Ei.
  - destruct (wr_nodes _ _ Hw i n Ei) as [Hn (ps&hs&Hsv)].
    destruct (H n ps hs eq_refl Hn (nrel_wf _ _ _ a i n (wr_good _ _ Hw) Hn) Hsv) as [Hsim Hsv'].
    destruct (f n) as [n' msgs]. eapply wrel_putNode; [done|right; by eexists|done..].
  - exists a. by split.
Qed.

(** The handlers of messages. *)
Lemma wrel_deliver w a m :
  fixed_cluster → wrel w a → m ∈ w_net w →
  cfg_SnapshotThreshold base ≤ 0 ∨ safe_delivery m w = true →
  ∃ a', rtc (astep B) a a' ∧ wrel (deliver m w) a'.
Proof.
  intros [HP Hnm Hok] Hw Hm Hsafe. apply (wr_net _ _ Hw) in Hm. pose proof (wr_good _ _ Hw) as Hg.
  destruct m as [i j req|i j req resp|i j req|i j req resp|i j req|i j req resp]; cbn [deliver];
    apply wrel_onNode; try done; intros n ps hs Hin Hn Hwf Hsv; cbn [quiet fst snd].
  - pose proof (sim_HandleRequestVote base m0 ch a i j n req Hg Hn Hm) as Hsim.
    pose proof (saved_HandleRequestVote ps hs req n Hsv).
    destruct (HandleRequestVote req n). by eauto.
  - split; [by apply sim_requestVoteReply|]. exists ps, hs. by apply saved_requestVoteReply.
  - pose proof (sim_HandleAppendEntries base m0 ch a i j n req Hg Hn Hm) as Hsim.
    pose proof (saved_HandleAppendEntries ps hs req n Hwf Hsv).
    destruct (HandleAppendEntries req n). by eauto.
  - split; [by apply (sim_replicateAppendReply _ _ _ a i n j)|]. exists ps, hs.
    by apply (saved_runOp ps hs (OpAppendReply j req (ae_Term req) resp)).
  - assert (Hkeep : keeps_suffix req n).
    { destruct Hsafe as [Hoff|Hsafe].
      - destruct Hm as [Hpos _]. lia.
      - cbn in Hsafe. rewrite Hin in Hsafe. by apply bool_decide_eq_true in Hsafe. }
    assert (Hpeers : is_Peers req ≠ ∅) by (by destruct Hm as (_&_&_&_&_&_&?&_)).
    pose proof (sim_HandleInstallSnapshot base m0 ch Hok a i j n req Hg Hn Hm Hkeep) as Hsim.
    pose proof (saved_HandleInstallSnapshot ps hs req n Hpeers Hsv).
    destruct (HandleInstallSnapshot req n). by eauto.
  - split; [by apply (sim_replicateInstallReply _ _ _ a i n j)|]. exists ps, hs.
    by apply (saved_runOp ps hs (OpInstallReply j req (is_Term req) resp)).
Qed.

(** What a step must respect; [ch] says whether the membership may change. *)
Definition step_ok (l : Label) w : Prop :=
  (if ch then safe_change base l w = true else fixed_label l) ∧
  (cfg_SnapshotThreshold base ≤ 0 ∨ safe_install l w = true).

(** A step of one node that sends nothing. *)
Lemma wrel_quiet w a i f op :
  wrel w a → (∀ n, f n = runOp op n) → op_ok op →
  (∀ n, w_nodes w !! i = Some n → nrel base m0 ch a i n → sim base m0 ch a i (f n) []) →
  ∃ a', rtc (astep B) a a' ∧ wrel (onNode i (quiet f) w) a'.
Proof.
  intros Hw Hf Hop Hsim. apply wrel_onNode; [done|]. intros n ps hs Hi Hn Hwf Hsv.
  cbn [quiet fst snd]. split; [by apply Hsim|]. exists ps, hs. rewrite Hf. by apply saved_runOp.
Qed.

(** A leader's change of the membership. *)
Lemma wrel_change w a i f op :
  wrel w a → (∀ n, f n = runOp op n) → op_ok op → ch = true →
  match w_nodes w !! i with Some n => bool_decide (settled_leader n) | None => true end = true →
  (∀ n, f n = n ∨ ∃ c, f n = (proposeChangeLocked c n).1) →
  ∃ a', rtc (astep B) a a' ∧ wrel (onNode i (quiet f) w) a'.
Proof.
  intros Hw Hf Hop Hch Hset Hshape. apply (wrel_quiet w a i f op Hw Hf Hop).
  intros n Hi Hn. rewrite Hi in Hset. apply bool_decide_eq_true in Hset.
  pose proof (wr_good _ _ Hw) as Hg. clear Hf Hop Hw. destruct (Hshape n) as [->|[c ->]].
  - by apply sim_here.
  - subst ch. by apply sim_proposeChange.
Qed.

(** A node that is started to join. *)
Lemma wrel_join w a i addr http src :
  fixed_cluster → wrel w a → ch = true →
  ∃ a', rtc (astep B) a a' ∧ wrel (stepW base m0 (LJoin i addr http src) w) a'.
Proof.
  intros [HP Hnm Hok] Hw Hch. cbn [stepW]. pose proof (wr_good _ _ Hw) as Hg.
  case_decide as Hd; [by exists a|].
  assert (Hst : ∀ st, starter base ch i (joinConfig base i addr http st)).
  { intros st. apply starter_join; [done|naive_solver|]. apply eq_None_not_Some. naive_solver. }
  destruct (w_nodes w !! i) as [n|] eqn:Ei.
  - destruct (wr_nodes _ _ Hw i n Ei) as [Hn (ps&hs&Hsv)].
    destruct (storage n) as [st|] eqn:Es; [|by exists a].
    destruct (sim_restart base m0 ch Hok a i n st ps hs _ src HP Hg Hn Hsv Es (Hst st) eq_refl).
    by apply wrel_putNode; [|left|..].
  - destruct (boot_fresh base m0 ch Hok a i _ src (Hst freshStorage) eq_refl
      (wr_absent _ _ Hw i Ei)) as [Hn Hsv].
    apply wrel_putNode; [done|by left| |done]. by apply sim_here.
Qed.

(** Each step of the cluster is matched by steps of the abstract protocol. *)
Lemma wrel_step w a l :
  fixed_cluster → wrel w a → step_ok l w →
  ∃ a', rtc (astep B) a a' ∧ wrel (stepW base m0 l w) a'.
Proof.
  intros Hfc Hw [Hl Hsafe]. pose proof (wr_good _ _ Hw) as Hg. pose proof Hfc as [HP Hnm Hok].
  assert (Hstay : ∃ a', rtc (astep B) a a' ∧ wrel w a') by (by exists a).
  destruct l; cbn [stepW].
  - apply (wrel_quiet _ _ _ _ OpTick); [done..|]. intros n Hi Hn. apply sim_tick; [done..|].
    destruct ch; [right|by left]. cbn in Hl. rewrite Hi in Hl. by apply bool_decide_eq_true in Hl.
  - apply (wrel_quiet _ _ _ _ (OpPropose cmd)); [done..|]. intros. by apply sim_Propose.
  - destruct (decide (ch = true)) as [Ech|Ech]; [rewrite Ech in Hl|by destruct ch]. apply (wrel_change _ _ _ _ (OpAddServer pid addr httpAddr)); try done.
    intros n. unfold AddServer. case_decide; [by left|right]. by eexists.
  - destruct (decide (ch = true)) as [Ech|Ech]; [rewrite Ech in Hl|by destruct ch]. apply (wrel_change _ _ _ _ (OpRemoveServer pid)); try done.
    intros n. unfold RemoveServer. case_decide; [by left|right]. by eexists.
  - case_decide; [done|]. apply wrel_onNode; [done|]. intros n ps hs _ Hn Hwf Hsv.
    split; [by apply sim_replicateSend|]. exists ps, hs. unfold replicateSend.
    pose proof (saved_replicateHead ps hs peer n Hsv). by destruct (replicateHead peer n).
  - apply (wrel_quiet _ _ _ _ (OpReplicateDone peer)); [done..|]. intros n _ Hn.
    apply sim_here; [done|]. nr_frame Hn.
  - case_decide; [done|]. apply wrel_onNode; [done|]. intros n ps hs _ Hn Hwf Hsv. cbn [fst snd].
    split; [|by eauto]. exists a. split_and!; [by apply evolves_refl|done|].
    intros m Hm. destruct (confirmSend term n) as [req|] eqn:E; [|by apply elem_of_nil in Hm].
    apply list_elem_of_singleton in Hm as ->. by eapply mrel_confirmSend.
  - apply (wrel_quiet _ _ _ _ OpWaitCommitted); [done..|]. intros n _ Hn.
    apply sim_here; [done|]. by apply nrel_waitCommitted.
  - cbn in Hsafe. destruct (w_net w !! k) as [m|] eqn:Em; [|done]. apply wrel_deliver; [done..| |done].
    by eapply list_elem_of_lookup_2.
  - destruct (w_net w !! k) as [[]|]; try done.
    apply (wrel_quiet _ _ _ _ (OpConfirmReply term resp)); [done..|]. intros n _ Hn.
    by apply sim_confirmReply.
  - apply (wrel_quiet _ _ _ _ (OpEnv now src)); [done..|]. intros n _ Hn. apply sim_here; [done|].
    nr_frame Hn.
  - apply (wrel_quiet _ _ _ _ OpStop); [done..|]. intros n _ Hn. apply sim_here; [done|].
    unfold Stop. destruct (stopped n); nr_frame Hn.
  - apply wrel_onNode; [done|]. intros n ps hs _ Hn Hwf Hsv. cbn [quiet fst snd].
    destruct (storage n) as [st|] eqn:Est; [|split; [by apply sim_here|by eauto]].
    eapply sim_restart; try done. apply starter_node. apply (nr_named _ _ _ _ _ _ Hn).
  - destruct (decide (ch = true)) as [Ech|Ech]; [by apply wrel_join|by destruct ch].
Qed.

(** The step in which a leader accepts a command puts it into the log of its
    term. *)
Lemma wrel_propose w a i n cmd :
  wrel w a → w_nodes w !! i = Some n → state n = Leader → stopped n = false →
  let e := MkEntry (currentTerm n) (lastLogIndexLocked n + 1) cmd None in
  ∃ a', rtc (astep B) a a' ∧ wrel (stepW base m0 (LPropose i cmd) w) a' ∧
    h_tlog a' (currentTerm n) !z e_Index e = Some e.
Proof.
  intros Hw Hi Hl Hr. destruct (wr_nodes _ _ Hw i n Hi) as [Hn (ps&hs&Hsv)].
  destruct (propose_logged base m0 ch a i n cmd (wr_good _ _ Hw) Hn Hl Hr) as (a'&He&Hn'&Hlog).
  exists a'. split_and!; [apply He| |done]. cbn [stepW]. unfold onNode. rewrite Hi. cbn [quiet].
  eapply wrel_putNode_at; [done|right; by eexists|done|done|by intros m ?%elem_of_nil|].
  exists ps, hs. by apply (saved_runOp ps hs (OpPropose cmd)); [eapply nrel_wf; [apply Hw|]|..].
Qed.

Lemma runW_app ls1 ls2 w : runW base m0 (ls1 ++ ls2) w = runW base m0 ls2 (runW base m0 ls1 w).
Proof. apply foldl_app. Qed.

Lemma safe_installs_app ls1 ls2 w :
  safe_installs base m0 (ls1 ++ ls2) w =
  safe_installs base m0 ls1 w && safe_installs base m0 ls2 (runW base m0 ls1 w).
Proof.
  revert w. induction ls1 as [|l ls1 IH]; intros w; [done|]. cbn. by rewrite IH, andb_assoc.
Qed.

Lemma safe_changes_app ls1 ls2 w :
  safe_changes base m0 (ls1 ++ ls2) w =
  safe_changes base m0 ls1 w && safe_changes base m0 ls2 (runW base m0 ls1 w).
Proof.
  revert w. induction ls1 as [|l ls1 IH]; intros w; [done|]. cbn. by rewrite IH, andb_assoc.
Qed.

Lemma safe_run_app ls1 ls2 w :
  safe_run base m0 ch (ls1 ++ ls2) w ↔
  safe_run base m0 ch ls1 w ∧ safe_run base m0 ch ls2 (runW base m0 ls1 w).
Proof.
  unfold safe_run. rewrite safe_installs_app, safe_changes_app.
  destruct ch; rewrite ?Forall_app, !andb_true_iff; tauto.
Qed.

Lemma safe_run_cons l ls w :
  safe_run base m0 ch (l :: ls) w → step_ok l w ∧ safe_run base m0 ch ls (stepW base m0 l w).
Proof.
  unfold safe_run, step_ok. cbn. destruct ch; rewrite ?Forall_cons, !andb_true_iff; tauto.
Qed.

Lemma wrel_run w a ls :
  fixed_cluster → wrel w a → safe_run base m0 ch ls w →
  ∃ a', rtc (astep B) a a' ∧ wrel (runW base m0 ls w) a'.
Proof.
  intros Hfc. revert w a. induction ls as [|l ls IH]; intros w a Hw Hrun.
  { exists a. by split. }
  destruct (safe_run_cons l ls w Hrun) as [Hl Hrun'].
  destruct (wrel_step w a l Hfc Hw Hl) as (a1&Hr1&Hw1).
  destruct (IH _ _ Hw1 Hrun') as (a2&Hr2&Hw2). exists a2. split; [by etrans|done].
Qed.
End refine.
