(* ===== verification/ClusterSafety.v ===== *)
(** The safety of a cluster of real nodes: what holds in every run of [Network]
    from its initial state, through message loss, delay, duplication and
    reordering, crashes and restarts, compaction and the installation of
    snapshots, nodes that join and changes of the membership ([safe_run]).

    A node may have cut its log into a snapshot, so what a theorem says of the
    entries of two logs it says of the indexes at which both still have them. *)
From S2P Require Import Prelude Types Node Persist Membership Snapshot Log Election RaftOps Read Machine NodeInv LogSpec Durable Spec SpecInv SpecSafety Network Demo CutLog RefineBase RefineOps RefineSnapshot Refine.
Open Scope Z_scope.
Open Scope go_scope.

(** ** Committed logs of the abstract protocol *)

(** Lists that are prefixes of one another have a common extension. *)
Lemma prefix_bound {A} (C : list (list A)) :
  (∀ x y, x ∈ C → y ∈ C → x `prefix_of` y ∨ y `prefix_of` x) →
  ∃ L, ∀ x, x ∈ C → x `prefix_of` L.
Proof.
  intros H. assert (∃ L, (L = [] ∨ L ∈ C) ∧ ∀ x, x ∈ C → x `prefix_of` L) as (L&_&?); [|by eauto].
  induction C as [|c C IH].
  { exists []. split; [by left|]. by intros x ?%elem_of_nil. }
  destruct IH as (L&HL&Hx); [set_solver|].
  assert (Hc : c `prefix_of` L ∨ L `prefix_of` c).
  { destruct HL as [->|HL]; [right; apply prefix_nil|]. apply H; set_solver. }
  destruct Hc as [Hc|Hc].
  - exists L. split; [destruct HL; set_solver|]. intros x [->|?]%elem_of_cons; [done|by apply Hx].
  - exists c. split; [set_solver|]. intros x [->|?]%elem_of_cons; [done|].
    etrans; [by apply Hx|done].
Qed.

Section committed.
Context (B : gmap string string * gmap string string) (ch : bool).
Implicit Types a : AState.

(** The committed part of a node's log, with the dummy entry. *)
Definition committedLog a (i : string) : list LogEntry :=
  take (S (a_commit (a_nodes a i))) (a_log (a_nodes a i)).

(** A log that the history has committed. *)
Definition chosen a (p : list LogEntry) : Prop :=
  p = [zeroEntry] ∨
  ∃ t k, committed a t k ∧ is_Some (h_leader a t) ∧ (k < length (h_tlog a t))%nat ∧
    p `prefix_of` take (S k) (h_tlog a t) ∧ [zeroEntry] `prefix_of` p.

Lemma chosen_mono a a' p : hist_le a a' → chosen a p → chosen a' p.
Proof.
  intros Hh [->|(t&k&Hin&[l Hl]&Hlen&Hp&Hz)]; [by left|right]. exists t, k.
  pose proof (prefix_length _ _ (hl_tlog _ _ Hh t)) as Hle.
  split_and!; [by eapply committed_mono|eexists; by apply (hl_leader _ _ Hh)|lia| |done].
  rewrite (take_tlog_mono a a') by (done || lia). done.
Qed.

Lemma chosen_zero a p : chosen a p → [zeroEntry] `prefix_of` p.
Proof. by intros [->|(?&?&_&_&_&_&?)]. Qed.

Lemma chosen_comparable a p1 p2 :
  good B ch a → chosen a p1 → chosen a p2 → p1 `prefix_of` p2 ∨ p2 `prefix_of` p1.
Proof.
  intros Hg H1 H2. pose proof (good_einv _ _ _ Hg) as He. pose proof (good_cinv _ _ _ Hg) as Hc.
  pose proof H1 as [->|(t1&k1&In1&L1&_&P1&_)]; [left; by eapply chosen_zero|].
  pose proof H2 as [->|(t2&k2&In2&L2&_&P2&_)]; [right; by eapply chosen_zero|].
  destruct (decide (t1 ≤ t2)).
  - apply (prefix_weak_total _ _ (h_tlog a t2)); etrans; [exact P1| |exact P2|apply prefix_take].
    by eapply committed_in_later.
  - apply (prefix_weak_total _ _ (h_tlog a t1)); etrans; [exact P1|apply prefix_take|exact P2|].
    eapply committed_in_later; try done. lia.
Qed.

Lemma length_committedLog a i :
  good B ch a → length (committedLog a i) = S (a_commit (a_nodes a i)).
Proof.
  intros Hg. pose proof (good_commit_lt _ _ a i Hg). unfold committedLog.
  rewrite length_take_le; lia.
Qed.

Lemma committed_chosen a i : good B ch a → chosen a (committedLog a i).
Proof.
  intros Hg. pose proof (good_cinv _ _ _ Hg) as Hc. destruct (good_head _ _ a i Hg) as [l Hl].
  destruct (ci_commit _ _ Hc i) as [Hz|(t&k&Hin&Htk&Hk&Hpre)].
  - left. unfold committedLog. by rewrite Hz, Hl.
  - right. exists t, k. destruct (ci_commits _ _ _ _ Hc Hin) as (e&Hek&_&Hld).
    apply lookup_lt_Some in Hek. split_and!; [done..| |].
    + apply take_prefix_iff in Hpre as [_ Eq]; [|lia]. unfold committedLog. rewrite Eq.
      apply take_prefix_mono. lia.
    + unfold committedLog. rewrite Hl. by eexists.
Qed.

(** What two nodes have committed, at two points of a run, is the same up to
    the smaller of their commit indexes. *)
Lemma committed_same a1 a2 i j p :
  good B ch a1 → good B ch a2 → hist_le a1 a2 →
  (p ≤ a_commit (a_nodes a1 i))%nat → (p ≤ a_commit (a_nodes a2 j))%nat →
  take (S p) (a_log (a_nodes a1 i)) = take (S p) (a_log (a_nodes a2 j)).
Proof.
  intros G1 G2 Hh H1 H2.
  assert (Hc : committedLog a1 i `prefix_of` committedLog a2 j ∨
    committedLog a2 j `prefix_of` committedLog a1 i).
  { apply (chosen_comparable a2); [done| |by apply committed_chosen].
    eapply chosen_mono; [done|by apply committed_chosen]. }
  assert (Ht : ∀ a v, good B ch a → (p ≤ a_commit (a_nodes a v))%nat →
    take (S p) (committedLog a v) = take (S p) (a_log (a_nodes a v))).
  { intros a v _ Hp. unfold committedLog. rewrite take_take. f_equal. lia. }
  rewrite <- (Ht a1 i), <- (Ht a2 j) by done.
  destruct Hc as [Hp|Hp]; [apply prefix_take_eq|symmetry; apply prefix_take_eq]; try done;
    rewrite length_committedLog by done; lia.
Qed.

Lemma hist_le_run a a' : good B ch a → rtc (astep B) a a' → hist_le a a'.
Proof.
  intros [Hr _] Hrun. apply areach_inv in Hr as [Hi Hc].
  induction Hrun as [a|a b c Hs _ IH]; [apply hist_le_refl|].
  pose proof (elect_fresh B a Hi Hc) as Hf.
  eapply hist_le_trans; [by eapply hist_le_step|]. apply IH; [by eapply einv_step|by eapply cinv_step].
Qed.
End committed.

(** ** The cluster *)

Section safety.
Context {M : Type} `{!StateMachine M, !StateMachineLaws M}.
Context (base : Config) (m0 : M).
Implicit Types (n : RaftNode M) (w : World M) (a : AState) (ch : bool).

Abbreviation B := (cfg_PeerAddrs base, cfg_HTTPAddrs base).

(** The world a run of [ls] leads to. *)
Definition worldAfter (ls : list Label) : World M := runW base m0 ls (initWorld base m0).

(** The runs from the start; [ch] says whether the membership may change. *)
Abbreviation safe ch ls := (safe_run base m0 ch ls (initWorld base m0)).

Lemma after_wrel ch ls :
  fixed_cluster base m0 → safe ch ls →
  ∃ a, rtc (astep B) ainit a ∧ wrel base m0 ch (worldAfter ls) a.
Proof. intros Hfc Hls. apply wrel_run; [done|by apply wrel_init|done]. Qed.

(** Two points of a run. *)
Lemma after_wrel2 ch ls1 ls2 :
  fixed_cluster base m0 → safe ch (ls1 ++ ls2) →
  ∃ a1 a2, wrel base m0 ch (worldAfter ls1) a1 ∧ wrel base m0 ch (worldAfter (ls1 ++ ls2)) a2 ∧
    rtc (astep B) a1 a2 ∧ hist_le a1 a2.
Proof.
  intros Hfc [Hl1 Hl2]%safe_run_app. destruct (after_wrel ch ls1 Hfc Hl1) as (a1&_&Hw1).
  destruct (wrel_run base m0 ch _ _ ls2 Hfc Hw1 Hl2) as (a2&Hr&Hw2).
  unfold worldAfter. rewrite runW_app. exists a1, a2. split_and!; [done..|].
  eapply hist_le_run; [|done]. by eapply wr_good.
Qed.

(** A node of a reachable world with its invariants. *)
Lemma wrel_node ch w a i n :
  wrel base m0 ch w a → w_nodes w !! i = Some n →
  ∃ l k, view base m0 ch a i n l k ∧ nrel base m0 ch a i n ∧ einv a ∧ cinv B a.
Proof.
  intros Hw Hi. destruct (wr_nodes _ _ _ _ _ Hw i n Hi) as [Hn _].
  pose proof (wr_good _ _ _ _ _ Hw) as Hg. destruct (nrel_view _ _ _ a i n Hg Hn) as (l&k&V).
  exists l, k. split_and!; [done|done|by eapply good_einv|by eapply good_cinv].
Qed.

(** Two nodes agree at index [p]: where both logs reach it the terms are the
    same, and where neither has been cut there the entries are. *)
Definition agree_at (p : Z) n1 n2 : Prop :=
  ∀ x y, entryAtLocked n1 p = Some x → entryAtLocked n2 p = Some y →
    e_Term x = e_Term y ∧
    (lastIncludedIndexLocked n1 < p → lastIncludedIndexLocked n2 < p → x = y).

Lemma view_agree ch a1 a2 i j n1 n2 l1 l2 k1 k2 p q :
  view base m0 ch a1 i n1 l1 k1 → view base m0 ch a2 j n2 l2 k2 →
  take (S q) l1 = take (S q) l2 → p ≤ Z.of_nat q → agree_at p n1 n2.
Proof.
  intros [] [] E Hp x y Hx Hy.
  apply (cut_entryAt_term n1 k1 l1) in Hx as (H1&x'&Ex&Tx&Qx); [|done..].
  apply (cut_entryAt_term n2 k2 l2) in Hy as (H2&y'&Ey&Ty&Qy); [|done..].
  rewrite <- (lookup_take_lt _ (S q)) in Ex by lia.
  rewrite <- (lookup_take_lt _ (S q)) in Ey by lia.
  rewrite E, Ey in Ex. injection Ex as ->. split; [congruence|].
  intros ??. rewrite <- Qx, <- Qy by lia. done.
Qed.

(** [C1] The cluster implements the abstract protocol: every run from the start of a
    cluster whose disks work, in which no installed snapshot drops entries that follow
    it, leaders change the membership after they have committed an entry of their
    term, and a joining node does not campaign while it knows only itself ([safe]), is
    matched by a run of the protocol whose nodes have the terms, votes, roles and
    commit indexes of the real ones.  The log of a real node is the one of its abstract
    counterpart, cut at a position [k] it has applied; its snapshot is the
    snapshot of the machine after the first [k] entries, its own machine has
    applied exactly the entries up to [lastApplied], in order; with compaction off
    nothing is cut; and a node that is candidate or leader is a member and counts
    the majorities of the members that its full log determines. *)
Theorem cluster_refines ch ls :
  fixed_cluster base m0 → safe ch ls →
  ∃ a, areach B a ∧
    ∀ i n, w_nodes (worldAfter ls) !! i = Some n →
      ∃ l k, a_nodes a i = MkANode (currentTerm n) (votedFor n) (state n) l
                             (Z.to_nat (commitIndex n)) ∧
        log n = cutAt k l ∧ Z.of_nat k ≤ lastApplied n ≤ commitIndex n ∧
        machine n = replay m0 (take (Z.to_nat (lastApplied n)) (tail l)) ∧
        (if decide (k = 0)%nat then snapshot n = []
         else sm_snapshot (replay m0 (take k (tail l))) = Some (snapshot n)) ∧
        (cfg_SnapshotThreshold base ≤ 0 → log n = l) ∧
        (state n ≠ Follower → is_Some (peerAddrs n !! i) ∧
           (peerAddrs n, peerHTTP n) = configOf B l).
Proof.
  intros Hfc Hls. destruct (after_wrel ch ls Hfc Hls) as (a&Hr&Hw). exists a. split; [exact Hr|].
  intros i n Hi. destruct (wrel_node _ _ _ _ _ Hw Hi) as (l&k&[]&Hn&_&_). exists l, k.
  split; [done|]. split; [done|]. split; [lia|]. split; [done|]. split_and!.
  - destruct k; [by rewrite decide_True|by rewrite decide_False by lia].
  - rewrite <- (nr_threshold _ _ _ _ _ _ Hn). intros ->%vw_off.
    destruct vw_head as [l' ->]. by rewrite vw_log, cutAt_0.
  - intros Hs. split; [by apply (nr_voter _ _ _ _ _ _ Hn)|by eapply nrel_known].
Qed.


Lemma nodes_match ch ls i j ni nj k x y :
  fixed_cluster base m0 → safe ch ls →
  w_nodes (worldAfter ls) !! i = Some ni → w_nodes (worldAfter ls) !! j = Some nj →
  entryAtLocked ni k = Some x → entryAtLocked nj k = Some y → e_Term x = e_Term y →
  ∀ p, p ≤ k → agree_at p ni nj.
Proof.
  intros Hfc Hls Hi Hj Hx Hy Ht p Hp. destruct (after_wrel ch ls Hfc Hls) as (a&_&Hw).
  destruct (wrel_node _ _ _ _ _ Hw Hi) as (li&ki&Vi&_&He&_).
  destruct (wrel_node _ _ _ _ _ Hw Hj) as (lj&kj&Vj&_&_&_).
  apply (cut_entryAt_term ni ki li) in Hx as (H1&x'&Ex&Tx&_); [|apply Vi..].
  apply (cut_entryAt_term nj kj lj) in Hy as (H2&y'&Ey&Ty&_); [|apply Vj..].
  destruct (ei_log _ He i) as [[_ _ Mi] _]. destruct (ei_log _ He j) as [[_ _ Mj] _].
  rewrite (vw_abs _ _ _ _ _ _ _ _ Vi) in Mi. rewrite (vw_abs _ _ _ _ _ _ _ _ Vj) in Mj.
  cbn in Mi, Mj. eapply (view_agree _ _ _ _ _ _ _ _ _ _ _ _ (Z.to_nat k) Vi Vj); [|lia].
  eapply matching_take_eq; try done. congruence.
Qed.


(** [C5] Leader completeness: let a cluster of working disks run from its start so
    that no installed snapshot drops entries that follow it, leaders change the
    membership after they have committed an entry of their term, and a joining node does
    not campaign while it knows only itself ([safe]).  What a node has committed is in
    the log of every leader of its term or a later one: the log of the leader reaches
    the commit index and agrees up to it. *)
Theorem leader_has_committed ch ls i j ni nj :
  fixed_cluster base m0 → safe ch ls →
  w_nodes (worldAfter ls) !! i = Some ni → w_nodes (worldAfter ls) !! j = Some nj →
  state nj = Leader → currentTerm ni ≤ currentTerm nj →
  commitIndex ni ≤ lastLogIndexLocked nj ∧ ∀ p, p ≤ commitIndex ni → agree_at p ni nj.
Proof.
  intros Hfc Hls Hi Hj Lj Ht. destruct (after_wrel ch ls Hfc Hls) as (a&_&Hw).
  destruct (wrel_node _ _ _ _ _ Hw Hi) as (li&ki&Vi&_&He&Hc).
  destruct (wrel_node _ _ _ _ _ Hw Hj) as (lj&kj&Vj&_&_&_).
  pose proof (wr_good _ _ _ _ _ Hw) as Hg.
  pose proof (vw_abs _ _ _ _ _ _ _ _ Vi) as Ai. pose proof (vw_abs _ _ _ _ _ _ _ _ Vj) as Aj.
  assert (Hp : committedLog a i `prefix_of` lj).
  { destruct (ei_is_leader _ He j) as [Hl Hlog]; [by rewrite Aj|].
    rewrite Aj in Hl, Hlog. cbn in Hl, Hlog. rewrite Hlog.
    destruct (ci_commit _ _ Hc i) as [Hz|(t&k&Hin&Htk&Hk&Hp)].
    - unfold committedLog. rewrite Hz. destruct (good_head _ _ a i Hg) as [l ->].
      destruct (vw_head _ _ _ _ _ _ _ _ Vj) as [l' E]. rewrite <- Hlog, E. by eexists.
    - destruct (ci_commits _ _ _ _ Hc Hin) as (e&Hek&_). apply lookup_lt_Some in Hek.
      unfold committedLog. apply take_prefix_iff in Hp as [_ ->]; [|lia].
      etrans; [|eapply (committed_in_later _ _ He Hc _ _ _ Hin); [|by eexists]].
      + apply take_prefix_mono. lia.
      + rewrite Ai in Htk. cbn in Htk. lia. }
  pose proof (length_committedLog _ _ a i Hg) as Hlen. rewrite Ai in Hlen. cbn in Hlen.
  pose proof (prefix_length _ _ Hp) as Hle.
  assert (E : take (S (Z.to_nat (commitIndex ni))) li = take (S (Z.to_nat (commitIndex ni))) lj).
  { apply (prefix_take_eq _ _ (S (Z.to_nat (commitIndex ni)))) in Hp; [|lia].
    unfold committedLog in Hp. rewrite Ai in Hp. cbn in Hp. by rewrite take_take, Nat.min_id in Hp. }
  split.
  - destruct Vi, Vj. unfold slen in *. lia.
  - intros p Hpc. eapply view_agree; [exact Vi|exact Vj|exact E|lia].
Qed.

Lemma committed_agree_at ch w1 a1 w2 a2 i j n1 n2 p :
  wrel base m0 ch w1 a1 → wrel base m0 ch w2 a2 → hist_le a1 a2 →
  w_nodes w1 !! i = Some n1 → w_nodes w2 !! j = Some n2 →
  p ≤ commitIndex n1 → p ≤ commitIndex n2 → agree_at p n1 n2.
Proof.
  intros Hw1 Hw2 Hh Hi Hj H1 H2.
  destruct (wrel_node _ _ _ _ _ Hw1 Hi) as (l1&k1&V1&_).
  destruct (wrel_node _ _ _ _ _ Hw2 Hj) as (l2&k2&V2&_).
  eapply (view_agree _ _ _ _ _ _ _ _ _ _ _ p (Z.to_nat p) V1 V2); [|lia].
  pose proof (committed_same B ch a1 a2 i j (Z.to_nat p) (wr_good _ _ _ _ _ Hw1)
    (wr_good _ _ _ _ _ Hw2) Hh) as E.
  rewrite (vw_abs _ _ _ _ _ _ _ _ V1), (vw_abs _ _ _ _ _ _ _ _ V2) in E. cbn in E. apply E; lia.
Qed.

(** Committed entries are permanent: whatever happens in the steps [ls2],
    what a node had committed before them and what any node has committed after
    them agree. *)
Theorem committed_forever ch ls1 ls2 i j n1 n2 p :
  fixed_cluster base m0 → safe ch (ls1 ++ ls2) →
  w_nodes (worldAfter ls1) !! i = Some n1 → w_nodes (worldAfter (ls1 ++ ls2)) !! j = Some n2 →
  p ≤ commitIndex n1 → p ≤ commitIndex n2 → agree_at p n1 n2.
Proof.
  intros Hfc Hls. destruct (after_wrel2 ch ls1 ls2 Hfc Hls) as (a1&a2&Hw1&Hw2&_&Hh).
  by eapply committed_agree_at.
Qed.

(** State machine safety: nodes that have applied the same number of
    entries, at any two points of a run, have the same state machine. *)
Theorem state_machine_safety ch ls1 ls2 i j n1 n2 :
  fixed_cluster base m0 → safe ch (ls1 ++ ls2) →
  w_nodes (worldAfter ls1) !! i = Some n1 → w_nodes (worldAfter (ls1 ++ ls2)) !! j = Some n2 →
  lastApplied n1 = lastApplied n2 → machine n1 = machine n2.
Proof.
  intros Hfc Hls Hi Hj Heq. destruct (after_wrel2 ch ls1 ls2 Hfc Hls) as (a1&a2&Hw1&Hw2&_&Hh).
  destruct (wrel_node _ _ _ _ _ Hw1 Hi) as (l1&k1&V1&_).
  destruct (wrel_node _ _ _ _ _ Hw2 Hj) as (l2&k2&V2&_).
  pose proof (committed_same B ch a1 a2 i j (Z.to_nat (lastApplied n1)) (wr_good _ _ _ _ _ Hw1)
    (wr_good _ _ _ _ _ Hw2) Hh) as E.
  rewrite (vw_abs _ _ _ _ _ _ _ _ V1), (vw_abs _ _ _ _ _ _ _ _ V2) in E. cbn in E.
  destruct V1, V2. rewrite vw_machine, vw_machine0, <- Heq. apply machineAt_take, E; lia.
Qed.

(** ** One log for a whole run *)

(** The log [L] explains a world: what a node has committed and not cut is in
    [L] at its index, and its state machine is the result of the first
    [lastApplied] entries of [L]. *)
Definition explains (L : list LogEntry) w : Prop :=
  ∀ i n, w_nodes w !! i = Some n →
    lastApplied n ≤ commitIndex n < slen L ∧
    (∀ p x, lastIncludedIndexLocked n < p ≤ commitIndex n → entryAtLocked n p = Some x →
       L !z p = Some x) ∧
    machine n = replay m0 (take (Z.to_nat (lastApplied n)) (tail L)).

Lemma explains_bound ch w a L :
  wrel base m0 ch w a → (∀ i, is_Some (w_nodes w !! i) → committedLog a i `prefix_of` L) →
  explains L w.
Proof.
  intros Hw HL i n Hi. specialize (HL i ltac:(by eexists)).
  pose proof (length_committedLog _ _ a i (wr_good _ _ _ _ _ Hw)) as Hlen.
  destruct (wrel_node _ _ _ _ _ Hw Hi) as (l&k&V&_). pose proof (vw_abs _ _ _ _ _ _ _ _ V) as Ha.
  rewrite Ha in Hlen. cbn in Hlen. pose proof (prefix_length _ _ HL) as Hle. destruct V.
  unfold committedLog in HL. rewrite Ha in HL. cbn in HL. split_and!; [lia|unfold slen; lia| |].
  - intros p x Hp Hx. rewrite (cut_entryAt n k l) in Hx by (done || lia).
    eapply zlookup_prefix; [exact HL|]. apply zlookup_Some in Hx as [H0 Hx].
    apply zlookup_Some. split; [done|]. by rewrite lookup_take_lt by lia.
  - rewrite vw_machine. apply machineAt_take.
    apply (prefix_take_eq _ _ (S (Z.to_nat (lastApplied n)))) in HL.
    + rewrite <- HL, take_take. f_equal. lia.
    + unfold committedLog in Hlen. rewrite Ha in Hlen. cbn in Hlen. lia.
Qed.

(** The logs [C] are committed at the start of a run. *)
Lemma one_log_from ch w a ls (C : list (list LogEntry)) :
  fixed_cluster base m0 → wrel base m0 ch w a → safe_run base m0 ch ls w →
  (∀ c, c ∈ C → chosen a c) →
  ∃ L, (∀ c, c ∈ C → c `prefix_of` L) ∧
    ∀ ls1, ls1 `prefix_of` ls → explains L (runW base m0 ls1 w).
Proof.
  intros Hfc. revert w a C. induction ls as [|l ls IH]; intros w a C Hw Hrun HC;
    pose proof (wr_good _ _ _ _ _ Hw) as Hg;
    set (C' := (committedLog a <$> (map_to_list (w_nodes w)).*1) ++ C);
    (assert (HC' : ∀ c, c ∈ C' → chosen a c);
     [intros c [(i&->&_)%list_elem_of_fmap|?]%elem_of_app;
      [by eapply committed_chosen|by apply HC]|]);
    (assert (Hhere : ∀ L, (∀ c, c ∈ C' → c `prefix_of` L) → explains L w);
     [intros L HL; apply (explains_bound ch w a L Hw); intros i [n Hn]; apply HL, elem_of_app; left;
      apply list_elem_of_fmap_2, list_elem_of_fmap; exists (i, n);
      split; [done|by apply elem_of_map_to_list]|]).
  - destruct (prefix_bound C') as [L HL]; [intros x y Hx Hy; by eapply chosen_comparable; auto|].
    exists L. split; [intros c Hc; apply HL, elem_of_app; by right|].
    intros ls1 ->%prefix_nil_inv. by apply Hhere.
  - assert (Hsplit : safe_run base m0 ch ([l] ++ ls) w) by exact Hrun.
    apply safe_run_app in Hsplit as [H1 H2].
    destruct (wrel_run base m0 ch w a [l] Hfc Hw H1) as (a'&Hr&Hw'). cbn in Hw', H2.
    assert (Hh : hist_le a a') by (by eapply hist_le_run).
    destruct (IH _ _ C' Hw' H2) as (L&HL&Hex).
    { intros c Hc. eapply chosen_mono; [done|by apply HC']. }
    exists L. split; [intros c Hc; apply HL, elem_of_app; by right|].
    intros [|x ls1] Hp; [by apply Hhere|]. apply prefix_cons_inv_1 in Hp as Hx. subst x.
    apply prefix_cons_inv_2 in Hp. by apply Hex.
Qed.

Lemma one_log_run ch ls :
  fixed_cluster base m0 → safe ch ls →
  ∃ L, ∀ ls1, ls1 `prefix_of` ls → explains L (worldAfter ls1).
Proof.
  intros Hfc Hls. destruct (one_log_from ch (initWorld base m0) ainit ls [] Hfc) as (L&_&HL);
    [by apply wrel_init|done|by intros c ?%elem_of_nil|by exists L].
Qed.

(** [C2] One log for a whole run: for every such run (working disks, and [safe]) there
    is one sequence of entries such that, at every point of the run, every entry a
    node has committed and still holds is the entry of the sequence at its index, and
    every state machine is the result of applying a prefix of the sequence, of the length the node
    says it has applied. *)
Theorem one_log ch ls :
  fixed_cluster base m0 → safe ch ls →
  ∃ L, ∀ ls1, ls1 `prefix_of` ls → explains L (worldAfter ls1).
Proof. apply one_log_run. Qed.

(** [C6] One vote per term: let a cluster in which every save of a node succeeds run
    from its start so that no installed snapshot drops entries that follow it, leaders
    change the membership after they have committed an entry of their term, and a
    joining node does not campaign while it knows only itself ([safe]).  A node that has
    granted its vote in a term, before or after a crash and a restart from its disk, has
    granted it to one candidate only. *)
Theorem one_vote_per_term ch ls j c1 c2 r1 r2 p1 p2 :
  fixed_cluster base m0 → safe ch ls →
  MVoteResp c1 j r1 p1 ∈ w_net (worldAfter ls) → MVoteResp c2 j r2 p2 ∈ w_net (worldAfter ls) →
  rvr_VoteGranted p1 = true → rvr_VoteGranted p2 = true → rv_Term r1 = rv_Term r2 →
  c1 = c2.
Proof.
  intros Hfc Hls H1 H2 G1 G2 Ht. destruct (after_wrel ch ls Hfc Hls) as (a&_&Hw).
  pose proof (wr_net _ _ _ _ _ Hw _ H1 G1) as [V1 _].
  pose proof (wr_net _ _ _ _ _ Hw _ H2 G2) as [V2 _]. rewrite <- Ht in V2.
  pose proof (good_einv _ _ _ (wr_good _ _ _ _ _ Hw)) as He. by eapply (ei_votes_fun _ He).
Qed.
End safety.

(** ** Witnesses: the theorems at concrete runs

    Node a is elected and commits a command with b, and both compact; a sends c
    its snapshot and then the next command, and commits it with c.  With a fixed
    membership, c crashes and restarts from its disk, and takes over in the next
    term with the vote of b.  In the other run d is started to join first, a adds
    it, sends it its snapshot and commits the change with c and d, and c takes over
    with the votes of b and d. *)

Lemma config3_fixed threshold : fixed_cluster (config3 threshold) ([] : list bytes).
Proof. by split. Qed.

(** A run is fixed when its labels are, and no snapshot cuts off a suffix. *)
Lemma fixed_run_check {M} `{!StateMachine M} base (m0 : M) ls w :
  Forall fixed_label ls → safe_installs base m0 ls w = true → safe_run base m0 false ls w.
Proof. intros. split; [done|by right]. Qed.

Lemma fixed_run_off {M} `{!StateMachine M} base (m0 : M) ls w :
  Forall fixed_label ls → cfg_SnapshotThreshold base ≤ 0 → safe_run base m0 false ls w.
Proof. intros. split; [done|by left]. Qed.

Lemma safe_run_check {M} `{!StateMachine M} base (m0 : M) ls w :
  safe_changes base m0 ls w = true → safe_installs base m0 ls w = true →
  safe_run base m0 true ls w.
Proof. intros. split; [done|by right]. Qed.

Definition snapshotRun : list Label :=
  (electA ++ commitX) ++
  [LReplicate "a" "c"; LDeliver 9; LDeliver 10; LPropose "a" cmdY; LReplicate "a" "c";
   LDeliver 11; LDeliver 12].

Definition demoRun : list Label :=
  snapshotRun ++
  [LRestart "c" []; LEnv "c" (500 * Millisecond) []; LTick "c"; LDeliver 14; LDeliver 15].

Definition joinRun : list Label :=
  snapshotRun ++
  [LJoin "d" (addr "d") "" []; LAddServer "a" "d" (addr "d") ""; LReplicate "a" "c";
   LDeliver 13; LDeliver 14; LReplicate "a" "d"; LDeliver 15; LDeliver 16; LReplicate "a" "d";
   LDeliver 17; LDeliver 18].

Definition changeRun : list Label :=
  joinRun ++
  [LRestart "c" []; LEnv "c" (500 * Millisecond) []; LTick "c"; LDeliver 20; LDeliver 21;
   LDeliver 22; LDeliver 23].

Abbreviation demoWorld ls := (worldAfter (config3 2) ([] : list bytes) ls).

Lemma demoRun_fixed : safe_run (config3 2) [] false demoRun (initWorld (config3 2) []).
Proof. apply fixed_run_check; [repeat constructor|vm_compute; reflexivity]. Qed.

Lemma changeRun_safe : safe_run (config3 2) [] true changeRun (initWorld (config3 2) []).
Proof. apply safe_run_check; vm_compute; reflexivity. Qed.

(** The node [i] of a world. *)
Definition nodeOf (w : World (list bytes)) (i : string) : RaftNode (list bytes) :=
  default (boot (config3 0) [] i freshStorage []) (w_nodes w !! i).

Lemma nodeOf_a : w_nodes (demoWorld changeRun) !! "a"%string =
  Some (nodeOf (demoWorld changeRun) "a").
Proof. vm_compute. reflexivity. Qed.

Lemma nodeOf_c : w_nodes (demoWorld changeRun) !! "c"%string =
  Some (nodeOf (demoWorld changeRun) "c").
Proof. vm_compute. reflexivity. Qed.

Lemma nodeOf_d : w_nodes (demoWorld changeRun) !! "d"%string =
  Some (nodeOf (demoWorld changeRun) "d").
Proof. vm_compute. reflexivity. Qed.

Lemma nodeOf_earlier_d : w_nodes (demoWorld joinRun) !! "d"%string =
  Some (nodeOf (demoWorld joinRun) "d").
Proof. vm_compute. reflexivity. Qed.

(** In these runs a node's state is not trivial: role, term, the index of the
    snapshot, the last index, the commit index, the number of members. *)
Example changeRun_shape :
  (λ i, let n := nodeOf (demoWorld changeRun) i in
        (state n, currentTerm n, lastIncludedIndexLocked n, lastLogIndexLocked n,
         commitIndex n, length (peerIDs n))) <$> ["a"; "b"; "c"; "d"] =
  [(Leader, 1, 4, 4, 4, 4%nat); (Follower, 2, 2, 2, 2, 3%nat); (Leader, 2, 2, 5, 2, 4%nat);
   (Follower, 2, 2, 4, 3, 4%nat)].
Proof. vm_compute. reflexivity. Qed.

Example demoRun_shape :
  (λ i, let n := nodeOf (demoWorld demoRun) i in
        (state n, currentTerm n, lastIncludedIndexLocked n, lastLogIndexLocked n,
         commitIndex n)) <$> ["a"; "b"; "c"] =
  [(Leader, 1, 2, 3, 3); (Follower, 2, 2, 2, 2); (Leader, 2, 2, 4, 2)].
Proof. vm_compute. reflexivity. Qed.

Lemma cluster_refines_witness :
  ∃ a, areach (peers3, ∅) a ∧ a_role (a_nodes a "c") = Leader ∧ a_term (a_nodes a "c") = 2.
Proof.
  destruct (cluster_refines (config3 2) [] true changeRun (config3_fixed 2) changeRun_safe)
    as (a&Hr&Hn).
  exists a. split; [exact Hr|].
  destruct (Hn _ _ nodeOf_c) as (l&k&Ha&_).
  rewrite Ha. vm_compute. split; reflexivity.
Defined.



Lemma leader_has_committed_witness :
  commitIndex (nodeOf (demoWorld changeRun) "a") ≤
    lastLogIndexLocked (nodeOf (demoWorld changeRun) "c") ∧
  agree_at 4 (nodeOf (demoWorld changeRun) "a") (nodeOf (demoWorld changeRun) "c").
Proof.
  destruct (leader_has_committed (config3 2) [] true changeRun "a" "c" _ _ (config3_fixed 2)
    changeRun_safe nodeOf_a nodeOf_c) as [H1 H2]; [vm_compute; done..|].
  split; [exact H1|]. apply H2. vm_compute. done.
Defined.

Lemma committed_forever_witness :
  agree_at 3 (nodeOf (demoWorld joinRun) "d") (nodeOf (demoWorld changeRun) "a").
Proof.
  apply (committed_forever (config3 2) [] true joinRun
    [LRestart "c" []; LEnv "c" (500 * Millisecond) []; LTick "c"; LDeliver 20; LDeliver 21;
     LDeliver 22; LDeliver 23]
    "d" "a" _ _ 3 (config3_fixed 2) changeRun_safe nodeOf_earlier_d nodeOf_a);
    vm_compute; done.
Defined.

Lemma state_machine_safety_witness :
  machine (nodeOf (demoWorld joinRun) "d") = machine (nodeOf (demoWorld changeRun) "d").
Proof.
  apply (state_machine_safety (config3 2) [] true joinRun
    [LRestart "c" []; LEnv "c" (500 * Millisecond) []; LTick "c"; LDeliver 20; LDeliver 21;
     LDeliver 22; LDeliver 23]
    "d" "d" _ _ (config3_fixed 2) changeRun_safe nodeOf_earlier_d nodeOf_d).
  vm_compute. reflexivity.
Defined.

Lemma one_log_witness :
  ∃ L, explains [] L (demoWorld joinRun) ∧ explains [] L (demoWorld changeRun) ∧
    L !z 3 = Some (MkEntry 1 3 cmdY None).
Proof.
  destruct (one_log (config3 2) [] true changeRun (config3_fixed 2) changeRun_safe) as [L HL].
  pose proof (HL changeRun ltac:(reflexivity)) as H2. exists L.
  split_and!; [apply HL; by eexists|exact H2|].
  destruct (H2 _ _ nodeOf_d) as (_&Hp&_). apply Hp; vm_compute; done.
Defined.

(** b votes for a in term 1, crashes and restarts; the request of c for term 1, which
    c entered by itself, is refused, and the request of a, which the network delivers
    again, is granted again. *)
Definition voteAgain : list Label :=
  [LEnv "a" (200 * Millisecond) []; LTick "a"; LDeliver 0; LRestart "b" [];
   LEnv "c" (400 * Millisecond) []; LTick "c"; LDeliver 4; LDeliver 0].

Lemma one_vote_per_term_witness :
  drop 2 (w_net (demoWorld voteAgain)) =
    [MVoteResp "a" "b" (MkVoteReq 1 "a" 0 0) (MkVoteResp 1 true);
     MVoteReq "c" "a" (MkVoteReq 1 "c" 0 0); MVoteReq "c" "b" (MkVoteReq 1 "c" 0 0);
     MVoteResp "c" "b" (MkVoteReq 1 "c" 0 0) (MkVoteResp 1 false);
     MVoteResp "a" "b" (MkVoteReq 1 "a" 0 0) (MkVoteResp 1 true)] ∧
  ∀ c r p, MVoteResp c "b" r p ∈ w_net (demoWorld voteAgain) → rvr_VoteGranted p = true →
    rv_Term r = 1 → c = "a"%string.
Proof.
  split; [vm_compute; reflexivity|]. intros c r p Hin Hg Ht.
  apply (one_vote_per_term (config3 2) [] false voteAgain "b" c "a" r (MkVoteReq 1 "a" 0 0) p
    (MkVoteResp 1 true) (config3_fixed 2)).
  - apply fixed_run_check; [repeat constructor|vm_compute; reflexivity].
  - exact Hin.
  - apply (list_elem_of_lookup_2 _ 6). vm_compute. reflexivity.
  - exact Hg.
  - reflexivity.
  - exact Ht.
Defined.
