(* ===== verification/Kept.v ===== *)
(** Fields that no operation takes away from a node: its disk, its transport,
    once it is a member, its part in elections, and what it has applied unless it
    installs an old snapshot.  [kept] is a preorder on nodes, so
    an operation keeps them when each of its parts does; [equipped_run] draws the
    conclusion for the runs of a cluster. *)
From S2P Require Import Prelude Types Node Persist Membership Snapshot Log Election RaftOps Read Machine NodeInv LogSpec Durable Spec SpecInv SpecSafety Network Demo SnapshotSpec CutLog RefineBase RefineOps RefineSnapshot Refine ClusterSafety.
Open Scope Z_scope.
Open Scope go_scope.

(** ** Fields that no operation takes away *)

Section kept.
Context {M : Type} `{!StateMachine M}.
Implicit Types n : RaftNode M.

(** From [n] to [n']: storage and transport stay, a member stays one, the node is
    not stopped, and its term does not go back.  With [up] what it has applied does
    not go back either. *)
Context {up : bool}.

Record kept n n' : Prop := {
  kp_storage : is_Some (storage n) → is_Some (storage n');
  kp_transport : is_Some (transport n) → is_Some (transport n');
  kp_joining : joining n = false → joining n' = false;
  kp_stopped : stopped n' = stopped n;
  kp_term : currentTerm n ≤ currentTerm n';
  kp_applied : up = true → lastApplied n ≤ lastApplied n';
}.

#[export] Instance kept_preorder : PreOrder kept.
Proof.
  split; [done|]. intros n1 n2 n3 [H1 H2 H3 H4 H5 H6] [G1 G2 G3 G4 G5 G6].
  split; [by auto..|congruence|lia|]. intros Hu. specialize (H6 Hu). specialize (G6 Hu). lia.
Qed.

Lemma kept_frame n n' :
  storage n' = storage n → transport n' = transport n → joining n' = joining n →
  stopped n' = stopped n → currentTerm n' = currentTerm n → lastApplied n' = lastApplied n →
  kept n n'.
Proof. intros H1 H2 H3 H4 H5 H6. split; [congruence..|lia|lia]. Qed.

(** [n'] is [n] with other fields set. *)
Ltac frame := apply kept_frame; reflexivity.

Lemma kept_persist n : kept n (persistLocked n).
Proof.
  unfold persistLocked. destruct (storage n) eqn:E; [|done]. split; try done.
Qed.

Lemma kept_reset n : kept n (resetElectionTimerLocked n).
Proof. destruct (resetElectionTimerLocked_shape n) as (d&r&->). frame. Qed.

Lemma kept_notify n : kept n (notifyPeersLocked n).
Proof.
  unfold notifyPeersLocked. destruct (transport n) as [t|] eqn:E; cbn zeta.
  - destruct (peerHook _); split; try done.
  - destruct (peerHook _); [frame|done].
Qed.

Lemma kept_rebuild n : kept n (rebuildMembershipLocked n).
Proof. rewrite rebuildMembershipLocked_eq. frame. Qed.

Lemma kept_broadcast n : kept n (broadcastAppendEntriesLocked n).
Proof. destruct (broadcast_shape n) as (r&s&->). frame. Qed.

Lemma kept_advance n : kept n (advanceCommitLocked n).
Proof. destruct (advanceCommitLocked_shape n) as (c&->). frame. Qed.

Lemma kept_compact i n : kept n (compactLocked i n).
Proof.
  unfold compactLocked. case_decide; [done|]. case_match; [|done]. case_match; [|done].
  case_decide; [done|]. destruct (membershipAtLocked i n).
  etrans; [|apply kept_persist]. etrans; [|apply kept_notify]. etrans; [|apply kept_rebuild]. frame.
Qed.

Lemma kept_applyCommitted n : kept n (applyCommittedLocked n).
Proof.
  unfold applyCommittedLocked, maybeCompactLocked.
  destruct (applyLoop_shape (Z.to_nat (commitIndex n - lastApplied n)) n) as (a&m&Ha&->).
  assert (H : kept n (set_machine m (set_lastApplied a n))) by done.
  destruct (_ || _); [exact H|]. cbn zeta. case_decide; [exact H|].
  etrans; [exact H|apply kept_compact].
Qed.

Lemma kept_becomeFollower t l n : kept n (becomeFollowerLocked t l n).
Proof.
  unfold becomeFollowerLocked. case_decide; [|frame].
  etrans; [|by apply (kept_frame (persistLocked (set_votedFor "" (set_currentTerm t n))))].
  etrans; [|apply kept_persist]. split; try done. cbn. lia.
Qed.

Lemma kept_acceptLeader t l n : kept n (acceptLeader t l n).
Proof.
  unfold acceptLeader. cbn zeta.
  assert (H : kept n (if decide (t > currentTerm n ∨ state n ≠ Follower)
    then becomeFollowerLocked t l n else n)) by (case_decide; [apply kept_becomeFollower|done]).
  etrans; [exact H|]. generalize (if decide (t > currentTerm n ∨ state n ≠ Follower)
    then becomeFollowerLocked t l n else n). intros x.
  etrans; [|apply (Build_kept (resetElectionTimerLocked (set_leaderID l x)))]; try done.
  etrans; [|apply kept_reset]. frame.
Qed.

Lemma kept_stepDown t n : kept n (resetElectionTimerLocked (becomeFollowerLocked t "" n)).
Proof. etrans; [|apply kept_reset]. apply kept_becomeFollower. Qed.

Lemma kept_recordOwn i n : kept n (recordOwn i n).
Proof.
  unfold recordOwn. etrans; [|apply kept_broadcast]. etrans; [|apply kept_applyCommitted].
  etrans; [|apply kept_advance]. frame.
Qed.

Lemma kept_Propose cmd n : kept n (Propose cmd n).1.
Proof.
  unfold Propose. destruct (stopped n); [done|]. case_decide; [done|]. cbn [fst].
  etrans; [|apply kept_recordOwn]. etrans; [|apply kept_persist]. frame.
Qed.

Lemma kept_becomeLeader n : kept n (becomeLeaderLocked n).
Proof.
  unfold becomeLeaderLocked. etrans; [|apply kept_broadcast].
  etrans; [|apply kept_applyCommitted]. etrans; [|apply kept_advance].
  unfold elected. cbn zeta. etrans; [|apply kept_persist]. split; done.
Qed.

Lemma kept_becomeCandidate n : kept n (becomeCandidate n).
Proof.
  unfold becomeCandidate. etrans; [|apply kept_persist]. etrans; [|apply kept_reset].
  split; try done. cbn. lia.
Qed.

Lemma kept_startElection n : kept n (startElectionLocked n).
Proof.
  unfold startElectionLocked. case_match; [apply kept_reset|].
  etrans; [apply kept_becomeCandidate|]. cbn zeta. generalize (becomeCandidate n).
  intros x. case_decide; [apply kept_becomeLeader|].
  match goal with |- context [foldl (requestVoteFrom ?r) ?n ?ps] =>
    destruct (requestVotes_shape r ps n) as [s ->] end. frame.
Qed.

Lemma kept_tick n : kept n (tick n).
Proof.
  unfold tick. etrans; [|apply kept_applyCommitted]. destruct (state n).
  - case_match; [apply kept_startElection|done].
  - case_match; [apply kept_startElection|done].
  - case_decide; [|done]. etrans; [|apply kept_broadcast]. frame.
Qed.

Lemma kept_requestVoteReply p req resp n : kept n (requestVoteReply p req resp n).
Proof.
  unfold requestVoteReply. case_decide; [apply kept_stepDown|]. case_decide; [done|].
  case_match; [done|]. cbn zeta.
  assert (kept n (put_votesReceived p true n)) by frame.
  case_decide; [|done]. etrans; [done|apply kept_becomeLeader].
Qed.

Lemma kept_HandleRequestVote req n : kept n (HandleRequestVote req n).1.
Proof.
  unfold HandleRequestVote. case_decide; [done|]. cbn zeta.
  assert (Hk : kept n (if decide (rv_Term req > currentTerm n)
    then becomeFollowerLocked (rv_Term req) "" n else n))
    by (case_decide; [apply kept_becomeFollower|done]).
  revert Hk. generalize (if decide (rv_Term req > currentTerm n)
    then becomeFollowerLocked (rv_Term req) "" n else n). intros x Hk.
  case_match; [|done]. cbn [fst]. etrans; [exact Hk|]. etrans; [|apply kept_persist].
  etrans; [|apply kept_reset]. frame.
Qed.

Lemma kept_reconcile es idx n : kept n (reconcile es idx n).1.
Proof.
  revert idx. induction es as [|e es IH]; intros idx; cbn [reconcile]; [done|].
  case_match; [|frame]. case_decide; [frame|]. apply IH.
Qed.

Lemma kept_followCommit c n : kept n (followCommit c n).
Proof.
  unfold followCommit. case_decide; [|done]. cbn zeta. etrans; [|apply kept_applyCommitted].
  case_decide; frame.
Qed.

Lemma kept_HandleAppendEntries req n : kept n (HandleAppendEntries req n).1.
Proof.
  unfold HandleAppendEntries. case_decide; [done|]. cbn zeta.
  pose proof (kept_acceptLeader (ae_Term req) (ae_LeaderID req) n) as Hk.
  revert Hk. generalize (acceptLeader (ae_Term req) (ae_LeaderID req) n). intros x Hk.
  case_decide; [done|]. case_match; [|done]. case_decide; [done|].
  pose proof (kept_reconcile (ae_Entries req) (ae_PrevLogIndex req + 1) x) as Hr.
  destruct (reconcile _ _ _) as [y dirty]. cbn [fst] in Hr |- *.
  etrans; [exact Hk|]. etrans; [exact Hr|]. etrans; [|apply kept_followCommit].
  destruct dirty; [|done]. etrans; [|apply kept_persist]. etrans; [|apply kept_notify].
  apply kept_rebuild.
Qed.

(** A snapshot may be older than what the node has applied. *)
Lemma kept_HandleInstallSnapshot req n : up = false → kept n (HandleInstallSnapshot req n).1.
Proof.
  intros Hup. unfold HandleInstallSnapshot. case_decide; [done|]. cbn zeta.
  pose proof (kept_acceptLeader (is_Term req) (is_LeaderID req) n) as Hk.
  revert Hk. generalize (acceptLeader (is_Term req) (is_LeaderID req) n). intros x Hk.
  case_decide; [done|]. etrans; [exact Hk|]. cbn [fst]. unfold adoptSnapshot. cbn zeta.
  etrans; [|apply kept_persist].
  set (y := set_snapshot (is_Data req) _). assert (H1 : kept x y) by frame.
  etrans; [exact H1|]. clearbody y.
  assert (H2 : kept y (adoptMembers req y)).
  { unfold adoptMembers. case_decide; [|done]. etrans; [|apply kept_notify].
    etrans; [|apply kept_rebuild]. frame. }
  etrans; [exact H2|]. generalize (adoptMembers req y). intros z.
  assert (H3 : kept z (if snapshotterSet z && bool_decide (snapshot z ≠ [])
    then restoreMachine (snapshot z) z else z)).
  { case_match; [|done]. destruct (restoreMachine_shape (snapshot z) z) as [m ->]. frame. }
  etrans; [exact H3|]. generalize (if snapshotterSet z && bool_decide (snapshot z ≠ [])
    then restoreMachine (snapshot z) z else z). intros u. case_decide; (split; [done..|by rewrite Hup]).
Qed.

Lemma kept_makeAppend p n : kept n (makeAppendRequestLocked p n).1.
Proof.
  unfold makeAppendRequestLocked. case_decide; [done|]. cbn zeta.
  case_decide; cbn zeta; case_match; cbn [fst]; try done; frame.
Qed.

Lemma kept_replicateSend i p n : kept n (replicateSend i p n).1.
Proof.
  unfold replicateSend, replicateHead. case_decide; [done|].
  destruct (shouldInstallSnapshotLocked p n); [done|].
  pose proof (kept_makeAppend p n) as Hk.
  destruct (makeAppendRequestLocked p n) as [x [req|]]; exact Hk.
Qed.

Lemma kept_replies n : kept n (applyCommittedLocked (advanceCommitLocked n)).
Proof. etrans; [|apply kept_applyCommitted]. apply kept_advance. Qed.

Lemma kept_appendReply p req t resp n : kept n (replicateAppendReply p req t resp n).1.
Proof.
  unfold replicateAppendReply. case_decide; [done|]. case_decide; [apply kept_stepDown|].
  case_match; cbn [fst].
  - cbn zeta. etrans; [|apply kept_replies]. frame.
  - repeat case_decide; first [done|frame].
Qed.

Lemma kept_installReply p req t resp n : kept n (replicateInstallReply p req t resp n).1.
Proof.
  unfold replicateInstallReply. case_decide; [done|]. case_decide; [apply kept_stepDown|].
  cbn [fst]. etrans; [|apply kept_replies]. frame.
Qed.

Lemma kept_waitCommitted n : kept n (waitCommittedPoll n).1.
Proof.
  unfold waitCommittedPoll. case_decide; [done|]. case_match; [done|]. apply kept_broadcast.
Qed.

Lemma kept_confirmReply t resp n : kept n (confirmReply t resp n).1.
Proof. unfold confirmReply. case_decide; [apply kept_stepDown|done]. Qed.

Lemma kept_ensure n : kept n (ensurePeerTrackingLocked n).
Proof. destruct (ensurePeerTrackingLocked_shape n) as (a&b&->). frame. Qed.

Lemma kept_proposeChange ch n : kept n (proposeChangeLocked ch n).1.
Proof.
  unfold proposeChangeLocked. destruct (stopped n); [done|]. case_decide; [done|].
  destruct (hasUncommittedConfigLocked n); [done|].
  destruct (changedPeers ch n) as [[ps hs]|e]; [|done]. cbn [fst].
  etrans; [|apply kept_recordOwn]. etrans; [|apply kept_persist]. etrans; [|apply kept_notify].
  etrans; [|apply kept_ensure]. etrans; [|apply kept_rebuild]. frame.
Qed.

(** Every operation but [Stop] keeps them, what is applied apart. *)
Lemma kept_runOp op n : up = false → op ≠ OpStop → kept n (runOp op n).
Proof.
  intros Hup. destruct op; intros Hop; cbn [runOp]; [..|done|by apply kept_frame].
  - apply kept_tick.
  - apply kept_HandleRequestVote.
  - apply kept_HandleAppendEntries.
  - by apply kept_HandleInstallSnapshot.
  - apply kept_requestVoteReply.
  - pose proof (kept_replicateSend "" peer n) as H. unfold replicateSend in H.
    by destruct (replicateHead peer n).
  - apply kept_installReply.
  - apply kept_appendReply.
  - by apply kept_frame.
  - apply kept_Propose.
  - unfold AddServer. case_decide; [done|]. apply kept_proposeChange.
  - unfold RemoveServer. case_decide; [done|]. apply kept_proposeChange.
  - apply kept_waitCommitted.
  - apply kept_confirmReply.
  - apply kept_reset.
Qed.

End kept.
Arguments kept {M} up n n'.

Section kept_runs.
Context {M : Type} `{!StateMachine M}.
Implicit Types n : RaftNode M.

(** Terms never go back and a stopped node stays stopped, whatever happens. *)
Lemma runOps_kept ops n :
  currentTerm n ≤ currentTerm (runOps ops n) ∧
  (stopped n = true → stopped (runOps ops n) = true).
Proof.
  revert n. induction ops as [|op ops IH]; intros n; [done|].
  change (runOps (op :: ops) n) with (runOps ops (runOp op n)).
  destruct (IH (runOp op n)) as [H1 H2].
  assert (Hop : currentTerm n ≤ currentTerm (runOp op n) ∧
    (stopped n = true → stopped (runOp op n) = true)).
  { assert (Hd : op = OpStop ∨ op ≠ OpStop) by (destruct op; auto). destruct Hd as [->|Hne].
    - cbn [runOp]. unfold Stop. destruct (stopped n) eqn:E; [by rewrite E|done].
    - destruct (kept_runOp (up := false) op n eq_refl Hne) as [_ _ _ Hs Ht _]. split; [done|]. by rewrite Hs. }
  destruct Hop as [H3 H4]. split; [lia|auto].
Qed.

Lemma kept_NewNode cfg (m : M) src :
  storage (NewNode cfg m src) = cfg_Storage cfg ∧ stopped (NewNode cfg m src) = false ∧
  state (NewNode cfg m src) = Follower ∧
  (cfg_Join cfg = false → joining (NewNode cfg m src) = false).
Proof.
  unfold NewNode. cbn zeta. destruct (cfg_Storage cfg) as [s|] eqn:Es; [|by split_and!].
  rewrite <- Es. destruct (Load s) as [st|]; [|by split_and!].
  destruct (durableUsed st); [|by split_and!]. unfold restoreDurable, loadDurable. cbn zeta.
  match goal with |- context [startAtSnapshot ?x] =>
    assert (Hx : storage x = cfg_Storage cfg ∧ stopped x = false ∧ state x = Follower ∧
      (cfg_Join cfg = false → joining x = false)); [|revert Hx; generalize x] end.
  { destruct (bool_decide _); case_decide; by split_and!. }
  intros n (H1&H2&H3&H4). destruct (startAtSnapshot_shape n) as (x&y&->).
  match goal with |- context [restoreSnapshotLocked ?x] =>
    destruct (restoreSnapshot_shape x) as (u&z&v&->) end.
  rewrite rebuildMembershipLocked_eq. cbn zeta. case_decide; by split_and!.
Qed.
End kept_runs.

(** ** Nodes with a disk and a transport *)

Section equipped.
Context {M : Type} `{!StateMachine M, !StateMachineLaws M}.
Context (base : Config) (m0 : M).
Implicit Types (n : RaftNode M) (w : World M).

Definition equipped n : Prop := is_Some (storage n) ∧ is_Some (transport n).

Lemma equipped_kept n n' : kept false n n' → equipped n → equipped n'.
Proof. intros [] (?&?). split; auto. Qed.

(** A node that has been started: it runs, as a follower, and takes part in
    elections unless it was started to join. *)
Lemma bootWith_equipped cfg src :
  is_Some (cfg_Storage cfg) →
  let n := bootWith base m0 cfg src in
  equipped n ∧ stopped n = false ∧ state n = Follower ∧ (cfg_Join cfg = false → joining n = false).
Proof.
  intros Hst. cbn zeta. destruct (kept_NewNode cfg m0 src) as (H1&H2&H3&H4).
  unfold bootWith, Start, SetSnapshotter, SetTransport, SetPeerHook, SetApply. cbn zeta.
  revert H1 H2 H3 H4. generalize (NewNode cfg m0 src). intros n H1 H2 H3 H4.
  match goal with |- context [resetElectionTimerLocked ?x] =>
    destruct (resetElectionTimerLocked_shape x) as (d&r&->) end.
  match goal with |- context [restoreSnapshotLocked ?x] =>
    destruct (restoreSnapshot_shape x) as (u&z&v&->) end.
  unfold equipped. cbn. rewrite H1. by split_and!.
Qed.

Lemma boot_equipped i st src :
  cfg_Join base = false →
  let n := boot base m0 i st src in
  equipped n ∧ stopped n = false ∧ state n = Follower ∧ joining n = false.
Proof.
  intros Hj. destruct (bootWith_equipped (nodeConfig base i st) src) as (?&?&?&Hn); [by eexists|].
  specialize (Hn Hj). by split_and!.
Qed.

(** Starting a node does not change the membership it was made with. *)
Lemma bootWith_members cfg src :
  peerAddrs (bootWith base m0 cfg src) = peerAddrs (NewNode cfg m0 src).
Proof.
  unfold bootWith, Start, SetSnapshotter, SetTransport, SetPeerHook, SetApply. cbn zeta.
  match goal with |- context [resetElectionTimerLocked ?x] =>
    destruct (resetElectionTimerLocked_shape x) as (d&r&->) end.
  match goal with |- context [restoreSnapshotLocked ?x] =>
    destruct (restoreSnapshot_shape x) as (u&z&v&->) end. done.
Qed.

Definition equipped_in w : Prop := ∀ i n, w_nodes w !! i = Some n → equipped n.

Lemma equipped_init : equipped_in (initWorld base m0).
Proof.
  intros i n Hn. cbn in Hn. rewrite map_lookup_imap in Hn.
  destruct (cfg_PeerAddrs base !! i); cbn in Hn; [|done]. injection Hn as <-.
  by apply bootWith_equipped.
Qed.

Lemma equipped_putNode i n msgs w :
  equipped_in w → equipped n → equipped_in (putNode i n msgs w).
Proof.
  intros Hw Hn j x Hx. cbn in Hx.
  apply lookup_insert_Some in Hx as [[<- <-]|[_ Hx]]; [exact Hn|by eapply Hw].
Qed.

Lemma equipped_onNode i f w :
  equipped_in w → (∀ n, equipped n → equipped (f n).1) → equipped_in (onNode i f w).
Proof.
  intros Hw Hf. unfold onNode. destruct (w_nodes w !! i) as [n|] eqn:Ei; [|done].
  specialize (Hf n (Hw i n Ei)). destruct (f n) as [n1 msgs]. by apply equipped_putNode.
Qed.

Lemma equipped_deliver m w : equipped_in w → equipped_in (deliver m w).
Proof.
  intros Hw. destruct m; cbn [deliver]; apply equipped_onNode; try done; intros n;
    cbn [quiet fst snd]; apply equipped_kept.
  - pose proof (kept_HandleRequestVote (up := false) req n). by destruct (HandleRequestVote req n).
  - apply kept_requestVoteReply.
  - pose proof (kept_HandleAppendEntries (up := false) req n). by destruct (HandleAppendEntries req n).
  - apply kept_appendReply.
  - pose proof (kept_HandleInstallSnapshot (up := false) req n eq_refl). by destruct (HandleInstallSnapshot req n).
  - apply kept_installReply.
Qed.

Lemma equipped_step l w : equipped_in w → equipped_in (stepW base m0 l w).
Proof.
  intros Hw.
  assert (Hnode : ∀ i f op, (∀ n, f n = runOp op n) → op ≠ OpStop → equipped_in (onNode i (quiet f) w)).
  { intros i f op Hf Hop. apply equipped_onNode; [done|]. intros n. cbn [quiet fst]. rewrite Hf.
    by apply equipped_kept, kept_runOp. }
  destruct l; cbn [stepW].
  - by apply (Hnode _ _ OpTick).
  - by apply (Hnode _ _ (OpPropose cmd)).
  - by apply (Hnode _ _ (OpAddServer pid addr httpAddr)).
  - by apply (Hnode _ _ (OpRemoveServer pid)).
  - case_decide; [done|]. apply equipped_onNode; [done|]. intros n.
    apply equipped_kept, kept_replicateSend.
  - by apply (Hnode _ _ (OpReplicateDone peer)).
  - case_decide; [done|]. by apply equipped_onNode.
  - by apply (Hnode _ _ OpWaitCommitted).
  - case_match; [by apply equipped_deliver|done].
  - case_match; [|done]. case_match; try done. by eapply (Hnode _ _ (OpConfirmReply _ _)).
  - by apply (Hnode _ _ (OpEnv now src)).
  - apply equipped_onNode; [done|]. intros n Hn. cbn. unfold Stop. by destruct (stopped n).
  - apply equipped_onNode; [done|]. intros n Hn. cbn. destruct (storage n) eqn:E; [|done].
    by apply bootWith_equipped.
  - case_decide; [done|]. destruct (w_nodes w !! i) as [n|]; [destruct (storage n)|]; try done;
      apply equipped_putNode; try done; by apply bootWith_equipped.
Qed.

Lemma equipped_run ls w : equipped_in w → equipped_in (runW base m0 ls w).
Proof.
  revert w. induction ls as [|l ls IH]; intros w Hw; [done|]. by apply IH, equipped_step.
Qed.
End equipped.
