(* ===== verification/Accessors.v ===== *)
(** The accessors of raft/node.go and the copies they hand out, and Server.Status
    of kv/client_api.go, which calls one accessor after the other: other
    goroutines may use the node between two of them. *)
From S2P Require Import Prelude Types Utf8 Json JsonSpec Marshal KvStore Text Node Persist Membership Snapshot Log Election RaftOps Read Machine Client Kv Kept.
Open Scope Z_scope.
Open Scope go_scope.

(** ** Copies *)

(** A new map, filled by a [range] loop. *)
Definition cloneStringMap (m : gmap string string) : gmap string string :=
  map_fold (λ k v out, <[k := v]> out) ∅ m.

Definition cloneChange (ch : MembershipChange) : MembershipChange :=
  MkChange (ch_Type ch) (ch_ID ch) (ch_Addr ch) (ch_HTTP ch) (cloneStringMap (ch_Peers ch))
    (cloneStringMap (ch_HTTPAddrs ch)).

(** [append([]byte(nil), e.Command...)] copies the command. *)
Definition cloneEntry (e : LogEntry) : LogEntry :=
  MkEntry (e_Term e) (e_Index e) ([] ++ e_Command e) (cloneChange <$> e_Change e).

Definition cloneEntries (entries : list LogEntry) : list LogEntry := map cloneEntry entries.

Lemma cloneStringMap_eq m : cloneStringMap m = m.
Proof.
  unfold cloneStringMap. apply (map_fold_weak_ind (λ out m, out = m)); [done|].
  by intros k v m' out _ ->.
Qed.

(** A copy is what it copies, maps of membership changes included. *)
Lemma cloneEntries_eq l : cloneEntries l = l.
Proof.
  unfold cloneEntries. induction l as [|e l IH]; cbn; [done|]. rewrite IH. f_equal.
  unfold cloneEntry. destruct e as [t i c [ch|]]; [|done]. cbn. do 2 f_equal.
  unfold cloneChange. rewrite !cloneStringMap_eq. by destruct ch.
Qed.

(** ** Accessors *)

Section accessors.
Context {M : Type}.
Implicit Types n : RaftNode M.

Definition ID n : string := nodeID n.
Definition CurrentTerm n : Z := currentTerm n.
Definition VotedFor n : string := votedFor n.
Definition LeaderID n : string := leaderID n.
Definition CommitIndex n : Z := commitIndex n.
Definition LastApplied n : Z := lastApplied n.
Definition LastLogIndex n : Z := lastLogIndexLocked n.
Definition LogSnapshot n : list LogEntry := cloneEntries (log n).

(** [copy] into a new slice of the same length. *)
Definition PeerIDs n : list string := take (length (peerIDs n)) (peerIDs n).
Definition State n : Types.State := state n.
End accessors.

(** ** Server.Status *)

(** The server at the [k]th read: [g i] is what happens between the reads [i] and
    [i + 1]. *)
Definition moment (g : nat → list NodeOp) (k : nat) (s : Server) : Server :=
  foldl (λ s i, meanwhile (g i) s) s (seq 0 k).

(** The reads in the order of the program: the leader first, then the fields of
    the literal.  The id needs no lock, and [httpAddr] is asked for the leader
    that was read first. *)
Definition StatusCall (g : nat → list NodeOp) (s : Server) : Server * Status :=
  let n k := srv_raft (moment g k s) in
  let leader := LeaderID (n 0%nat) in
  (moment g 11 s,
   MkStatus (ID (n 0%nat)) (State_String (State (n 1%nat))) (CurrentTerm (n 2%nat)) leader
     (LeaderAddr (n 3%nat)) (httpAddr leader (moment g 3 s)) (VotedFor (n 4%nat))
     (CommitIndex (n 5%nat)) (LastApplied (n 6%nat)) (LastLogIndex (n 7%nat))
     (SnapshotIndex (n 8%nat)) (LogLen (n 9%nat)) (Len (machine (n 10%nat)))
     (PeerIDs (n 11%nat))).

Lemma runHooks_none (s : Server) : hookCalls (srv_raft s) = [] → runHooks s = s.
Proof.
  intros H. unfold runHooks. cbn. rewrite H. cbn. destruct s as [n t h]. cbn in *.
  destruct n. cbn in *. by subst.
Qed.

Lemma moment_still s k : hookCalls (srv_raft s) = [] → moment (λ _, []) k s = s.
Proof.
  intros H. unfold moment. induction (seq 0 k) as [|i l IH]; [done|]. cbn [foldl].
  unfold meanwhile at 2. cbn [runOps foldl]. rewrite runHooks_none; destruct s; done.
Qed.

(** The terms of later moments are not older. *)
Lemma term_moment g k1 k2 s :
  (k1 ≤ k2)%nat →
  currentTerm (srv_raft (moment g k1 s)) ≤ currentTerm (srv_raft (moment g k2 s)).
Proof.
  induction 1 as [|k2 _ IH]; [done|]. etrans; [exact IH|]. unfold moment.
  rewrite seq_S, foldl_app. cbn [foldl]. unfold meanwhile.
  rewrite runHooks_raft. apply runOps_kept.
Qed.

(** When nothing else uses the node, a Status is a snapshot of it. *)
Theorem status_at_rest s :
  hookCalls (srv_raft s) = [] → StatusCall (λ _, []) s = (s, getStatus s).
Proof.
  intros H. unfold StatusCall. cbn zeta. rewrite !moment_still by done. unfold getStatus. f_equal.
  f_equal. unfold PeerIDs. by rewrite take_ge.
Qed.

(** However the reads interleave, the term of a Status is a lower bound: it is
    not older than the start of the call and not newer than its end. *)
Theorem status_term g s :
  let '(s', st) := StatusCall g s in
  currentTerm (srv_raft s) ≤ ss_Term st ≤ currentTerm (srv_raft s').
Proof.
  cbn [StatusCall ss_Term]. unfold CurrentTerm. split; [apply (term_moment g 0 2); lia|].
  apply term_moment. lia.
Qed.
