(* ===== verification/RunHost.v ===== *)
(** Calls of a node that is part of a cluster: the [Host] of the calls of [Client]
    and [Kv] whose state is the run of the cluster so far.  What others do between
    two sections of a call are steps of the cluster, and the sections of the call
    that change the node are steps themselves, so a call takes place inside a run
    and leaves a longer one. *)
From S2P Require Import Prelude Types Node Persist Membership Snapshot Log Election RaftOps Read Machine Client NodeInv LogSpec Durable Spec SpecInv SpecSafety Network Demo SnapshotSpec CutLog RefineBase RefineOps RefineSnapshot Refine ClusterSafety Kept.
Open Scope Z_scope.
Open Scope go_scope.

Section run_host.
Context {M : Type} `{!StateMachine M}.
Context (base : Config) (m0 : M).
Implicit Types (n : RaftNode M) (w : World M) (ls : list Label).

Abbreviation after := (worldAfter base m0).

(** Node [i] after a run; there is one for every member. *)
Definition nodeAt (i : string) ls : RaftNode M :=
  default (boot base m0 i freshStorage []) (w_nodes (after ls) !! i).

(** The reply to a heartbeat of [i] at position [k] of the network, with the node
    that sent it. *)
Definition replyAt (i : string) ls (k : nat) : option (string * AppendEntriesResponse) :=
  match w_net (after ls) !! k with
  | Some (MAppendResp from p _ resp) => if decide (from = i) then Some (p, resp) else None
  | _ => None
  end.

(** Node [i] in a run of the cluster. *)
Definition run_host (i : string) : Host M (list Label) (list Label) nat := {|
  hostNode ls := nodeAt i ls;
  hostOthers gap ls := ls ++ gap;
  hostPoll ls := (ls ++ [LWaitCommitted i], (waitCommittedPoll (nodeAt i ls)).2);
  hostConfirm term k ls :=
    match replyAt i ls k with
    | Some (_, resp) => (ls ++ [LDeliverConfirm k term], (confirmReply term resp (nodeAt i ls)).2)
    | None => (ls, false)
    end;
  hostPropose cmd ls := (ls ++ [LPropose i cmd], (Propose cmd (nodeAt i ls)).2);
  hostHooks ls := (ls, hookCalls (nodeAt i ls));
|}.

Lemma after_app ls gap : after (ls ++ gap) = runW base m0 gap (after ls).
Proof. apply runW_app. Qed.

Lemma after_snoc ls l : after (ls ++ [l]) = stepW base m0 l (after ls).
Proof. apply after_app. Qed.

Lemma nodeAt_some i ls n : w_nodes (after ls) !! i = Some n → nodeAt i ls = n.
Proof. intros E. unfold nodeAt. by rewrite E. Qed.

(** The sections of a call are the ones the cluster runs: the steps leave the
    node as the section does, with the goroutines it started taken over. *)
Lemma run_host_node i ls f l :
  is_Some (w_nodes (after ls) !! i) → stepW base m0 l (after ls) = onNode i (quiet f) (after ls) →
  nodeAt i (ls ++ [l]) = set_spawned [] (f (nodeAt i ls)).
Proof.
  intros [n Hn] E. rewrite (nodeAt_some _ _ _ Hn). apply nodeAt_some.
  rewrite after_snoc, E. unfold onNode. rewrite Hn. cbn. by rewrite lookup_insert_eq.
Qed.

Lemma run_host_poll i ls :
  is_Some (w_nodes (after ls) !! i) →
  nodeAt i (@hostPoll _ _ _ _ (run_host i) ls).1 =
    set_spawned [] (waitCommittedPoll (nodeAt i ls)).1.
Proof. intros Hn. by apply (run_host_node _ _ (λ n, (waitCommittedPoll n).1)). Qed.

Lemma run_host_propose i cmd ls :
  is_Some (w_nodes (after ls) !! i) →
  nodeAt i (@hostPropose _ _ _ _ (run_host i) cmd ls).1 =
    set_spawned [] (Propose cmd (nodeAt i ls)).1.
Proof. intros Hn. by apply (run_host_node _ _ (λ n, (Propose cmd n).1)). Qed.

Lemma run_host_confirm i ls k term p resp :
  is_Some (w_nodes (after ls) !! i) → replyAt i ls k = Some (p, resp) →
  nodeAt i (@hostConfirm _ _ _ _ (run_host i) term k ls).1 =
    set_spawned [] (confirmReply term resp (nodeAt i ls)).1.
Proof.
  intros Hn Hk. cbn. rewrite Hk. apply (run_host_node _ _ (λ n, (confirmReply term resp n).1) _ Hn).
  unfold replyAt in Hk. cbn. destruct (w_net (after ls) !! k) as [[]|]; try done.
  case_decide; [|done]. by simplify_eq.
Qed.

(** A node does not leave the cluster. *)
Lemma node_stays_step i l w : is_Some (w_nodes w !! i) → is_Some (w_nodes (stepW base m0 l w) !! i).
Proof.
  intros Hi. assert (Hput : ∀ j x msgs, is_Some (w_nodes (putNode j x msgs w) !! i)).
  { intros j x msgs. cbn. destruct (decide (j = i)) as [->|]; [rewrite lookup_insert_eq; by eexists|].
    by rewrite lookup_insert_ne. }
  assert (Hon : ∀ j f, is_Some (w_nodes (onNode j f w) !! i)).
  { intros j f. unfold onNode. destruct (w_nodes w !! j) as [x|]; [|done]. by destruct (f x). }
  destruct l; cbn [stepW]; try done; try (case_decide; done).
  - destruct (w_net w !! k) as [[]|]; cbn; done.
  - destruct (w_net w !! k) as [[]|]; cbn; done.
  - case_decide; [done|]. destruct (w_nodes w !! i0) as [x|] eqn:Ex; [|done]. by destruct (storage x).
Qed.

Lemma node_stays i ls gap :
  is_Some (w_nodes (after ls) !! i) → is_Some (w_nodes (after (ls ++ gap)) !! i).
Proof.
  intros Hi. induction gap as [|l gap IH] using rev_ind; [by rewrite app_nil_r|].
  rewrite app_assoc, after_snoc. by apply node_stays_step.
Qed.

(** ** A call makes the run longer *)

Lemma waitApplied_grows i index ws ls :
  ls `prefix_of` (waitApplied (HH := run_host i) index ws ls).1.
Proof.
  revert ls. induction ws as [|[| |gap] ws IH]; intros ls; cbn; [done..|].
  destruct (waitPoll index _); cbn; [by eexists|]. etrans; [|apply IH]. by eexists.
Qed.

Lemma waitCurrentTermCommitted_grows i ws ls :
  ls `prefix_of` (waitCurrentTermCommitted (HH := run_host i) ws ls).1.
Proof.
  revert ls. induction ws as [|[| |gap] ws IH]; intros ls; cbn;
    (destruct (waitCommittedPoll (nodeAt i ls)).2; cbn; [by eexists|]); try by eexists.
  etrans; [|apply IH]. rewrite <- app_assoc. by eexists.
Qed.

Lemma confirmRun_grows i term majority acks pending ws ls :
  ls `prefix_of` (confirmRun (HH := run_host i) term majority acks pending ws ls).1.
Proof.
  revert acks pending ls. induction ws as [|[| |gap|gap k] ws IH]; intros acks pending ls;
    cbn [confirmRun]; (case_decide; [done|]); try done; cbn zeta.
  - repeat case_decide; cbn; [by eexists..|]. etrans; [|apply IH]. by eexists.
  - destruct (hostConfirm term k (hostOthers gap ls)) as [ls1 ok] eqn:E.
    assert (H1 : ls `prefix_of` ls1).
    { cbn in E. destruct (replyAt i (ls ++ gap) k) as [[p resp]|]; simplify_eq; [|by eexists].
      rewrite <- app_assoc. by eexists. }
    repeat case_decide; cbn; [done..|]. etrans; [exact H1|apply IH].
Qed.

(** ** What the call waited for *)

(** A poll that succeeds leaves the node as it is. *)
Lemma poll_ok i ls :
  is_Some (w_nodes (after ls) !! i) → (waitCommittedPoll (nodeAt i ls)).2 = Some (Ok tt) →
  state (nodeAt i (ls ++ [LWaitCommitted i])) = Leader ∧
  committedCurrentTermLocked (nodeAt i (ls ++ [LWaitCommitted i])) = true.
Proof.
  intros Hn. rewrite (run_host_node _ _ (λ n, (waitCommittedPoll n).1)) by done.
  generalize (nodeAt i ls). intros n. unfold waitCommittedPoll. case_decide as Hl; [done|].
  destruct (committedCurrentTermLocked n) eqn:Ec; [|done]. intros _. split; [|exact Ec].
  cbn. destruct (state n); naive_solver.
Qed.

Lemma waitApplied_done i index ws ls ls' :
  waitApplied (HH := run_host i) index ws ls = (ls', Some (Ok tt)) →
  index ≤ lastApplied (nodeAt i ls').
Proof.
  revert ls. induction ws as [|[| |gap] ws IH]; intros ls; [done..|]. cbn.
  destruct (waitPoll index (nodeAt i (ls ++ gap))) as [r|] eqn:Ep; [|apply IH].
  intros [= <- ->]. unfold waitPoll in Ep. case_decide; [done|]. by case_decide.
Qed.

(** The wait ends in a section that finds a leader with an entry of its term
    committed, and leaves it so. *)
Lemma waitCurrentTermCommitted_done i ws ls ls' :
  is_Some (w_nodes (after ls) !! i) →
  waitCurrentTermCommitted (HH := run_host i) ws ls = (ls', Some (Ok tt)) →
  state (nodeAt i ls') = Leader ∧ committedCurrentTermLocked (nodeAt i ls') = true.
Proof.
  revert ls. induction ws as [|w ws IH]; intros ls Hn; cbn;
    destruct (waitCommittedPoll (nodeAt i ls)).2 as [r|] eqn:Ep; try done.
  - intros [= <- ->]. by apply poll_ok.
  - intros [= <- ->]. by apply poll_ok.
  - destruct w as [| |gap]; [done..|]. apply IH. by apply node_stays, node_stays.
Qed.

(** ** What a run keeps of a node *)

(** The labels that start node [i] again. *)
Definition restarts (i : string) (l : Label) : bool :=
  match l with
  | LRestart j _ | LJoin j _ _ _ => bool_decide (j = i)
  | _ => false
  end.
End run_host.

Section applied.
Context {M : Type} `{!StateMachine M, !StateMachineLaws M}.
Context (base : Config) (m0 : M) (ch : bool).
Implicit Types (n : RaftNode M) (w : World M) (ls : list Label).

Lemma onNode_applied i j f w n :
  w_nodes w !! i = Some n → (j = i → lastApplied n ≤ lastApplied (f n).1) →
  ∃ n', w_nodes (onNode j f w) !! i = Some n' ∧ lastApplied n ≤ lastApplied n'.
Proof.
  intros Hi Hf. unfold onNode. destruct (decide (j = i)) as [->|Hne].
  - rewrite Hi. specialize (Hf eq_refl). destruct (f n) as [n' msgs]. cbn.
    rewrite lookup_insert_eq. by eexists.
  - destruct (w_nodes w !! j) as [nj|]; [|by exists n]. destruct (f nj) as [n' msgs]. cbn.
    rewrite lookup_insert_ne by done. by exists n.
Qed.

Lemma kept_applied n n' : kept true n n' → lastApplied n ≤ lastApplied n'.
Proof. intros []. auto. Qed.

(** In a safe run a node that is not started again never undoes what it has
    applied. *)
Lemma applied_step w a l i n :
  wrel base m0 ch w a → step_ok base ch l w → restarts i l = false →
  w_nodes w !! i = Some n →
  ∃ n', w_nodes (stepW base m0 l w) !! i = Some n' ∧ lastApplied n ≤ lastApplied n'.
Proof.
  intros Hw [_ Hsafe] Hl Hi. assert (Hstay : ∃ n', w_nodes w !! i = Some n' ∧
    lastApplied n ≤ lastApplied n') by (by exists n).
  destruct l; cbn [stepW]; try (apply onNode_applied; [done|intros Ej; cbn [quiet fst]]).
  - apply kept_applied, kept_tick.
  - apply kept_applied, kept_Propose.
  - unfold AddServer. case_decide; [done|]. apply kept_applied, kept_proposeChange.
  - unfold RemoveServer. case_decide; [done|]. apply kept_applied, kept_proposeChange.
  - case_decide; [done|]. apply onNode_applied; [done|]. intros _. apply kept_applied, kept_replicateSend.
  - by apply kept_applied, kept_frame.
  - case_decide; [done|]. by apply onNode_applied.
  - apply kept_applied, kept_waitCommitted.
  - cbn in Hsafe. destruct (w_net w !! k) as [m|] eqn:Em; [|done].
    pose proof (wr_net _ _ _ _ _ Hw m (list_elem_of_lookup_2 _ _ _ Em)) as Hm.
    destruct m as [x j req|x j req resp|x j req|x j req resp|x j req|x j req resp]; cbn [deliver];
      apply onNode_applied; try done; intros ->; cbn [quiet fst].
    + pose proof (kept_applied _ _ (kept_HandleRequestVote req n)). by destruct (HandleRequestVote req n).
    + apply kept_applied, kept_requestVoteReply.
    + pose proof (kept_applied _ _ (kept_HandleAppendEntries req n)).
      by destruct (HandleAppendEntries req n).
    + apply kept_applied, kept_appendReply.
    + destruct (wr_nodes _ _ _ _ _ Hw i n Hi) as [Hn _].
      assert (Hkeep : keeps_suffix req n).
      { destruct Hsafe as [Hoff|Hsafe]; [destruct Hm as [Hpos _]; lia|].
        cbn in Hsafe. rewrite Hi in Hsafe. by apply bool_decide_eq_true in Hsafe. }
      pose proof (install_applied base m0 ch a x i n req (wr_good _ _ _ _ _ Hw) Hn Hm Hkeep).
      by destruct (HandleInstallSnapshot req n).
    + apply kept_applied, kept_installReply.
  - destruct (w_net w !! k) as [[]|]; try done. apply onNode_applied; [done|]. intros _.
    apply kept_applied, kept_confirmReply.
  - by apply kept_applied, kept_frame.
  - unfold Stop. by destruct (stopped n).
  - cbn in Hl. by apply bool_decide_eq_false in Hl.
  - cbn in Hl. apply bool_decide_eq_false in Hl. case_decide; [done|].
    assert (Hput : ∀ x, ∃ n', w_nodes (putNode i0 x [] w) !! i = Some n' ∧
      lastApplied n ≤ lastApplied n') by (intros x; cbn; rewrite lookup_insert_ne by done; by exists n).
    destruct (w_nodes w !! i0) as [n0|]; [destruct (storage n0)|]; by auto.
Qed.

Lemma applied_run ls w a i n :
  fixed_cluster base m0 → wrel base m0 ch w a → safe_run base m0 ch ls w →
  Forall (λ l, restarts i l = false) ls → w_nodes w !! i = Some n →
  ∃ n', w_nodes (runW base m0 ls w) !! i = Some n' ∧ lastApplied n ≤ lastApplied n'.
Proof.
  intros Hfc. revert w a n. induction ls as [|l ls IH]; intros w a n Hw Hrun Hls Hi.
  { by exists n. }
  apply Forall_cons in Hls as [Hl Hls].
  destruct (safe_run_cons base m0 ch l ls w Hrun) as [Hok Hrun'].
  destruct (applied_step w a l i n Hw Hok Hl Hi) as (n1&H1&Hle1).
  destruct (wrel_step base m0 ch w a l Hfc Hw Hok) as (a1&_&Hw1).
  destruct (IH _ _ _ Hw1 Hrun' Hls H1) as (n2&H2&Hle2). exists n2. split; [done|lia].
Qed.
End applied.
