(* ===== verification/Linearizable.v ===== *)
(** Linearizable reads over the cluster: a ReadIndex call (raft/read.go) on a node
    in a run of the cluster.  The commit index a leader reads, once a majority has
    answered it in its term, covers everything that was committed anywhere when the
    call started.  The majority is one of the members the leader has; changes of
    the membership are included: a later leader needs votes that meet it
    ([no_later_leader]). *)
From S2P Require Import Prelude Types Node Persist Membership Snapshot Log Election RaftOps Read Machine Client NodeInv LogSpec Durable Spec SpecInv SpecSafety Network Demo CutLog RefineBase RefineOps RefineSnapshot Refine ClusterSafety Kept RunHost.
Open Scope Z_scope.
Open Scope go_scope.

(** ** The abstract protocol *)

Section spec_read.
Context (B : gmap string string * gmap string string).
Implicit Types a : AState.

Lemma term_mono_step a a' v :
  astep B a a' → a_term (a_nodes a v) ≤ a_term (a_nodes a' v).
Proof. intros Hs. destruct Hs as [w|w|w|w|w|w|w|w|w|w]; cbn; at_node w v; subst nd; lia. Qed.

Lemma term_mono a a' v :
  rtc (astep B) a a' → a_term (a_nodes a v) ≤ a_term (a_nodes a' v).
Proof.
  induction 1 as [|a1 a2 a3 Hs _ IH]; [done|]. etrans; [by eapply term_mono_step|done].
Qed.

(** A leader has committed what was committed in its term. *)
Definition leads_commits a : Prop := ∀ v i,
  a_role (a_nodes a v) = Leader → committed a (a_term (a_nodes a v)) i →
  (i ≤ a_commit (a_nodes a v))%nat.

Lemma leads_commits_step a a' :
  einv a → cinv B a → leads_commits a → astep B a a' → leads_commits a'.
Proof.
  intros Hinv Hc IH Hs w i'.
  destruct Hs as [v|v|v|v c lc|v e Q nd t Hr HQ Hv|v e nd t Hr|v m nd t ? Hr
    |v i e Q nd t Hr He Het HQ Ha Hle|v t i c nd|v]; cbn; at_node v w; try done; try by apply IH.
  - intros _ Hin. destruct (ci_commits _ _ _ _ Hc Hin) as (?&_&_&[x Hx]).
    pose proof (elect_fresh B a Hinv Hc v Q Hr HQ Hv) as Hn. subst t nd. cbn in *. congruence.
  - intros _. by apply IH.
  - intros _ [k Hin]. cbn in Hin. apply elem_of_cons in Hin as [[= -> ->]|Hin]; [done|].
    etrans; [apply IH; [done|by exists k]|done].
  - intros Hl [k Hin]. cbn in Hin. apply elem_of_cons in Hin as [[= Ht -> ->]|Hin]; [|apply IH; [done|by exists k]].
    destruct (ei_is_leader _ Hinv v Hr) as [Hv _].
    destruct (ei_is_leader _ Hinv w Hl) as [Hw _]. subst t nd. congruence.
  - intros Hl Hin. subst nd. etrans; [by apply IH|done].
Qed.

Lemma leads_commits_reach a : areach B a → leads_commits a.
Proof.
  intros Hr. unfold areach in Hr. apply rtc_ind_r with (P := leads_commits) in Hr; [done| |].
  - intros v i _ [k Hin]. by apply elem_of_nil in Hin.
  - intros b c Hb Hs IH. apply areach_inv in Hb as [??]. by eapply leads_commits_step.
Qed.

(** The entry of its term that a leader has committed was committed in its term. *)
Lemma committed_own a v e :
  areach B a → a_log (a_nodes a v) !! a_commit (a_nodes a v) = Some e →
  e_Term e = a_term (a_nodes a v) → 0 < a_term (a_nodes a v) →
  ∃ i, committed a (a_term (a_nodes a v)) i ∧ (a_commit (a_nodes a v) ≤ i)%nat.
Proof.
  intros Hr He Het Hpos. pose proof (areach_inv _ a Hr) as [Hinv Hc].
  destruct (ci_commit _ _ Hc v) as [Hz|(t&i&Hin&Ht&Hi&Hp)].
  { destruct (ei_log _ Hinv v) as [[Hh _ _] _]. rewrite Hz, Hh in He. injection He as <-. cbn in Het. lia. }
  exists i. split; [|done]. destruct (ci_commits _ _ _ _ Hc Hin) as (x&Hx&_&Hl).
  assert (Hlt : (a_commit (a_nodes a v) < length (h_tlog a t))%nat) by (apply lookup_lt_Some in Hx; lia).
  destruct (lookup_lt_is_Some_2 _ _ Hlt) as [y Hy].
  assert (y = e) as ->.
  { eapply (prefix_lookup_Some _ _ (a_commit (a_nodes a v))) in Hp; [|rewrite lookup_take_lt by lia; exact Hy].
    congruence. }
  destruct (ei_tlog _ Hinv t Hl) as [_ Hb]. apply Hb in Hy.
  by replace t with (a_term (a_nodes a v)) in Hin by lia.
Qed.

(** The first leader after [t], if there is one. *)
Lemma next_leader a t t' :
  is_Some (h_leader a t') → t < t' →
  ∃ u, t < u ∧ is_Some (h_leader a u) ∧ ∀ s, t < s < u → h_leader a s = None.
Proof.
  intros Hl Ht. remember (Z.to_nat (t' - t)) as k eqn:Ek. revert t' Hl Ht Ek.
  induction k as [k IH] using lt_wf_ind. intros t' Hl Ht ->.
  destruct (decide (Exists (λ s, is_Some (h_leader a s)) (seqZ (t + 1) (t' - t - 1)))) as [Hex|Hno].
  - apply Exists_exists in Hex as (s&Hs&Hls). apply elem_of_seqZ in Hs. eapply (IH _ ltac:(shelve) s); [done|lia|done]. Unshelve. lia.
  - exists t'. split_and!; [done..|]. intros s Hs. apply eq_None_not_Some. intros Hls.
    apply Hno, Exists_exists. exists s. split; [apply elem_of_seqZ; lia|done].
Qed.

(** While a majority of its members is not past the term of a leader that has
    committed an entry of its term, no later term has a leader. *)
Lemma no_later_leader a v Q e t' :
  areach B a → a_role (a_nodes a v) = Leader →
  a_log (a_nodes a v) !! a_commit (a_nodes a v) = Some e → e_Term e = a_term (a_nodes a v) →
  quorum (conf B (a_log (a_nodes a v))) Q →
  (∀ q, q ∈ Q → a_term (a_nodes a q) ≤ a_term (a_nodes a v)) →
  is_Some (h_leader a t') → t' ≤ a_term (a_nodes a v).
Proof.
  intros Hr Hl He Het HQ Hterms Ht'. pose proof (areach_inv _ a Hr) as [Hinv Hc].
  destruct (ei_is_leader _ Hinv v Hl) as [Hv Hlog]. set (t := a_term (a_nodes a v)) in *.
  destruct (ei_leader _ Hinv _ _ Hv) as ([Hpos _]&_).
  destruct (decide (t' ≤ t)) as [|Hgt]; [done|exfalso].
  destruct (committed_own a v e Hr He Het) as (i&Hci&_); [done|]. fold t in Hci.
  destruct (next_leader a t t' Ht' ltac:(lia)) as (u&Hu&[l Hlu]&Hnone). clear Ht' Hgt t'.
  destruct (leaders_ok B a Hinv Hc (u + 1)) as [HN _].
  destruct (leaders_ok B a Hinv Hc u) as [HN' Hcom].
  destruct (ei_leader _ Hinv _ _ Hlu) as (_&_&lu&_&Hin&_).
  destruct (ei_cands _ Hinv _ _ _ Hin) as (Hw&Hb&_).
  assert (Hs : sees B a u lu) by (eapply HN; [lia|done..]).
  assert (Hp : take (S i) (h_tlog a t) `prefix_of` lu) by (by eapply sees_holds).
  destruct (ci_commits _ _ _ _ Hc Hci) as (x&Hx&Hxt&_).
  assert (Hxl : lu !! i = Some x).
  { eapply prefix_lookup_Some; [|exact Hp]. rewrite lookup_take_lt by lia. done. }
  pose proof (wlog_bounded_last _ _ _ _ Hw Hxl) as Hlast.
  assert (Elast : last_term lu = t).
  { destruct (wlog_last _ _ Hw) as (z&Hz&Hzt&_). apply Hb in Hz.
    destruct (decide (last_term lu = t)) as [|Hne]; [done|].
    destruct (last_leader a Hinv lu Hw) as [y Hy]; [lia|]. rewrite Hnone in Hy by lia. done. }
  assert (Hm : meets (conf B lu) (conf B (a_log (a_nodes a v)))).
  { rewrite Hlog. pose proof (wlog_take_eq a lu Hw) as E. rewrite Elast in E.
    pose proof (wlog_own a Hinv lu Hw ltac:(lia)) as Ho. rewrite Elast in Ho.
    pose proof (wlog_pos _ _ Hw). assert (Hle : (length lu ≤ length (h_tlog a t))%nat).
    { apply (f_equal length) in E. rewrite length_take in E. lia. }
    rewrite E. replace (conf B (h_tlog a t)) with (conf B (take (length (h_tlog a t)) (h_tlog a t)))
      by (by rewrite take_ge).
    apply (prefixes_meet B a Hinv Hc t u); [by eexists|done|lia|done|done|by rewrite <- E]. }
  destruct (ci_quorum _ _ Hc _ _ Hlu) as (lc&Hin'&Q'&HQ'&Hvotes).
  assert (lc = lu) as -> by (by eapply (ei_cands_fun _ Hinv)).
  destruct (Hm Q' Q HQ' HQ) as (q&Hq'&Hq). specialize (Hterms q Hq).
  destruct (Hvotes q Hq') as [Hvote _]. destruct (ei_votes _ Hinv _ _ _ Hvote) as (?&_). lia.
Qed.

(** When no later term has a leader, nothing is committed beyond the commit index
    of a leader that has committed an entry of its term. *)
Lemma read_covers a v e t i :
  areach B a → a_role (a_nodes a v) = Leader →
  a_log (a_nodes a v) !! a_commit (a_nodes a v) = Some e →
  e_Term e = a_term (a_nodes a v) →
  (∀ t', is_Some (h_leader a t') → t' ≤ a_term (a_nodes a v)) →
  committed a t i → (i ≤ a_commit (a_nodes a v))%nat.
Proof.
  intros Hr Hl He Het Hlast Hin. pose proof (areach_inv _ a Hr) as [Hinv Hc].
  destruct (ei_is_leader _ Hinv v Hl) as [Hv Hlog].
  destruct (ci_commits _ _ _ _ Hc Hin) as (x&Hx&Hxt&Hlt). pose proof (Hlast t Hlt) as Ht.
  destruct (decide (t = a_term (a_nodes a v))) as [->|Hne]; [by apply (leads_commits_reach a)|].
  assert (Hp : take (S i) (h_tlog a t) `prefix_of` a_log (a_nodes a v)).
  { rewrite Hlog. apply (committed_in_later B a Hinv Hc); [done|lia|by eexists]. }
  assert (Hi : a_log (a_nodes a v) !! i = Some x).
  { eapply prefix_lookup_Some; [|exact Hp]. rewrite lookup_take_lt by lia. done. }
  destruct (ei_log _ Hinv v) as [[_ Hsorted _] _].
  destruct (decide (i ≤ a_commit (a_nodes a v))%nat) as [|Hgt]; [done|exfalso].
  assert (e_Term e ≤ e_Term x) by (eapply Hsorted; [exact He|exact Hi|lia]). lia.
Qed.

(** A leader that has committed an entry of its term is in that position whenever
    it leads that term later. *)
Lemma settled_later ch a a' v e :
  good B ch a → good B ch a' → hist_le a a' →
  a_role (a_nodes a v) = Leader → a_role (a_nodes a' v) = Leader →
  a_term (a_nodes a' v) = a_term (a_nodes a v) →
  a_log (a_nodes a v) !! a_commit (a_nodes a v) = Some e → e_Term e = a_term (a_nodes a v) →
  ∃ e', a_log (a_nodes a' v) !! a_commit (a_nodes a' v) = Some e' ∧
    e_Term e' = a_term (a_nodes a' v).
Proof.
  intros Hg Hg' Hh Hl Hl' Ht He Het. pose proof (good_einv _ _ _ Hg) as Hinv.
  pose proof (good_einv _ _ _ Hg') as Hinv'. pose proof (good_cinv _ _ _ Hg') as Hc'.
  destruct (ei_is_leader _ Hinv v Hl) as [Hv _]. destruct (ei_leader _ Hinv _ _ Hv) as ([Hpos _]&_).
  destruct (committed_own a v e (proj1 Hg) He Het Hpos) as (i&Hi&_).
  apply (committed_mono _ _ _ _ Hh) in Hi. rewrite <- Ht in Hi.
  pose proof (leads_commits_reach a' (proj1 Hg') v i Hl' Hi) as Hle.
  destruct (ci_commits _ _ _ _ Hc' Hi) as (x&Hx&Hxt&_).
  destruct (ei_is_leader _ Hinv' v Hl') as [_ Hlog']. rewrite <- Hlog' in Hx.
  destruct (lookup_lt_is_Some_2 _ _ (good_commit_lt _ _ a' v Hg')) as [e' He'].
  exists e'. split; [done|]. destruct (ei_log _ Hinv' v) as [[_ Hsorted _] Hb].
  pose proof (Hb _ _ He'). pose proof (Hsorted _ _ _ _ Hx He' Hle). lia.
Qed.
End spec_read.

(** ** The cluster *)

Section read_cluster.
Context {M : Type} `{!StateMachine M, !StateMachineLaws M}.
Context (base : Config) (m0 : M) (ch : bool).
Implicit Types (n : RaftNode M) (w : World M) (a : AState).

Abbreviation B := (cfg_PeerAddrs base, cfg_HTTPAddrs base).

(** What a step sends: a reply to AppendEntries carries at least the term its
    sender had. *)
Definition replies_current w (new : list Message) : Prop :=
  ∀ i j req resp, MAppendResp i j req resp ∈ new →
    ∃ n, w_nodes w !! j = Some n ∧ currentTerm n ≤ aer_Term resp.

Lemma putNode_net i n msgs w :
  replies_current w msgs →
  ∃ new, w_net (putNode i n msgs w) = w_net w ++ new ∧ replies_current w new.
Proof.
  intros Hm. eexists. split; [reflexivity|]. intros x j req resp Hin.
  apply elem_of_app in Hin as [Hin|Hin]; [|by eapply Hm].
  exfalso. destruct (transport n); [|by apply elem_of_nil in Hin].
  unfold voteRequestsOf in Hin. apply list_elem_of_omap in Hin as ([]&_&?); done.
Qed.

Lemma onNode_net i (f : RaftNode M → RaftNode M * list Message) w :
  (∀ n, w_nodes w !! i = Some n → replies_current w (f n).2) →
  ∃ new, w_net (onNode i f w) = w_net w ++ new ∧ replies_current w new.
Proof.
  intros Hf. unfold onNode. destruct (w_nodes w !! i) as [n|] eqn:E.
  - specialize (Hf n eq_refl). destruct (f n) as [n' msgs]. by apply putNode_net.
  - exists []. rewrite app_nil_r. split; [done|]. by intros ? ? ? ? ?%elem_of_nil.
Qed.

Lemma onNode_quiet_net i f w :
  ∃ new, w_net (onNode i (quiet f) w) = w_net w ++ new ∧ replies_current w new.
Proof. apply onNode_net. intros n _ x j req resp Hin. by apply elem_of_nil in Hin. Qed.

Lemma step_net l w :
  ∃ new, w_net (stepW base m0 l w) = w_net w ++ new ∧ replies_current w new.
Proof.
  assert (Hstay : ∃ new, w_net w = w_net w ++ new ∧ replies_current w new).
  { exists []. rewrite app_nil_r. split; [done|]. by intros ? ? ? ? ?%elem_of_nil. }
  destruct l; cbn [stepW]; try apply onNode_quiet_net; try case_decide; try done.
  - apply onNode_net. intros n _ x j req resp Hin. unfold replicateSend in Hin.
    destruct (replicateHead peer n) as [n' []]; cbn in Hin;
      [by apply elem_of_nil in Hin|by apply list_elem_of_singleton in Hin..].
  - apply onNode_net. intros n _ x j req resp Hin. cbn in Hin.
    destruct (confirmSend term n); [by apply list_elem_of_singleton in Hin|by apply elem_of_nil in Hin].
  - destruct (w_net w !! k) as [m|]; [|done]. unfold deliver.
    destruct m as [i j req|i j req resp|i j req|i j req resp|i j req|i j req resp];
      try apply onNode_quiet_net.
    + apply onNode_net. intros n _ x y rq rs Hin.
      destruct (HandleRequestVote req n). by apply list_elem_of_singleton in Hin.
    + apply onNode_net. intros n Hn x y rq rs Hin.
      pose proof (append_resp_term req n) as Ht. destruct (HandleAppendEntries req n) as [n' resp].
      apply list_elem_of_singleton in Hin. cbn in Ht. simplify_eq. exists n. split; [done|lia].
    + apply onNode_net. intros n _ x y rq rs Hin.
      destruct (HandleInstallSnapshot req n). by apply list_elem_of_singleton in Hin.
  - destruct (w_net w !! k) as [[]|]; try done. apply onNode_quiet_net.
  - assert (Hnil : replies_current w []) by (by intros ? ? ? ? ?%elem_of_nil).
    destruct (w_nodes w !! i) as [n|]; [destruct (storage n)|]; try done; by apply putNode_net.
Qed.

(** A message stays in the network. *)
Lemma net_kept k m ls w :
  w_net w !! k = Some m → w_net (runW base m0 ls w) !! k = Some m.
Proof.
  revert w. induction ls as [|l ls IH]; intros w Hk; [done|]. apply IH.
  destruct (step_net l w) as (new&->&_). by apply lookup_app_l_Some.
Qed.

(** A reply sent after [w1] carries at least the term its sender had at [w1]. *)
Lemma fresh_replies w1 a1 ls i j n1 k req resp :
  fixed_cluster base m0 → wrel base m0 ch w1 a1 → safe_run base m0 ch ls w1 →
  w_nodes w1 !! j = Some n1 → (length (w_net w1) ≤ k)%nat →
  w_net (runW base m0 ls w1) !! k = Some (MAppendResp i j req resp) →
  currentTerm n1 ≤ aer_Term resp.
Proof.
  intros Hfc Hw Hls Hj Hk Hin.
  assert (Hnow : currentTerm n1 ≤ a_term (a_nodes a1 j)).
  { destruct (wrel_node base m0 ch _ _ _ _ Hw Hj) as (l&c&[->]&_). done. }
  clear Hj. revert w1 a1 Hw Hls Hk Hin Hnow.
  induction ls as [|l ls IH]; intros w a Hw Hls Hk Hin Hnow.
  { cbn in Hin. apply lookup_lt_Some in Hin. lia. }
  apply (safe_run_app base m0 ch [l] ls) in Hls as [Hl Hls].
  destruct (wrel_run base m0 ch w a [l] Hfc Hw Hl) as (a'&Hr&Hw'). cbn in Hw', Hls.
  destruct (step_net l w) as (new&Hnew&Hcur). cbn [runW foldl] in Hin.
  destruct (w_net (stepW base m0 l w) !! k) as [m|] eqn:Em.
  - pose proof (net_kept k m ls _ Em) as Hm. unfold runW in Hm. rewrite Hin in Hm.
    injection Hm as <-. rewrite Hnew, lookup_app_r in Em by done.
    apply list_elem_of_lookup_2, Hcur in Em as (n&Hn&Hle).
    destruct (wrel_node base m0 ch _ _ _ _ Hw Hn) as (x&c&[E]&_). rewrite E in Hnow. cbn in Hnow. lia.
  - apply lookup_ge_None in Em. eapply IH; [exact Hw'|exact Hls|done|done|].
    etrans; [exact Hnow|]. by eapply term_mono.
Qed.

(** The leader [n] of the world [w], node [i], is confirmed in the steps [ls2]: a
    majority, [i] and the nodes of [Q], answers in a way that confirms the term,
    with replies sent after [w]. *)
Record confirmed_in w (ls2 : list Label) (i : string) n (Q : gset string) : Prop := {
  cr_node : w_nodes w !! i = Some n;
  cr_leader : state n = Leader;
  cr_self : i ∉ Q;
  cr_members : Q ⊆ dom (peerAddrs n);
  cr_majority : majority n ≤ 1 + Z.of_nat (size Q);
  cr_acks : ∀ p, p ∈ Q → ∃ k req resp n', (length (w_net w) ≤ k)%nat ∧
    w_net (runW base m0 ls2 w) !! k = Some (MAppendResp i p req resp) ∧
    (confirmReply (currentTerm n) resp n').2 = true;
}.

(** The majority a read counts, with the leader itself, is a quorum of the
    members by its log that is not past its term. *)
Lemma confirmed_quorum w a ls2 i n (Q : gset string) :
  fixed_cluster base m0 → wrel base m0 ch w a → safe_run base m0 ch ls2 w →
  confirmed_in w ls2 i n Q →
  quorum (conf B (a_log (a_nodes a i))) ({[i]} ∪ Q) ∧
  ∀ q, q ∈ {[i]} ∪ Q → a_term (a_nodes a q) ≤ currentTerm n.
Proof.
  intros Hfc Hw Hl2 [Hi Hst Hni Hsub Hmaj Hacks].
  assert (Hnf : state n ≠ Follower) by congruence.
  destruct (wrel_node base m0 ch _ _ _ _ Hw Hi) as (l&c&[A]&N&_).
  pose proof (nr_known _ _ _ _ _ _ N Hnf) as Hk. split; [unfold conf; rewrite <- Hk; split|].
  - apply union_subseteq. split; [|done]. apply singleton_subseteq_l, elem_of_dom.
    by apply (nr_voter _ _ _ _ _ _ N).
  - rewrite size_union, size_singleton by set_solver. unfold majority in Hmaj.
    destruct (nr_members _ _ _ _ _ _ N) as [_ Hids]. rewrite Hids in Hmaj.
    unfold slen in Hmaj. rewrite length_sorted_keys in Hmaj. cbn [fst]. rewrite size_dom. lia.
  - intros q [->%elem_of_singleton|Hq]%elem_of_union; [rewrite A; cbn; lia|].
    destruct (Hacks q Hq) as (k&req&resp&n'&Hk'&Hin&Hok).
    destruct (w_nodes w !! q) as [nq|] eqn:Hnq.
    + destruct (wrel_node base m0 ch _ _ _ _ Hw Hnq) as (lq&cq&[Aq]&_). rewrite Aq. cbn.
      pose proof (fresh_replies w a ls2 i q nq k req resp Hfc Hw Hl2 Hnq Hk' Hin) as Hle.
      unfold confirmReply in Hok. case_decide as Hd; [done|]. cbn in Hok.
      apply bool_decide_eq_true in Hok as [_ ?]. lia.
    + rewrite (wr_absent _ _ _ _ _ Hw q Hnq). cbn.
      pose proof (ei_term _ (good_einv _ _ _ (wr_good _ _ _ _ _ Hw)) i) as Hpos.
      rewrite A in Hpos. cbn in Hpos. lia.
Qed.

(** What [committedCurrentTermLocked] says of the abstract node. *)
Lemma committed_current w a i n :
  wrel base m0 ch w a → w_nodes w !! i = Some n → committedCurrentTermLocked n = true →
  ∃ e, a_log (a_nodes a i) !! a_commit (a_nodes a i) = Some e ∧ e_Term e = a_term (a_nodes a i).
Proof.
  intros Hw Hi Hcur. destruct (wrel_node base m0 ch _ _ _ _ Hw Hi) as (l&k&V&_). destruct V.
  rewrite vw_abs. cbn. unfold committedCurrentTermLocked in Hcur.
  rewrite (cut_termAt n k l) in Hcur by (done || lia).
  destruct (l !z commitIndex n) as [e|] eqn:Ee; [|done].
  apply bool_decide_eq_true in Hcur. apply zlookup_Some in Ee as [_ Ee]. by exists e.
Qed.

(** The four moments of a read: it starts at [w0]; at [wp] the leader finds an
    entry of its term committed, at [w1] it reads its commit index in the same
    term, and at [wc] it starts to be confirmed.  The commit index covers what was
    committed anywhere at [w0]. *)
Lemma read_covers_world w0 a0 wp ap w1 a1 wc ac ls2 i np n1 nc (Q : gset string) j nj :
  fixed_cluster base m0 → safe_run base m0 ch ls2 wc →
  wrel base m0 ch w0 a0 → wrel base m0 ch wp ap → wrel base m0 ch w1 a1 → wrel base m0 ch wc ac →
  hist_le a0 a1 → hist_le ap a1 → hist_le a1 ac →
  w_nodes wp !! i = Some np → state np = Leader → committedCurrentTermLocked np = true →
  w_nodes w1 !! i = Some n1 → state n1 = Leader → currentTerm n1 = currentTerm np →
  currentTerm nc = currentTerm n1 → confirmed_in wc ls2 i nc Q →
  w_nodes w0 !! j = Some nj → commitIndex nj ≤ commitIndex n1.
Proof.
  intros Hfc Hl2 Hw0 Hwp Hw1 Hwc H01 Hp1 H1c Hp Lp Cp H1 L1 T1 Tc Hconf Hj.
  destruct (confirmed_quorum wc ac ls2 i nc Q Hfc Hwc Hl2 Hconf) as [HQ Hterms].
  destruct (committed_current wp ap i np Hwp Hp Cp) as (ep&Ep&Tep).
  destruct (wrel_node base m0 ch _ _ _ _ Hwp Hp) as (lp&kp&Vp&_).
  destruct (wrel_node base m0 ch _ _ _ _ Hw1 H1) as (l1&k1&V1&_).
  destruct (wrel_node base m0 ch _ _ _ _ Hwc (cr_node _ _ _ _ _ Hconf)) as (lc&kc&Vc&_).
  destruct (wrel_node base m0 ch _ _ _ _ Hw0 Hj) as (l0&k0&V0&_&_&C0).
  pose proof (vw_abs _ _ _ _ _ _ _ _ Vp) as Ap. pose proof (vw_abs _ _ _ _ _ _ _ _ V1) as A1.
  pose proof (vw_abs _ _ _ _ _ _ _ _ Vc) as Ac. pose proof (vw_abs _ _ _ _ _ _ _ _ V0) as A0.
  pose proof (wr_good _ _ _ _ _ Hwp) as Gp. pose proof (wr_good _ _ _ _ _ Hw1) as G1.
  pose proof (wr_good _ _ _ _ _ Hwc) as Gc. pose proof (cr_leader _ _ _ _ _ Hconf) as Lc.
  destruct (settled_later B ch ap a1 i ep Gp G1 Hp1) as (e1&E1&Te1);
    [by rewrite Ap|by rewrite A1|by rewrite Ap, A1|done|done|].
  destruct (settled_later B ch a1 ac i e1 G1 Gc H1c) as (ec&Ec&Tec);
    [by rewrite A1|by rewrite Ac|by rewrite A1, Ac|done|done|].
  assert (Hnone : ∀ t', is_Some (h_leader a1 t') → t' ≤ a_term (a_nodes a1 i)).
  { intros t' [x Hx]. apply (hl_leader _ _ H1c) in Hx.
    rewrite A1. cbn. rewrite <- Tc. change (currentTerm nc) with (a_term (absNode lc nc)).
    rewrite <- Ac. eapply (no_later_leader B ac i _ ec); [apply Gc|by rewrite Ac|done|done|exact HQ| |by eexists].
    rewrite Ac. exact Hterms. }
  destruct (ci_commit _ _ C0 j) as [Hz|(t&k&Hin&_&Hk&_)].
  { rewrite A0 in Hz. cbn in Hz. destruct V0, V1. lia. }
  pose proof (read_covers B a1 i e1 t k (proj1 G1)) as Hcov. rewrite A0 in Hk. cbn in Hk.
  assert (k ≤ a_commit (a_nodes a1 i))%nat as Hle.
  { apply Hcov; [by rewrite A1|exact E1|exact Te1|exact Hnone|exact (committed_mono _ _ _ _ H01 Hin)]. }
  rewrite A1 in Hle. cbn in Hle. destruct V0, V1. lia.
Qed.

(** ** A ReadIndex call in a run *)

Lemma sublist_omap {A C} (f : A → option C) l k :
  l `sublist_of` k → omap f l `sublist_of` omap f k.
Proof.
  induction 1 as [|x l k _ IH|x l k _ IH]; cbn; [done|..]; destruct (f x); done || by constructor.
Qed.

Abbreviation after := (worldAfter base m0).
Abbreviation at_node i := (run_host base m0 i).
Implicit Types (ls : list Label) (s : ReadScheduleOf (list Label) nat).

(** The replies that the loop of [confirmLeadership] receives. *)
Definition answers (ws : list (ConfirmWakeOf (list Label) nat)) : list nat :=
  omap (λ x, match x with ConfirmAnswer _ k => Some k | _ => None end) ws.

(** The run when the call has found an entry of the term committed, when it reads
    the commit index, and when it asks the peers. *)
Definition whenSettled i s ls : list Label :=
  (waitCurrentTermCommitted (HH := at_node i) (rs_commit s) ls).1.
Definition whenRead i s ls : list Label := whenSettled i s ls ++ rs_before_index s.
Definition whenAsked i s ls : list Label := whenRead i s ls ++ rs_before_confirm s.

(** The replies at the positions [ks] are answers to the heartbeats of one
    [confirmLeadership], which asks every peer once: they come from different peers
    that are members when the peers are asked, and none was sent before. *)
Definition heartbeat_replies i asked ls' (ks : list nat) : Prop :=
  let from := omap (λ k, fst <$> replyAt base m0 i ls' k) ks in
  NoDup from ∧ Forall (λ p, p ∈ peerIDs (nodeAt base m0 i asked) ∧ p ≠ i) from ∧
  Forall (λ k, length (w_net (after asked)) ≤ k)%nat ks.

(** A call on node [i] from [ls] to [ls'] to which nothing of the following
    happens: the node changes its term between finding an entry of its term
    committed and reading the commit index (see [KvFindings.stale_read]), the call
    takes another reply for an answer to its heartbeats, or the node is started
    again. *)
Record undisturbed i s ls ls' : Prop := {
  ud_term : currentTerm (nodeAt base m0 i (whenRead i s ls)) =
    currentTerm (nodeAt base m0 i (whenSettled i s ls));
  ud_replies : heartbeat_replies i (whenAsked i s ls) ls' (answers (rs_confirm s));
  ud_alive : Forall (λ l, restarts i l = false) (drop (length ls) ls');
}.

Lemma replyAt_later i ls ls' k p resp :
  ls `prefix_of` ls' → replyAt base m0 i ls k = Some (p, resp) →
  replyAt base m0 i ls' k = Some (p, resp).
Proof.
  intros [gap ->]. unfold replyAt. destruct (w_net (after ls) !! k) as [m|] eqn:Em; [|done].
  by rewrite after_app, (net_kept k m gap _ Em).
Qed.

(** When the loop succeeds, enough of the replies confirmed the term. *)
Lemma confirmRun_acks i term majority acks pending ws ls ls' :
  confirmRun (HH := at_node i) term majority acks pending ws ls = (ls', Some (Ok tt)) →
  ∃ oks, oks `sublist_of` answers ws ∧ majority ≤ acks + slen oks ∧
    Forall (λ k, ∃ p resp n, replyAt base m0 i ls' k = Some (p, resp) ∧
                 (confirmReply (M := M) term resp n).2 = true) oks.
Proof.
  assert (Hhere : ∀ k ls, (hostConfirm (Host := at_node i) term k ls).2 = true →
    ∀ ls', (hostConfirm (Host := at_node i) term k ls).1 `prefix_of` ls' →
    ∃ p resp n, replyAt base m0 i ls' k = Some (p, resp) ∧
                (confirmReply (M := M) term resp n).2 = true).
  { intros k ls1 Hok ls2 Hp. cbn in *. destruct (replyAt base m0 i ls1 k) as [[p resp]|] eqn:E; [|done].
    cbn in *. exists p, resp, (nodeAt base m0 i ls1). split; [|done].
    eapply replyAt_later; [|done]. etrans; [|exact Hp]. by eexists. }
  revert acks pending ls. induction ws as [|x ws IH]; intros acks pending ls; cbn [confirmRun];
    (case_decide as Hd; [intros _; exists []; split_and!; [apply sublist_nil_l|unfold slen; cbn; lia|done]|]);
    [done|]. destruct x as [| |gap|gap k]; [done..| |]; cbn zeta.
  - case_decide; [done|]. intros (oks&Hs&Hm&Hf)%IH. by exists oks.
  - specialize (Hhere k (ls ++ gap)). change (hostOthers gap ls) with (ls ++ gap).
    destruct (hostConfirm term k (ls ++ gap)) as [ls1 [|]] eqn:E.
    + specialize (Hhere eq_refl). cbn [fst] in Hhere. case_decide as Hd'.
      { intros [= <-]. exists [k]. split_and!; [apply sublist_skip, sublist_nil_l|unfold slen; cbn; lia|].
        apply Forall_singleton. by apply Hhere. }
      case_decide; [done|]. intros Hrun. pose proof (confirmRun_grows base m0 i term majority
        (acks + 1) (pending - 1) ws ls1) as Hg. rewrite Hrun in Hg.
      destruct (IH _ _ _ Hrun) as (oks&Hs&Hm&Hf). exists (k :: oks).
      split_and!; [by apply sublist_skip|unfold slen in *; cbn [length]; lia|].
      apply Forall_cons. split; [by apply Hhere|done].
    + case_decide; [by destruct Hd|]. case_decide; [done|]. intros (oks&Hs&Hm&Hf)%IH.
      exists oks. split_and!; [by apply sublist_cons|done..].
Qed.

(** The nodes whose replies confirmed the term are a majority with the leader. *)
Lemma call_confirmed i term majority peers s ls asked rest ls' n :
  ls' = asked ++ rest → w_nodes (after asked) !! i = Some n → wf_members n → nodeID n = i →
  confirmStart term n = Ok (majority, peers) →
  confirmRun (HH := at_node i) term majority 1 (slen peers) (rs_confirm s) asked = (ls, Some (Ok tt)) →
  ls `prefix_of` ls' → heartbeat_replies i asked ls' (answers (rs_confirm s)) →
  ∃ Q, confirmed_in (after asked) rest i n Q.
Proof.
  intros -> Hn [_ Hids] Hid Hstart Hrun Hp (Hnd&Hfrom&Hk).
  unfold confirmStart in Hstart. case_decide as Hd; [done|]. injection Hstart as <- <-.
  assert (Hl : state n = Leader ∧ currentTerm n = term).
  { split; [destruct (state n)|]; destruct (decide (currentTerm n = term)); naive_solver. }
  destruct Hl as [Hl <-].
  destruct (confirmRun_acks _ _ _ _ _ _ _ _ Hrun) as (oks&Hs&Hm&Hok).
  set (from := omap (λ k, fst <$> replyAt base m0 i (asked ++ rest) k) oks).
  assert (Hsub : from `sublist_of` omap (λ k, fst <$> replyAt base m0 i (asked ++ rest) k)
    (answers (rs_confirm s))) by (by apply sublist_omap).
  assert (Hreply : ∀ k, k ∈ oks → ∃ p resp n', replyAt base m0 i (asked ++ rest) k = Some (p, resp) ∧
    (confirmReply (M := M) (currentTerm n) resp n').2 = true).
  { intros k Hin. rewrite Forall_forall in Hok. destruct (Hok k Hin) as (p&resp&n'&E&Ec).
    exists p, resp, n'. split; [|done]. by eapply replyAt_later. }
  assert (Hlen : length from = length oks).
  { subst from. clear -Hreply. induction oks as [|k oks IH]; [done|]. cbn.
    destruct (Hreply k) as (p&resp&_&->&_); [set_solver|]. cbn. f_equal. apply IH. set_solver. }
  exists (list_to_set from). split; [done|done| | | |].
  - rewrite elem_of_list_to_set. intros Hi. rewrite Forall_forall in Hfrom.
    destruct (Hfrom i) as [_ ?]; [by eapply elem_of_sublist|done].
  - intros p. rewrite elem_of_list_to_set. intros Hin. rewrite Forall_forall in Hfrom.
    destruct (Hfrom p) as [Hin' _]; [by eapply elem_of_sublist|].
    rewrite (nodeAt_some _ _ _ _ _ Hn), Hids in Hin'. by apply elem_of_dom, elem_of_sorted_keys.
  - rewrite size_list_to_set by (by eapply sublist_NoDup). unfold slen in Hm. lia.
  - intros p. rewrite elem_of_list_to_set. intros (k&Hin&Ep)%list_elem_of_omap.
    destruct (Hreply k Hin) as (p'&resp&n'&E&Ec). rewrite E in Ep. cbn in Ep. injection Ep as ->.
    rewrite <- after_app. unfold replyAt in E.
    destruct (w_net (after (asked ++ rest)) !! k) as [[]|] eqn:Em; try done.
    case_decide; [|done]. simplify_eq. exists k. eexists _, _, n'. split_and!; [|exact Em|exact Ec].
    rewrite Forall_forall in Hk. apply Hk. by eapply elem_of_sublist.
Qed.

(** A call that gets past its first wait is one on a node of the cluster. *)
Lemma waiting_node i ws ls ls' :
  waitCurrentTermCommitted (HH := at_node i) ws ls = (ls', Some (Ok tt)) →
  is_Some (w_nodes (after ls) !! i).
Proof.
  destruct (w_nodes (after ls) !! i) as [n|] eqn:E; [done|].
  assert (Hf : (waitCommittedPoll (nodeAt base m0 i ls)).2 = Some (Err ErrNotLeader)).
  { unfold nodeAt. rewrite E. cbn. unfold waitCommittedPoll.
    destruct (bootWith_equipped base m0 (nodeConfig base i freshStorage) []) as (_&_&Hs&_); [by eexists|].
    unfold boot. by rewrite Hs, decide_True. }
  destruct ws as [|x ws]; cbn; by rewrite Hf.
Qed.

(** A later point of a run. *)
Lemma wrel_later ls gap a :
  fixed_cluster base m0 → safe_run base m0 ch (ls ++ gap) (initWorld base m0) →
  wrel base m0 ch (after ls) a →
  ∃ a', wrel base m0 ch (after (ls ++ gap)) a' ∧ hist_le a a'.
Proof.
  intros Hfc [_ Hg]%safe_run_app Hw. destruct (wrel_run base m0 ch _ a gap Hfc Hw Hg) as (a'&Hr&Hw').
  exists a'. rewrite after_app. split; [done|]. eapply hist_le_run; [|done]. by eapply wr_good.
Qed.

Lemma safe_prefix ls ls' :
  ls `prefix_of` ls' → safe_run base m0 ch ls' (initWorld base m0) →
  safe_run base m0 ch ls (initWorld base m0).
Proof. by intros [gap ->] [? _]%safe_run_app. Qed.

(** The moments of a successful ReadIndex. *)
Lemma read_moments ls s i ls' idx :
  ReadIndex (HH := at_node i) s ls = (ls', Some (Ok idx)) →
  is_Some (w_nodes (after ls) !! i) ∧ ls `prefix_of` whenSettled i s ls ∧
  (state (nodeAt base m0 i (whenSettled i s ls)) = Leader ∧
   committedCurrentTermLocked (nodeAt base m0 i (whenSettled i s ls)) = true) ∧
  ∃ term mj peers ls4 ls5,
    readIndexStart (nodeAt base m0 i (whenRead i s ls)) = Ok (idx, term) ∧
    confirmStart term (nodeAt base m0 i (whenAsked i s ls)) = Ok (mj, peers) ∧
    confirmRun (HH := at_node i) term mj 1 (slen peers) (rs_confirm s) (whenAsked i s ls) =
      (ls4, Some (Ok tt)) ∧
    whenAsked i s ls `prefix_of` ls4 ∧ ls4 `prefix_of` ls5 ∧ ls5 `prefix_of` ls' ∧
    idx ≤ lastApplied (nodeAt base m0 i ls5).
Proof.
  intros (lsp&term&mj&peers&ls4&ls5&E1&Hstart&Hask&E4&E5&E6&_)%ReadIndex_ok.
  pose proof (waiting_node _ _ _ _ E1) as Hi0.
  pose proof (waitCurrentTermCommitted_done base m0 i _ _ _ Hi0 E1) as Hp.
  pose proof (waitCurrentTermCommitted_grows base m0 i (rs_commit s) ls) as P1.
  pose proof (confirmRun_grows base m0 i term mj 1 (slen peers) (rs_confirm s)) as P4.
  pose proof (waitApplied_grows base m0 i idx (rs_apply s) ls4) as P5.
  unfold whenAsked, whenRead, whenSettled in *. rewrite E1 in *. rewrite E5 in P5.
  cbn [hostOthers run_host hostNode fst] in *.
  specialize (P4 ((lsp ++ rs_before_index s) ++ rs_before_confirm s)). rewrite E4 in P4.
  split_and!; [done|done|apply Hp..|]. exists term, mj, peers, ls4, ls5.
  split_and!; try done; [rewrite E6; by eexists|]. by eapply waitApplied_done.
Qed.

(** A node that is not started again keeps what it has applied. *)
Lemma applied_later i ls ls5 ls' :
  fixed_cluster base m0 → safe_run base m0 ch ls' (initWorld base m0) →
  ls `prefix_of` ls5 → ls5 `prefix_of` ls' → is_Some (w_nodes (after ls) !! i) →
  Forall (λ l, restarts i l = false) (drop (length ls) ls') →
  is_Some (w_nodes (after ls') !! i) ∧
  lastApplied (nodeAt base m0 i ls5) ≤ lastApplied (nodeAt base m0 i ls').
Proof.
  intros Hfc Hrun [g ->] [g' ->] Hi Halive. rewrite <- app_assoc in Halive.
  rewrite drop_app_length in Halive. apply Forall_app in Halive as [_ Halive].
  destruct (after_wrel base m0 ch (ls ++ g) Hfc) as (a&_&Hw); [by eapply safe_prefix; [by eexists|]|].
  apply (node_stays base m0 i ls g) in Hi as [n Hn]. apply safe_run_app in Hrun as [_ Hrun].
  destruct (applied_run base m0 ch g' _ a i n Hfc Hw Hrun Halive Hn) as (n'&Hn'&Hle).
  rewrite <- after_app in Hn'. split; [by eexists|].
  by rewrite (nodeAt_some _ _ _ _ _ Hn), (nodeAt_some _ _ _ _ _ Hn').
Qed.

(** The node has applied the read index when the call returns, and still after
    the steps [late] if it is not started again. *)
Lemma read_applied ls s i ls' idx late :
  fixed_cluster base m0 → safe_run base m0 ch (ls' ++ late) (initWorld base m0) →
  ReadIndex (HH := at_node i) s ls = (ls', Some (Ok idx)) → undisturbed i s ls ls' →
  Forall (λ l, restarts i l = false) late →
  ls `prefix_of` ls' ∧ is_Some (w_nodes (after (ls' ++ late)) !! i) ∧
  idx ≤ lastApplied (nodeAt base m0 i (ls' ++ late)).
Proof.
  intros Hfc Hrun Hcall [_ _ Halive] Hlate. destruct (read_moments _ _ _ _ _ Hcall)
    as (Hi0&P1&_&term&mj&peers&ls4&ls5&_&_&_&P4&P5&P6&Hap).
  assert (P05 : ls `prefix_of` ls5).
  { etrans; [exact P1|]. etrans; [|exact P5]. etrans; [|exact P4].
    unfold whenAsked, whenRead. rewrite <- app_assoc. by eexists. }
  assert (P : ls `prefix_of` ls') by (by etrans).
  destruct (applied_later i ls ls5 (ls' ++ late) Hfc Hrun P05) as [Hn Hle]; [|done| |].
  - etrans; [exact P6|by eexists].
  - rewrite drop_app_le by (by apply prefix_length). by apply Forall_app.
  - split_and!; [done..|lia].
Qed.

(** The read index covers what every node had committed before the call. *)
Lemma read_index_covers ls0 ls s i ls' idx j nj :
  fixed_cluster base m0 → safe_run base m0 ch ls' (initWorld base m0) →
  ReadIndex (HH := at_node i) s ls = (ls', Some (Ok idx)) → undisturbed i s ls ls' →
  ls0 `prefix_of` ls → w_nodes (after ls0) !! j = Some nj → commitIndex nj ≤ idx.
Proof.
  intros Hfc Hrun Hcall [Hterm Hrep _] [g0 Eg0] Hj.
  destruct (read_moments _ _ _ _ _ Hcall)
    as (Hi0&[g1 Eg1]&[Lp Cp]&term&mj&peers&ls4&ls5&Hstart&Hask&E4&P4&P5&P6&_).
  assert (P3 : whenAsked i s ls `prefix_of` ls') by (do 2 (etrans; [done|]); done).
  assert (P34 : ls4 `prefix_of` ls') by (by etrans).
  pose proof (safe_prefix _ _ P3 Hrun) as S3. unfold whenAsked in *.
  pose proof (safe_prefix _ _ (prefix_app_r _ _ _ (reflexivity _)) S3) as S1. unfold whenRead in *.
  pose proof (safe_prefix _ _ (prefix_app_r _ _ _ (reflexivity _)) S1) as Sp. rewrite Eg1 in *.
  pose proof (safe_prefix _ _ (prefix_app_r _ _ _ (reflexivity _)) Sp) as S0.
  rewrite Eg0 in S0. destruct (after_wrel2 base m0 ch ls0 g0 Hfc S0) as (a00&a0&W00&W0&_&H00).
  rewrite <- Eg0 in W0.
  destruct (wrel_later _ _ a0 Hfc Sp W0) as (ap&Wp&H0p).
  destruct (wrel_later _ _ ap Hfc S1 Wp) as (a1&W1&Hp1).
  destruct (wrel_later _ _ a1 Hfc S3 W1) as (a3&W3&H13).
  destruct (node_stays base m0 i _ g1 Hi0) as [np Hnp].
  destruct (node_stays base m0 i _ (rs_before_index s) (ex_intro _ np Hnp)) as [n1 Hn1].
  destruct (node_stays base m0 i _ (rs_before_confirm s) (ex_intro _ n1 Hn1)) as [n3 Hn3].
  rewrite (nodeAt_some _ _ _ _ _ Hnp) in Lp, Cp, Hterm.
  rewrite (nodeAt_some _ _ _ _ _ Hn1) in Hstart, Hterm. rewrite (nodeAt_some _ _ _ _ _ Hn3) in Hask.
  unfold readIndexStart in Hstart. case_decide as Hl1; [done|]. injection Hstart as <- <-.
  destruct P3 as [rest Erest]. destruct (wr_nodes _ _ _ _ _ W3 i n3 Hn3) as [N3 _].
  destruct (call_confirmed i _ mj peers s ls4 _ rest ls' n3 Erest Hn3 (nr_members _ _ _ _ _ _ N3)
    (nr_id _ _ _ _ _ _ N3) Hask E4 P34 Hrep) as [Q HQ].
  rewrite Erest in Hrun. apply safe_run_app in Hrun as [_ Hrest].
  assert (T3 : currentTerm n3 = currentTerm n1).
  { unfold confirmStart in Hask. case_decide as Hd; [done|].
    destruct (decide (currentTerm n3 = currentTerm n1)); naive_solver. }
  eapply (read_covers_world _ a00 _ ap _ a1 _ a3 rest i np n1 n3 Q j nj); try done.
  do 2 (eapply hist_le_trans; [done|]). done.
Qed.

(** [C23] Linearizable reads: let a ReadIndex call on node [i], in a run of the
    cluster, return the index [idx], other goroutines and nodes taking steps
    between its sections.  In the run, from the start of the cluster, the disks work,
    no installed snapshot drops entries that follow it, leaders change the membership
    after they have committed an entry of their term, and a joining node does not
    campaign while it knows only itself ([safe_run]); and the call is [undisturbed]:
    the node does not change its term between finding an entry of it committed and
    reading the commit index, takes only answers to its heartbeats for such, and is
    not started again.  Then whatever a node had committed at any moment before the call is within [idx], the node has
    applied [idx] when the call returns, and it agrees on all of it: a read of its
    state machine sees every write that was committed before the call. *)
Theorem read_index_linearizable ls0 ls s i ls' idx j nj :
  fixed_cluster base m0 → safe_run base m0 ch ls' (initWorld base m0) →
  ReadIndex (HH := at_node i) s ls = (ls', Some (Ok idx)) → undisturbed i s ls ls' →
  ls0 `prefix_of` ls → w_nodes (after ls0) !! j = Some nj →
  commitIndex nj ≤ idx ≤ lastApplied (nodeAt base m0 i ls') ∧
  ∀ p, p ≤ commitIndex nj → agree_at p nj (nodeAt base m0 i ls').
Proof.
  intros Hfc Hrun Hcall Hud P0 Hj.
  pose proof (read_index_covers _ _ _ _ _ _ _ _ Hfc Hrun Hcall Hud P0 Hj) as Hle.
  destruct (read_applied _ _ _ _ _ [] Hfc ltac:(by rewrite app_nil_r) Hcall Hud
    ltac:(constructor)) as (P&[n' Hn']&Hle'). rewrite app_nil_r in *.
  split; [lia|]. intros p Hp. rewrite (nodeAt_some _ _ _ _ _ Hn') in *.
  assert (P' : ls0 `prefix_of` ls') by (by etrans). destruct P' as [g ->].
  destruct (after_wrel2 base m0 ch ls0 g Hfc Hrun) as (a0&a'&W0&W'&_&Hh).
  destruct (wrel_node base m0 ch _ _ _ _ W' Hn') as (l'&k'&V'&_). destruct V'.
  eapply (committed_agree_at base m0 ch _ a0 _ a'); try done. lia.
Qed.
End read_cluster.

(** ** Witness *)

(** After d has joined and a has committed the change that makes it a member, a
    client reads at a, which takes a command before it asks its peers and confirms
    its leadership with c and d: three of the four members. *)
Definition joinRead : ReadScheduleOf (list Label) nat :=
  MkReadSchedule [] [] false [LPropose "a" cmdY]
    [ConfirmAnswer [LConfirm "a" "c" 1; LDeliver 19] 20%nat;
     ConfirmAnswer [LConfirm "a" "d" 1; LDeliver 21] 22%nat] false [WakeTick []] [].

(** The run after the call. *)
Definition joinReadRun : list Label :=
  joinRun ++ [LWaitCommitted "a"; LPropose "a" cmdY; LConfirm "a" "c" 1; LDeliver 19;
    LDeliverConfirm 20 1; LConfirm "a" "d" 1; LDeliver 21; LDeliverConfirm 22 1].

Lemma read_index_linearizable_witness :
  ReadIndex (HH := run_host (config3 2) ([] : list bytes) "a") joinRead joinRun =
    (joinReadRun, Some (Ok 4)) ∧
  commitIndex (nodeOf (demoWorld joinRun) "d") ≤ 4 ≤
    lastApplied (nodeAt (config3 2) [] "a" joinReadRun).
Proof.
  assert (Hcall : ReadIndex (HH := run_host (config3 2) ([] : list bytes) "a") joinRead joinRun =
    (joinReadRun, Some (Ok 4))) by (vm_compute; reflexivity).
  split; [exact Hcall|].
  refine (proj1 (read_index_linearizable (config3 2) [] true joinRun joinRun joinRead "a" joinReadRun 4
    "d" _ (config3_fixed 2) _ Hcall _ (reflexivity _) nodeOf_earlier_d)).
  - apply safe_run_check; vm_compute; reflexivity.
  - split.
    + vm_compute. reflexivity.
    + apply (bool_decide_unpack _). vm_compute. exact I.
    + apply (bool_decide_unpack _). vm_compute. exact I.
Defined.
