(* ===== verification/NodeProps.v ===== *)
(** What one node guarantees, whatever messages it is sent: its invariant, its
    durability, the exact conditions of a vote and of an accepted append, the
    commit rule and the apply loop. *)
From S2P Require Import Prelude Types Node Persist Membership Snapshot Log Election RaftOps Read Machine NodeInv LogSpec Durable Network Demo.
Open Scope Z_scope.
Open Scope go_scope.

Section node.
Context {M : Type} `{!StateMachine M}.
Implicit Types n : RaftNode M.

(** The storage a node starts with for the first time: empty, or absent. *)
Definition emptyStorage (cfg : Config) : Prop :=
  ∀ s, cfg_Storage cfg = Some s → s = MkStorage zeroDurable false [].

Lemma NewNode_fresh cfg (m : M) src : emptyStorage cfg → NewNode cfg m src = freshNode cfg m src.
Proof.
  intros H. unfold NewNode. destruct (cfg_Storage cfg) as [s|] eqn:E; [|done].
  by rewrite (H s E).
Qed.

Lemma saved_fresh cfg (m : M) src :
  emptyStorage cfg → saved (cfg_PeerAddrs cfg) (cfg_HTTPAddrs cfg) (freshNode cfg m src).
Proof.
  intros H s Hs. cbn in Hs. rewrite (H s Hs). split_and!; [done..|]. by right.
Qed.

Lemma saved_runOps ps hs ops n :
  wf_node n → Forall op_ok ops → saved ps hs n → saved ps hs (runOps ops n).
Proof.
  intros Hwf Hops. revert n Hwf. induction Hops as [|op ops Hop _ IH]; intros n Hwf Hs; [done|].
  cbn. apply IH; [by apply wf_runOp|by apply saved_runOp].
Qed.

(** [C10] The invariant of a node that starts on an empty disk, after every sequence
    of operations, any requests and replies included: the log is never empty and is
    numbered without gaps, nothing below the dummy entry is left to apply, and the
    ids of the peers are those of the configuration, sorted.  When moreover every
    InstallSnapshot request names members ([op_ok]; the requests a leader builds do),
    the configuration in use is the one the base membership and the log determine. *)
Theorem node_invariant cfg (m : M) src ops :
  emptyStorage cfg →
  let n := runOps ops (NewNode cfg m src) in
  (log n ≠ [] ∧ ∀ k e, log n !! k = Some e → e_Index e = e_Index (firstEntry n) + Z.of_nat k) ∧
  lastIncludedIndexLocked n ≤ lastApplied n ∧
  peerIDs n = sorted_keys (peerAddrs n) ∧
  (Forall op_ok ops →
     (peerAddrs n, peerHTTP n) = applyEntries (basePeers n, baseHTTP n) (tail (log n))).
Proof.
  intros He n. assert (Hwf : ∀ full, (full = true → Forall op_ok ops) → wf_nodeB full n).
  { intros full Hops. apply wfB_runOps; [|done]. rewrite NewNode_fresh by done. apply wf_fresh. }
  destruct (Hwf false) as [[Hne Hk] Hi Ha]; [done|]. split_and!; [done..|]. intros Hops.
  by destruct (Hwf true (λ _, Hops)) as [_ [Hm _] _].
Qed.

(** [C11] Persistence before reply: at the end of every operation of a node that
    starts on an empty disk, when saves succeed and InstallSnapshot requests name
    members, what the disk holds is the term, vote, log, snapshot and base
    membership of the node (or nothing, when nothing has changed yet). *)
Theorem disk_is_current cfg (m : M) src ops s :
  emptyStorage cfg → Forall op_ok ops →
  let n := runOps ops (NewNode cfg m src) in
  storage n = Some s →
  st_Disk s = durableOf n ∨
  (st_Disk s = zeroDurable ∧
   durableOf n = MkDurable 0 "" [zeroEntry] [] (cfg_PeerAddrs cfg) (cfg_HTTPAddrs cfg)).
Proof.
  intros He Hops n Hs.
  assert (Hsv : saved (cfg_PeerAddrs cfg) (cfg_HTTPAddrs cfg) n).
  { unfold n. rewrite NewNode_fresh by done. apply saved_runOps; [apply wf_fresh|done|].
    by apply saved_fresh. }
  by destruct (Hsv s Hs) as (_&_&?).
Qed.

(** [C12] Crash recovery: a node starts on an empty disk whose saves all succeed,
    runs any sequence of operations in which InstallSnapshot requests name members,
    and stops with a base membership that is not empty.  Started again on its disk,
    with the peers and HTTP addresses it was configured with, it has the term, vote,
    log, snapshot, base membership and configuration it had, as a follower. *)
Theorem crash_recovery cfg (m : M) src ops s cfg' (m' : M) src' :
  emptyStorage cfg → Forall op_ok ops →
  let n := runOps ops (NewNode cfg m src) in
  storage n = Some s → basePeers n ≠ ∅ →
  cfg_Storage cfg' = Some s → cfg_PeerAddrs cfg' = cfg_PeerAddrs cfg →
  cfg_HTTPAddrs cfg' = cfg_HTTPAddrs cfg →
  let n' := NewNode cfg' m' src' in
  durableOf n' = durableOf n ∧ peerAddrs n' = peerAddrs n ∧ peerHTTP n' = peerHTTP n ∧
  peerIDs n' = peerIDs n ∧ state n' = Follower.
Proof.
  intros He Hops n Hs Hb Hc Hp Hh n'.
  assert (Hwf : wf_node n).
  { apply wf_runOps; [|done]. rewrite NewNode_fresh by done. apply wf_fresh. }
  assert (Hsv : saved (cfg_PeerAddrs cfg) (cfg_HTTPAddrs cfg) n).
  { unfold n. rewrite NewNode_fresh by done. apply saved_runOps; [apply wf_fresh|done|].
    by apply saved_fresh. }
  destruct (recover _ _ n s cfg' m' src' Hwf Hsv Hs Hb Hc Hp Hh) as (?&?&?&?&?&_).
  by split_and!.
Qed.

(** ** Votes *)

(** The candidate's log is at least as up-to-date as the node's. *)
Definition upToDate (req : RequestVoteRequest) n : Prop :=
  lastLogTermLocked n < rv_LastLogTerm req ∨
  (rv_LastLogTerm req = lastLogTermLocked n ∧ lastLogIndexLocked n ≤ rv_LastLogIndex req).

Lemma isLogUpToDate_iff req n :
  isLogUpToDateLocked (rv_LastLogIndex req) (rv_LastLogTerm req) n = true ↔ upToDate req n.
Proof.
  unfold isLogUpToDateLocked, upToDate. case_decide; rewrite bool_decide_eq_true; lia.
Qed.

Lemma becomeFollower_eq t l n :
  t > currentTerm n →
  ∃ s, becomeFollowerLocked t l n =
    set_leaderID l (set_state Follower (set_storage s (set_votedFor "" (set_currentTerm t n)))).
Proof.
  intros Ht. unfold becomeFollowerLocked. rewrite decide_True by done.
  destruct (persistLocked_shape (set_votedFor "" (set_currentTerm t n))) as [s ->]. by exists s.
Qed.

(** [C13] HandleRequestVote grants a vote exactly when the term is not old, the
    node has not voted for another in it, and the candidate's log is up-to-date;
    it moves to the term of the request, and never touches the log. *)
Theorem vote_granted_iff req n :
  let '(n', resp) := HandleRequestVote req n in
  (rvr_VoteGranted resp = true ↔
     currentTerm n ≤ rv_Term req ∧
     (currentTerm n < rv_Term req ∨ votedFor n = ""%string ∨ votedFor n = rv_CandidateID req) ∧
     upToDate req n) ∧
  currentTerm n' = Z.max (currentTerm n) (rv_Term req) ∧ rvr_Term resp = currentTerm n' ∧
  votedFor n' = (if rvr_VoteGranted resp then rv_CandidateID req
                 else if decide (currentTerm n < rv_Term req) then ""%string else votedFor n) ∧
  state n' = (if decide (currentTerm n < rv_Term req) then Follower else state n) ∧
  log n' = log n ∧ commitIndex n' = commitIndex n ∧ machine n' = machine n.
Proof.
  unfold HandleRequestVote. case_decide as Hlt.
  { cbn. rewrite !decide_False by lia. split_and!; try done; [split; [done|lia]|lia]. }
  set (n1 := if decide (rv_Term req > currentTerm n) then _ else n).
  assert (H1 : currentTerm n1 = rv_Term req ∧ log n1 = log n ∧ commitIndex n1 = commitIndex n ∧
    machine n1 = machine n ∧
    votedFor n1 = (if decide (currentTerm n < rv_Term req) then ""%string else votedFor n) ∧
    state n1 = (if decide (currentTerm n < rv_Term req) then Follower else state n)).
  { unfold n1. case_decide as Hgt.
    - destruct (becomeFollower_eq (rv_Term req) "" n Hgt) as [s ->]. cbn.
      by rewrite !decide_True by lia.
    - rewrite !decide_False by lia. split_and!; [lia|done..]. }
  clearbody n1. destruct H1 as (Ht&Hl&Hc&Hm&Hv&Hst).
  assert (Hup : isLogUpToDateLocked (rv_LastLogIndex req) (rv_LastLogTerm req) n1 = true ↔
    upToDate req n).
  { rewrite isLogUpToDate_iff. unfold upToDate, lastLogTermLocked, lastLogIndexLocked, lastEntry.
    by rewrite Hl. }
  assert (Hcan : votedFor n1 = ""%string ∨ votedFor n1 = rv_CandidateID req ↔
    currentTerm n < rv_Term req ∨ votedFor n = ""%string ∨ votedFor n = rv_CandidateID req).
  { rewrite Hv. case_decide; [by split; auto|]. split; [by right|]. intros [?|?]; [lia|done]. }
  destruct (bool_decide _ && _) eqn:Eb.
  - rewrite andb_true_iff, bool_decide_eq_true, Hcan, Hup in Eb.
    match goal with |- context [persistLocked ?x] => destruct (persistLocked_shape x) as [s ->] end.
    match goal with |- context [resetElectionTimerLocked ?x] =>
      destruct (resetElectionTimerLocked_shape x) as (d&r&->) end.
    cbn. split_and!; try done; [split; [|done]|lia]. intros _. split; [lia|tauto].
  - assert (Hno : ¬ ((currentTerm n < rv_Term req ∨ votedFor n = ""%string ∨
      votedFor n = rv_CandidateID req) ∧ upToDate req n)).
    { intros [Hc1%Hcan Hc2%Hup]. by rewrite (bool_decide_eq_true_2 _ Hc1), Hc2 in Eb. }
    cbn. split_and!; try done; [split; [done|tauto]|lia].
Qed.
End node.

(** ** Witnesses *)

Lemma soloStorage_empty : emptyStorage (soloConfig 2).
Proof. intros s [= <-]. done. Qed.

(** A snapshot that names no members. *)
Definition bareInstall : NodeOp :=
  OpHandleInstallSnapshot (MkInstallReq 2 "b" 5 2 [] ∅ ∅).

Lemma node_invariant_witness :
  let n0 := NewNode (soloConfig 2) ([] : list bytes) [] in
  lastIncludedIndexLocked (runOps soloOps n0) = 2 ∧
  (peerAddrs (runOps soloOps n0), peerHTTP (runOps soloOps n0)) =
    applyEntries (basePeers (runOps soloOps n0), baseHTTP (runOps soloOps n0))
      (tail (log (runOps soloOps n0))) ∧
  lastIncludedIndexLocked (runOps (soloOps ++ [bareInstall]) n0) = 5 ∧
  log (runOps (soloOps ++ [bareInstall]) n0) ≠ [].
Proof.
  cbn zeta. split; [vm_compute; reflexivity|]. split.
  { apply (node_invariant (soloConfig 2) ([] : list bytes) [] soloOps soloStorage_empty).
    repeat constructor. }
  split; [vm_compute; reflexivity|].
  apply (node_invariant (soloConfig 2) ([] : list bytes) [] (soloOps ++ [bareInstall])
    soloStorage_empty).
Defined.

(** The node after its operations, and its storage. *)
Abbreviation soloEnd := (runOps soloOps (NewNode (soloConfig 2) ([] : list bytes) [])).
Definition soloDisk : Storage := default freshStorage (storage soloEnd).

Lemma soloDisk_eq : storage soloEnd = Some soloDisk.
Proof. vm_compute. reflexivity. Qed.

Lemma disk_is_current_witness :
  st_Disk soloDisk = durableOf soloEnd ∨ st_Disk soloDisk = zeroDurable.
Proof.
  destruct (disk_is_current (soloConfig 2) ([] : list bytes) [] soloOps soloDisk
    soloStorage_empty ltac:(repeat constructor) soloDisk_eq) as [H|[H _]];
    [left; exact H|right; exact H].
Defined.

Lemma crash_recovery_witness :
  durableOf (NewNode (MkConfig "a" {[ "a" := addr "a" ]} 0 0 0 (Some soloDisk) true 2 ∅ false)
               ([] : list bytes) []) = durableOf soloEnd.
Proof.
  apply (crash_recovery (soloConfig 2) ([] : list bytes) [] soloOps soloDisk _ _ _
    soloStorage_empty ltac:(repeat constructor) soloDisk_eq); [vm_compute; done|reflexivity..].
Defined.
