(* ===== verification/Progress.v ===== *)
(** What a cluster can always do: from every state that a run can reach, changes
    of the membership included, any group of nodes that is a majority as far as
    they know the members can elect a leader among themselves, without the others.
    The steps are those of [Network]: the nodes that are stopped, lead an earlier
    term or are joining are restarted, the one with the most up-to-date log
    campaigns until its term is the largest, and its vote requests and their
    replies are delivered. *)
From S2P Require Import Prelude Types Node Persist Membership Snapshot Log Election RaftOps Read Machine NodeInv LogSpec Durable Spec SpecInv SpecSafety Network Demo SnapshotSpec CutLog RefineBase RefineOps RefineSnapshot Refine ClusterSafety NodeProps Kept.
Open Scope Z_scope.
Open Scope go_scope.

(** ** The steps of an election on one node *)

Section node.
Context {M : Type} `{!StateMachine M}.
Implicit Types n : RaftNode M.

(** The fields of an election. *)
Definition sameElection n n' : Prop :=
  state n' = state n ∧ currentTerm n' = currentTerm n ∧ votesReceived n' = votesReceived n ∧
  spawned n' = spawned n ∧ lastLogIndexLocked n' = lastLogIndexLocked n ∧
  lastLogTermLocked n' = lastLogTermLocked n ∧ nextIndex n' = nextIndex n ∧
  peerAddrs n' = peerAddrs n.

(** A leader that would send entries, from index 1 on, to each of [ps]. *)
Definition leading (ps : list string) n : Prop :=
  state n = Leader ∧ ∀ p, p ∈ ps → 1 ≤ mapZ (nextIndex n) p.

Lemma mapZ_filled v ps (m : gmap string Z) p :
  p ∈ ps ∨ mapZ m p = v → mapZ (foldl (λ m p, <[p := v]> m) m ps) p = v.
Proof.
  revert m. induction ps as [|q ps IH]; intros m Hp; cbn; [by destruct Hp as [?%elem_of_nil|]|].
  apply IH. rewrite mapZ_insert. case_decide; [by right|].
  destruct Hp as [[->|?]%elem_of_cons|?]; [done|by left|by right].
Qed.

Lemma applyCommitted_election n : wf_node n → sameElection n (applyCommittedLocked n).
Proof.
  intros Hwf. unfold applyCommittedLocked, sameElection.
  pose proof (maybeCompact_compacted _ (wf_applyLoop (Z.to_nat (commitIndex n - lastApplied n)) n Hwf)) as Hc.
  destruct (applyLoop_shape (Z.to_nat (commitIndex n - lastApplied n)) n) as (a&m&_&E).
  rewrite E in *. clear E. destruct (cp_last _ _ Hc) as [-> ->].
  destruct (cp_durable _ _ Hc) as (->&_&->). destruct (cp_members _ _ Hc) as (->&_). clear Hc.
  unfold maybeCompactLocked. destruct (_ || _); [done|]. case_decide; [done|].
  unfold compactLocked. case_decide; [done|]. destruct (entryAtLocked _ _); [|done].
  destruct (sm_snapshot _); [|done]. case_decide; [done|].
  destruct (membershipAtLocked _ _). cbn zeta.
  match goal with |- context [persistLocked ?x] => destruct (persistLocked_shape x) as [s ->] end.
  match goal with |- context [notifyPeersLocked ?x] =>
    destruct (notifyPeersLocked_shape x) as (t&h&->) end.
  by rewrite rebuildMembershipLocked_eq.
Qed.

Lemma becomeCandidate_shape n :
  ∃ d r s, becomeCandidate n =
    set_storage s (set_electionDeadline d (set_rng r (set_votesReceived {[nodeID n := true]}
      (set_leaderID "" (set_votedFor (nodeID n) (set_currentTerm (currentTerm n + 1)
        (set_state Candidate n))))))).
Proof.
  unfold becomeCandidate. cbn zeta.
  match goal with |- context [persistLocked ?x] => destruct (persistLocked_shape x) as [s ->] end.
  match goal with |- context [resetElectionTimerLocked ?x] =>
    destruct (resetElectionTimerLocked_shape x) as (d&r&->) end. by exists d, r, s.
Qed.

Lemma elected_leading n :
  0 ≤ lastLogIndexLocked n →
  leading (peerIDs n) (elected n) ∧ currentTerm (elected n) = currentTerm n ∧
  peerAddrs (elected n) = peerAddrs n.
Proof.
  intros Hl. unfold elected. cbn zeta.
  match goal with |- context [persistLocked ?x] => destruct (persistLocked_shape x) as [s ->] end.
  split; [|done]. split; [done|]. intros p Hp. cbn. rewrite mapZ_insert.
  change (lastLogIndexLocked (set_leaderID (nodeID n) (set_state Leader n))) with (lastLogIndexLocked n).
  case_decide; [lia|]. rewrite mapZ_filled by (by left). lia.
Qed.

Lemma becomeLeader_state n :
  wf_node n → 0 ≤ lastLogIndexLocked n →
  leading (peerIDs n) (becomeLeaderLocked n) ∧ currentTerm (becomeLeaderLocked n) = currentTerm n ∧
  peerAddrs (becomeLeaderLocked n) = peerAddrs n.
Proof.
  intros Hwf Hl. unfold becomeLeaderLocked. cbn zeta.
  pose proof (elected_leading n Hl) as He.
  pose proof (wf_advance _ (wf_elected n Hwf)) as Ha. revert He Ha.
  generalize (elected n). intros x (He&<-&<-) Ha.
  destruct (applyCommitted_election _ Ha) as (Hs&Ht&_&_&_&_&Hn&Hp). revert Hs Ht Hn Hp.
  generalize (applyCommittedLocked (advanceCommitLocked x)). intros y.
  destruct (advanceCommitLocked_shape x) as [c ->]. destruct (broadcast_shape y) as (r&s&->).
  unfold leading in *. cbn. intros -> -> -> ->. done.
Qed.

(** The requests of an election go to every other member. *)
Lemma requestVotes_reach req ps n p :
  p ∈ ps → p ≠ nodeID n →
  GoSendRequestVote p req ∈ spawned (foldl (requestVoteFrom req) n ps).
Proof.
  assert (Hmono : ∀ ps n g, g ∈ spawned n → g ∈ spawned (foldl (requestVoteFrom req) n ps)).
  { clear. induction ps as [|q ps IH]; intros n g Hg; cbn; [done|]. apply IH.
    unfold requestVoteFrom. case_decide; [done|]. cbn. apply elem_of_app. by left. }
  revert n. induction ps as [|q ps IH]; intros n Hp Hne; [by apply elem_of_nil in Hp|].
  apply elem_of_cons in Hp as [->|Hp]; cbn.
  - apply Hmono. unfold requestVoteFrom. rewrite decide_False by done. cbn.
    apply elem_of_app. right. by apply list_elem_of_singleton.
  - apply IH; [done|]. unfold requestVoteFrom. by case_decide.
Qed.

(** A node whose time is up campaigns: alone it becomes leader, otherwise it asks
    every other member for its vote. *)
Lemma tick_campaigns n :
  wf_node n → state n ≠ Leader → joining n = false → is_Some (peerAddrs n !! nodeID n) →
  electionDeadline n ≤ clock n → 0 ≤ lastLogIndexLocked n →
  let n' := tick n in
  currentTerm n' = currentTerm n + 1 ∧ peerAddrs n' = peerAddrs n ∧
  (leading (peerIDs n) n' ∧ majority n ≤ 1 ∨
   state n' = Candidate ∧ 1 < majority n ∧ votesReceived n' = {[nodeID n := true]} ∧
   lastLogIndexLocked n' = lastLogIndexLocked n ∧ lastLogTermLocked n' = lastLogTermLocked n ∧
   ∀ p, p ∈ peerIDs n → p ≠ nodeID n →
     GoSendRequestVote p (MkVoteReq (currentTerm n + 1) (nodeID n) (lastLogIndexLocked n)
       (lastLogTermLocked n)) ∈ spawned n').
Proof.
  intros Hwf Hs Hj Hv Hd Hl0. cbn zeta.
  assert (E : tick n = applyCommittedLocked (startElectionLocked n)).
  { unfold tick, isVoterLocked. rewrite Hj, !bool_decide_true by done. by destruct (state n). }
  rewrite E. clear E. pose proof (wf_startElection n Hwf) as Hwf1.
  unfold leading. destruct (applyCommitted_election _ Hwf1) as (->&->&->&->&->&->&->&->). revert Hwf1.
  unfold startElectionLocked, isVoterLocked. rewrite Hj, bool_decide_true by done. cbn [orb negb].
  pose proof (wf_becomeCandidate n Hwf) as Hc.
  destruct (becomeCandidate_shape n) as (d&r&s&E). rewrite E in *. clear E.
  set (c := set_storage s _) in *. cbn zeta.
  assert (Hmaj : majority c = majority n) by done.
  assert (Hvotes : Z.of_nat (size (votesReceived c)) = 1).
  { change (votesReceived c) with ({[nodeID n := true]} : gmap string bool).
    by rewrite map_size_singleton. }
  rewrite Hvotes. case_decide as Hm; intros Hwf1.
  - destruct (becomeLeader_state c Hc Hl0) as (Hl&Ht&Hp). split; [exact Ht|]. split; [exact Hp|].
    left. by rewrite Hmaj in Hm.
  - split; [by destruct (requestVotes_shape (voteRequest c) (peerIDs c) c) as [? ->]|].
    split; [by destruct (requestVotes_shape (voteRequest c) (peerIDs c) c) as [? ->]|].
    right. assert (Hsp : ∀ p, p ∈ peerIDs n → p ≠ nodeID n →
      GoSendRequestVote p (voteRequest c) ∈ spawned (foldl (requestVoteFrom (voteRequest c)) c (peerIDs c)))
      by (intros p Hp Hne; by apply requestVotes_reach).
    revert Hsp. destruct (requestVotes_shape (voteRequest c) (peerIDs c) c) as [g ->]. intros Hsp.
    split_and!; try done. lia.
Qed.

(** A node in an earlier term whose log is not ahead grants its vote. *)
Lemma vote_given req n :
  currentTerm n < rv_Term req →
  isLogUpToDateLocked (rv_LastLogIndex req) (rv_LastLogTerm req) n = true →
  ∃ n', HandleRequestVote req n = (n', MkVoteResp (rv_Term req) true) ∧
    currentTerm n' = rv_Term req ∧ stopped n' = stopped n.
Proof.
  intros Ht Hu. unfold HandleRequestVote. rewrite decide_False, decide_True by lia. cbn zeta.
  destruct (becomeFollower_eq (rv_Term req) "" n) as [s ->]; [lia|].
  assert (Hu' : ∀ n', log n' = log n →
    isLogUpToDateLocked (rv_LastLogIndex req) (rv_LastLogTerm req) n' = true).
  { intros n' E. rewrite <- Hu. unfold isLogUpToDateLocked, lastLogTermLocked, lastLogIndexLocked,
      lastEntry. by rewrite E. }
  set (x := set_leaderID "" _). rewrite Hu' by done.
  assert (Hx : currentTerm x = rv_Term req ∧ votedFor x = ""%string ∧ stopped x = stopped n) by done.
  clearbody x. destruct Hx as (H1&H2&H3). rewrite bool_decide_true by (by left). cbn [andb].
  destruct (resetElectionTimerLocked_shape (set_votedFor (rv_CandidateID req) x)) as (d&r&->).
  match goal with |- context [persistLocked ?y] => destruct (persistLocked_shape y) as [s' ->] end.
  rewrite H1. by eexists.
Qed.

(** A granted vote counts for a candidate, and a majority makes it a leader. *)
Lemma vote_counted p req t n :
  wf_node n → 0 ≤ lastLogIndexLocked n → rv_Term req = currentTerm n → t = currentTerm n →
  let n' := requestVoteReply p req (MkVoteResp t true) n in
  currentTerm n' = currentTerm n ∧ peerAddrs n' = peerAddrs n ∧
  (state n = Candidate →
     leading (peerIDs n) n' ∨
     state n' = Candidate ∧ votesReceived n' = <[p := true]> (votesReceived n) ∧
     Z.of_nat (size (votesReceived n')) < majority n).
Proof.
  intros Hwf Hl Hr ->. cbn zeta. unfold requestVoteReply. rewrite decide_False by (cbn; lia).
  case_decide as Hc; [split; [done|]; split; [done|]; intros E; destruct Hc; [done|lia]|].
  cbn [rvr_VoteGranted negb]. cbn zeta.
  assert (Hwf' : wf_node (put_votesReceived p true n)) by (wf_frame Hwf).
  case_decide as Hm.
  - destruct (becomeLeader_state _ Hwf' Hl) as (Hld&->&->). split_and!; [done..|by left].
  - split; [done|]. split; [done|]. intros E. right. split_and!; [done..|]. unfold majority in *. cbn in *. lia.
Qed.
End node.

(** ** The steps of a group of members *)

Section group.
Context {M : Type} `{!StateMachine M, !StateMachineLaws M}.
Context (base : Config) (m0 : M) (ch : bool) (Q : gset string).
Implicit Types (n : RaftNode M) (w : World M) (C : gmap string string).

Abbreviation P := (cfg_PeerAddrs base).
Abbreviation B := (cfg_PeerAddrs base, cfg_HTTPAddrs base).

Definition running w i : Prop := ∃ n, w_nodes w !! i = Some n ∧ stopped n = false.

(** The sender and the receiver of a request or reply that is not about a
    snapshot. *)
Definition between (m : Message) : option (string * string) :=
  match m with
  | MVoteReq i j _ | MVoteResp i j _ _ | MAppendReq i j _ | MAppendResp i j _ _ => Some (i, j)
  | MInstallReq _ _ _ | MInstallResp _ _ _ _ => None
  end.

(** What the members of [Q] can do when they reach only each other: restart, let
    time pass, take a tick, accept a command, and exchange votes and entries; a
    member that is stopped takes no tick and receives nothing. *)
Definition among (l : Label) w : Prop :=
  match l with
  | LRestart i _ => i ∈ Q
  | LEnv i now _ => i ∈ Q ∧ ∀ n, w_nodes w !! i = Some n → clock n ≤ now
  | LTick i => i ∈ Q ∧ running w i ∧ ∀ n, w_nodes w !! i = Some n → knows_cluster base i n
  | LPropose i _ => i ∈ Q ∧ running w i
  | LReplicate i p => i ∈ Q ∧ p ∈ Q ∧ running w i
  | LDeliver k => ∃ m i j, w_net w !! k = Some m ∧ between m = Some (i, j) ∧
      i ∈ Q ∧ j ∈ Q ∧ running w i ∧ running w j
  | _ => False
  end.

Fixpoint alone (ls : list Label) w : Prop :=
  match ls with
  | [] => True
  | l :: ls => among l w ∧ alone ls (stepW base m0 l w)
  end.

Definition gets w w' : Prop := ∃ ls, alone ls w ∧ runW base m0 ls w = w'.

Lemma alone_app ls1 ls2 w : alone ls1 w → alone ls2 (runW base m0 ls1 w) → alone (ls1 ++ ls2) w.
Proof.
  revert w. induction ls1 as [|l ls1 IH]; intros w; [done|]. intros [H1 H2] H3.
  split; [done|]. by apply IH.
Qed.

#[export] Instance gets_preorder : PreOrder gets.
Proof.
  split; [by exists []|]. intros w1 w2 w3 (ls1&H1&<-) (ls2&H2&<-). exists (ls1 ++ ls2).
  split; [by apply alone_app|apply runW_app].
Qed.

Lemma gets_one l w : among l w → gets w (stepW base m0 l w).
Proof. intros H. by exists [l]. Qed.

Lemma alone_safe ls w :
  alone ls w → safe_run base m0 ch ls w ∧ safe_installs base m0 ls w = true.
Proof.
  intros H. assert (Forall fixed_label ls ∧ safe_changes base m0 ls w = true ∧
    safe_installs base m0 ls w = true) as (H1&H2&H3).
  2:{ split; [|done]. split; [by destruct ch|by right]. }
  revert w H. induction ls as [|l ls IH]; intros w; [done|]. intros [H1 H2].
  destruct (IH _ H2) as (H3&H4&H5).
  assert (fixed_label l ∧ safe_change base l w = true ∧ safe_install l w = true) as (Hl&Hc&Hs).
  { destruct l; cbn in *; try done.
    - destruct H1 as (_&(n&Hn&_)&Hk). rewrite Hn in *. by rewrite bool_decide_eq_true_2 by auto.
    - destruct H1 as (m&i&j&E&Hm&_). rewrite E. by destruct m. }
  split_and!; [by constructor|cbn; by rewrite Hc, H4|cbn; by rewrite Hs, H5].
Qed.

(** ** Steps of one node *)

Lemma onNode_nodes i f w n :
  w_nodes w !! i = Some n → w_nodes (onNode i f w) = <[i := set_spawned [] (f n).1]> (w_nodes w).
Proof. intros H. unfold onNode. rewrite H. by destruct (f n). Qed.

Lemma onNode_sends i f w n m :
  w_nodes w !! i = Some n →
  m ∈ w_net w ∨ m ∈ (f n).2 ∨ is_Some (transport (f n).1) ∧ m ∈ voteRequestsOf i (spawned (f n).1) →
  m ∈ w_net (onNode i f w).
Proof.
  intros H Hm. unfold onNode. rewrite H. destruct (f n) as [x msgs]. cbn in *. rewrite !elem_of_app.
  destruct Hm as [?|[?|[[t ->] ?]]]; auto.
Qed.

Lemma onNode_other i f w j : j ≠ i → w_nodes (onNode i f w) !! j = w_nodes w !! j.
Proof.
  intros H. unfold onNode. destruct (w_nodes w !! i) as [n|]; [|done].
  destruct (f n). cbn. by rewrite lookup_insert_ne.
Qed.

(** The other members take no part. *)
Lemma gets_others w w' j : gets w w' → j ∉ Q → w_nodes w' !! j = w_nodes w !! j.
Proof.
  intros (ls&Ha&<-) Hj. revert w Ha. induction ls as [|l ls IH]; intros w; [done|]. intros [H1 H2].
  change (runW base m0 (l :: ls) w) with (runW base m0 ls (stepW base m0 l w)).
  rewrite (IH _ H2). destruct l; cbn in *; try done.
  - apply onNode_other. intros ->. tauto.
  - apply onNode_other. intros ->. tauto.
  - case_decide; [done|]. apply onNode_other. intros ->. tauto.
  - destruct H1 as (m&i&x&E&Hm&Hi&Hx&_). rewrite E.
    destruct m; try done; injection Hm as <- <-; cbn; apply onNode_other; congruence.
  - apply onNode_other. intros ->. tauto.
  - apply onNode_other. intros ->. tauto.
Qed.

(** ** Reachable worlds *)

Context (Hfc : fixed_cluster base m0) (Hjoin : cfg_Join base = false).

Definition sound w : Prop := (∃ a, wrel base m0 ch w a) ∧ equipped_in w.

Lemma sound_gets w w' : sound w → gets w w' → sound w'.
Proof.
  intros [[a Ha] Hm] (ls&Hls&<-). destruct (alone_safe ls w Hls) as [Hs _].
  destruct (wrel_run base m0 ch w a ls Hfc Ha Hs) as (a'&_&Ha').
  split; [by exists a'|]. by apply equipped_run.
Qed.

Lemma sound_node w i n :
  sound w → w_nodes w !! i = Some n →
  nodeID n = i ∧ peerIDs n = sorted_keys (peerAddrs n) ∧ wf_node n ∧ equipped n ∧
  0 ≤ lastLogIndexLocked n.
Proof.
  intros [[a Ha] Hm] Hi. destruct (wr_nodes _ _ _ _ _ Ha i n Hi) as [Hn _].
  pose proof (wr_good _ _ _ _ _ Ha) as Hg. pose proof (nrel_wf _ _ _ _ _ _ Hg Hn).
  destruct (nrel_view _ _ _ _ _ _ Hg Hn) as (l&k&V).
  pose proof (vw_last _ _ _ _ _ _ _ _ V) as Hlast. pose proof (vw_lt _ _ _ _ _ _ _ _ V).
  destruct Hn. split_and!; try done; [apply nr_members|by eapply Hm|]. unfold slen in Hlast. lia.
Qed.

(** ** The group *)

(** Node [i] of the group as it knows the cluster: it is a voter, the group holds
    a majority of the members, and it is not a joining node that knows only
    itself. *)
Record voter (i : string) C : Prop := {
  vt_self : is_Some (C !! i);
  vt_majority : (size C < 2 * size (Q ∩ dom C))%nat;
  vt_known : is_Some (P !! i) ∨ (1 < size C)%nat;
}.

Definition group w : Prop :=
  ∀ i, i ∈ Q → ∃ n, w_nodes w !! i = Some n ∧ voter i (peerAddrs n).

Lemma voter_knows i n : voter i (peerAddrs n) → knows_cluster base i n.
Proof. intros [_ _ [?|?]]; [by left|right; by left]. Qed.

(** ** Restarting *)

(** A voter that is restarted has the membership it had. *)
Lemma restart_members w i n st src :
  sound w → w_nodes w !! i = Some n → storage n = Some st → voter i (peerAddrs n) →
  peerAddrs (boot base m0 i st src) = peerAddrs n.
Proof.
  intros [[a Ha] _] Hi Hst [Hv _ Hk]. destruct (wr_nodes _ _ _ _ _ Ha i n Hi) as [Hn (ps&hs&Hsv)].
  pose proof (wr_good _ _ _ _ _ Ha) as Hg. pose proof (nrel_wf _ _ _ _ _ _ Hg Hn) as Hwf.
  destruct (nrel_view _ _ _ _ _ _ Hg Hn) as (l&k&V). unfold boot. rewrite bootWith_members.
  destruct (Hsv st Hst) as (He1&He2&[Hd|[Hd Hu]]).
  - assert (Hb : basePeers n ≠ ∅) by (by apply (memberOf_ne base ch _ _ (fc_members _ _ Hfc)
      (Forall_take _ _ _ (vw_full _ _ _ _ _ _ _ _ V)) (vw_base _ _ _ _ _ _ _ _ V))).
    assert (Hsv' : saved P (cfg_HTTPAddrs base) n).
    { intros s' Hs'. assert (s' = st) as -> by congruence. split_and!; [done..|by left]. }
    by destruct (recover _ _ n st (nodeConfig base i st) m0 src Hwf Hsv' Hst Hb eq_refl eq_refl eq_refl)
      as (_&->&_).
  - destruct (unsaved_view _ _ _ a i n l k ps hs V Hu) as [Ha0 _].
    rewrite (vw_abs _ _ _ _ _ _ _ _ V) in Ha0. injection Ha0 as _ _ Hl.
    pose proof (view_members _ _ _ a i n l k (nr_members _ _ _ _ _ _ Hn) V) as Hm.
    apply (memberOf_voter _ _ _ _ i) in Hm; [|done|done]. rewrite Hl in Hm. injection Hm as -> _.
    unfold NewNode, Load. cbn. by rewrite He2, Hd.
Qed.

(** A member that runs, does not lead and takes part in elections. *)
Definition available w i : Prop :=
  ∃ n, w_nodes w !! i = Some n ∧ stopped n = false ∧ state n ≠ Leader ∧ joining n = false.

Lemma make_available w i :
  sound w → group w → i ∈ Q →
  ∃ w', gets w w' ∧ group w' ∧ available w' i ∧ ∀ j, j ≠ i → w_nodes w' !! j = w_nodes w !! j.
Proof.
  intros Hw Hg Hi. destruct (Hg i Hi) as (n&Hn&Hv).
  destruct (decide (stopped n = false ∧ state n ≠ Leader ∧ joining n = false)) as [(?&?&?)|_].
  { exists w. split_and!; [done..|by exists n|done]. }
  destruct (sound_node w i n Hw Hn) as (_&_&_&([st Hst]&_)&_).
  exists (stepW base m0 (LRestart i []) w). split; [by apply gets_one|]. cbn [stepW].
  pose proof (restart_members w i n st [] Hw Hn Hst Hv) as Hpa.
  destruct (boot_equipped base m0 i st [] Hjoin) as (_&H1&H2&H3).
  pose proof (onNode_nodes i (quiet (λ n, match storage n with
    | Some st => boot base m0 i st [] | None => n end)) w n Hn) as E. cbn [quiet fst] in E.
  rewrite Hst in E. revert E Hpa H1 H2 H3. generalize (boot base m0 i st []). intros b E Hpa H1 H2 H3.
  match goal with |- context [onNode ?a ?f ?x] => revert E; generalize (onNode a f x) end. intros w' E.
  assert (Eo : ∀ j, j ≠ i → w_nodes w' !! j = w_nodes w !! j)
    by (intros j Hj; by rewrite E, lookup_insert_ne).
  assert (Eb : w_nodes w' !! i = Some (set_spawned [] b)) by (by rewrite E, lookup_insert_eq).
  split_and!; [| |done].
  - intros j Hj. destruct (decide (j = i)) as [->|Hne]; [|rewrite Eo by done; by apply Hg].
    eexists. split; [exact Eb|]. change (voter i (peerAddrs b)). by rewrite Hpa.
  - eexists. split; [exact Eb|]. split_and!; [exact H1| |exact H3]. change (state b ≠ Leader). by rewrite H2.
Qed.

Lemma all_available (xs : list string) w :
  sound w → group w → (∀ i, i ∈ xs → i ∈ Q) →
  ∃ w', gets w w' ∧ group w' ∧ ∀ i, i ∈ xs → available w' i.
Proof.
  intros Hw Hg. induction xs as [|i xs IH]; intros Hxs.
  { exists w. split_and!; [done..|]. by intros i ?%elem_of_nil. }
  destruct IH as (w1&H1&Hg1&Ha1); [intros j Hj; apply Hxs; by right|].
  destruct (make_available w1 i) as (w2&H2&Hg2&Ha2&Ho); [by eapply sound_gets|done|apply Hxs; by left|].
  exists w2. split_and!; [by etrans|done|]. intros j Hj. destruct (decide (j = i)) as [->|Hne]; [done|].
  apply elem_of_cons in Hj as [->|Hj]; [done|]. destruct (Ha1 j Hj) as (n&Hn&?).
  exists n. by rewrite Ho.
Qed.

(** No step of the group stops a member. *)
Lemma running_onNode i f w j :
  (∀ n, stopped n = false → stopped (f n).1 = false) → running w j → running (onNode i f w) j.
Proof.
  intros Hf (n&Hn&Hs). destruct (decide (j = i)) as [->|Hne].
  - eexists. rewrite (onNode_nodes _ _ _ _ Hn), lookup_insert_eq. split; [reflexivity|].
    exact (Hf n Hs).
  - exists n. by rewrite onNode_other.
Qed.

Lemma among_running l w j : among l w → running w j → running (stepW base m0 l w) j.
Proof.
  intros Hl Hj. assert (Hk : ∀ i f, (∀ n, kept false n (f n).1) → running (onNode i f w) j).
  { intros i f Hf. apply running_onNode; [|done]. intros n Hn. by rewrite (kp_stopped _ _ (Hf n)). }
  destruct l; cbn [stepW]; try done.
  - apply Hk. intros n. apply kept_tick.
  - apply Hk. intros n. apply kept_Propose.
  - case_decide; [done|]. apply Hk. intros n. apply kept_replicateSend.
  - destruct Hl as (m&x&y&E&Hm&_). rewrite E. destruct m; try done; cbn [deliver]; apply Hk; intros n.
    + pose proof (kept_HandleRequestVote (up := false) req n). by destruct (HandleRequestVote req n).
    + apply kept_requestVoteReply.
    + pose proof (kept_HandleAppendEntries (up := false) req n). by destruct (HandleAppendEntries req n).
    + apply kept_appendReply.
  - apply Hk. intros n. by apply kept_frame.
  - apply running_onNode; [|done]. intros n Hn. cbn [quiet fst]. destruct (storage n); [|done].
    by apply boot_equipped.
Qed.

Lemma gets_running w w' j : gets w w' → running w j → running w' j.
Proof.
  intros (ls&Ha&<-). revert w Ha. induction ls as [|l ls IH]; intros w; [done|].
  intros [H1 H2] Hj. change (runW base m0 (l :: ls) w) with (runW base m0 ls (stepW base m0 l w)).
  apply IH; [exact H2|]. by apply among_running.
Qed.

(** ** Campaigning *)

(** The votes a leader needs. *)
Definition needed C : Z := slen (sorted_keys C) / 2 + 1.

(** Node [i] with the membership [C], at the head of an election: it runs, and it
    leads or asks every other member for its vote in its term. *)
Definition campaigning w i n C (idx term : Z) : Prop :=
  w_nodes w !! i = Some n ∧ stopped n = false ∧ peerAddrs n = C ∧ joining n = false ∧
  (leading (sorted_keys C) n ∧ needed C ≤ 1 ∨
   state n = Candidate ∧ 1 < needed C ∧ votesReceived n = {[i := true]} ∧
   lastLogIndexLocked n = idx ∧ lastLogTermLocked n = term ∧
   ∀ p, p ∈ dom C → p ≠ i → MVoteReq i p (MkVoteReq (currentTerm n) i idx term) ∈ w_net w).

Lemma campaign w i n C :
  sound w → i ∈ Q → w_nodes w !! i = Some n → stopped n = false → state n ≠ Leader →
  joining n = false → peerAddrs n = C → voter i C →
  ∃ w' n', gets w w' ∧ w_nodes w' = <[i := n']> (w_nodes w) ∧ currentTerm n' = currentTerm n + 1 ∧
    campaigning w' i n' C (lastLogIndexLocked n) (lastLogTermLocked n).
Proof.
  intros Hw Hi Hn Hs Hl Hj HC Hv. destruct (sound_node w i n Hw Hn) as (Hid&Hps&Hwf&(_&Htr)&Hlast).
  rewrite HC in Hps.
  set (now := Z.max (clock n) (electionDeadline n)).
  set (w1 := stepW base m0 (LEnv i now []) w).
  assert (G1 : gets w w1).
  { apply gets_one. split; [done|]. intros x. rewrite Hn. intros [= <-]. lia. }
  set (n1 := set_spawned [] (set_rng [] (set_clock now n))).
  assert (Hn1 : w_nodes w1 = <[i := n1]> (w_nodes w)) 
    by (unfold w1; cbn [stepW]; by rewrite (onNode_nodes _ _ _ _ Hn)).
  assert (Hi1 : w_nodes w1 !! i = Some n1) by (by rewrite Hn1, lookup_insert_eq).
  assert (G2 : gets w1 (stepW base m0 (LTick i) w1)).
  { apply gets_one. split; [done|]. split; [by exists n1|]. intros x. rewrite Hi1. intros [= <-].
    apply voter_knows. change (voter i (peerAddrs n)). by rewrite HC. }
  assert (Hwf1 : wf_node n1) by (wf_frame Hwf).
  destruct (tick_campaigns n1 Hwf1 Hl Hj) as (Ht&Hpa&Hout);
    [cbn; rewrite HC, Hid; apply Hv|cbn; lia|exact Hlast|].
  destruct (kept_tick (up := false) n1) as [_ Ktr Kj Kst]. specialize (Ktr Htr).
  assert (Hn2 : w_nodes (stepW base m0 (LTick i) w1) = <[i := set_spawned [] (tick n1)]> (w_nodes w)).
  { cbn [stepW]. rewrite (onNode_nodes _ _ _ _ Hi1), Hn1, insert_insert_eq. done. }
  eexists _, _. split; [by etrans|]. split; [exact Hn2|]. split; [exact Ht|].
  split; [by rewrite Hn2, lookup_insert_eq|]. split; [by etrans; [exact Kst|]|].
  split; [by etrans; [exact Hpa|]|]. split; [by apply Kj|].
  assert (Hq : majority n1 = needed C) by (unfold majority, needed; by rewrite <- Hps).
  change (peerIDs n1) with (peerIDs n) in Hout. rewrite Hq, Hps in Hout. destruct Hout as [[H1 H2]|(H1&H2&H3&H4&H5&H6)]; [by left|right].
  change (nodeID n1) with (nodeID n) in *. rewrite Hid in *.
  split_and!; [exact H1|exact H2|exact H3|exact H4|exact H5|].
  intros p Hpp Hne. cbn [stepW]. apply (onNode_sends _ _ _ _ _ Hi1). right. right. cbn [quiet fst].
  split; [done|]. unfold voteRequestsOf. apply list_elem_of_omap.
  eexists. split; [apply (H6 p); [|done]|].
  - by apply elem_of_sorted_keys, elem_of_dom.
  - change (currentTerm (set_spawned [] (tick n1))) with (currentTerm (tick n1)).
    rewrite Ht. reflexivity.
Qed.

(** It campaigns again until its term is larger than [T]. *)
Lemma campaign_above T w i n C :
  sound w → i ∈ Q → w_nodes w !! i = Some n → stopped n = false → state n ≠ Leader →
  joining n = false → peerAddrs n = C → voter i C →
  ∃ w' n', gets w w' ∧ w_nodes w' = <[i := n']> (w_nodes w) ∧
    (T < currentTerm n' ∨ needed C ≤ 1) ∧
    campaigning w' i n' C (lastLogIndexLocked n) (lastLogTermLocked n).
Proof.
  remember (Z.to_nat (T - currentTerm n)) as k eqn:Ek. assert (Hk : T - currentTerm n ≤ Z.of_nat k) by lia.
  clear Ek. revert w n Hk. induction k as [|k IH]; intros w n Hk Hw Hi Hn Hs Hl Hj HC Hv;
    destruct (campaign w i n C Hw Hi Hn Hs Hl Hj HC Hv) as (w1&n1&G1&E1&Ht&Hc).
  { exists w1, n1. split_and!; [done..| |done]. left. lia. }
  pose proof Hc as (Hn1&Hs1&HC1&Hj1&[[H1 H2]|(H1&H2&H3&H4&H5&H6)]).
  { exists w1, n1. split_and!; [done..|by right|done]. }
  destruct (IH w1 n1) as (w2&n2&G2&E2&H7&H8); [lia|by eapply sound_gets|done|done|done|by rewrite H1|done|done|done|].
  exists w2, n2. rewrite H4, H5 in H8. split_and!; [by etrans| |done..].
  by rewrite E2, E1, insert_insert_eq.
Qed.

(** ** Votes *)

Lemma gets_deliver w i j m :
  i ∈ Q → j ∈ Q → running w i → running w j → m ∈ w_net w → between m = Some (i, j) →
  gets w (deliver m w).
Proof.
  intros Hi Hj Ri Rj [k Hk]%list_elem_of_lookup_1 Hm.
  assert (E : stepW base m0 (LDeliver k) w = deliver m w) by (cbn; by rewrite Hk).
  rewrite <- E. apply gets_one. by exists m, i, j.
Qed.

(** The vote of one member: asked for, granted and counted. *)
Lemma one_vote w i n C p np req :
  sound w → peerAddrs n = C → i ∈ Q → p ∈ Q → p ≠ i →
  w_nodes w !! i = Some n → stopped n = false → state n = Candidate →
  w_nodes w !! p = Some np → stopped np = false → currentTerm np < currentTerm n →
  rv_Term req = currentTerm n →
  isLogUpToDateLocked (rv_LastLogIndex req) (rv_LastLogTerm req) np = true →
  MVoteReq i p req ∈ w_net w →
  ∃ w' n' np', gets w w' ∧ w_nodes w' = <[i := n']> (<[p := np']> (w_nodes w)) ∧
    (∀ m, m ∈ w_net w → m ∈ w_net w') ∧
    stopped n' = false ∧ currentTerm n' = currentTerm n ∧ currentTerm np' = currentTerm n ∧
    peerAddrs n' = C ∧
    (leading (sorted_keys C) n' ∨
     state n' = Candidate ∧ votesReceived n' = <[p := true]> (votesReceived n) ∧
     Z.of_nat (size (votesReceived n')) < needed C).
Proof.
  intros Hw HC Hi Hp Hne Hn Hs Hc Hnp Hsp Hlt Hr Hu Hm.
  destruct (vote_given req np) as (np1&Ev&Ht&Hst); [lia|done|].
  set (resp := MkVoteResp (rv_Term req) true) in *.
  set (w1 := deliver (MVoteReq i p req) w).
  assert (G1 : gets w w1) 
    by (apply (gets_deliver w i p); [done..|by exists n|by exists np|done|done]).
  assert (E1 : w_nodes w1 = <[p := set_spawned [] np1]> (w_nodes w)).
  { unfold w1. cbn [deliver]. rewrite (onNode_nodes _ _ _ _ Hnp). by rewrite Ev. }
  assert (N1 : ∀ m, m ∈ w_net w ∨ m = MVoteResp i p req resp → m ∈ w_net w1).
  { intros m Hin. unfold w1. cbn [deliver]. apply (onNode_sends _ _ _ _ _ Hnp). rewrite Ev.
    destruct Hin as [?| ->]; [by left|]. right. left. by apply list_elem_of_singleton. }
  assert (Hi1 : w_nodes w1 !! i = Some n) by (by rewrite E1, lookup_insert_ne).
  destruct (sound_node w i n Hw Hn) as (_&Hps&Hwf&_&Hlast). rewrite HC in Hps.
  set (n1 := requestVoteReply p req resp n).
  set (w2 := deliver (MVoteResp i p req resp) w1).
  assert (G2 : gets w1 w2).
  { apply (gets_deliver w1 i p); [done..|by exists n| |by apply N1; right|done].
    exists (set_spawned [] np1). rewrite E1, lookup_insert_eq. split; [done|]. by rewrite <- Hsp, <- Hst. }
  assert (E2 : w_nodes w2 = <[i := set_spawned [] n1]> (<[p := set_spawned [] np1]> (w_nodes w))).
  { unfold w2. cbn [deliver]. by rewrite (onNode_nodes _ _ _ _ Hi1), E1. }
  exists w2, (set_spawned [] n1), (set_spawned [] np1). split; [by etrans|]. split; [exact E2|].
  split; [intros m Hin; unfold w2; cbn [deliver]; apply (onNode_sends _ _ _ _ _ Hi1); left; auto|].
  destruct (vote_counted p req (rv_Term req) n Hwf Hlast Hr Hr) as (V1&V0&V2). rewrite HC in V0.
  assert (Hq : majority n = needed C) by (unfold majority, needed; by rewrite <- Hps).
  rewrite Hq, Hps in V2. specialize (V2 Hc).
  pose proof (kp_stopped _ _ (kept_requestVoteReply (up := false) p req resp n)) as Hk.
  fold resp n1 in V0, V1, V2, Hk. clear E2 G2. clearbody n1.
  change (stopped n1 = false ∧ currentTerm n1 = currentTerm n ∧ currentTerm np1 = currentTerm n ∧
    peerAddrs n1 = C ∧ (leading (sorted_keys C) n1 ∨ state n1 = Candidate ∧ votesReceived n1 = <[p := true]> (votesReceived n) ∧
     Z.of_nat (size (votesReceived n1)) < needed C)).
  split_and!; [congruence|done|congruence|done|done].
Qed.

(** No member of the group is in a later term, among those of [C]. *)
Definition highest w C (T : Z) : Prop :=
  ∀ j x, j ∈ Q → is_Some (C !! j) → w_nodes w !! j = Some x → currentTerm x ≤ T.

(** Node [i] leads, with the membership [C] of which the group has a majority. *)
Definition leads w i C : Prop :=
  voter i C ∧
  ∃ n, w_nodes w !! i = Some n ∧ leading (sorted_keys C) n ∧ peerAddrs n = C ∧
    stopped n = false ∧ highest w C (currentTerm n).

(** A candidate that has the votes of the members in [Q] but [ps], all of them
    in earlier terms with logs that are not ahead of its own, wins. *)
Lemma collect ps w i n C idx term :
  voter i C → sound w → NoDup ps → i ∉ ps → i ∈ Q → (∀ p, p ∈ ps → p ∈ Q) →
  w_nodes w !! i = Some n → peerAddrs n = C → stopped n = false → highest w C (currentTerm n) →
  state n = Candidate → Z.of_nat (size (votesReceived n)) < needed C →
  (∀ q, q ∈ Q ∩ dom C → q ∉ ps → is_Some (votesReceived n !! q)) →
  (∀ p, p ∈ ps → ∃ np, w_nodes w !! p = Some np ∧ stopped np = false ∧
     currentTerm np < currentTerm n ∧ isLogUpToDateLocked idx term np = true ∧
     MVoteReq i p (MkVoteReq (currentTerm n) i idx term) ∈ w_net w) →
  ∃ w', gets w w' ∧ leads w' i C.
Proof.
  intros Hvt. revert w n. induction ps as [|p ps IH];
    intros w n Hw Hnd Hip Hi Hps Hn HC Hs Hhi Hc Hsz Hv Hreq.
  { exfalso. assert (Hsub : Q ∩ dom C ⊆ dom (votesReceived n)).
    { intros q Hq. apply elem_of_dom, Hv; [done|apply not_elem_of_nil]. }
    apply subseteq_size in Hsub. rewrite size_dom in Hsub. pose proof (vt_majority _ _ Hvt) as Hmaj.
    unfold needed, slen in Hsz. rewrite length_sorted_keys in Hsz.
    pose proof (Z.mul_div_le (Z.of_nat (size C)) 2). lia. }
  apply NoDup_cons in Hnd as [Hp Hnd]. apply not_elem_of_cons in Hip as [Hne Hip].
  destruct (Hreq p) as (np&Hnp&Hsp&Htp&Hup&Hmp); [by left|].
  destruct (one_vote w i n C p np (MkVoteReq (currentTerm n) i idx term))
    as (w1&n1&np1&G1&E1&N1&Hs1&Ht1&Htp1&HC1&Hout); try done; [apply Hps; by left|].
  assert (Hn1 : w_nodes w1 !! i = Some n1) by (by rewrite E1, lookup_insert_eq).
  assert (Hhi1 : highest w1 C (currentTerm n1)).
  { intros j x Hj HjC. rewrite E1, Ht1.
    intros [[<- <-]|[_ [[<- <-]|[_ Hx]]%lookup_insert_Some]]%lookup_insert_Some.
    1,2: lia. by eapply Hhi. }
  destruct Hout as [Hl|(Hc1&Hv1&Hsz1)]; [exists w1; split; [done|]; split; [done|by exists n1]|].
  destruct (IH w1 n1) as (w2&G2&Hl2); try done; [by eapply sound_gets|by intros; apply Hps; right| | |].
  - intros q Hq Hqp. rewrite Hv1, lookup_insert_is_Some'. destruct (decide (p = q)); [by left|right].
    apply Hv; [done|]. by apply not_elem_of_cons.
  - intros q Hq. destruct (Hreq q) as (x&Hx&H1&H2&H3&H4); [by right|]. rewrite Ht1. exists x.
    rewrite E1, !lookup_insert_ne by (intros ->; done). split_and!; [done..|by apply N1].
  - exists w2. split; [by etrans|done].
Qed.

(** ** The best log *)

Definition ahead n1 n2 : Prop :=
  isLogUpToDateLocked (lastLogIndexLocked n1) (lastLogTermLocked n1) n2 = true.

Lemma ahead_iff n1 n2 :
  ahead n1 n2 ↔ lastLogTermLocked n2 < lastLogTermLocked n1 ∨
    lastLogTermLocked n2 = lastLogTermLocked n1 ∧ lastLogIndexLocked n2 ≤ lastLogIndexLocked n1.
Proof.
  unfold ahead, isLogUpToDateLocked. case_decide; rewrite bool_decide_eq_true; lia.
Qed.

Lemma best_log (xs : list string) w :
  xs ≠ [] → (∀ i, i ∈ xs → is_Some (w_nodes w !! i)) →
  ∃ i n, i ∈ xs ∧ w_nodes w !! i = Some n ∧
    ∀ j x, j ∈ xs → w_nodes w !! j = Some x → ahead n x.
Proof.
  induction xs as [|y xs IH]; [done|]. intros _ Hxs.
  destruct (Hxs y) as [ny Hy]; [by left|].
  destruct (decide (xs = [])) as [->|Hne].
  { exists y, ny. split_and!; [by left|done|].
    intros j x ->%list_elem_of_singleton. rewrite Hy. intros [= <-]. apply ahead_iff. lia. }
  destruct IH as (i&n&Hi&Hn&Hb); [done|intros; apply Hxs; by right|].
  assert (Ha : ahead n ny ∨ ahead ny n) by (rewrite !ahead_iff; lia). destruct Ha as [Ha|Ha].
  - exists i, n. split_and!; [by right|done|]. intros j x [->|Hj]%elem_of_cons Hx; [|by eapply Hb].
    congruence.
  - exists y, ny. split_and!; [by left|done|]. intros j x [->|Hj]%elem_of_cons Hx.
    + rewrite Hy in Hx. injection Hx as <-. apply ahead_iff. lia.
    + specialize (Hb j x Hj Hx). apply ahead_iff in Ha, Hb. apply ahead_iff. lia.
Qed.

Lemma term_bound w : ∃ T, ∀ j x, w_nodes w !! j = Some x → currentTerm x ≤ T.
Proof.
  induction (w_nodes w) as [|i n nodes Hi [T HT]] using map_ind.
  { exists 0. intros j x. by rewrite lookup_empty. }
  exists (Z.max T (currentTerm n)). intros j x [[<- <-]|[_ Hx]]%lookup_insert_Some; [lia|].
  specialize (HT j x Hx). lia.
Qed.

(** ** The election *)

Lemma group_elects w :
  sound w → group w → Q ≠ ∅ →
  ∃ w' i C, gets w w' ∧ i ∈ Q ∧ leads w' i C ∧ ∀ p, p ∈ Q → running w' p.
Proof.
  intros Hw Hg HQ.
  destruct (all_available (elements Q) w Hw Hg) as (w1&G1&Hg1&Hav).
  { intros i Hi%elem_of_elements. done. }
  assert (Hav' : ∀ i, i ∈ Q → available w1 i) by (intros; by apply Hav, elem_of_elements).
  assert (Hw1 : sound w1) by (by eapply sound_gets).
  assert (Hrun : ∀ p, p ∈ Q → running w1 p).
  { intros p Hp. destruct (Hav' p Hp) as (x&Hx&Hsx&_). by exists x. }
  destruct (best_log (elements Q) w1) as (i&n&Hi&Hn&Hbest).
  { intros E%elements_empty_inv. by apply leibniz_equiv in E. }
  { intros i Hi. destruct (Hav i Hi) as (n&Hn&_). by exists n. }
  apply elem_of_elements in Hi. destruct (Hav' i Hi) as (?&Hn'&Hs&Hl&Hj).
  rewrite Hn in Hn'. injection Hn' as <-. destruct (term_bound w1) as [T HT].
  destruct (Hg1 i Hi) as (?&Hn'&Hvt). rewrite Hn in Hn'. injection Hn' as <-.
  set (C := peerAddrs n) in *.
  destruct (campaign_above T w1 i n C) as (w2&n2&G2&E2&HT2&Hc); [done..|].
  assert (Hw2 : sound w2) by (by eapply sound_gets).
  assert (Hold : ∀ j, j ≠ i → w_nodes w2 !! j = w_nodes w1 !! j)
    by (intros j Hj'; by rewrite E2, lookup_insert_ne).
  destruct Hc as (Hn2&Hs2&HC2&_&[[Hl2 Hq]|(Hc2&Hq&Hv2&Hli&Hlt&Hreq)]).
  - exists w2, i, C. split_and!; [by etrans|done| |intros p Hp; by eapply gets_running, Hrun].
    split; [done|]. exists n2. split_and!; [done..|]. intros j x Hjq HjC Hx.
    assert (j = i) as ->; [|rewrite Hn2 in Hx; by injection Hx as <-].
    apply (size_singleton_inv (dom C)); [|by apply elem_of_dom|apply elem_of_dom, Hvt].
    rewrite size_dom. unfold needed, slen in Hq. rewrite length_sorted_keys in Hq.
    pose proof (Z.mul_succ_div_gt (Z.of_nat (size C)) 2). pose proof (vt_majority _ _ Hvt).
    pose proof (subseteq_size (Q ∩ dom C) (dom C) ltac:(set_solver)) as Hle. rewrite size_dom in Hle. lia.
  - assert (HT2' : T < currentTerm n2) by (destruct HT2; [done|lia]). clear HT2.
    destruct (collect (elements ((Q ∩ dom C) ∖ {[i]})) w2 i n2 C (lastLogIndexLocked n) (lastLogTermLocked n))
      as (w3&G3&Hl3); try done.
    + apply NoDup_elements.
    + set_solver.
    + set_solver.
    + intros j x Hjq _ Hx. destruct (decide (j = i)) as [->|Hne].
      * rewrite Hn2 in Hx. injection Hx as <-. lia.
      * rewrite Hold in Hx by done. specialize (HT j x Hx). lia.
    + rewrite Hv2, map_size_singleton. lia.
    + intros q Hqq Hne. assert (q = i) as -> by (destruct (decide (q = i)); [done|set_solver]).
      rewrite Hv2, lookup_singleton_eq. by eexists.
    + intros p Hp. assert (p ∈ Q ∧ p ∈ dom C ∧ p ≠ i) as (Hpq&HpC&Hne) by set_solver.
      destruct (Hav' p Hpq) as (np&Hnp&Hsp&_). exists np. rewrite Hold by done.
      split_and!; [done..| | |].
      * specialize (HT p np Hnp). lia.
      * apply (Hbest p np); [by apply elem_of_elements|done].
      * by apply Hreq.
    + exists w3, i, C. split_and!; [by etrans; [|etrans]|done..|].
      intros p Hp. eapply gets_running; [|by apply Hrun]. by etrans.
Qed.

Lemma sound_after ls : safe_run base m0 ch ls (initWorld base m0) → sound (worldAfter base m0 ls).
Proof.
  intros Hls. destruct (after_wrel base m0 ch ls Hfc Hls) as (a&_&Ha). split; [by exists a|].
  apply equipped_run, equipped_init.
Qed.

(** What the group reaches continues the run. *)
Lemma gets_run ls w' :
  safe_run base m0 ch ls (initWorld base m0) → gets (worldAfter base m0 ls) w' →
  ∃ ls', alone ls' (worldAfter base m0 ls) ∧ safe_run base m0 ch (ls ++ ls') (initWorld base m0) ∧
    worldAfter base m0 (ls ++ ls') = w'.
Proof.
  intros Hls (ls'&Hal&<-). exists ls'. destruct (alone_safe _ _ Hal) as [Hs _].
  unfold worldAfter in *. rewrite runW_app. split; [done|]. split; [|done]. by apply safe_run_app.
Qed.

(** [C7] Any majority can elect a leader.  Let a cluster whose members are started
    as members ([cfg_Join] is not set) and whose disks work have run from its start
    through lost messages, crashes, competing elections, compaction, nodes that joined
    and changes of the membership, such that no installed snapshot dropped entries that
    follow it, leaders changed the membership after they had committed an entry of
    their term, and no joining node campaigned while it knew only itself.  Let [Q] be
    a group of nodes each of which, as far as it knows the members, is one and has a
    majority of them in [Q].  Then
    there is a schedule of their own steps, restarts, ticks and deliveries between
    them, after which one of them leads in a term no other member in [Q] has
    passed.  The nodes outside [Q] take no part. *)
Theorem majority_elects ls :
  safe_run base m0 ch ls (initWorld base m0) → Q ≠ ∅ → group (worldAfter base m0 ls) →
  ∃ ls' i n, i ∈ Q ∧ alone ls' (worldAfter base m0 ls) ∧
    safe_run base m0 ch (ls ++ ls') (initWorld base m0) ∧
    let w := worldAfter base m0 (ls ++ ls') in
    w_nodes w !! i = Some n ∧ state n = Leader ∧ stopped n = false ∧
    (∀ j x, j ∈ Q → is_Some (peerAddrs n !! j) → w_nodes w !! j = Some x →
       currentTerm x ≤ currentTerm n) ∧
    (∀ j, j ∉ Q → w_nodes w !! j = w_nodes (worldAfter base m0 ls) !! j).
Proof.
  intros Hls HQ Hgr.
  destruct (group_elects _ (sound_after ls Hls) Hgr HQ)
    as (w'&i&C&G&Hi&(_&n&Hn&[Hl _]&HC&Hs&Hhi)&_).
  destruct (gets_run ls w' Hls G) as (ls'&Hal&Hf&E). exists ls', i, n. cbn zeta. rewrite E, HC.
  split_and!; try done. intros j Hj. by apply gets_others.
Qed.
End group.

(** Where the membership does not change, a majority of the members is such a
    group. *)
Lemma fixed_group {M} `{!StateMachine M, !StateMachineLaws M} base (m0 : M) Q w :
  sound base m0 false w → Q ⊆ dom (cfg_PeerAddrs base) →
  (size (dom (cfg_PeerAddrs base)) < 2 * size Q)%nat → group base Q w ∧ Q ≠ ∅.
Proof.
  intros [[a Ha] _] HQ Hmaj. split; [|intros ->; rewrite size_empty in Hmaj; lia].
  intros i Hi. assert (Hi' := HQ i Hi). rewrite <- (wr_dom _ _ _ _ _ Ha eq_refl) in Hi'.
  apply elem_of_dom in Hi' as [n Hn]. exists n. split; [done|].
  destruct (wr_nodes _ _ _ _ _ Ha i n Hn) as [Hr _].
  destruct (nrel_fixed base m0 false a i n eq_refl (wr_good _ _ _ _ _ Ha) Hr) as (_&_&->&_).
  apply HQ, elem_of_dom in Hi. split; [done| |by left].
  replace (Q ∩ dom (cfg_PeerAddrs base)) with Q by set_solver. by rewrite <- size_dom.
Qed.

(** After the run in which d has joined and c leads, the nodes a, b and d alone
    can elect one of them: b has not heard of d. *)
Lemma majority_elects_witness :
  ∃ i n ls', i ∈ ({[ "a"; "b"; "d" ]} : gset string) ∧
    w_nodes (demoWorld (changeRun ++ ls')) !! i = Some n ∧ state n = Leader ∧
    w_nodes (demoWorld (changeRun ++ ls')) !! "c"%string = w_nodes (demoWorld changeRun) !! "c"%string.
Proof.
  destruct (majority_elects (config3 2) ([] : list bytes) true {[ "a"; "b"; "d" ]}%string (config3_fixed 2)
    eq_refl changeRun changeRun_safe) as (ls'&i&n&Hi&_&_&Hn&Hl&_&_&Ho).
  - apply (bool_decide_unpack _). vm_compute. exact I.
  - intros i Hi. assert (H : i = "a"%string ∨ i = "b"%string ∨ i = "d"%string) by set_solver. clear Hi.
    destruct H as [->|[->| ->]]; (eexists; split; [vm_compute; reflexivity|]);
      (split; [|apply (bool_decide_unpack _); vm_compute; exact I|
        first [left; vm_compute; by eexists|right; vm_compute; lia]]); vm_compute; by eexists.
  - exists i, n, ls'. split_and!; [exact Hi|exact Hn|exact Hl|]. apply Ho.
    apply (bool_decide_unpack _). vm_compute. exact I.
Defined.
