(* ===== verification/AppendSpec.v ===== *)
(** HandleAppendEntries on any request: when it accepts, what the log holds
    afterwards, and how the commit index follows the leader. *)
From S2P Require Import Prelude Types Node Persist Membership Snapshot Log Election RaftOps Read Machine NodeInv LogSpec Durable Network Demo SnapshotSpec.
Open Scope Z_scope.
Open Scope go_scope.

Section append_spec.
Context {M : Type} `{!StateMachine M}.
Implicit Types n : RaftNode M.

Lemma renumber_lookup start es j :
  renumber start es !! j =
  (λ e, MkEntry (e_Term e) (start + Z.of_nat j) (e_Command e) (e_Change e)) <$> es !! j.
Proof.
  revert start j. induction es as [|e es IH]; intros start [|j]; cbn; try done.
  - by rewrite Z.add_0_r.
  - rewrite IH. destruct (es !! j); cbn; [|done]. do 2 f_equal. lia.
Qed.

(** The term at an index is read from the log alone. *)
Lemma termAt_eq n idx :
  termAtLocked n idx = e_Term <$> log n !z (idx - lastIncludedIndexLocked n).
Proof. unfold termAtLocked. rewrite entryAtLocked_eq. by destruct (_ !z _). Qed.

(** The log of [n'] above the index [from] is the log of [n] merged with the entries
    [es] from the index [idx] on.  When [n] has all of them (an entry of the same
    term at each index), it is the log of [n], with what follows them.  Otherwise it
    is the log of [n] up to the first entry it lacks or has with another term, then
    the rest of [es], numbered by their position, and nothing after them. *)
Definition merged (from : Z) (es : list LogEntry) (idx : Z) n n' : Prop :=
  let has j e := termAtLocked n (idx + Z.of_nat j) = Some (e_Term e) in
  ((∀ j e, es !! j = Some e → has j e) ∧
   lastLogIndexLocked n' = lastLogIndexLocked n ∧
   ∀ k, from < k → entryAtLocked n' k = entryAtLocked n k) ∨
  (∃ j e, es !! j = Some e ∧ ¬ has j e ∧ (∀ i x, (i < j)%nat → es !! i = Some x → has i x) ∧
   lastLogIndexLocked n' = idx + slen es - 1 ∧
   (∀ k, from < k < idx + Z.of_nat j → entryAtLocked n' k = entryAtLocked n k) ∧
   (∀ i x, (j ≤ i)%nat → es !! i = Some x → from < idx + Z.of_nat i →
      entryAtLocked n' (idx + Z.of_nat i) =
        Some (MkEntry (e_Term x) (idx + Z.of_nat i) (e_Command x) (e_Change x)))).

(** Nodes with the same entries merge alike. *)
Lemma merged_ext from es idx n0 n n1 n2 :
  (∀ k, entryAtLocked n0 k = entryAtLocked n k) → lastLogIndexLocked n0 = lastLogIndexLocked n →
  (∀ k, from < k → entryAtLocked n2 k = entryAtLocked n1 k) →
  lastLogIndexLocked n2 = lastLogIndexLocked n1 →
  merged from es idx n0 n1 → merged from es idx n n2.
Proof.
  intros H0 L0 H1 L1. assert (Ht : ∀ k, termAtLocked n0 k = termAtLocked n k).
  { intros k. unfold termAtLocked. by rewrite H0. }
  intros [(Ha&Hl&Hk)|(j&e&Hj&Hn&Hb&Hl&Hk&Hi)]; [left|right].
  - split_and!; [|congruence|].
    + intros j e Hj. rewrite <- Ht. by apply Ha.
    + intros k Hlt. rewrite H1, <- H0 by done. by apply Hk.
  - exists j, e. split_and!; [done|by rewrite <- Ht| |congruence| |].
    + intros i x Hlt Hx. rewrite <- Ht. by apply Hb.
    + intros k Hlt. rewrite H1, <- H0 by lia. by apply Hk.
    + intros i x Hle Hx Hlt. rewrite H1 by done. by apply Hi.
Qed.

(** After the loop over the entries every one of them is in the log with its
    term, and nothing below the first one has changed. *)
Lemma reconcile_entries es idx n :
  wf_log n → lastIncludedIndexLocked n < idx ≤ lastLogIndexLocked n + 1 →
  ∃ l d, reconcile es idx n = (set_log l n, d) ∧ contiguous l ∧ head l = head (log n) ∧
    (d = false → l = log n) ∧
    (∀ j e, es !! j = Some e →
       termAtLocked (set_log l n) (idx + Z.of_nat j) = Some (e_Term e)) ∧
    (∀ k, k < idx → entryAtLocked (set_log l n) k = entryAtLocked n k).
Proof.
  intros Hwf Hidx.
  destruct (reconcile_wf es idx n Hwf Hidx) as (l&d&Hr&Hl&Hh&Hd).
  exists l, d. split_and!; [done..| |].
  - assert (Hf : lastIncludedIndexLocked (set_log l n) = lastIncludedIndexLocked n).
    { unfold lastIncludedIndexLocked, firstEntry. cbn. by rewrite Hh. }
    destruct (reconcile_spec es idx n Hwf Hidx) as [[E Hp]|(k&e&Hk&_&Hp&Hle&E)];
      rewrite E in Hr; injection Hr as El Ed; intros j x Hj.
    + destruct (Hp j x Hj) as (y&Hy&<-). rewrite Hd by done.
      replace (set_log (log n) n) with n by (by destruct n). unfold termAtLocked. by rewrite Hy.
    + rewrite termAt_eq, Hf. cbn. rewrite <- El.
      set (c := Z.to_nat (idx + Z.of_nat k - lastIncludedIndexLocked n)).
      assert (Hc : (c ≤ length (log n))%nat).
      { rewrite (wf_log_last n Hwf) in Hle. unfold slen in *. lia. }
      assert (Hsl : slen (take c (log n)) = Z.of_nat c) by (unfold slen; rewrite length_take_le; lia).
      destruct (decide (j < k)%nat) as [Hjk|Hjk].
      * destruct (Hp j x Hjk Hj) as (y&Hy&<-). rewrite entryAtLocked_eq in Hy.
        rewrite zlookup_app_l by lia. rewrite zlookup_take by lia. by rewrite Hy.
      * rewrite zlookup_app_r by lia. rewrite Hsl.
        replace (idx + Z.of_nat j - lastIncludedIndexLocked n - Z.of_nat c) with
          (Z.of_nat (j - k)) by lia.
        rewrite zlookup_nat, renumber_lookup, lookup_drop.
        replace (k + (j - k))%nat with j by lia. by rewrite Hj.
  - intros k Hk.
    assert (Hf : lastIncludedIndexLocked (set_log l n) = lastIncludedIndexLocked n).
    { unfold lastIncludedIndexLocked, firstEntry. cbn. by rewrite Hh. }
    rewrite !entryAtLocked_eq, Hf. cbn.
    destruct (reconcile_spec es idx n Hwf Hidx) as [[E _]|(k'&e&_&_&_&Hle&E)];
      rewrite E in Hr; injection Hr as El Ed; [by rewrite Hd|].
    rewrite <- El.
    rewrite zlookup_app_l; [by rewrite zlookup_take by lia|].
    unfold slen. rewrite length_take_le; [lia|].
    rewrite (wf_log_last n Hwf) in Hle. unfold slen in *. lia.
Qed.

(** The loop over the entries merges them into the log. *)
Lemma reconcile_merged from es idx n :
  wf_log n → lastIncludedIndexLocked n < idx ≤ lastLogIndexLocked n + 1 →
  merged from es idx n (reconcile es idx n).1.
Proof.
  intros Hwf Hidx. destruct (reconcile_wf es idx n Hwf Hidx) as (l&d&Hr&Hl&Hh&_).
  assert (Hhas : ∀ j e, (∃ x, entryAtLocked n (idx + Z.of_nat j) = Some x ∧ e_Term x = e_Term e) ↔
    termAtLocked n (idx + Z.of_nat j) = Some (e_Term e)).
  { intros j e. unfold termAtLocked. destruct (entryAtLocked n _) as [y|]; naive_solver congruence. }
  destruct (reconcile_spec es idx n Hwf Hidx) as [[E Hp]|(k&e&Hk&Hn&Hp&Hle&E)].
  { rewrite E. left. split_and!; [|done..]. intros j e Hj. by apply Hhas, Hp. }
  rewrite E in Hr |- *. injection Hr as El _. right. exists k, e. cbn [fst]. rewrite El.
  assert (Hf : lastIncludedIndexLocked (set_log l n) = lastIncludedIndexLocked n).
  { unfold lastIncludedIndexLocked, firstEntry. cbn. by rewrite Hh. }
  set (c := Z.to_nat (idx + Z.of_nat k - lastIncludedIndexLocked n)) in *.
  pose proof (wf_log_last n Hwf) as Hlast. apply lookup_lt_Some in Hk as Hlt.
  assert (Hc : slen (take c (log n)) = Z.of_nat c) by (unfold slen in *; rewrite length_take_le; lia).
  split_and!; [done|by rewrite <- Hhas|intros i x Hi Hx; by apply Hhas, Hp| | |].
  - rewrite (wf_log_last (set_log l n)), Hf.
    + cbn. rewrite <- El, slen_app, Hc. unfold slen. rewrite length_renumber, length_drop. lia.
    + exact Hl.
  - intros i Hi. rewrite !entryAtLocked_eq, Hf. cbn. rewrite <- El.
    rewrite zlookup_app_l by lia. by rewrite zlookup_take by lia.
  - intros i x Hi Hx _. rewrite entryAtLocked_eq, Hf. cbn. rewrite <- El.
    rewrite zlookup_app_r, Hc by lia.
    replace (idx + Z.of_nat i - lastIncludedIndexLocked n - Z.of_nat c) with (Z.of_nat (i - k)) by lia.
    rewrite zlookup_nat, renumber_lookup, lookup_drop. replace (k + (i - k))%nat with i by lia.
    rewrite Hx. cbn. do 2 f_equal. lia.
Qed.

(** What following the leader's commit index does, compaction included. *)
Lemma followCommit_effect c n :
  wf_node n →
  let n' := followCommit c n in
  commitIndex n' = (if decide (c > commitIndex n) then Z.min c (lastLogIndexLocked n)
                    else commitIndex n) ∧
  currentTerm n' = currentTerm n ∧ state n' = state n ∧
  lastIncludedIndexLocked n ≤ lastIncludedIndexLocked n' ∧
  lastLogIndexLocked n' = lastLogIndexLocked n ∧
  ∀ k, lastIncludedIndexLocked n' < k → entryAtLocked n' k = entryAtLocked n k.
Proof.
  intros Hwf n'. unfold n', followCommit. case_decide as Hc; [|done]. cbn zeta.
  set (n1 := if decide (commitIndex (set_commitIndex c n) > lastLogIndexLocked n)
             then _ else _).
  assert (En : n1 = set_commitIndex (Z.min c (lastLogIndexLocked n)) n).
  { unfold n1. cbn. case_decide; [by rewrite Z.min_r by lia|by rewrite Z.min_l by lia]. }
  rewrite En. clear n1 En.
  assert (Hwf1 : wf_node (set_commitIndex (Z.min c (lastLogIndexLocked n)) n)) by (wf_frame Hwf).
  unfold applyCommittedLocked.
  match goal with |- context [maybeCompactLocked (applyLoop ?f ?x)] =>
    pose proof (maybeCompact_compacted _ (wf_applyLoop f x Hwf1)) as Hcp;
    destruct (applyLoop_shape f x) as (a&m&_&E); rewrite E in Hcp |- * end.
  destruct Hcp as [C1 C2 C3 (C4&_&C5) _ (C6&_) C7 _ C8].
  rewrite C3, C4, C5, C6. split_and!; done.
Qed.

(** Following the leader of a request that is not old changes neither the log nor
    the commit index. *)
Lemma acceptLeader_frame t l n :
  wf_node n → currentTerm n ≤ t →
  let n0 := acceptLeader t l n in
  wf_node n0 ∧ log n0 = log n ∧ lastIncludedIndexLocked n0 = lastIncludedIndexLocked n ∧
  (∀ k, entryAtLocked n0 k = entryAtLocked n k) ∧
  commitIndex n0 = commitIndex n ∧ currentTerm n0 = t ∧ state n0 = Follower.
Proof.
  intros Hwf Hle. cbn zeta. pose proof (wf_acceptLeader t l n Hwf) as Hwf0.
  destruct (acceptLeader_shape t l n Hle) as (s&v&d&r&E).
  assert (H0 : log (acceptLeader t l n) = log n ∧
    commitIndex (acceptLeader t l n) = commitIndex n ∧
    currentTerm (acceptLeader t l n) = t ∧ state (acceptLeader t l n) = Follower) by (by rewrite E).
  revert Hwf0 H0. clear E. generalize (acceptLeader t l n). intros n0 Hwf0 (E1&E2&E3&E4).
  assert (Hf : lastIncludedIndexLocked n0 = lastIncludedIndexLocked n)
    by (unfold lastIncludedIndexLocked, firstEntry; by rewrite E1).
  split_and!; try done. intros k. by rewrite !entryAtLocked_eq, E1, Hf.
Qed.

(** What is done with a reconciled log before the commit index is followed. *)
Lemma storeLog_frame l (dirty : bool) n :
  wf_node n → contiguous l → head l = head (log n) → (dirty = false → l = log n) →
  let n1 := if dirty then persistLocked (notifyPeersLocked (rebuildMembershipLocked (set_log l n)))
            else set_log l n in
  wf_node n1 ∧ (∀ k, entryAtLocked n1 k = entryAtLocked (set_log l n) k) ∧
  commitIndex n1 = commitIndex n ∧ currentTerm n1 = currentTerm n ∧ state n1 = state n ∧
  log n1 = l.
Proof.
  intros Hwf Hl Hh Hd n1.
  assert (Hwf1 : wf_node n1).
  { unfold n1. destruct dirty; [|rewrite Hd by done; by destruct n].
    apply wf_persist, wf_notify, wf_rebuild; [done|].
    pose proof (wf_node_applied _ Hwf). unfold lastIncludedIndexLocked, firstEntry in *.
    cbn. by rewrite Hh. }
  split; [exact Hwf1|]. unfold n1. destruct dirty; [|by split_and!].
  match goal with |- context [persistLocked ?x] => destruct (persistLocked_shape x) as [s1 ->] end.
  match goal with |- context [notifyPeersLocked ?x] =>
    destruct (notifyPeersLocked_shape x) as (t&h&->) end.
  rewrite rebuildMembershipLocked_eq. cbn zeta. split_and!; [|done..].
  intros k. by rewrite !entryAtLocked_eq.
Qed.

(** The handler on every branch. *)
Lemma HandleAppendEntries_effect req n :
  wf_node n →
  let '(n', resp) := HandleAppendEntries req n in
  (aer_Success resp = true ↔
     currentTerm n ≤ ae_Term req ∧
     termAtLocked n (ae_PrevLogIndex req) = Some (ae_PrevLogTerm req)) ∧
  aer_Term resp = Z.max (currentTerm n) (ae_Term req) ∧ aer_Term resp = currentTerm n' ∧
  (aer_Success resp = false → log n' = log n ∧ commitIndex n' = commitIndex n) ∧
  (aer_Success resp = true →
     state n' = Follower ∧
     (∀ j e, ae_Entries req !! j = Some e →
        lastIncludedIndexLocked n' < ae_PrevLogIndex req + 1 + Z.of_nat j →
        termAtLocked n' (ae_PrevLogIndex req + 1 + Z.of_nat j) = Some (e_Term e)) ∧
     (∀ k, lastIncludedIndexLocked n' < k ≤ ae_PrevLogIndex req →
        entryAtLocked n' k = entryAtLocked n k) ∧
     commitIndex n' = (if decide (ae_LeaderCommit req > commitIndex n)
                       then Z.min (ae_LeaderCommit req) (lastLogIndexLocked n')
                       else commitIndex n) ∧
     merged (lastIncludedIndexLocked n') (ae_Entries req) (ae_PrevLogIndex req + 1) n n').
Proof.
  intros Hwf. unfold HandleAppendEntries. case_decide as Hlt.
  { cbn. split_and!; [split; [done|lia]|lia|done..]. }
  destruct (acceptLeader_frame (ae_Term req) (ae_LeaderID req) n Hwf ltac:(lia))
    as (Hwf0&E1&Hf&Hat&E2&E3&E4).
  revert Hwf0 E1 Hf Hat E2 E3 E4. generalize (acceptLeader (ae_Term req) (ae_LeaderID req) n).
  intros n0 Hwf0 E1 Hf Hat E2 E3 E4. pose proof (wf_node_log _ Hwf0) as Hlog0.
  assert (Hterm : termAtLocked n (ae_PrevLogIndex req) =
    e_Term <$> entryAtLocked n0 (ae_PrevLogIndex req)).
  { rewrite Hat. unfold termAtLocked. by destruct (entryAtLocked n _). }
  rewrite Hterm, E3. clear Hterm.
  assert (Hmax : Z.max (currentTerm n) (ae_Term req) = ae_Term req) by lia. rewrite Hmax.
  case_decide as Hp.
  { assert (entryAtLocked n0 (ae_PrevLogIndex req) = None) as ->.
    { rewrite entryAtLocked_eq. apply zlookup_None. lia. }
    cbn. split_and!; [split; [done|by intros []]|done..]. }
  destruct (entryAtLocked n0 (ae_PrevLogIndex req)) as [x|] eqn:Ex.
  2:{ cbn. split_and!; [split; [done|by intros []]|done..]. }
  case_decide as Hx.
  { cbn. split_and!; [split; [done|intros [_ [=]]; congruence]|done..]. }
  assert (Hr : lastIncludedIndexLocked n0 ≤ ae_PrevLogIndex req ≤ lastLogIndexLocked n0)
    by (apply entryAtLocked_range; [done|by eexists]).
  assert (Hmg := λ from, reconcile_merged from (ae_Entries req) (ae_PrevLogIndex req + 1) n0 Hlog0
    ltac:(lia)).
  destruct (reconcile_entries (ae_Entries req) (ae_PrevLogIndex req + 1) n0 Hlog0 ltac:(lia))
    as (l&dirty&Er&Hl&Hh&Hd&Hent&Hlow). rewrite Er in Hmg |- *. cbn [fst snd] in *.
  destruct (storeLog_frame l dirty n0 Hwf0 Hl Hh Hd) as (Hwf1&Hat1&F1&F2&F3&F4).
  revert Hwf1 Hat1 F1 F2 F3 F4. generalize (if dirty
    then persistLocked (notifyPeersLocked (rebuildMembershipLocked (set_log l n0)))
    else set_log l n0). intros n1 Hwf1 Hat1 F1 F2 F3 F4.
  destruct (followCommit_effect (ae_LeaderCommit req) n1 Hwf1) as (G1&G2&G3&G4&G5&G6).
  revert G1 G2 G3 G4 G5 G6. generalize (followCommit (ae_LeaderCommit req) n1).
  intros n2 G1 G2 G3 G4 G5 G6. rewrite <- G5, F1, E2 in G1. cbn [aer_Success aer_Term].
  split_and!; [split; [intros _|done]|done|congruence|done|intros _].
  - split; [lia|]. cbn. f_equal. destruct (decide (e_Term x = ae_PrevLogTerm req)); [done|tauto].
  - split_and!; [congruence| | |done|].
    3:{ eapply merged_ext; [exact Hat| | |exact G5|eapply merged_ext; [done|done| | |apply Hmg]].
        - unfold lastLogIndexLocked, lastEntry. by rewrite E1.
        - intros k Hk. by apply G6.
        - intros k _. apply Hat1.
        - unfold lastLogIndexLocked, lastEntry. by rewrite F4. }
    + intros j e Hj Hk. unfold termAtLocked. rewrite G6 by done. rewrite Hat1.
      apply (Hent j e Hj).
    + intros k Hk. rewrite G6 by lia. rewrite Hat1, Hlow by lia. apply Hat.
Qed.

(** [C14] HandleAppendEntries accepts a request exactly when its term is not old
    and the log holds the entry before the new ones with the term the request
    names.  Then the log afterwards is, above the index up to which it is compacted,
    exactly the old log merged with the entries of the request ([merged]): the old
    log as it was, with everything that follows, when it has an entry of the same
    term at the index of each of them; otherwise the old entries up to the first
    that is missing or has another term, then the rest of the entries of the request
    with their terms, commands and changes, and no more.  The commit index is the
    leader's, within the log.  A refusal changes neither the log nor the commit
    index. *)
Theorem append_accepted_iff req n :
  wf_node n →
  let '(n', resp) := HandleAppendEntries req n in
  (aer_Success resp = true ↔
     currentTerm n ≤ ae_Term req ∧
     termAtLocked n (ae_PrevLogIndex req) = Some (ae_PrevLogTerm req)) ∧
  aer_Term resp = Z.max (currentTerm n) (ae_Term req) ∧ aer_Term resp = currentTerm n' ∧
  (aer_Success resp = false → log n' = log n ∧ commitIndex n' = commitIndex n) ∧
  (aer_Success resp = true →
     state n' = Follower ∧
     merged (lastIncludedIndexLocked n') (ae_Entries req) (ae_PrevLogIndex req + 1) n n' ∧
     (∀ j e, ae_Entries req !! j = Some e →
        lastIncludedIndexLocked n' < ae_PrevLogIndex req + 1 + Z.of_nat j →
        termAtLocked n' (ae_PrevLogIndex req + 1 + Z.of_nat j) = Some (e_Term e)) ∧
     (∀ k, lastIncludedIndexLocked n' < k ≤ ae_PrevLogIndex req →
        entryAtLocked n' k = entryAtLocked n k) ∧
     commitIndex n' = (if decide (ae_LeaderCommit req > commitIndex n)
                       then Z.min (ae_LeaderCommit req) (lastLogIndexLocked n')
                       else commitIndex n)).
Proof.
  intros Hwf. pose proof (HandleAppendEntries_effect req n Hwf) as H.
  destruct (HandleAppendEntries req n) as [n' resp]. destruct H as (H1&H2&H3&H4&H5).
  split_and!; [done..|]. intros Hok. by destruct (H5 Hok) as (?&?&?&?&?).
Qed.
End append_spec.

(** ** Witness *)

(** A follower with uncommitted entries of term 1 at the indexes 2 and 3 gets the
    entry of term 1 at 2 again and one of term 2 at 3, and a request that repeats what
    it has. *)
Definition appendTo : RaftNode (list bytes) :=
  runOps [OpHandleAppendEntries (MkAppendReq 1 "a" 0 0
    [MkEntry 1 1 [] None; MkEntry 1 2 cmdX None; MkEntry 1 3 cmdY None] 1)]
    (SetApply (NewNode (nodeConfig (config3 0) "b" freshStorage) [] [])).

Definition appendReq : AppendEntriesRequest :=
  MkAppendReq 2 "c" 1 1 [MkEntry 1 2 cmdX None; MkEntry 2 3 cmdX None] 2.

Definition repeatReq : AppendEntriesRequest := MkAppendReq 2 "c" 1 1 [MkEntry 1 2 cmdX None] 2.

Lemma wf_appendTo : wf_node appendTo.
Proof.
  apply wf_runOps; [|repeat constructor].
  pose proof (wf_fresh (full := true) (nodeConfig (config3 0) "b" freshStorage) ([] : list bytes) []) as Hf.
  wf_frame Hf.
Qed.

Lemma append_accepted_iff_witness :
  merged 0 (ae_Entries appendReq) 2 appendTo (HandleAppendEntries appendReq appendTo).1 ∧
  merged 0 (ae_Entries repeatReq) 2 appendTo (HandleAppendEntries repeatReq appendTo).1 ∧
  entryAtLocked (HandleAppendEntries appendReq appendTo).1 3 = Some (MkEntry 2 3 cmdX None) ∧
  entryAtLocked (HandleAppendEntries repeatReq appendTo).1 3 = Some (MkEntry 1 3 cmdY None).
Proof.
  assert (H : ∀ req, aer_Success (HandleAppendEntries req appendTo).2 = true →
    merged (lastIncludedIndexLocked (HandleAppendEntries req appendTo).1) (ae_Entries req)
      (ae_PrevLogIndex req + 1) appendTo (HandleAppendEntries req appendTo).1).
  { intros req. pose proof (append_accepted_iff req appendTo wf_appendTo) as H.
    destruct (HandleAppendEntries req appendTo) as [n' resp]. destruct H as (_&_&_&_&H).
    intros Hok. apply (H Hok). }
  split; [|split; [|split; vm_compute; reflexivity]].
  - exact (H appendReq eq_refl).
  - exact (H repeatReq eq_refl).
Defined.
