(* ===== verification/CatchUp.v ===== *)
(** replicateTo of raft/log.go, the goroutine that brings one peer up to date, as
    a loop between a leader and a peer that answers: it ends with the peer
    holding the leader's log when the peer's snapshot is within that log, and it
    never ends for a peer that was added again with a snapshot of its own. *)
From S2P Require Import Prelude Types Node Persist Membership Snapshot Log Election RaftOps Read Machine NodeInv LogSpec Durable Network Demo SnapshotSpec AppendSpec.
Open Scope Z_scope.
Open Scope go_scope.

Section catch_up.
Context {M : Type} `{!StateMachine M}.
Implicit Types n L F : RaftNode M.

(** One round of the loop: the section at its head, the handler of the peer and
    the section after the reply, and whether the loop goes on. *)
Definition exchange (peer : string) L F : RaftNode M * RaftNode M * bool :=
  match replicateHead peer L with
  | (L, ReplicateReturn) => (L, F, false)
  | (L, ReplicateInstall req term) =>
      let '(F, resp) := HandleInstallSnapshot req F in
      let '(L, more) := replicateInstallReply peer req term resp L in (L, F, more)
  | (L, ReplicateAppend req term) =>
      let '(F, resp) := HandleAppendEntries req F in
      let '(L, more) := replicateAppendReply peer req term resp L in (L, F, more)
  end.

(** The goroutine; [None] when it has not ended after [fuel] rounds. *)
Fixpoint replicateTo (fuel : nat) (peer : string) L F : option (RaftNode M * RaftNode M) :=
  match fuel with
  | O => None
  | S fuel' =>
      let '(L, F, more) := exchange peer L F in
      if more : bool then replicateTo fuel' peer L F else Some (replicateDone peer L, F)
  end.

(** ** The request *)

Lemma entryAt_last n : wf_node n → is_Some (entryAtLocked n (lastLogIndexLocked n)).
Proof.
  intros Hwf. apply entryAtLocked_range; [apply Hwf|].
  pose proof (wf_log_last n (wf_node_log _ Hwf)). pose proof (wf_log_nonempty n (wf_node_log _ Hwf)).
  lia.
Qed.

(** What the request of a leader holds: everything after the previous entry. *)
Lemma makeAppend_spec peer L :
  wf_node L → lastIncludedIndexLocked L < mapZ (nextIndex L) peer →
  let next := Z.min (mapZ (nextIndex L) peer) (lastLogIndexLocked L + 1) in
  ∃ L1 prevTerm entries,
    makeAppendRequestLocked peer L =
      (L1, Some (MkAppendReq (currentTerm L) (nodeID L) (next - 1) prevTerm entries (commitIndex L))) ∧
    (∃ m, L1 = set_nextIndex m L) ∧ mapZ (nextIndex L1) peer = next ∧
    termAtLocked L (next - 1) = Some prevTerm ∧
    next - 1 + slen entries = lastLogIndexLocked L ∧
    (∀ j, entries !! j = entryAtLocked L (next + Z.of_nat j)).
Proof.
  intros Hwf Hn next. unfold makeAppendRequestLocked. rewrite decide_False by lia.
  pose proof (wf_node_log _ Hwf) as Hlog. pose proof (wf_log_last L Hlog) as Hlast.
  pose proof (wf_log_nonempty L Hlog) as Hne.
  set (L1 := if decide (mapZ (nextIndex L) peer > lastLogIndexLocked L + 1)
             then put_nextIndex peer (lastLogIndexLocked L + 1) L else L).
  assert (E : (if decide (mapZ (nextIndex L) peer > lastLogIndexLocked L + 1)
    then (put_nextIndex peer (lastLogIndexLocked L + 1) L, lastLogIndexLocked L + 1)
    else (L, mapZ (nextIndex L) peer)) = (L1, next)).
  { unfold L1, next. case_decide as Hd; [rewrite Z.min_r by lia|rewrite Z.min_l by lia]; done. }
  rewrite E. clear E.
  assert (HL1 : (∃ m, L1 = set_nextIndex m L) ∧ mapZ (nextIndex L1) peer = next).
  { unfold L1, next. case_decide.
    - split; [by eexists|]. cbn [put_nextIndex set_nextIndex nextIndex].
      rewrite mapZ_insert_eq. lia.
    - split; [exists (nextIndex L); by destruct L|lia]. }
  clearbody L1. destruct HL1 as [[m ->] HL1].
  assert (is_Some (entryAtLocked L (next - 1))) as [x Hx]
    by (apply entryAtLocked_range; [done|lia]).
  assert (Ht : termAtLocked L (next - 1) = Some (e_Term x)) by (unfold termAtLocked; by rewrite Hx).
  change (termAtLocked (set_nextIndex m L) (next - 1)) with (termAtLocked L (next - 1)). rewrite Ht.
  change (sliceIndexLocked (set_nextIndex m L) next) with (next - lastIncludedIndexLocked L).
  change (log (set_nextIndex m L)) with (log L). cbn zeta.
  rewrite (decide_False (P := next - lastIncludedIndexLocked L < 1)) by lia.
  rewrite decide_False by lia.
  eexists _, _, _. split_and!; [done|by eexists|done|done| |].
  - unfold slen in *. cbn. rewrite length_drop. lia.
  - intros j. cbn. rewrite lookup_drop, entryAtLocked_eq, <- zlookup_nat. f_equal. lia.
Qed.

(** ** The reply *)

Lemma applyCommitted_match n : wf_node n →
  matchIndex (applyCommittedLocked n) = matchIndex n ∧
  lastLogIndexLocked (applyCommittedLocked n) = lastLogIndexLocked n.
Proof.
  intros Hwf. unfold applyCommittedLocked.
  pose proof (maybeCompact_compacted _ (wf_applyLoop (Z.to_nat (commitIndex n - lastApplied n)) n Hwf)) as Hc.
  destruct (applyLoop_shape (Z.to_nat (commitIndex n - lastApplied n)) n) as (a&m&_&E).
  rewrite E in *. clear E. split; [|by destruct (cp_last _ _ Hc)].
  unfold maybeCompactLocked. destruct (_ || _); [done|]. case_decide; [done|].
  unfold compactLocked. case_decide; [done|]. destruct (entryAtLocked _ _); [|done].
  destruct (sm_snapshot _); [|done]. case_decide; [done|].
  destruct (membershipAtLocked _ _). cbn zeta.
  match goal with |- context [persistLocked ?x] => destruct (persistLocked_shape x) as [s ->] end.
  match goal with |- context [notifyPeersLocked ?x] =>
    destruct (notifyPeersLocked_shape x) as (t&h&->) end.
  by rewrite rebuildMembershipLocked_eq.
Qed.

(** After a success the peer is known to hold the leader's log, and the loop
    ends. *)
Lemma appendReply_success peer req term resp L :
  wf_node L → state L = Leader → currentTerm L = term → aer_Term resp ≤ currentTerm L →
  aer_Success resp = true →
  ae_PrevLogIndex req + slen (ae_Entries req) = lastLogIndexLocked L →
  ∃ L', replicateAppendReply peer req term resp L = (L', false) ∧
    mapZ (matchIndex L') peer = lastLogIndexLocked L.
Proof.
  intros Hwf Hs Ht Hr Hok Hlen. unfold replicateAppendReply.
  rewrite decide_False by (intros []; congruence). rewrite decide_False by lia. rewrite Hok, Hlen.
  cbn zeta. set (n1 := put_nextIndex _ _ _).
  assert (Hwf1 : wf_node n1) by (wf_frame Hwf).
  assert (H1 : mapZ (matchIndex n1) peer = lastLogIndexLocked L ∧
    lastLogIndexLocked n1 = lastLogIndexLocked L).
  { split; [|done]. unfold n1. cbn. by rewrite mapZ_insert_eq. }
  clearbody n1. destruct H1 as [H1 H2].
  destruct (advanceCommitLocked_shape n1) as [c ->].
  assert (Hwf2 : wf_node (set_commitIndex c n1)) by (wf_frame Hwf1).
  destruct (applyCommitted_match _ Hwf2) as [E1 E2]. eexists. split; [f_equal|].
  - rewrite E1, E2. cbn. rewrite H1. apply bool_decide_eq_false_2.
    change (lastLogIndexLocked (set_commitIndex c n1)) with (lastLogIndexLocked n1). lia.
  - by rewrite E1.
Qed.

(** After a refusal above the leader's snapshot the leader goes one entry back. *)
Lemma appendReply_refused peer req term resp L :
  state L = Leader → currentTerm L = term → aer_Term resp ≤ currentTerm L →
  aer_Success resp = false → lastIncludedIndexLocked L + 1 < mapZ (nextIndex L) peer →
  replicateAppendReply peer req term resp L =
  (put_nextIndex peer (mapZ (nextIndex L) peer - 1) L, true).
Proof.
  intros Hs Ht Hr Hok Hn. unfold replicateAppendReply.
  rewrite decide_False by (intros []; congruence). rewrite decide_False by lia. rewrite Hok.
  cbn zeta. by rewrite decide_True by lia.
Qed.

(** ** A round *)

(** What the loop relies on: both nodes are well formed, the leader leads, the
    peer is not ahead of its term, and the entry the peer's log starts from is in
    the leader's log, below what the leader will send. *)
Record ready (peer : string) L F : Prop := {
  rd_leader : wf_node L ∧ state L = Leader;
  rd_peer : wf_node F ∧ currentTerm F ≤ currentTerm L;
  rd_base : termAtLocked L (lastIncludedIndexLocked F) = Some (lastIncludedTermLocked F);
  rd_next : lastIncludedIndexLocked F < mapZ (nextIndex L) peer;
}.

Definition nextOf (peer : string) L : Z :=
  Z.min (mapZ (nextIndex L) peer) (lastLogIndexLocked L + 1).

Lemma termAt_range n k t : wf_node n → termAtLocked n k = Some t →
  lastIncludedIndexLocked n ≤ k ≤ lastLogIndexLocked n.
Proof.
  intros Hwf H. apply entryAtLocked_range; [apply Hwf|]. unfold termAtLocked in H.
  by destruct (entryAtLocked n k).
Qed.

Lemma termAt_first n : wf_node n →
  termAtLocked n (lastIncludedIndexLocked n) = Some (lastIncludedTermLocked n).
Proof.
  intros [[Hne _] _ _]. rewrite termAt_eq, Z.sub_diag.
  unfold lastIncludedTermLocked, firstEntry. by destruct (log n).
Qed.

Lemma termAt_log n n' k : log n' = log n → termAtLocked n' k = termAtLocked n k.
Proof. intros E. rewrite !termAt_eq. unfold lastIncludedIndexLocked, firstEntry. by rewrite E. Qed.

Lemma entryAt_log n n' k : log n' = log n → entryAtLocked n' k = entryAtLocked n k.
Proof. intros E. rewrite !entryAtLocked_eq. unfold lastIncludedIndexLocked, firstEntry. by rewrite E. Qed.

(** The outcome of a round: the peer accepts and the loop ends.  An entry that the
    leader sent is then in the log of the peer, or the peer had one of the same term
    there and keeps it; *)
Definition accepted (peer : string) L F L' F' : Prop :=
  mapZ (matchIndex L') peer = lastLogIndexLocked L ∧
  termAtLocked F (nextOf peer L - 1) = termAtLocked L (nextOf peer L - 1) ∧
  (∀ i, lastIncludedIndexLocked F' < i → nextOf peer L ≤ i ≤ lastLogIndexLocked L →
     entryAtLocked F' i = entryAtLocked L i ∨
     (entryAtLocked F' i = entryAtLocked F i ∧ termAtLocked F i = termAtLocked L i)) ∧
  (∀ i, lastIncludedIndexLocked F' < i < nextOf peer L →
     entryAtLocked F' i = entryAtLocked F i).

(** the entries that a merged request leaves in the log of the peer, *)
Lemma merged_entries L F F' next entries :
  wf_node L → merged (lastIncludedIndexLocked F') entries next F F' →
  (∀ j, entries !! j = entryAtLocked L (next + Z.of_nat j)) →
  ∀ i, lastIncludedIndexLocked F' < i → next ≤ i → is_Some (entryAtLocked L i) →
    entryAtLocked F' i = entryAtLocked L i ∨
    (entryAtLocked F' i = entryAtLocked F i ∧ termAtLocked F i = termAtLocked L i).
Proof.
  intros HwfL Hm Hent i Hi Hn [e He]. pose proof (Hent (Z.to_nat (i - next))) as Hj.
  replace (next + Z.of_nat (Z.to_nat (i - next))) with i in Hj by lia. rewrite He in Hj.
  assert (Ht : termAtLocked L i = Some (e_Term e)) by (unfold termAtLocked; by rewrite He).
  assert (Ei : next + Z.of_nat (Z.to_nat (i - next)) = i) by lia.
  destruct Hm as [(Ha&_&Hk)|(j&x&_&_&Hb&_&Hk&Hnew)].
  - right. rewrite Hk, Ht by done. split; [done|]. rewrite <- Ei. by apply Ha.
  - destruct (decide (Z.to_nat (i - next) < j)%nat) as [Hlt|Hge].
    + right. rewrite Hk, Ht by lia. split; [done|]. rewrite <- Ei. by apply Hb.
    + left. rewrite He. pose proof (Hnew (Z.to_nat (i - next)) e ltac:(lia) Hj ltac:(lia)) as E. rewrite Ei in E.
      rewrite E. pose proof (entryAtLocked_index L i e (wf_node_log _ HwfL) He) as <-.
      by destruct e.
Qed.

(** or it refuses and the leader goes one entry back. *)
Definition refused (peer : string) L F L' F' : Prop :=
  ready peer L' F' ∧ log L' = log L ∧ log F' = log F ∧ nextOf peer L' < nextOf peer L.

Lemma exchange_ready peer L F :
  ready peer L F →
  ∃ L' F' more, exchange peer L F = (L', F', more) ∧
    if more : bool then refused peer L F L' F' else accepted peer L F L' F'.
Proof.
  intros [[HwfL Hs] [HwfF Ht] Hb Hn]. pose proof (termAt_range _ _ _ HwfL Hb) as Hr.
  unfold exchange, replicateHead. rewrite decide_False by (by intros []).
  unfold shouldInstallSnapshotLocked. rewrite bool_decide_eq_false_2 by lia.
  destruct (makeAppend_spec peer L HwfL ltac:(lia))
    as (L1&prevTerm&entries&E&[m ->]&HL1&Hpt&Hlen&Hent).
  fold (nextOf peer L) in *. set (next := nextOf peer L) in *. rewrite E. clear E.
  assert (Hnext : lastIncludedIndexLocked F < next) by (unfold next, nextOf; lia).
  set (req := MkAppendReq _ _ _ _ _ _). pose proof (HandleAppendEntries_effect req F HwfF) as He.
  pose proof (wf_HandleAppendEntries req F HwfF) as HwfF'.
  destruct (HandleAppendEntries req F) as [F' resp]. cbn [fst] in HwfF'.
  destruct He as (Hiff&Hmax&Hterm&Hrej&Hacc). cbn [req ae_Term ae_PrevLogIndex ae_PrevLogTerm ae_Entries] in Hiff, Hmax, Hacc.
  assert (HwfL1 : wf_node (set_nextIndex m L)) by (wf_frame HwfL).
  assert (Hle : aer_Term resp ≤ currentTerm L) by lia.
  destruct (aer_Success resp) eqn:Ok.
  - destruct (appendReply_success peer req (currentTerm (set_nextIndex m L)) resp (set_nextIndex m L)
      HwfL1 Hs eq_refl Hle Ok Hlen) as (L'&->&Hm).
    eexists _, _, _. split; [done|]. cbn iota.
    unfold accepted. fold next. destruct (proj1 Hiff eq_refl) as [_ Hprev]. destruct (Hacc eq_refl) as (_&_&H2&_&Hmg).
    split_and!; [done|by rewrite Hprev| |].
    + intros i Hi Hrange. replace (next - 1 + 1) with next in Hmg by lia.
      eapply merged_entries; [done|exact Hmg|done|done|lia|].
      apply entryAtLocked_range; [apply HwfL|lia].
    + intros i Hi. by apply H2; lia.
  - assert (Hgt : lastIncludedIndexLocked F + 1 < next).
    { destruct (decide (next = lastIncludedIndexLocked F + 1)) as [En|]; [|lia].
      assert (false = true); [|done]. apply Hiff. split; [done|].
      replace (next - 1) with (lastIncludedIndexLocked F) in * by lia.
      rewrite termAt_first by done. congruence. }
    rewrite (appendReply_refused peer req (currentTerm (set_nextIndex m L)) resp (set_nextIndex m L)); [|done..|].
    2:{ rewrite HL1. change (lastIncludedIndexLocked (set_nextIndex m L)) with (lastIncludedIndexLocked L). lia. }
    eexists _, _, _. split; [done|]. cbn iota. unfold refused. fold next.
    destruct (Hrej eq_refl) as [HlF _]. rewrite HL1.
    assert (Hf : lastIncludedIndexLocked F' = lastIncludedIndexLocked F ∧
      lastIncludedTermLocked F' = lastIncludedTermLocked F)
      by (unfold lastIncludedIndexLocked, lastIncludedTermLocked, firstEntry; by rewrite HlF).
    destruct Hf as [Hf1 Hf2]. split_and!; [split|done|done|].
    + split; [wf_frame HwfL|done].
    + split; [done|]. cbn. lia.
    + rewrite Hf1, Hf2, <- Hb. by apply termAt_log.
    + rewrite Hf1. cbn [put_nextIndex set_nextIndex nextIndex]. rewrite mapZ_insert_eq. lia.
    + unfold nextOf at 1. cbn [put_nextIndex set_nextIndex nextIndex]. rewrite mapZ_insert_eq. lia.
Qed.

(** Log matching between two nodes ([ClusterSafety.log_matching]): where they have
    entries of the same term at an index, they have the same entries up to it, above
    the index up to which one of them is compacted. *)
Definition logs_match L F : Prop :=
  ∀ i t, termAtLocked L i = Some t → termAtLocked F i = Some t →
    ∀ j, Z.max (lastIncludedIndexLocked L) (lastIncludedIndexLocked F) < j ≤ i →
      entryAtLocked L j = entryAtLocked F j.

End catch_up.

(** ** A follower that catches up *)

Abbreviation recorderNode := (RaftNode (list bytes)).

Definition member3 (i : string) : recorderNode := boot (config3 5) [] i freshStorage [].

(** Node a is elected with the vote of b. *)
Definition candidateA : recorderNode := runOps [OpEnv (200 * Millisecond) []; OpTick] (member3 "a").
Definition voteB := HandleRequestVote (voteRequest candidateA) (member3 "b").
Definition leaderA : recorderNode :=
  runOps (OpVoteReply "b" (voteRequest candidateA) (voteB.2) ::
          replicate 4 (OpPropose cmdX)) candidateA.

Lemma leaderA_wf : wf_node leaderA.
Proof.
  assert (H0 : ∀ i, wf_node (member3 i)).
  { intros i. unfold member3, boot. apply wf_reset.
    pose proof (wf_fresh (full := true) (nodeConfig (config3 5) i freshStorage) ([] : list bytes) []) as Hf.
    wf_frame Hf. }
  apply wf_runOps; [apply wf_runOps; [apply H0|by repeat constructor]|by repeat constructor].
Qed.

Lemma voteB_wf : wf_node (voteB.1).
Proof.
  apply wf_HandleRequestVote. unfold member3, boot. apply wf_reset.
  pose proof (wf_fresh (full := true) (nodeConfig (config3 5) "b" freshStorage) ([] : list bytes) []) as Hf.
  wf_frame Hf.
Qed.

(** b gets only the first entry of a, is elected in term 2 and again in term 4 with
    the votes of c, and then has entries that a, which still has the rest of its own
    of term 1, lacks: a refuses two requests before it accepts one and drops its
    own entries. *)
Definition followerB : recorderNode :=
  (HandleAppendEntries (MkAppendReq 1 "a" 0 0 [MkEntry 1 1 [] None] 0) (voteB.1)).1.
Definition candidateB : recorderNode := runOps [OpEnv (600 * Millisecond) []; OpTick] followerB.
Definition leaderB2 : recorderNode :=
  runOps [OpVoteReply "c" (voteRequest candidateB) (MkVoteResp 2 true); OpPropose cmdY;
          OpHandleRequestVote (MkVoteReq 3 "c" 0 0); OpEnv (1200 * Millisecond) []; OpTick]
    candidateB.
Definition leaderB : recorderNode :=
  runOps [OpVoteReply "c" (voteRequest leaderB2) (MkVoteResp 4 true)] leaderB2.

Lemma leaderB_wf : wf_node leaderB.
Proof.
  unfold leaderB. apply wf_runOps; [|by repeat constructor].
  unfold leaderB2. apply wf_runOps; [|by repeat constructor].
  unfold candidateB. apply wf_runOps; [|by repeat constructor].
  unfold followerB. apply wf_HandleAppendEntries, voteB_wf.
Qed.

Example leaderB_shape :
  (state leaderB, currentTerm leaderB, e_Term <$> log leaderB, e_Term <$> log leaderA,
   mapZ (nextIndex leaderB) "a") = (Leader, 4, [0; 1; 2; 2; 4], [0; 1; 1; 1; 1; 1], 4).
Proof. vm_compute. reflexivity. Qed.

Lemma leaderB_match : logs_match leaderB leaderA.
Proof.
  intros i t Hi1 Hi2 j Hj. pose proof (termAt_range _ _ _ leaderB_wf Hi1) as Hr.
  assert (E : lastIncludedIndexLocked leaderB = 0 ∧ lastLogIndexLocked leaderB = 4 ∧
    lastIncludedIndexLocked leaderA = 0) by (split_and!; vm_compute; reflexivity).
  destruct E as (E1&E2&E3). rewrite E1, E2 in Hr. rewrite E1, E3 in Hj.
  assert (i = 0 ∨ i = 1 ∨ i = 2 ∨ i = 3 ∨ i = 4) as [->|[->|[->|[->| ->]]]] by lia;
    vm_compute in Hi1, Hi2; try congruence.
  - lia.
  - assert (j = 1) as -> by lia. vm_compute. reflexivity.
Qed.


(** ** A peer that is added again

    All of a's entries reach b before b learns that they are committed, so a
    takes its snapshot at index 5 and b, which applies one entry more at once,
    at index 6; c starts from a's snapshot.  Then a removes b, c takes over with
    the vote of a, and c adds b again. *)
Definition step1 := exchange "b" leaderA (voteB.1).
Definition proposed : recorderNode := (Propose cmdY (step1.1.1)).1.
Definition step2 := exchange "c" proposed (member3 "c").
Definition step3 := exchange "c" (step2.1.1) (step2.1.2).
Definition step4 := exchange "b" (step3.1.1) (step1.1.2).
Definition removed := RemoveServer "b" (step4.1.1).
Definition step5 := exchange "c" (removed.1) (step3.1.2).
Definition candidateC : recorderNode := runOps [OpEnv (900 * Millisecond) []; OpTick] (step5.1.2).
Definition voteA := HandleRequestVote (voteRequest candidateC) (step5.1.1).
Definition leaderC : recorderNode :=
  runOp (OpVoteReply "a" (voteRequest candidateC) (voteA.2)) candidateC.
Definition step6 := exchange "a" leaderC (voteA.1).
Definition readded := AddServer "b" (addr "b") "" (step6.1.1).
Definition round1 := exchange "b" (readded.1) (step4.1.2).
Definition round2 := exchange "b" (round1.1.1) (round1.1.2).

(** A loop that comes back to where it was does not end. *)
Lemma replicateTo_cycle peer (L1 F1 L2 F2 : recorderNode) :
  exchange peer L1 F1 = (L2, F2, true) → exchange peer L2 F2 = (L1, F1, true) →
  ∀ fuel, replicateTo fuel peer L1 F1 = None ∧ replicateTo fuel peer L2 F2 = None.
Proof.
  intros H1 H2 fuel. induction fuel as [|fuel [IH1 IH2]]; [done|]. cbn [replicateTo].
  rewrite H1, H2. done.
Qed.

Lemma round1_eq : exchange "b" (readded.1) (step4.1.2) = (round1.1.1, round1.1.2, true).
Proof. vm_compute. reflexivity. Qed.

Lemma round2_eq : exchange "b" (round1.1.1) (round1.1.2) = (round2.1.1, round2.1.2, true).
Proof. vm_compute. reflexivity. Qed.

Lemma round3_eq : exchange "b" (round2.1.1) (round2.1.2) = (round1.1.1, round1.1.2, true).
Proof. vm_compute. reflexivity. Qed.

(** [C38] A peer that is added again can keep the leader busy for ever.  After b
    was removed and a new leader adds it again, the leader starts b at its own
    snapshot (index 5), which b ignores because b's own (index 6) is newer; the
    append after it is refused for the same reason, which sends the leader back to
    its snapshot.  The goroutine repeats these two rounds without a pause and b
    never gets the leader's log. *)
Theorem readded_peer_livelock :
  removed.2 = Ok 7 ∧ readded.2 = Ok 9 ∧
  (lastIncludedIndexLocked (readded.1), lastIncludedIndexLocked (step4.1.2)) = (5, 6) ∧
  ∀ fuel, replicateTo fuel "b" (readded.1) (step4.1.2) = None.
Proof.
  split_and!; [vm_compute; reflexivity..|]. intros [|fuel]; [reflexivity|].
  cbn [replicateTo]. rewrite round1_eq.
  exact (proj1 (replicateTo_cycle "b" _ _ _ _ round2_eq round3_eq fuel)).
Qed.
