(* ===== verification/Availability.v ===== *)
(** What a cluster can always do, continued: the leader that a majority has
    elected can commit a command with it.  This file is about clusters with
    compaction off, in which the leader never needs to send a snapshot. *)
From S2P Require Import Prelude Types Node Persist Membership Snapshot Log Election RaftOps Read Machine NodeInv LogSpec Durable Spec SpecInv SpecSafety Network Demo SnapshotSpec CutLog RefineBase RefineOps RefineSnapshot Refine ClusterSafety NodeProps Kept Progress AppendSpec CatchUp.
Open Scope Z_scope.
Open Scope go_scope.

(** ** One node *)

Section node.
Context {M : Type} `{!StateMachine M}.
Implicit Types n L F : RaftNode M.

Lemma off_applyCommitted n :
  snapshotThreshold n ≤ 0 → ∃ a m, applyCommittedLocked n = set_machine m (set_lastApplied a n).
Proof.
  intros Ho. unfold applyCommittedLocked.
  destruct (applyLoop_shape (Z.to_nat (commitIndex n - lastApplied n)) n) as (a&m&_&->).
  exists a, m. by apply maybeCompact_off.
Qed.

(** A last entry of the current term that a majority has is committed and
    applied. *)
Lemma commit_all n :
  wf_node n → lastApplied n ≤ commitIndex n ≤ lastLogIndexLocked n →
  committable n (lastLogIndexLocked n) →
  lastApplied (applyCommittedLocked (advanceCommitLocked n)) = lastLogIndexLocked n.
Proof.
  intros Hwf Hr Hc. pose proof (wf_advance _ Hwf) as Hwf'.
  assert (Hcom : ∃ n', advanceCommitLocked n = n' ∧ commitIndex n' = lastLogIndexLocked n ∧
    lastApplied n' = lastApplied n ∧ lastLogIndexLocked n' = lastLogIndexLocked n).
  { destruct (advanceCommitLocked_spec n) as [[E Hj]|(c&Hc1&_&Hj&E)]; [lia|..]; eexists; (split; [exact E|]).
    - split_and!; try done. destruct (decide (commitIndex n = lastLogIndexLocked n)); [done|].
      destruct (Hj (lastLogIndexLocked n)); [lia|done].
    - split_and!; try done. cbn. destruct (decide (c = lastLogIndexLocked n)); [done|].
      destruct (Hj (lastLogIndexLocked n)); [lia|done]. }
  destruct Hcom as (n'&E&H1&H2&H3). rewrite E in *.
  destruct (apply_committed_once n' Hwf') as (->&_); [lia|done].
Qed.

(** ** The request of a leader *)

Lemma makeAppend_next p L q :
  q ≠ p → mapZ (nextIndex (makeAppendRequestLocked p L).1) q = mapZ (nextIndex L) q.
Proof.
  intros Hne. unfold makeAppendRequestLocked. case_decide; [done|].
  case_decide; cbn zeta; case_match; cbn; rewrite ?mapZ_insert, ?decide_False by done; done.
Qed.

Lemma send_append i p L :
  wf_node L → state L = Leader → lastIncludedIndexLocked L < mapZ (nextIndex L) p →
  ∃ m req, replicateSend i p L = (set_nextIndex m L, [MAppendReq i p req]) ∧
    mapZ m p = nextOf p L ∧ (∀ q, q ≠ p → mapZ m q = mapZ (nextIndex L) q) ∧
    ae_Term req = currentTerm L ∧ ae_PrevLogIndex req = nextOf p L - 1 ∧
    termAtLocked L (nextOf p L - 1) = Some (ae_PrevLogTerm req) ∧
    ae_PrevLogIndex req + slen (ae_Entries req) = lastLogIndexLocked L.
Proof.
  intros Hwf Hs Hn. unfold replicateSend, replicateHead. rewrite decide_False by (by intros []).
  unfold shouldInstallSnapshotLocked. rewrite bool_decide_eq_false_2 by lia.
  pose proof (makeAppend_next p L) as Hq.
  destruct (makeAppend_spec p L Hwf Hn) as (L1&prevTerm&entries&E&[m ->]&HL1&Hpt&Hlen&_).
  fold (nextOf p L) in *. rewrite E in *. cbn [fst] in Hq. exists m. eexists. by split_and!.
Qed.

(** ** The reply *)

(** What a leader is after a success of [p], with compaction off. *)
Lemma reply_success p req resp L :
  state L = Leader → aer_Term resp ≤ currentTerm L → aer_Success resp = true →
  let n0 := put_nextIndex p (ae_PrevLogIndex req + slen (ae_Entries req) + 1)
              (put_matchIndex p (ae_PrevLogIndex req + slen (ae_Entries req)) L) in
  (replicateAppendReply p req (currentTerm L) resp L).1 =
    applyCommittedLocked (advanceCommitLocked n0).
Proof.
  intros Hs Hr Hok. unfold replicateAppendReply.
  rewrite decide_False by (intros []; congruence). rewrite decide_False by lia. rewrite Hok.
  cbn zeta. cbn [fst matchIndex put_matchIndex set_matchIndex]. by rewrite mapZ_insert_eq.
Qed.

(** The leader of the members [C] in term [T], with the log [lg]. *)
Definition pushes (C : gmap string string) (T : Z) (lg : list LogEntry) L : Prop :=
  leading (sorted_keys C) L ∧ stopped L = false ∧ currentTerm L = T ∧ log L = lg ∧
  peerAddrs L = C.

(** The end of a reply and of a proposal, with compaction off: the commit index
    and what has been applied may change. *)
Lemma settle_shape n :
  snapshotThreshold n ≤ 0 →
  ∃ c a m, applyCommittedLocked (advanceCommitLocked n) =
    set_machine m (set_lastApplied a (set_commitIndex c n)).
Proof.
  intros Ho. destruct (advanceCommitLocked_shape n) as [c ->].
  destruct (off_applyCommitted (set_commitIndex c n) Ho) as (a&m&->). by exists c, a, m.
Qed.
End node.

(** ** The cluster *)

Section group.
Context {M : Type} `{!StateMachine M, !StateMachineLaws M}.
Context (base : Config) (m0 : M) (ch : bool) (Q : gset string) (C : gmap string string).
Context (Hfc : fixed_cluster base m0).
Context (Hoff : cfg_SnapshotThreshold base ≤ 0).
Context (Hmaj : (size C < 2 * size (Q ∩ dom C))%nat).
Implicit Types (n L F : RaftNode M) (w : World M).

Abbreviation gets := (gets base m0 Q).
Abbreviation sound := (sound base m0 ch).
Abbreviation pushes := (pushes C).

(** The nodes of a cluster with compaction off. *)
Lemma sound_off w i n :
  sound w → w_nodes w !! i = Some n →
  snapshotThreshold n ≤ 0 ∧ lastIncludedIndexLocked n = 0 ∧ lastIncludedTermLocked n = 0 ∧
  lastApplied n ≤ commitIndex n ≤ lastLogIndexLocked n.
Proof.
  intros [[a Ha] _] Hi. destruct (wr_nodes _ _ _ _ _ Ha i n Hi) as [Hn _].
  destruct (nrel_view _ _ _ _ _ _ (wr_good _ _ _ _ _ Ha) Hn) as (l&k&[]).
  pose proof (nr_threshold _ _ _ _ _ _ Hn) as Ht. rewrite Ht in vw_off.
  assert (k = 0%nat) as -> by auto. destruct vw_head as [l' ->].
  split_and!; [by rewrite Ht|done| |lia|lia].
  unfold lastIncludedTermLocked, firstEntry. by rewrite vw_log.
Qed.

(** The leader [L] has committed its last entry, if all members in [Q] have it. *)
Definition settled L : Prop :=
  (∀ q, q ∈ Q ∩ dom C → lastLogIndexLocked L ≤ mapZ (matchIndex L) q) →
  lastApplied L = lastLogIndexLocked L.

Lemma settle n :
  peerIDs n = sorted_keys C →
  wf_node n → snapshotThreshold n ≤ 0 → lastApplied n ≤ commitIndex n ≤ lastLogIndexLocked n →
  termAtLocked n (lastLogIndexLocked n) = Some (currentTerm n) →
  settled (applyCommittedLocked (advanceCommitLocked n)).
Proof.
  intros Hps Hwf Ho Hr Ht Hall.
  pose proof (commit_all n Hwf Hr) as Hc. revert Hall Hc.
  destruct (settle_shape n Ho) as (c&a&m&->). cbn. intros Hall Hc. apply Hc. split; [done|].
  change (lastLogIndexLocked (set_machine m (set_lastApplied a (set_commitIndex c n))))
    with (lastLogIndexLocked n) in Hall.
  unfold majority, replicatedOn, slen. rewrite Hps.
  assert (Hsub : Q ∩ dom C ⊆ list_to_set (filter (λ p, lastLogIndexLocked n ≤ mapZ (matchIndex n) p) (sorted_keys C))).
  { intros q Hq. apply elem_of_list_to_set, list_elem_of_filter. split; [by apply Hall|].
    apply elem_of_sorted_keys, elem_of_dom. set_solver. }
  apply subseteq_size in Hsub. rewrite size_list_to_set in Hsub
    by apply NoDup_filter, NoDup_sorted_keys.
  rewrite length_sorted_keys. pose proof (Z.mul_div_le (Z.of_nat (size C)) 2). lia.
Qed.

(** The three steps of a round: the request is sent, handled and its reply
    handled. *)
Lemma round_steps w i p L F m req :
  i ∈ Q → p ∈ Q → p ≠ i →
  w_nodes w !! i = Some L → w_nodes w !! p = Some F → stopped L = false → stopped F = false →
  replicateSend i p L = (set_nextIndex m L, [MAppendReq i p req]) →
  let L1 := set_spawned [] (set_nextIndex m L) in
  let '(F', resp) := HandleAppendEntries req F in
  ∃ w', gets w w' ∧
    w_nodes w' = <[i := set_spawned [] (replicateAppendReply p req (ae_Term req) resp L1).1]>
      (<[p := set_spawned [] F']> (w_nodes w)).
Proof.
  intros Hi Hp Hne HL HF Hs HsF Esend L1.
  pose proof (kp_stopped _ _ (kept_HandleAppendEntries (up := false) req F)) as HsF'.
  destruct (HandleAppendEntries req F) as [F' resp] eqn:EF. cbn [fst] in HsF'.
  set (w1 := stepW base m0 (LReplicate i p) w).
  assert (E0 : w1 = onNode i (replicateSend i p) w) by (unfold w1; cbn; by rewrite decide_False).
  assert (E1 : w_nodes w1 = <[i := L1]> (w_nodes w))
    by (rewrite E0, (onNode_nodes _ _ _ _ HL), Esend; done).
  assert (G1 : gets w w1) by (apply gets_one; split_and!; [done..|by exists L]).
  assert (N1 : MAppendReq i p req ∈ w_net w1).
  { rewrite E0. apply (onNode_sends _ _ _ _ _ HL). right. left. rewrite Esend.
    by apply list_elem_of_singleton. }
  assert (HL1 : w_nodes w1 !! i = Some L1) by (by rewrite E1, lookup_insert_eq).
  assert (HF1 : w_nodes w1 !! p = Some F) by (by rewrite E1, lookup_insert_ne).
  set (w2 := deliver (MAppendReq i p req) w1).
  assert (G2 : gets w1 w2) by (apply (gets_deliver base m0 Q w1 i p); [done..|by exists L1|by exists F|done|done]).
  assert (E2 : w_nodes w2 = <[p := set_spawned [] F']> (<[i := L1]> (w_nodes w)))
    by (unfold w2; cbn [deliver]; rewrite (onNode_nodes _ _ _ _ HF1), EF, E1; done).
  assert (N2 : MAppendResp i p req resp ∈ w_net w2).
  { unfold w2. cbn [deliver]. apply (onNode_sends _ _ _ _ _ HF1). right. left. rewrite EF.
    by apply list_elem_of_singleton. }
  assert (HL2 : w_nodes w2 !! i = Some L1) by (by rewrite E2, lookup_insert_ne, lookup_insert_eq).
  exists (deliver (MAppendResp i p req resp) w2). split.
  - etrans; [exact G1|]. etrans; [exact G2|].
    apply (gets_deliver base m0 Q w2 i p); [done..|by exists L1| |done|done].
    exists (set_spawned [] F'). split; [by rewrite E2, lookup_insert_eq|]. by rewrite <- HsF, <- HsF'.
  - cbn [deliver]. rewrite (onNode_nodes _ _ _ _ HL2), E2. cbn [quiet fst].
    rewrite (insert_insert_ne (w_nodes w) p i) by done. by rewrite insert_insert_eq.
Qed.

(** The reply to a request of the leader [L]: after a success [p] is known to have
    the log, *)
Lemma accepted_pushes p L req resp T lg :
  peerIDs L = sorted_keys C →
  wf_node L → snapshotThreshold L ≤ 0 → lastApplied L ≤ commitIndex L ≤ lastLogIndexLocked L →
  termAtLocked L (lastLogIndexLocked L) = Some T →
  pushes T lg L → aer_Term resp ≤ T → aer_Success resp = true →
  0 ≤ lastLogIndexLocked L → ae_PrevLogIndex req + slen (ae_Entries req) = lastLogIndexLocked L →
  let L' := (replicateAppendReply p req T resp L).1 in
  pushes T lg L' ∧ (∀ q, q ≠ p → mapZ (matchIndex L') q = mapZ (matchIndex L) q) ∧
  mapZ (matchIndex L') p = lastLogIndexLocked L ∧ settled L'.
Proof.
  intros Hps Hwf Ho Hr Ht ([Hl Hnx]&Hs&<-&Hlg&HC) Hle Hok H0 Hlen. cbn zeta.
  rewrite (reply_success p req resp L Hl Hle Hok), Hlen. set (n0 := put_nextIndex p _ _).
  assert (Hwf0 : wf_node n0) by (wf_frame Hwf).
  assert (Hn0 : pushes (currentTerm L) lg n0 ∧
    (∀ q, q ≠ p → mapZ (matchIndex n0) q = mapZ (matchIndex L) q) ∧
    mapZ (matchIndex n0) p = lastLogIndexLocked L).
  { unfold n0, Availability.pushes, leading. cbn. rewrite mapZ_insert_eq. split_and!; try done.
    - intros q Hq. rewrite mapZ_insert. case_decide; [lia|by apply Hnx].
    - intros q Hq. by rewrite mapZ_insert, decide_False. }
  pose proof (settle n0 Hps Hwf0 Ho Hr Ht) as Hse. revert Hse.
  assert (Ho0 : snapshotThreshold n0 ≤ 0) by exact Ho. clearbody n0.
  destruct Hn0 as (([C1 C2]&C3&C4&C5&CM)&C6&C7), (settle_shape n0 Ho0) as (c&x&mm&->). intros Hse.
  split; [split_and!; [by split|exact C3|exact C4|exact C5|exact CM]|]. by split_and!.
Qed.

(** and after a refusal the leader goes one entry back. *)
Lemma refused_pushes p L req resp T lg :
  lastIncludedIndexLocked L = 0 → pushes T lg L →
  aer_Term resp ≤ T → aer_Success resp = false → 1 < mapZ (nextIndex L) p →
  let L' := (replicateAppendReply p req T resp L).1 in
  pushes T lg L' ∧ (∀ q, q ≠ p → mapZ (matchIndex L') q = mapZ (matchIndex L) q) ∧
  nextOf p L' < mapZ (nextIndex L) p.
Proof.
  intros Hf ([Hl Hnx]&Hs&<-&Hlg&HC) Hr Hok Hm. cbn zeta.
  rewrite (appendReply_refused p req (currentTerm L) resp L Hl eq_refl Hr Hok) by lia.
  cbn [fst]. split; [split_and!; [split; [exact Hl|]|done..]|split; [done|]].
  - intros q Hq. cbn. rewrite mapZ_insert. case_decide; [lia|by apply Hnx].
  - unfold nextOf. cbn. rewrite mapZ_insert_eq. lia.
Qed.

(** A request is refused only above index 1: the logs start at the same entry. *)
Lemma refused_above L F req resp F' p T :
  wf_node L → wf_node F → lastIncludedIndexLocked L = 0 → lastIncludedIndexLocked F = 0 →
  lastIncludedTermLocked L = 0 → lastIncludedTermLocked F = 0 →
  HandleAppendEntries req F = (F', resp) → aer_Success resp = false →
  currentTerm F ≤ T → ae_Term req = T → 1 ≤ nextOf p L →
  ae_PrevLogIndex req = nextOf p L - 1 →
  termAtLocked L (nextOf p L - 1) = Some (ae_PrevLogTerm req) → 1 < nextOf p L.
Proof.
  intros HwL HwF HL0 HF0 HLt HFt Eh Hok Ht Rt Hn Rp Rpt.
  destruct (decide (1 < nextOf p L)); [done|]. assert (Hn1 : nextOf p L = 1) by lia.
  pose proof (HandleAppendEntries_effect req F HwF) as He. rewrite Eh in He.
  destruct He as [Hiff _]. rewrite Hok in Hiff. assert (false = true); [|done].
  apply Hiff. split; [lia|]. rewrite Rp, Hn1 in *. rewrite <- Rpt. change (1 - 1) with 0.
  rewrite <- HL0 at 2. rewrite <- HF0 at 1. rewrite !termAt_first by done. congruence.
Qed.

(** One round of replication from [i] to [p]: [p] stores the leader's log, or the
    leader goes one entry back. *)
Lemma round w i p L F T lg :
  sound w → i ∈ Q → p ∈ Q → p ∈ dom C → p ≠ i →
  w_nodes w !! i = Some L → w_nodes w !! p = Some F → pushes T lg L →
  termAtLocked L (lastLogIndexLocked L) = Some T →
  stopped F = false → currentTerm F ≤ T →
  ∃ w' L' F', gets w w' ∧ w_nodes w' = <[i := L']> (<[p := F']> (w_nodes w)) ∧
    pushes T lg L' ∧ stopped F' = false ∧ currentTerm F' ≤ T ∧
    (∀ q, q ≠ p → mapZ (matchIndex L') q = mapZ (matchIndex L) q) ∧
    (mapZ (matchIndex L') p = lastLogIndexLocked L ∧ settled L' ∨ nextOf p L' < nextOf p L).
Proof.
  intros Hw Hi Hp HpC Hne HL HF ([Hl Hnx]&Hs&HT&Hlg&HC) Htl HsF HtF.
  destruct (sound_node _ _ _ _ _ _ Hw HL) as (_&Hps&Hwf&_&Hlast). rewrite HC in Hps.
  destruct (sound_off _ _ _ Hw HL) as (Ho&Hf0&Hft&Hr).
  destruct (sound_node _ _ _ _ _ _ Hw HF) as (_&_&HwfF&_&_).
  destruct (sound_off _ _ _ Hw HF) as (_&HFf&HFt&_).
  assert (Hnp : 1 ≤ mapZ (nextIndex L) p) by (by apply Hnx, elem_of_sorted_keys, elem_of_dom).
  assert (Hno : 1 ≤ nextOf p L) by (unfold nextOf; lia).
  destruct (send_append i p L Hwf Hl) as (m&req&Es&Hmp&Hmq&Rt&Rp&Rpt&Rlen); [lia|].
  set (L1 := set_spawned [] (set_nextIndex m L)) in *.
  assert (HwfL1 : wf_node L1) by (wf_frame Hwf).
  assert (Hpu : pushes T lg L1).
  { split_and!; [split; [done|]|done..]. intros q Hq. cbn. destruct (decide (q = p)) as [->|?]; [lia|].
    rewrite Hmq by done. by apply Hnx. }
  pose proof (HandleAppendEntries_effect req F HwfF) as He.
  pose proof (kp_stopped _ _ (kept_HandleAppendEntries (up := false) req F)) as HsF'.
  pose proof (round_steps w i p L F m req Hi Hp Hne HL HF Hs HsF Es) as Hst. cbn zeta in Hst.
  destruct (HandleAppendEntries req F) as [F' resp] eqn:Eh. cbn [fst] in HsF'.
  destruct He as (_&Hmax&Htr&_). destruct Hst as (w'&G&E). rewrite Rt, HT in E.
  assert (Hleq : aer_Term resp ≤ T) by lia.
  assert (HF' : stopped (set_spawned [] F') = false ∧ currentTerm (set_spawned [] F') ≤ T).
  { change (stopped F' = false ∧ currentTerm F' ≤ T). split; [congruence|lia]. }
  destruct HF' as [HF1 HF2]. eexists w', _, _. split; [exact G|]. split; [exact E|].
  destruct (aer_Success resp) eqn:Ok.
  - destruct (accepted_pushes p L1 req resp T lg) as (C1&C2&C3&C4); try done.
    split; [exact C1|]. split_and!; [done|done|exact C2|]. left. by split.
  - assert (H1 : 1 < nextOf p L) by (eapply (refused_above L F req resp F' p T); done || lia).
    destruct (refused_pushes p L1 req resp T lg) as (C1&C2&C3); try done; [change (1 < mapZ m p); lia|].
    split; [exact C1|]. split_and!; [done|done|exact C2|]. right.
    rewrite <- Hmp. exact C3.
Qed.

(** What reads only the log. *)
Lemma same_log n n' : log n' = log n →
  lastLogIndexLocked n' = lastLogIndexLocked n ∧ ∀ k, termAtLocked n' k = termAtLocked n k.
Proof.
  intros E. split; [unfold lastLogIndexLocked, lastEntry; by rewrite E|].
  intros k. by apply termAt_log.
Qed.

(** Rounds to [p] until it has the leader's log. *)
Lemma push_to w i p L F T lg :
  sound w → i ∈ Q → p ∈ Q → p ∈ dom C → p ≠ i →
  w_nodes w !! i = Some L → w_nodes w !! p = Some F → pushes T lg L →
  termAtLocked L (lastLogIndexLocked L) = Some T →
  stopped F = false → currentTerm F ≤ T →
  ∃ w' L' F', gets w w' ∧ w_nodes w' = <[i := L']> (<[p := F']> (w_nodes w)) ∧
    pushes T lg L' ∧ (∀ q, q ≠ p → mapZ (matchIndex L') q = mapZ (matchIndex L) q) ∧
    mapZ (matchIndex L') p = lastLogIndexLocked L ∧ settled L'.
Proof.
  remember (Z.to_nat (nextOf p L)) as k eqn:Ek.
  assert (Hk : nextOf p L ≤ Z.of_nat k) by lia. clear Ek. revert w L F Hk.
  induction k as [|k IH]; intros w L F Hk Hw Hi Hp HpC Hne HL HF Hpu Ht HsF HtF.
  { exfalso. destruct Hpu as ([_ Hnx]&_). destruct (sound_node _ _ _ _ _ _ Hw HL) as (_&_&_&_&Hlast).
    assert (1 ≤ mapZ (nextIndex L) p) by (by apply Hnx, elem_of_sorted_keys, elem_of_dom).
    unfold nextOf in Hk. lia. }
  destruct (round w i p L F T lg) as (w1&L1&F1&G1&E1&Hp1&Hs1&Ht1&Hm1&[[Hmp Hse]|Hlt]); try done.
  { exists w1, L1, F1. by split_and!. }
  destruct (same_log L L1) as [El Et]; [destruct Hpu as (_&_&_&->&_); by destruct Hp1 as (_&_&_&->&_)|].
  destruct (IH w1 L1 F1) as (w2&L2&F2&G2&E2&Hp2&Hm2&Hmp2&Hse2); try done; [lia|by eapply sound_gets|..].
  - by rewrite E1, lookup_insert_eq.
  - by rewrite E1, lookup_insert_ne, lookup_insert_eq.
  - by rewrite El, Et.
  - exists w2, L2, F2. split_and!; [by etrans| |done| |by rewrite Hmp2, El|done].
    + rewrite E2, E1, (insert_insert_ne (<[p := F1]> (w_nodes w)) p i) by done.
      by rewrite !insert_insert_eq.
    + intros q Hq. by rewrite Hm2, Hm1.
Qed.

(** Rounds to all of [ps]. *)
Lemma push_all ps w i L T lg :
  sound w → NoDup ps → i ∉ ps → i ∈ Q → (∀ p, p ∈ ps → p ∈ Q ∩ dom C) →
  w_nodes w !! i = Some L → pushes T lg L → termAtLocked L (lastLogIndexLocked L) = Some T →
  (∀ q, q ∈ Q ∩ dom C → q ∉ ps → lastLogIndexLocked L ≤ mapZ (matchIndex L) q) → settled L →
  (∀ p, p ∈ ps → ∃ F, w_nodes w !! p = Some F ∧ stopped F = false ∧ currentTerm F ≤ T) →
  ∃ w' L', gets w w' ∧ w_nodes w' !! i = Some L' ∧ pushes T lg L' ∧
    lastApplied L' = lastLogIndexLocked L'.
Proof.
  revert w L. induction ps as [|p ps IH]; intros w L Hw Hnd Hip Hi Hps HL Hpu Ht Hall Hse HF.
  { exists w, L. split_and!; try done. apply Hse. intros q Hq. apply Hall; [done|apply not_elem_of_nil]. }
  apply NoDup_cons in Hnd as [Hp Hnd]. apply not_elem_of_cons in Hip as [Hne Hip].
  destruct (HF p) as (F&HFp&HsF&HtF); [by left|]. pose proof (Hps p ltac:(by left)) as HpV.
  destruct (push_to w i p L F T lg) as (w1&L1&F1&G1&E1&Hp1&Hm1&Hmp&Hse1); try done; [apply elem_of_intersection in HpV; tauto..|].
  destruct (same_log L L1) as [El Et]; [destruct Hpu as (_&_&_&->&_); by destruct Hp1 as (_&_&_&->&_)|].
  destruct (IH w1 L1) as (w2&L2&G2&H2); try done;
    [by eapply sound_gets|by intros; apply Hps; right|by rewrite E1, lookup_insert_eq|by rewrite El, Et|..].
  - intros q Hq Hqp. rewrite El. destruct (decide (q = p)) as [->|Hqne]; [lia|].
    rewrite Hm1 by done. apply Hall; [done|]. by apply not_elem_of_cons.
  - intros q Hq. destruct (HF q) as (x&Hx&?); [by right|]. exists x.
    by rewrite E1, !lookup_insert_ne by (intros ->; done).
  - exists w2, L2. split; [by etrans|done].
Qed.

(** The entry of a proposal is the last one. *)
Lemma appendLog_last e n n' :
  wf_node n → e_Index e = lastLogIndexLocked n + 1 → log n' = log n ++ [e] →
  lastLogIndexLocked n' = e_Index e ∧ entryAtLocked n' (e_Index e) = Some e.
Proof.
  intros Hwf Hi El. pose proof (wf_node_log _ Hwf) as Hlog.
  pose proof (wf_log_last n Hlog) as Hlast. pose proof (wf_log_nonempty n Hlog) as Hne.
  assert (Hf : lastIncludedIndexLocked n' = lastIncludedIndexLocked n).
  { unfold lastIncludedIndexLocked, firstEntry. rewrite El. by destruct (log n). }
  split; [unfold lastLogIndexLocked, lastEntry; by rewrite El, last_snoc|].
  rewrite entryAtLocked_eq, Hf, El, Hi.
  replace (lastLogIndexLocked n + 1 - lastIncludedIndexLocked n) with (Z.of_nat (length (log n)))
    by (unfold slen in *; lia).
  rewrite zlookup_nat. by apply list_lookup_middle.
Qed.

(** A leader that accepts a command is ready to push it. *)
Lemma propose_pushes cmd L :
  peerIDs L = sorted_keys C →
  wf_node L → snapshotThreshold L ≤ 0 → lastApplied L ≤ commitIndex L ≤ lastLogIndexLocked L →
  0 ≤ lastLogIndexLocked L → leading (sorted_keys C) L → peerAddrs L = C → stopped L = false →
  let idx := lastLogIndexLocked L + 1 in
  let e := MkEntry (currentTerm L) idx cmd None in
  let L' := (Propose cmd L).1 in
  pushes (currentTerm L) (log L ++ [e]) L' ∧ settled L' ∧
  mapZ (matchIndex L') (nodeID L) = idx ∧ lastLogIndexLocked L' = idx ∧
  entryAtLocked L' idx = Some e.
Proof.
  intros Hps Hwf Ho Hr Hlast [Hl Hnx] HC Hs idx e L'. unfold L', Propose.
  rewrite Hs, decide_False by (by intros []). cbn [fst]. fold idx e. unfold recordOwn.
  destruct (persistLocked_shape (appendLog e L)) as [s ->].
  set (n2 := put_nextIndex _ _ _).
  assert (Hwf2 : wf_node n2).
  { assert (Hwf1 : wf_node (appendLog e L)) by (by apply wf_appendLog). wf_frame Hwf1. }
  assert (Hn2 : pushes (currentTerm L) (log L ++ [e]) n2 ∧ mapZ (matchIndex n2) (nodeID L) = idx ∧
    peerIDs n2 = sorted_keys C ∧ snapshotThreshold n2 ≤ 0 ∧ lastApplied n2 ≤ commitIndex n2 ≤ idx).
  { unfold n2, Availability.pushes, leading. cbn. rewrite mapZ_insert_eq. split_and!; try done; try lia.
    intros q Hq. rewrite mapZ_insert. case_decide; [unfold idx; lia|by apply Hnx]. }
  clearbody n2. destruct Hn2 as (([C1 C2]&C3&C4&C5&CM)&C6&C7&C8&C9).
  assert (Hlog : ∀ n, log n = log L ++ [e] → lastLogIndexLocked n = idx ∧ entryAtLocked n idx = Some e)
    by (intros n En; by apply (appendLog_last e L n)).
  destruct (Hlog n2 C5) as [Hi2 He2].
  pose proof (settle n2 C7 Hwf2 C8) as Hse. rewrite Hi2 in Hse.
  assert (Htl : termAtLocked n2 idx = Some (currentTerm n2))
    by (unfold termAtLocked; rewrite He2, C4; done).
  specialize (Hse C9 Htl). revert Hse. destruct (settle_shape n2 C8) as (c&x&m&->). intros Hse.
  match goal with |- context [broadcastAppendEntriesLocked ?y] =>
    destruct (broadcast_shape y) as (r&g&->) end.
  split; [split_and!; [by split|exact C3|exact C4|exact C5|exact CM]|]. split; [exact Hse|].
  split; [exact C6|]. by apply Hlog.
Qed.

(** The leader that the group has elected commits a command with it. *)
Lemma leader_commits w1 i cmd :
  sound w1 → i ∈ Q → leads base Q w1 i C → (∀ p, p ∈ Q → running w1 p) →
  ∃ w' n idx, gets w1 w' ∧ w_nodes w' !! i = Some n ∧ state n = Leader ∧
    entryAtLocked n idx = Some (MkEntry (currentTerm n) idx cmd None) ∧
    waitPoll idx n = Some (Ok tt).
Proof.
  intros Hw1 Hi (_&L&HL&Hld&HC&Hs&Hhi) Hrun.
  destruct (sound_node _ _ _ _ _ _ Hw1 HL) as (Hid&Hps&Hwf&_&Hlast). rewrite HC in Hps.
  destruct (sound_off _ _ _ Hw1 HL) as (Ho&_&_&Hr).
  destruct (propose_pushes cmd L Hps Hwf Ho Hr Hlast Hld HC Hs) as (Hpu&Hse&Hmi&Hli&He).
  set (idx := lastLogIndexLocked L + 1) in *. set (L1 := set_spawned [] (Propose cmd L).1).
  set (w2 := stepW base m0 (LPropose i cmd) w1).
  assert (G2 : gets w1 w2) by (apply gets_one; split; [done|by apply Hrun]).
  assert (E2 : w_nodes w2 = <[i := L1]> (w_nodes w1))
    by (unfold w2; cbn [stepW]; by rewrite (onNode_nodes _ _ _ _ HL)).
  assert (HL1 : pushes (currentTerm L) (log L ++ [MkEntry (currentTerm L) idx cmd None]) L1 ∧
    settled L1 ∧ mapZ (matchIndex L1) i = idx ∧ lastLogIndexLocked L1 = idx ∧
    entryAtLocked L1 idx = Some (MkEntry (currentTerm L) idx cmd None))
    by (rewrite <- Hid at 1; exact (conj Hpu (conj Hse (conj Hmi (conj Hli He))))).
  clearbody L1. clear Hpu Hse Hmi Hli He. destruct HL1 as (Hpu&Hse&Hmi&Hli&He).
  destruct (push_all (elements ((Q ∩ dom C) ∖ {[i]})) w2 i L1 (currentTerm L)
    (log L ++ [MkEntry (currentTerm L) idx cmd None])) as (w3&L3&G3&HL3&Hp3&Hap); try done.
  - by eapply sound_gets.
  - apply NoDup_elements.
  - set_solver.
  - set_solver.
  - by rewrite E2, lookup_insert_eq.
  - rewrite Hli. unfold termAtLocked. by rewrite He.
  - intros q Hq Hne. assert (q = i) as -> by (destruct (decide (q = i)); [done|set_solver]). lia.
  - intros p Hp. assert (p ∈ Q ∧ p ∈ dom C ∧ p ≠ i) as (Hpq&HpC&Hne) by set_solver.
    destruct (Hrun p Hpq) as (F&HF&HsF). exists F. rewrite E2, lookup_insert_ne by done.
    split_and!; [done..|]. apply (Hhi p); [done|by apply elem_of_dom|done].
  - exists w3, L3, idx. destruct Hp3 as ([Hl3 _]&_&Ht3&Hg3&_).
    destruct (same_log L1 L3) as [El _]; [destruct Hpu as (_&_&_&->&_); done|].
    split_and!; [by etrans|done..| |].
    + rewrite Ht3. rewrite <- He. unfold entryAtLocked, sliceIndexLocked, firstEntry.
      destruct Hpu as (_&_&_&->&_). by rewrite Hg3.
    + unfold waitPoll. rewrite decide_True; [done|]. lia.
Qed.
End group.

(** What [replication_catches_up] asks of two logs holds of the nodes of a cluster. *)
Lemma run_logs_match {M} `{!StateMachine M, !StateMachineLaws M} base (m0 : M) ch ls i j ni nj :
  fixed_cluster base m0 → safe_run base m0 ch ls (initWorld base m0) →
  w_nodes (worldAfter base m0 ls) !! i = Some ni →
  w_nodes (worldAfter base m0 ls) !! j = Some nj → logs_match ni nj.
Proof.
  intros Hfc Hls Hi Hj k t Hk1 Hk2 p Hp. destruct (after_wrel base m0 ch ls Hfc Hls) as (a&_&Hw).
  destruct (wr_nodes _ _ _ _ _ Hw i ni Hi) as [Ni _]. destruct (wr_nodes _ _ _ _ _ Hw j nj Hj) as [Nj _].
  pose proof (nrel_wf _ _ _ _ _ _ (wr_good _ _ _ _ _ Hw) Ni) as Wi.
  pose proof (nrel_wf _ _ _ _ _ _ (wr_good _ _ _ _ _ Hw) Nj) as Wj.
  pose proof (termAt_range _ _ _ Wi Hk1). pose proof (termAt_range _ _ _ Wj Hk2).
  unfold termAtLocked in Hk1, Hk2. destruct (entryAtLocked ni k) as [x|] eqn:Ex; [|done].
  destruct (entryAtLocked nj k) as [y|] eqn:Ey; [|done].
  assert (is_Some (entryAtLocked ni p)) as [u Hu] by (apply entryAtLocked_range; [apply Wi|lia]).
  assert (is_Some (entryAtLocked nj p)) as [v Hv] by (apply entryAtLocked_range; [apply Wj|lia]).
  destruct (nodes_match base m0 ch ls i j ni nj k x y Hfc Hls Hi Hj Ex Ey ltac:(congruence) p
    ltac:(lia) u v Hu Hv) as [_ E]. rewrite Hu, Hv, E; [done|lia..].
Qed.

(** [C8] Any majority can commit a command.  Let a cluster with compaction off, whose
    members are started as members ([cfg_Join] is not set) and whose disks work, have
    run from its start, nodes that joined and changes of the membership included, such
    that leaders changed the membership after they had committed an entry of their
    term and no joining node campaigned while it knew only itself.  Let [Q] be a group
    of nodes each of which, as far as it knows the members, is one and has a majority
    of them in [Q].  Then there is a schedule of steps of
    these nodes alone after which one of them leads, has accepted the command in
    its term, has committed and applied it, and reports it as applied.  The nodes
    outside [Q] take no part. *)
Theorem majority_commits {M} `{!StateMachine M, !StateMachineLaws M} base (m0 : M) ch Q ls cmd :
  fixed_cluster base m0 → cfg_Join base = false → cfg_SnapshotThreshold base ≤ 0 →
  safe_run base m0 ch ls (initWorld base m0) → Q ≠ ∅ → group base Q (worldAfter base m0 ls) →
  ∃ ls' i n idx, i ∈ Q ∧ alone base m0 Q ls' (worldAfter base m0 ls) ∧
    safe_run base m0 ch (ls ++ ls') (initWorld base m0) ∧
    let w := worldAfter base m0 (ls ++ ls') in
    w_nodes w !! i = Some n ∧ state n = Leader ∧
    entryAtLocked n idx = Some (MkEntry (currentTerm n) idx cmd None) ∧
    waitPoll idx n = Some (Ok tt) ∧
    (∀ j, j ∉ Q → w_nodes w !! j = w_nodes (worldAfter base m0 ls) !! j).
Proof.
  intros Hfc Hjoin Hoff Hls HQ Hgr.
  assert (Hw : sound base m0 ch (worldAfter base m0 ls)) by (by apply sound_after).
  destruct (group_elects base m0 ch Q Hfc Hjoin _ Hw Hgr HQ) as (w1&i&C&G1&Hi&Hld&Hrun).
  assert (Hw1 : sound base m0 ch w1) by (by eapply sound_gets).
  destruct (leader_commits base m0 ch Q C Hfc Hoff (vt_majority _ _ _ _ (proj1 Hld)) w1 i cmd Hw1 Hi Hld Hrun)
    as (w2&n&idx&G2&Hn&Hl&He&Hp).
  assert (G : gets base m0 Q (worldAfter base m0 ls) w2) by (by etrans).
  destruct (gets_run base m0 ch Q ls w2 Hls G) as (ls'&Hal&Hf&E).
  exists ls', i, n, idx. cbn zeta. rewrite E.
  split; [done|]. split; [done|]. split; [done|]. split_and!; try done.
  intros j Hj. by apply (gets_others base m0 Q).
Qed.

(** In the cluster that d has joined, its members b and d can commit a command
    with c, which has not heard of d. *)
Definition joinPlain : list Label :=
  electA ++
  [LReplicate "a" "b"; LDeliver 3; LDeliver 4;
   LJoin "d" (addr "d") "" []; LAddServer "a" "d" (addr "d") ""; LReplicate "a" "b";
   LDeliver 5; LDeliver 6; LReplicate "a" "d"; LDeliver 7; LDeliver 8; LReplicate "a" "d";
   LDeliver 9; LDeliver 10; LReplicate "a" "d"; LDeliver 11; LDeliver 12].

Lemma joinPlain_safe :
  safe_run (config3 0) [] true joinPlain (initWorld (config3 0) ([] : list bytes)).
Proof. apply safe_run_check; vm_compute; reflexivity. Qed.

Lemma majority_commits_witness :
  ∃ i n idx ls', i ∈ ({[ "b"; "c"; "d" ]} : gset string) ∧
    w_nodes (worldAfter (config3 0) [] (joinPlain ++ ls')) !! i = Some n ∧
    entryAtLocked n idx = Some (MkEntry (currentTerm n) idx cmdX None) ∧
    waitPoll idx n = Some (Ok tt).
Proof.
  destruct (majority_commits (config3 0) ([] : list bytes) true {[ "b"; "c"; "d" ]}%string joinPlain cmdX
    (config3_fixed 0) eq_refl ltac:(discriminate) joinPlain_safe)
    as (ls'&i&n&idx&Hi&_&_&Hn&_&He&Hp&_).
  - apply (bool_decide_unpack _). vm_compute. exact I.
  - intros i Hi. assert (H : i = "b"%string ∨ i = "c"%string ∨ i = "d"%string) by set_solver. clear Hi.
    destruct H as [->|[->| ->]]; (eexists; split; [vm_compute; reflexivity|]);
      (split; [|apply (bool_decide_unpack _); vm_compute; exact I|
        first [left; vm_compute; by eexists|right; vm_compute; lia]]); vm_compute; by eexists.
  - exists i, n, idx, ls'. exact (conj Hi (conj Hn (conj He Hp))).
Defined.
