(* ===== verification/ReadSpec.v ===== *)
(** Waiting and confirming: the leadership confirmation of a linearizable read
    (raft/read.go), the wait for an applied entry and the election timer
    (raft/node.go, raft/election.go). *)
From S2P Require Import Prelude Types Node Persist Membership Snapshot Log Election RaftOps Read Machine NodeInv LogSpec Durable Network Demo.
Open Scope Z_scope.
Open Scope go_scope.

(** The heartbeats that were answered with success. *)
Definition successes (oks : list bool) : Z := slen (filter (λ b, b = true) oks).

Lemma successes_cons b oks : successes (b :: oks) = (if b then 1 else 0) + successes oks.
Proof.
  unfold successes. rewrite filter_cons.
  destruct b; [rewrite decide_True, slen_cons by done|rewrite decide_False by done]; lia.
Qed.

Lemma successes_bound oks : 0 ≤ successes oks ≤ slen oks.
Proof.
  induction oks as [|b oks IH]; [done|]. rewrite successes_cons, slen_cons. destruct b; lia.
Qed.

(** The loop on one result per pending heartbeat decides. *)
Lemma confirmLoop_results maj acks oks :
  maj ≤ acks + slen oks →
  confirmLoop maj acks (slen oks) (ConfirmResult <$> oks) =
    Some (if decide (maj ≤ acks + successes oks) then Ok tt else Err ErrStaleLeader).
Proof.
  revert acks. induction oks as [|b oks IH]; intros acks Hle.
  - change (successes []) with 0. change (slen (@nil bool)) with 0 in *.
    cbn [confirmLoop fmap list_fmap]. by rewrite !decide_True by lia.
  - pose proof (successes_bound oks) as Hb. rewrite slen_cons in *. rewrite successes_cons.
    cbn [fmap list_fmap confirmLoop]. case_decide as Hd.
    { rewrite decide_True; [done|]. destruct b; lia. }
    replace (1 + slen oks - 1) with (slen oks) by lia.
    set (acks' := if b then acks + 1 else acks).
    replace (acks + ((if b then 1 else 0) + successes oks)) with (acks' + successes oks)
      by (unfold acks'; destruct b; lia).
    case_decide as Hd'; [by rewrite decide_True by lia|].
    case_decide as Hs; [by rewrite decide_False by lia|]. apply IH. lia.
Qed.

Section read_spec.
Context {M : Type} `{!StateMachine M}.
Implicit Types n : RaftNode M.

(** A voter asks enough peers to reach a majority with itself. *)
Lemma confirm_enough n :
  wf_members n → isVoterLocked n = true →
  majority n ≤ 1 + slen (filter (λ p, p ≠ nodeID n) (peerIDs n)).
Proof.
  intros [_ Hids] Hv%bool_decide_eq_true_1. unfold majority. rewrite Hids.
  assert (Hin : nodeID n ∈ sorted_keys (peerAddrs n)) by (by apply elem_of_sorted_keys).
  apply list_elem_of_split in Hin as (l1&l2&E). rewrite E.
  pose proof (NoDup_sorted_keys (peerAddrs n)) as Hnd. rewrite E in Hnd.
  apply NoDup_app in Hnd as (_&Hn1&Hnd2). apply NoDup_cons in Hnd2 as [Hn2 _].
  assert (Hf : ∀ l : list string, nodeID n ∉ l → filter (λ p, p ≠ nodeID n) l = l).
  { induction l as [|x l IHl]; intros Hl; [done|]. apply not_elem_of_cons in Hl as [? ?].
    rewrite filter_cons, decide_True by done. by rewrite IHl. }
  rewrite filter_app, filter_cons, decide_False by naive_solver.
  rewrite (Hf l1), (Hf l2) by (done || (intros Hc; apply (Hn1 _ Hc); by left)).
  rewrite !slen_app, slen_cons. unfold slen.
  pose proof (Z.div_mod (Z.of_nat (length l1) + (1 + Z.of_nat (length l2))) 2 ltac:(lia)).
  pose proof (Z.mod_pos_bound (Z.of_nat (length l1) + (1 + Z.of_nat (length l2))) 2 ltac:(lia)).
  lia.
Qed.

(** [C19] confirmLeadership decides: once every peer it asked has answered, and
    unless it was stopped or timed out before, it has returned, with success
    exactly when the answers that still found it leader, its own included, are a
    majority of the configuration. *)
Theorem confirm_leadership_decides term n maj peers oks :
  wf_members n → isVoterLocked n = true →
  confirmStart term n = Ok (maj, peers) → length oks = length peers →
  state n = Leader ∧ currentTerm n = term ∧ maj = majority n ∧
  confirmLeadership maj peers (ConfirmResult <$> oks) =
    Some (if decide (maj ≤ 1 + successes oks) then Ok tt else Err ErrStaleLeader).
Proof.
  intros Hwf Hv. unfold confirmStart. case_decide as Hd; [done|]. intros [= <- <-] Hlen.
  pose proof (confirm_enough n Hwf Hv) as He.
  split_and!; [destruct (state n); naive_solver|lia|done|].
  unfold confirmLeadership, slen in *. rewrite <- Hlen in *. by apply confirmLoop_results.
Qed.

(** WaitApplied returns success exactly at a look at the node that finds the
    index applied, every earlier look having found it neither applied nor lost;
    [ErrNotLeader] exactly when a node that is not leader has not committed it. *)
Theorem wait_applied_spec index (evs : list (@WaitEvent M)) :
  (WaitApplied index evs = Some (Ok tt) ↔
     ∃ ns n rest, evs = (WaitTick <$> ns) ++ WaitTick n :: rest ∧
       Forall (λ x, waitPoll index x = None) ns ∧ index ≤ lastApplied n) ∧
  (WaitApplied index evs = Some (Err ErrNotLeader) ↔
     ∃ ns n rest, evs = (WaitTick <$> ns) ++ WaitTick n :: rest ∧
       Forall (λ x, waitPoll index x = None) ns ∧
       lastApplied n < index ∧ commitIndex n < index ∧ state n ≠ Leader).
Proof.
  assert (Hgen : ∀ r, r ≠ Err ErrStopped → r ≠ Err ErrTimeout →
    WaitApplied index evs = Some r ↔
    ∃ ns n rest, evs = (WaitTick <$> ns) ++ WaitTick n :: rest ∧
      Forall (λ x, waitPoll index x = None) ns ∧ waitPoll index n = Some r).
  { intros r Hr1 Hr2. induction evs as [|ev evs IH].
    { split; [done|]. intros ([|? ?]&?&?&E&_); done. }
    cbn [WaitApplied]. destruct ev as [| |n].
    - split; [congruence|]. intros ([|? ?]&?&?&E&_); done.
    - split; [congruence|]. intros ([|? ?]&?&?&E&_); done.
    - destruct (waitPoll index n) as [r'|] eqn:Ep.
      + split.
        * intros [= <-]. by exists [], n, evs.
        * intros ([|x ns]&n'&rest&E&Hns&Hp); injection E as -> ->; [congruence|].
          apply Forall_cons in Hns as [? _]. congruence.
      + rewrite IH. split.
        * intros (ns&n'&rest&->&Hns&Hp). exists (n :: ns), n', rest. split_and!; [done| |done].
          by apply Forall_cons.
        * intros ([|x ns]&n'&rest&E&Hns&Hp); injection E as -> ->; [congruence|].
          apply Forall_cons in Hns as [_ Hns]. by exists ns, n', rest. }
  rewrite !Hgen by done. split; split; intros (ns&n&rest&E&Hns&Hp); exists ns, n, rest;
    (split_and!; [done|done|..]); revert Hp; unfold waitPoll.
  - case_decide; [done|]. by case_decide.
  - intros. by rewrite decide_True.
  - case_decide; [done|]. case_decide; [|done]. intros _. destruct_and!. lia.
  - case_decide; [done|]. case_decide; [|done]. intros _. destruct_and!. lia.
  - case_decide; [done|]. case_decide; [|done]. intros _. by destruct_and!.
  - intros (?&?&?). rewrite decide_False by lia. by rewrite decide_True.
Qed.

(** The timeouts a node is made with are those of its configuration. *)
Lemma NewNode_timeouts cfg (m : M) src :
  electionTimeoutMin (NewNode cfg m src) = electionTimeoutMin (freshNode cfg m src) ∧
  electionTimeoutMax (NewNode cfg m src) = electionTimeoutMax (freshNode cfg m src).
Proof.
  unfold NewNode. destruct (cfg_Storage cfg) as [s|]; [|done].
  destruct (Load s) as [st|]; [|done]. destruct (durableUsed st); [|done].
  unfold restoreDurable. cbn zeta.
  assert (Hl : let x := loadDurable st (freshNode cfg m src) in
    electionTimeoutMin x = electionTimeoutMin (freshNode cfg m src) ∧
    electionTimeoutMax x = electionTimeoutMax (freshNode cfg m src)).
  { unfold loadDurable. destruct (bool_decide _); case_decide; done. }
  revert Hl. cbn zeta. generalize (loadDurable st (freshNode cfg m src)). intros x Hx.
  destruct (startAtSnapshot_shape x) as (a&c&->).
  destruct (restoreSnapshot_shape (set_commitIndex c (set_lastApplied a x))) as (mm&a'&c'&->).
  rewrite rebuildMembershipLocked_eq. cbn zeta. case_decide; exact Hx.
Qed.

(** [C20] The election timer: let a node be configured with two durations (64-bit
    integers).  Its lower timeout is positive.  Its upper timeout is above the lower
    one exactly when the configured ones are in that order or adding 150ms to the
    lower one does not overflow; and then, whatever the random source gives, a
    deadline is set between the two timeouts from now. *)
Theorem election_timeout_bounds cfg (m : M) src now src' :
  in64 (cfg_ElectionTimeoutMin cfg) → in64 (cfg_ElectionTimeoutMax cfg) →
  let n := set_rng src' (set_clock now (NewNode cfg m src)) in
  let d := electionDeadline (resetElectionTimerLocked n) in
  0 < electionTimeoutMin n ∧
  (electionTimeoutMin n < electionTimeoutMax n ↔
     cfg_ElectionTimeoutMin cfg < cfg_ElectionTimeoutMax cfg ∨
     cfg_ElectionTimeoutMin cfg + 150 * Millisecond < 2 ^ 63) ∧
  (electionTimeoutMin n < electionTimeoutMax n →
     now + electionTimeoutMin n ≤ d < now + electionTimeoutMax n).
Proof.
  intros Hmin Hmax n d. destruct (NewNode_timeouts cfg m src) as [E1 E2].
  assert (Ht : 0 < electionTimeoutMin n ∧ in64 (electionTimeoutMax n) ∧
    (electionTimeoutMin n < electionTimeoutMax n ↔
     cfg_ElectionTimeoutMin cfg < cfg_ElectionTimeoutMax cfg ∨
     cfg_ElectionTimeoutMin cfg + 150 * Millisecond < 2 ^ 63)).
  { change (electionTimeoutMin n) with (electionTimeoutMin (NewNode cfg m src)).
    change (electionTimeoutMax n) with (electionTimeoutMax (NewNode cfg m src)).
    rewrite E1, E2. clear E1 E2. unfold freshNode, Millisecond, in64 in *. cbn -[int64 Z.pow].
    set (t := if decide _ then _ else _). assert (Hpos : 0 < t < 2 ^ 63 ∧
      (0 < cfg_ElectionTimeoutMin cfg → t = cfg_ElectionTimeoutMin cfg) ∧
      (cfg_ElectionTimeoutMin cfg ≤ 0 → t = 150 * 1000000)).
    { subst t. case_decide; lia. }
    clearbody t. case_decide; [|lia]. unfold int64.
    destruct (decide (t + 150 * 1000000 < 2 ^ 63)).
    - rewrite Z.mod_small by lia. lia.
    - rewrite <- (Z_mod_plus_full _ (-1)), Z.mod_small by lia. lia. }
  destruct Ht as (H1&H2&H3). split_and!; [done|done..|]. intros Hlt.
  apply (resetElectionTimerLocked_bounds n); [lia|done].
Qed.

(** Otherwise the upper timeout is negative, and a random source that is not zero
    sets a deadline in the past. *)
Definition centuries : Config :=
  MkConfig "a" {["a" := ""]} (2 ^ 63 - 1) 0 0 None false 0 ∅ false.

Example timeout_overflow (m : M) :
  let n := NewNode centuries m [1] in
  electionTimeoutMax n < 0 ∧ electionDeadline (resetElectionTimerLocked n) < clock n.
Proof. split; vm_compute; reflexivity. Qed.
End read_spec.

(** ** Witness *)

(** Node a of three is elected with the vote of b. *)
Definition confirmLeader : RaftNode (list bytes) :=
  runOps [OpEnv (200 * Millisecond) []; OpTick;
          OpVoteReply "b" (MkVoteReq 1 "a" 0 0) (MkVoteResp 1 true)]
    (NewNode (nodeConfig (config3 0) "a" freshStorage) [] []).

Lemma confirm_leadership_decides_witness :
  confirmStart 1 confirmLeader = Ok (2, ["b"; "c"])%string ∧
  confirmLeadership 2 ["b"; "c"] (ConfirmResult <$> [false; true]) = Some (Ok tt) ∧
  confirmLeadership 2 ["b"; "c"] (ConfirmResult <$> [false; false]) = Some (Err ErrStaleLeader).
Proof.
  assert (Hs : confirmStart 1 confirmLeader = Ok (2, ["b"; "c"])%string) by (vm_compute; reflexivity).
  assert (Hwf : wf_node confirmLeader).
  { apply wf_runOps; [apply (wf_fresh (nodeConfig (config3 0) "a" freshStorage))|repeat constructor]. }
  assert (Hv : isVoterLocked confirmLeader = true) by (vm_compute; reflexivity).
  split; [exact Hs|].
  destruct (confirm_leadership_decides 1 confirmLeader 2 ["b"; "c"]%string [false; true]
    (wf_node_members _ Hwf) Hv Hs eq_refl) as (_&_&_&H1).
  destruct (confirm_leadership_decides 1 confirmLeader 2 ["b"; "c"]%string [false; false]
    (wf_node_members _ Hwf) Hv Hs eq_refl) as (_&_&_&H2).
  split; [exact H1|exact H2].
Defined.

Lemma election_timeout_bounds_witness :
  let n := set_rng [7] (set_clock 5 (NewNode (config3 0) ([] : list bytes) [])) in
  0 < electionTimeoutMin n < electionTimeoutMax n ∧
  5 + electionTimeoutMin n ≤ electionDeadline (resetElectionTimerLocked n) <
    5 + electionTimeoutMax n.
Proof.
  destruct (election_timeout_bounds (config3 0) ([] : list bytes) [] 5 [7]) as (H1&H2&H3);
    [split; vm_compute; done..|].
  assert (Hlt := proj2 H2 ltac:(right; vm_compute; reflexivity)).
  split; [exact (conj H1 Hlt)|exact (H3 Hlt)].
Defined.
