(* ===== verification/FileStore.v ===== *)
(** [FileStorage] of raft/persist.go over a directory: the system calls of Save
    one after the other, each of which may fail, and Load.

    [Files] is what the calls change: whether the directory exists, the files
    [state.json] and [state.json.tmp] with their contents and whether these are
    synced, and what else [state.json] may turn out to be after a power loss,
    since a rename reaches the disk only when the directory is synced, which
    Save does not do. *)
From S2P Require Import Prelude Types Utf8 Json JsonSpec Marshal KvStore DurableJson Node Persist.
Open Scope Z_scope.
Open Scope go_scope.

Record File := MkFile { f_content : bytes; f_synced : bool }.

Record Files := MkFiles {
  fs_dir : bool;
  fs_state : option File;
  fs_tmp : option File;
  fs_earlier : list (option File);
}.

(** A fresh machine: not even the directory. *)
Definition noFiles : Files := MkFiles false None None [].

(** ** System calls *)

(** What each call of one Save does: [true] is an error; a failed write has
    written some bytes. *)
Record SaveCalls := MkCalls {
  sc_mkdir : bool;
  sc_open : bool;
  sc_write : option nat;
  sc_sync : bool;
  sc_close : bool;
  sc_rename : bool;
  sc_remove : bool;
}.

(** Every call succeeds. *)
Definition noErrors : SaveCalls := MkCalls false false None false false false false.

Definition mkdir (f : Files) : Files := MkFiles true (fs_state f) (fs_tmp f) (fs_earlier f).

Definition putTmp (t : option File) (f : Files) : Files :=
  MkFiles (fs_dir f) (fs_state f) t (fs_earlier f).

(** [os.OpenFile] with O_CREATE and O_TRUNC. *)
Definition openTmp (f : Files) : Files := putTmp (Some (MkFile [] false)) f.

(** The file after [k] bytes of the body have been written. *)
Definition written (body : bytes) (k : nat) (f : Files) : Files :=
  putTmp (Some (MkFile (take k body) false)) f.

Definition syncTmp (f : Files) : Files :=
  putTmp ((λ t, MkFile (f_content t) true) <$> fs_tmp f) f.

(** [os.Rename]: [state.json] is the new file at once; after a power loss it may
    be the old one again. *)
Definition rename (f : Files) : Files :=
  MkFiles (fs_dir f) (fs_tmp f) None (fs_state f :: fs_earlier f).

(** [_ = os.Remove(tmp)]. *)
Definition removeTmp (c : SaveCalls) (f : Files) : Files :=
  if sc_remove c then f else putTmp None f.

(** ** Save and Load *)

Definition body (st : DurableState) : bytes := bytes_of_text (print (jdurable st)).

Arguments body : simpl never.

(** The states the files go through in a call of [Save], the last one where it
    returns, and whether it returns nil.  A crash leaves the files in one of
    these states. *)
Definition SaveTrace (st : DurableState) (c : SaveCalls) (f : Files) : list Files * bool :=
  if sc_mkdir c then ([f], false)
  else
    let f1 := mkdir f in
    if sc_open c then ([f; f1], false)
    else
      let f2 := openTmp f1 in
      let b := body st in
      match sc_write c with
      | Some k =>
          let ws := map (λ k, written b k f2) (seq 0 (S k)) in
          ([f; f1; f2] ++ ws ++ [removeTmp c (written b k f2)], false)
      | None =>
          let ws := map (λ k, written b k f2) (seq 0 (S (length b))) in
          let f3 := written b (length b) f2 in
          if sc_sync c then ([f; f1; f2] ++ ws ++ [removeTmp c f3], false)
          else
            let f4 := syncTmp f3 in
            if sc_close c then ([f; f1; f2] ++ ws ++ [f4; removeTmp c f4], false)
            else if sc_rename c then ([f; f1; f2] ++ ws ++ [f4; removeTmp c f4], false)
            else ([f; f1; f2] ++ ws ++ [f4; rename f4], true)
      end.

(** The files after [Save], and whether it returns nil. *)
Definition FileSave (st : DurableState) (c : SaveCalls) (f : Files) : Files * bool :=
  let '(tr, ok) := SaveTrace st c f in (default f (last tr), ok).

(** [Load]: [None] is an error other than a missing file, here a text that is
    not the JSON of a durable state. *)
Definition FileLoad (f : Files) : option DurableState :=
  match fs_state f with
  | None => Some zeroDurable
  | Some t => unmarshal getDurable (f_content t)
  end.

(** What [state.json] may be after a power loss: the file, or an earlier one; of
    a file that was not synced, any part. *)
Definition survives (x y : option File) : Prop :=
  match x, y with
  | None, None => True
  | Some x, Some y =>
      if f_synced x then f_content y = f_content x else f_content y `prefix_of` f_content x
  | _, _ => False
  end.

Definition afterPowerLoss (f g : Files) : Prop :=
  ∃ x, x ∈ fs_state f :: fs_earlier f ∧ survives x (fs_state g).

(** ** Correctness *)

(** The text of a state that JSON can carry is read back. *)
Lemma load_body st : valid_durable st → unmarshal getDurable (body st) = Some st.
Proof.
  intros Hst. destruct (fits_durable st Hst) as [Hp Hd]. unfold body.
  rewrite unmarshal_print; [by apply getDurable_jdurable|done|unfold maxNestingDepth; lia].
Qed.

(** The file a successful Save leaves. *)
Definition savedFile (st : DurableState) : File := MkFile (body st) true.

(** Nothing but the rename touches [state.json] and its earlier versions. *)
Definition same (f g : Files) : Prop := fs_state g = fs_state f ∧ fs_earlier g = fs_earlier f.

Definition renamed (st : DurableState) (f g : Files) : Prop :=
  fs_state g = Some (savedFile st) ∧ fs_earlier g = fs_state f :: fs_earlier f.

Lemma same_removeTmp f c g : same f g → same f (removeTmp c g).
Proof. unfold removeTmp. by destruct (sc_remove c). Qed.

Lemma same_writes f b ks g : same f g → Forall (same f) (map (λ k, written b k g) ks).
Proof. intros H. by apply Forall_fmap, Forall_true. Qed.

Lemma renamed_rename st f g :
  same f g → renamed st f (rename (syncTmp (written (body st) (length (body st)) g))).
Proof.
  intros [H1 H2]. unfold renamed, savedFile.
  cbn [fs_state fs_earlier rename syncTmp putTmp written fs_tmp fmap option_fmap option_map f_content].
  by rewrite take_ge, H1, H2 by lia.
Qed.

(** The last state of a Save, the ones before it, and its result. *)
Lemma SaveTrace_shape st c f :
  ∃ tr g ok, SaveTrace st c f = (tr ++ [g], ok) ∧ Forall (same f) tr ∧
    if ok : bool then renamed st f g else same f g.
Proof.
  assert (H2 : same f (openTmp (mkdir f))) by done. unfold SaveTrace.
  assert (Hw : ∀ b ks, Forall (same f) ([f; mkdir f; openTmp (mkdir f)] ++
    map (λ k, written b k (openTmp (mkdir f))) ks)).
  { intros b ks. apply Forall_app. split; [by repeat constructor|by apply same_writes]. }
  destruct (sc_mkdir c); [by eexists [], f, false|].
  destruct (sc_open c); [eexists [f], (mkdir f), false; split_and!; [done|by repeat constructor|done]|].
  destruct (sc_write c) as [k|].
  { eexists _, _, false. rewrite app_assoc. split_and!; [done|apply Hw|by apply same_removeTmp]. }
  destruct (sc_sync c).
  { eexists _, _, false. rewrite app_assoc. split_and!; [done|apply Hw|by apply same_removeTmp]. }
  assert (Hl : ∀ (l : list Files) x y, l ++ [x; y] = (l ++ [x]) ++ [y])
    by (intros; by rewrite <- app_assoc).
  destruct (sc_close c); [|destruct (sc_rename c)]; rewrite app_assoc, Hl;
    eexists _, _, _; (split; [reflexivity|]); cbv iota;
    (split; [apply Forall_app; split; [apply Hw|by repeat constructor]|]).
  - by apply same_removeTmp.
  - by apply same_removeTmp.
  - by apply renamed_rename.
Qed.

Lemma FileSave_state st c f f' ok :
  FileSave st c f = (f', ok) → if ok then renamed st f f' else same f f'.
Proof.
  unfold FileSave. destruct (SaveTrace_shape st c f) as (tr&g&ok'&->&_&H).
  rewrite last_snoc. by intros [= <- <-].
Qed.

Lemma SaveTrace_states st c f g : g ∈ (SaveTrace st c f).1 → same f g ∨ renamed st f g.
Proof.
  destruct (SaveTrace_shape st c f) as (tr&h&ok&->&Htr&H). cbn [fst].
  intros [Hin| ->%list_elem_of_singleton]%elem_of_app; [left; by eapply Forall_forall in Htr|].
  destruct ok; auto.
Qed.

Lemma FileLoad_same f g : same f g → FileLoad g = FileLoad f.
Proof. intros [H _]. unfold FileLoad. by rewrite H. Qed.

Lemma FileLoad_renamed st f g : valid_durable st → renamed st f g → FileLoad g = Some st.
Proof. intros Hv [H _]. unfold FileLoad. rewrite H. by apply load_body. Qed.

(** [C28] FileStorage implements the storage a node relies on, for states whose
    strings are UTF-8 and whose numbers are 64-bit integers ([valid_durable]): when the
    file holds what the abstract storage holds, a Save that returns nil makes both hold the
    new state, one that returns an error leaves both as they were, whichever
    system calls fail; and a crash at any point of a Save leaves the old state or
    the new one. *)
Theorem file_storage_refines st c f f' ok s errs :
  valid_durable st → FileSave st c f = (f', ok) → FileLoad f = Load s →
  st_LoadErr s = false → st_SaveErrs s = negb ok :: errs →
  FileLoad f' = Load (Save st s) ∧
  ∀ g, g ∈ (SaveTrace st c f).1 → FileLoad g = Load s ∨ FileLoad g = Some st.
Proof.
  intros Hv Hs Hf Hl He. split.
  - apply FileSave_state in Hs. unfold Save, Load in *. rewrite He, Hl in *.
    destruct ok; cbn [negb st_LoadErr st_Disk]; rewrite ?Hl;
      [by apply FileLoad_renamed with f|]. rewrite <- Hf. by apply FileLoad_same.
  - intros g [Hg|Hg]%SaveTrace_states; [left; rewrite <- Hf; by apply FileLoad_same|].
    right. by apply FileLoad_renamed with f.
Qed.

(** ** Power loss *)

(** The files after a sequence of saves, any of which may fail or be cut short by
    a crash: [Some k] stops after [k] steps. *)
Definition saveOrCrash (f : Files) (x : DurableState * SaveCalls * option nat) : Files :=
  let '(st, c, crash) := x in
  let '(tr, _) := SaveTrace st c f in
  match crash with
  | Some k => default f (tr !! k)
  | None => default f (last tr)
  end.

Definition saves (l : list (DurableState * SaveCalls * option nat)) : Files :=
  foldl saveOrCrash noFiles l.

(** Every version is one that was saved, synced. *)
Definition versions (sts : list DurableState) (f : Files) : Prop :=
  Forall (λ x, x = None ∨ ∃ st, st ∈ sts ∧ x = Some (savedFile st)) (fs_state f :: fs_earlier f).

Lemma versions_mono sts st f : versions sts f → versions (st :: sts) f.
Proof.
  intros H. eapply Forall_impl; [exact H|]. intros x [->|(st'&?&->)]; [by left|right].
  exists st'. split; [by right|done].
Qed.

Lemma versions_saveOrCrash sts f st c crash :
  versions sts f → versions (st :: sts) (saveOrCrash f (st, c, crash)).
Proof.
  intros Hv. cbn [saveOrCrash]. destruct (SaveTrace st c f) as [tr ok] eqn:Et.
  assert (Hg : ∀ g, g ∈ tr → versions (st :: sts) g).
  { intros g Hin. destruct (SaveTrace_states st c f g) as [[H1 H2]|[H1 H2]]; [by rewrite Et|..].
    - unfold versions. rewrite H1, H2. by apply versions_mono.
    - unfold versions. rewrite H1, H2. constructor; [|by apply versions_mono].
      right. exists st. split; [by left|done]. }
  apply versions_mono with (st := st) in Hv.
  destruct crash as [k|]; [destruct (tr !! k) eqn:E|destruct (last tr) eqn:E]; cbn; try done; apply Hg.
  - by eapply list_elem_of_lookup_2.
  - by eapply last_Some_elem_of.
Qed.

(** [C29] Let states whose strings are UTF-8 and whose numbers are 64-bit integers
    ([valid_durable]) be given to a sequence of Saves, any of which may fail or be cut
    short.  A power loss at any time, during a Save or between two, leaves a file that
    loads to one of these states, that of a failed Save perhaps, or to the fresh
    state: a half-written state is never found, because the file is synced before it
    is renamed. *)
Theorem power_loss_recovers l f g :
  Forall (λ x, valid_durable (x.1.1)) l → f = saves l → afterPowerLoss f g →
  FileLoad g = Some zeroDurable ∨ ∃ x, x ∈ l ∧ FileLoad g = Some (x.1.1).
Proof.
  intros Hl -> (x&Hx&Hs).
  assert (Hv : versions (map (λ x, x.1.1) (reverse l)) (saves l)).
  { clear. unfold saves. induction l as [|[[st c] crash] l IH] using rev_ind.
    - repeat constructor.
    - rewrite foldl_app, reverse_snoc. cbn [foldl map fst]. by apply versions_saveOrCrash. }
  eapply Forall_forall in Hv; [|exact Hx]. destruct Hv as [->|(st&Hin&->)].
  - left. unfold FileLoad. by destruct (fs_state g).
  - right. cbn in Hs. apply list_elem_of_fmap in Hin as (y&->&Hy).
    rewrite elem_of_reverse in Hy. exists y. split; [done|].
    unfold FileLoad. destruct (fs_state g) as [t|]; [|done]. cbn in Hs. rewrite Hs.
    apply load_body. by eapply Forall_forall in Hl.
Qed.

(** ** Witnesses *)

(** A Save that has returned nil can be undone by a power loss: the rename is not
    durable until the directory is synced, which Save does not do. *)
Theorem save_may_be_lost st :
  (FileSave st noErrors noFiles).2 = true ∧
  ∃ g, afterPowerLoss (FileSave st noErrors noFiles).1 g ∧ FileLoad g = Some zeroDurable.
Proof.
  assert (Hok : (FileSave st noErrors noFiles).2 = true) by done. split; [done|].
  destruct (FileSave st noErrors noFiles) as [f ok] eqn:E. cbn [fst snd] in *. subst ok.
  apply FileSave_state in E as [_ He]. exists noFiles. split; [|done]. exists None.
  split; [|done]. right. rewrite He. by left.
Qed.

Definition demoState : DurableState :=
  MkDurable 3 "a" [zeroEntry; MkEntry 3 1 [Byte.x78] (Some (MkChange "add" "b" "b:1" "" ∅ ∅))]
    [Byte.x00; Byte.xff] {[ "a"%string := "a:1"%string ]} ∅.

Lemma demoState_valid : valid_durable demoState.
Proof.
  split; [by split; vm_compute|]. split; [done|].
  split; [|split; by apply (bool_decide_unpack _)].
  constructor; [|constructor; [|constructor]]; (split; [by split; vm_compute|]);
    (split; [by split; vm_compute|]); [done|].
  intros ch [= <-]. split_and!; by apply (bool_decide_unpack _).
Qed.

Lemma file_storage_refines_witness :
  FileLoad (FileSave demoState noErrors noFiles).1 = Some demoState.
Proof.
  destruct (file_storage_refines demoState noErrors noFiles
    (FileSave demoState noErrors noFiles).1 true (MkStorage zeroDurable false [false]) []
    demoState_valid) as [H _]; [reflexivity..|]. exact H.
Defined.

(** A second Save is cut after it has truncated the temporary file; then the
    power is lost. *)
Lemma power_loss_recovers_witness :
  let l := [(demoState, noErrors, None); (zeroDurable, noErrors, Some 2%nat)] in
  let g := MkFiles true (Some (savedFile demoState)) None [] in
  FileLoad g = Some zeroDurable ∨ ∃ x, x ∈ l ∧ FileLoad g = Some (x.1.1).
Proof.
  apply (power_loss_recovers [(demoState, noErrors, None); (zeroDurable, noErrors, Some 2%nat)]
    (saves [(demoState, noErrors, None); (zeroDurable, noErrors, Some 2%nat)]) (MkFiles true (Some (savedFile demoState)) None [])).
  - constructor; [apply demoState_valid|]. constructor; [|constructor].
    split; [by split; vm_compute|]. split; [done|]. split; [constructor|].
    split; by apply (bool_decide_unpack _).
  - reflexivity.
  - exists (Some (savedFile demoState)). split; [|reflexivity].
    apply elem_of_cons. left. vm_compute. reflexivity.
Defined.
