(* ===== verification/KvSpec.v ===== *)
(** What the key-value service promises: its store is the history of the writes
    in the log, commands and snapshots survive their JSON form, a Put is refused
    or appended, and a Get after a confirmed ReadIndex sees every acknowledged
    Put. *)
From S2P Require Import Prelude Types Utf8 Json JsonSpec Marshal KvStore Node Persist Membership Snapshot Log Election RaftOps Read Machine Client Kv NodeInv LogSpec Durable Spec SpecInv SpecSafety Network Demo CutLog RefineBase RefineOps RefineSnapshot Refine ClusterSafety Kept RunHost Linearizable.
Open Scope Z_scope.
Open Scope go_scope.

(** ** The specification: a history of writes *)

(** The write a log entry stands for: none for a change of the membership. *)
Definition writeOf (e : LogEntry) : option (string * string) :=
  if decide (is_change e ∨ e_Command e = []) then None
  else match unmarshalCommand (e_Command e) with
  | Some c => if decide (c_Op c = opPut) then Some (c_Key c, c_Value c) else None
  | None => None
  end.

Definition history (es : list LogEntry) : list (string * string) := omap writeOf es.

(** The value of the last write of [key]. *)
Definition lastWrite (key : string) (ws : list (string * string)) : option string :=
  snd <$> last (filter (λ w, w.1 = key) ws).

Lemma applyOne_writeOf e (s : Store) :
  applyOne true s e = match writeOf e with Some (k, v) => <[k := v]> s | None => s end.
Proof.
  unfold applyOne, writeOf, is_change. cbn [andb]. case_bool_decide as Hc.
  2:{ by rewrite decide_True by (by left). }
  change (@sm_apply _ Store_machine) with onApply. unfold onApply. cbn [am_Command].
  case_decide; case_decide; [done|naive_solver..|].
  destruct (unmarshalCommand (e_Command e)) as [c|]; [|done]. by case_decide.
Qed.

Lemma lastWrite_app key ws1 ws2 :
  lastWrite key (ws1 ++ ws2) =
  match lastWrite key ws2 with Some v => Some v | None => lastWrite key ws1 end.
Proof.
  unfold lastWrite. rewrite filter_app, last_app. by destruct (last (filter _ ws2)).
Qed.

Lemma lastWrite_one key w : lastWrite key [w] = if decide (w.1 = key) then Some (w.2) else None.
Proof. unfold lastWrite. rewrite filter_cons. by case_decide. Qed.

Lemma replay_history (s : Store) es key :
  replay s es !! key =
  match lastWrite key (history es) with Some v => Some v | None => s !! key end.
Proof.
  induction es as [|e es IH] using rev_ind; [done|].
  unfold replay in *. rewrite foldl_app. cbn [foldl].
  rewrite applyOne_writeOf.
  unfold history in *. rewrite omap_app. cbn [omap list_omap].
  destruct (writeOf e) as [[k v]|] eqn:E; [|by rewrite app_nil_r].
  rewrite lastWrite_app, lastWrite_one. cbn [fst snd].
  case_decide as Hk; [subst; by rewrite lookup_insert_eq|by rewrite lookup_insert_ne].
Qed.

(** The write of a Put command. *)
Lemma writeOf_put t i key value :
  writeOf (MkEntry t i (marshalCommand (MkCommand opPut key value)) None) =
  Some (clean_string key, clean_string value).
Proof.
  unfold writeOf. cbn [e_Command e_Change]. rewrite decide_False by naive_solver.
  by rewrite unmarshal_marshalCommand.
Qed.

Lemma Propose_result cmd (n : RaftNode Store) :
  (Propose cmd n).2 =
    if stopped n then Err ErrStopped
    else if decide (state n ≠ Leader) then Err ErrNotLeader
    else Ok (lastLogIndexLocked n + 1, currentTerm n).
Proof. unfold Propose. destruct (stopped n); [done|]. by case_decide. Qed.

Section kv_cluster.
Context (base : Config) (ch : bool).

(** [C24] The store is a function of one log.  Let a cluster of key-value servers
    whose disks work run from its start so that no installed snapshot drops entries
    that follow it, leaders change the membership after they have committed an entry of
    their term, and a joining node does not campaign while it knows only itself
    ([safe_run]).  There is one sequence of entries that explains every point of the
    run, and what the store of a node holds for a key is the value of the last Put of
    that key among the entries of the sequence the node has applied. *)
Theorem store_is_history ls :
  fixed_cluster base NewStore → safe_run base NewStore ch ls (initWorld base NewStore) →
  ∃ L, ∀ ls1, ls1 `prefix_of` ls →
    explains NewStore L (worldAfter base NewStore ls1) ∧
    ∀ i n key, w_nodes (worldAfter base NewStore ls1) !! i = Some n →
      KvStore.Get key (machine n) =
        lastWrite key (history (take (Z.to_nat (lastApplied n)) (tail L))).
Proof.
  intros Hfc Hls. destruct (one_log_run base NewStore ch ls Hfc Hls) as [L HL]. exists L.
  intros ls1 Hp. specialize (HL ls1 Hp). split; [done|]. intros i n key Hi.
  destruct (HL i n Hi) as (_&_&->). unfold KvStore.Get. rewrite replay_history.
  by destruct (lastWrite _ _).
Qed.

(** What a store answers for a key that an entry of the log wrote. *)
Lemma replay_sees (L : list LogEntry) k q e key value :
  L !! S k = Some e → writeOf e = Some (key, value) → (k < q)%nat →
  KvStore.Get key (replay NewStore (take q (tail L))) =
    Some (default value (lastWrite key (history (drop (S (S k)) (take (S q) L))))).
Proof.
  intros HkL Hput Hk. unfold KvStore.Get. rewrite replay_history.
  destruct L as [|z L]; [done|]. cbn in HkL. cbn [tail take drop].
  assert (Hlk : take q L !! k = Some e) by (by rewrite lookup_take_lt by lia).
  rewrite <- (take_drop_middle _ _ _ Hlk) at 1. unfold history at 1.
  rewrite omap_app. cbn [omap list_omap]. rewrite Hput.
  change (?x :: ?l) with ([x] ++ l). rewrite !lastWrite_app.
  change (omap writeOf ?l) with (history l).
  rewrite lastWrite_one. cbn [fst snd]. rewrite decide_True by done.
  by destruct (lastWrite key _).
Qed.

Abbreviation after := (worldAfter base NewStore).
Abbreviation at_node i := (run_host base NewStore i).

(** A leader is a node of the cluster. *)
Lemma leader_exists i ls :
  state (nodeAt base NewStore i ls) = Leader →
  w_nodes (after ls) !! i = Some (nodeAt base NewStore i ls).
Proof.
  unfold nodeAt. destruct (w_nodes (after ls) !! i) as [n|]; [done|]. cbn.
  destruct (bootWith_equipped base NewStore (nodeConfig base i freshStorage) []) as (_&_&Hs&_);
    [by eexists|]. unfold boot. by rewrite Hs.
Qed.

(** A Put that is acknowledged while the log of its node still has an entry of the
    term of the command at its index: the command is committed. *)
Lemma put_committed key value gap ws late s s' j :
  fixed_cluster base NewStore →
  safe_run base NewStore ch (srv_raft s') (initWorld base NewStore) →
  Put (HH := at_node j) key value gap ws late s = (s', Some (inl tt)) →
  let np := nodeAt base NewStore j (srv_raft s ++ gap) in
  let k := lastLogIndexLocked np + 1 in
  termAtLocked (nodeAt base NewStore j (srv_raft s')) k = Some (currentTerm np) →
  ∃ a n, wrel base NewStore ch (after (srv_raft s')) a ∧
    w_nodes (after (srv_raft s')) !! j = Some n ∧ 0 < k ≤ commitIndex n ∧
    committedLog a j !z k =
      Some (MkEntry (currentTerm np) k (marshalCommand (MkCommand opPut key value)) None).
Proof.
  intros Hfc Hrun (_&h2&idx&t&h3&Hp&Hw&Es)%Put_ok np k. cbn in Es. subst h3.
  rewrite meanwhile_raft in Hp. revert Hp. cbn [hostHooks hostOthers hostPropose run_host fst].
  generalize (marshalCommand (MkCommand opPut key value)). intros body [= <- Hp].
  fold np in Hp. rewrite Propose_result in Hp. destruct (stopped np) eqn:Est; [done|].
  case_decide as Hl; [done|]. injection Hp as <- <-. fold k in Hw.
  assert (Hld : state np = Leader) by (destruct (state np); naive_solver).
  pose proof (leader_exists j _ Hld) as Hnp. fold np in Hnp.
  pose proof (waitApplied_done _ _ _ _ _ _ _ Hw) as Hap.
  pose proof (waitApplied_grows base NewStore j k ws ((srv_raft s ++ gap) ++ [LPropose j body])) as Hg.
  rewrite Hw in Hg. cbn [fst] in Hg. revert Hap Hrun Hg. generalize (srv_raft s'). intros ls' Hap Hrun Hg Ht.
  destruct (after_wrel base NewStore ch (srv_raft s ++ gap) Hfc) as (a1&_&W1).
  { eapply safe_prefix; [|exact Hrun]. etrans; [|exact Hg]. by eexists. }
  destruct (wrel_propose base NewStore ch _ a1 j np body W1 Hnp Hld Est) as (a2&_&W2&Hlog).
  rewrite <- after_snoc in W2. cbn in Hlog. fold k in Hlog.
  pose proof (node_stays base NewStore j _ [LPropose j body] (ex_intro _ np Hnp)) as Hn2.
  destruct Hg as [g ->]. destruct (wrel_later base NewStore ch _ g a2 Hfc Hrun W2) as (a3&W3&H23).
  apply (node_stays base NewStore j _ g) in Hn2 as [n Hn]. exists a3, n.
  rewrite (nodeAt_some _ _ _ _ _ Hn) in Hap, Ht.
  destruct (wrel_node base NewStore ch _ _ _ _ W1 Hnp) as (l1&k1&V1&_).
  destruct (wrel_node base NewStore ch _ _ _ _ W3 Hn) as (l&k'&V&_&He&_).
  assert (Hk : 0 < k) by (destruct V1; unfold slen in *; lia).
  split_and!; [done|done|done|destruct V; lia|].
  unfold termAtLocked in Ht. destruct (entryAtLocked n k) as [x|] eqn:Ex; [|done].
  injection Ht as Ht. apply (cut_entryAt_term n k' l) in Ex as (_&x'&Ex&Tx&_); [|apply V..].
  destruct (ei_log _ He j) as [[_ _ Hm] _]. rewrite (vw_abs _ _ _ _ _ _ _ _ V) in Hm. cbn in Hm.
  apply (zlookup_prefix _ _ _ _ (hl_tlog _ _ H23 (currentTerm np))), zlookup_Some in Hlog as [_ Hlog].
  pose proof (Hm _ _ Ex) as Em. rewrite Tx, Ht in Em.
  apply (prefix_lookup_Some _ _ (Z.to_nat k) x') in Em; [|by rewrite lookup_take_lt by lia].
  apply zlookup_Some. split; [lia|]. unfold committedLog. rewrite (vw_abs _ _ _ _ _ _ _ _ V). cbn.
  rewrite lookup_take_lt by (destruct V; lia). congruence.
Qed.

(** [C25] A read sees every acknowledged write.  Let a Put at node [j], in a run of
    the cluster, report success, its command having got index [k] in the term of
    [j], and let the log of [j] have an entry of that term at [k] then (that is not
    checked by WaitApplied, see [Findings.lost_write_acknowledged]).  Let a Get at
    node [i] start at any later moment of the run and answer [r].  In the run, from the
    start of a cluster, the disks work, no installed snapshot drops entries that follow
    it, leaders change the membership after they have committed an entry of their term,
    and a joining node does not campaign while it knows only itself; the call of
    ReadIndex is [undisturbed], and [i] is not started again before it answers.  Then there is
    one log that explains the run from the acknowledgement on, it has the command of
    the Put at [k], and [r] is the value of the Put, or of the last later Put of the
    key among the entries that [i] has applied. *)
Theorem get_sees_acknowledged key value gap ws late sj sj' j sched late' si si' i r :
  fixed_cluster base NewStore →
  safe_run base NewStore ch (srv_raft si') (initWorld base NewStore) →
  Put (HH := at_node j) key value gap ws late sj = (sj', Some (inl tt)) →
  let np := nodeAt base NewStore j (srv_raft sj ++ gap) in
  let k := lastLogIndexLocked np + 1 in
  termAtLocked (nodeAt base NewStore j (srv_raft sj')) k = Some (currentTerm np) →
  srv_raft sj' `prefix_of` srv_raft si →
  Get (HH := at_node i) (clean_string key) sched late' si = (si', Some (inl r)) →
  undisturbed base NewStore i sched (srv_raft si)
    (ReadIndex (HH := at_node i) sched (srv_raft si)).1 →
  Forall (λ l, restarts i l = false) late' →
  ∃ L, (∀ ls, srv_raft sj' `prefix_of` ls → ls `prefix_of` srv_raft si' →
          explains NewStore L (after ls)) ∧
    L !z k = Some (MkEntry (currentTerm np) k (marshalCommand (MkCommand opPut key value)) None) ∧
    let applied := lastApplied (nodeAt base NewStore i (srv_raft si')) in
    let later := history (drop (S (Z.to_nat k)) (take (S (Z.to_nat applied)) L)) in
    r = Some (default (clean_string value) (lastWrite (clean_string key) later)).
Proof.
  intros Hfc Hrun HP np k Ht P1 (h1&idx&HR&Es&->)%Get_ok Hud Hlate. rewrite HR in Hud.
  cbn [hostHooks hostOthers run_host fst] in Es, Hud. rewrite Es in *.
  destruct (read_applied base NewStore ch _ _ _ _ _ late' Hfc Hrun HR Hud Hlate) as (P2&[n Hn]&Hap).
  assert (P12 : srv_raft sj' `prefix_of` h1) by (by etrans).
  assert (P13 : srv_raft sj' `prefix_of` h1 ++ late') by (etrans; [exact P12|by eexists]).
  destruct (put_committed key value gap ws late sj sj' j Hfc
    (safe_prefix _ _ _ _ _ P13 Hrun) HP Ht) as (a&nj&Wa&Hj&Hk&Hc).
  change (0 < k ≤ commitIndex nj) in Hk. change (committedLog a j !z k = Some (MkEntry (currentTerm np) k
    (marshalCommand (MkCommand opPut key value)) None)) in Hc.
  pose proof (read_index_covers base NewStore ch _ _ _ _ _ _ _ _ Hfc
    (safe_prefix base NewStore ch h1 _ (prefix_app_r _ _ late' (reflexivity _)) Hrun) HR Hud P1 Hj) as Hle.
  destruct P13 as [g Eg]. rewrite Eg in *. apply safe_run_app in Hrun as [_ Hg].
  destruct (one_log_from base NewStore ch (after (srv_raft sj')) a g [committedLog a j] Hfc Wa Hg)
    as (L&HC&HL).
  { intros c ->%list_elem_of_singleton. exact (committed_chosen _ _ _ _ (wr_good base NewStore ch _ _ Wa)). }
  assert (HLk : L !z k = Some (MkEntry (currentTerm np) k
    (marshalCommand (MkCommand opPut key value)) None)).
  { eapply zlookup_prefix; [|exact Hc]. apply HC, list_elem_of_singleton. done. }
  exists L. split_and!; [|done|].
  - intros ls [g1 ->] Hpre. apply prefix_app_inv in Hpre. rewrite after_app. by apply HL.
  - cbn zeta. unfold srvNode. cbn [hostNode run_host]. rewrite Es. fold (nodeAt base NewStore i).
    rewrite (nodeAt_some _ _ _ _ _ Hn) in *. rewrite after_app in Hn.
    destruct (HL g (reflexivity _) i n Hn) as (_&_&->). apply zlookup_Some in HLk as [_ HLk].
    destruct (Z.to_nat k) as [|k'] eqn:Ek; [lia|]. eapply replay_sees; [exact HLk|apply writeOf_put|lia].
Qed.

End kv_cluster.

(** ** Commands and snapshots *)

(** [C31] What a Put command does when it is applied: it writes the key and the
    value with every byte that is not UTF-8 replaced, so exactly the ones given
    when they are UTF-8 and another value otherwise. *)
Theorem put_command_effect i key value s :
  let s' := onApply (MkApplyMsg i (marshalCommand (MkCommand opPut key value))) s in
  s' = KvStore.Put (clean_string key) (clean_string value) s ∧
  (valid_string key → valid_string value → s' = KvStore.Put key value s) ∧
  (KvStore.Get (clean_string key) s' = Some value ↔ valid_string value).
Proof.
  cbn zeta. rewrite onApply_put. unfold KvStore.Put, KvStore.Get. split_and!; [done| |].
  - intros Hk Hv. by rewrite !clean_string_id.
  - rewrite lookup_insert_eq, <- clean_string_id_iff. split; [by intros [= E]|by intros ->].
Qed.

(** The store of a node that has applied [es] since it was empty can be carried
    by JSON. *)
Lemma replay_valid es : valid_map (replay NewStore es).
Proof.
  unfold replay. assert (H : valid_map NewStore) by apply map_Forall_empty. revert H.
  generalize NewStore. induction es as [|e es IH]; intros s Hs; [done|].
  apply IH. unfold applyOne. case_match; [by apply onApply_valid|done].
Qed.

(** [C32] Snapshots: whatever entries a store has applied, restoring its snapshot
    into any store gives it back, and the snapshot is not empty. *)
Theorem store_snapshot_roundtrip es s0 :
  let s := replay NewStore es in
  Restore (Snapshot s) s0 = Some s ∧ Snapshot s ≠ [].
Proof. split; [apply Restore_Snapshot, replay_valid|done]. Qed.

(** ** Put *)

Lemma Propose_error cmd (n : RaftNode Store) e : (Propose cmd n).2 = Err e → (Propose cmd n).1 = n.
Proof. unfold Propose. destruct (stopped n); [done|]. by case_decide. Qed.

Lemma runHooks_lastApplied (s : Server) :
  lastApplied (srv_raft (runHooks s)) = lastApplied (srv_raft s).
Proof. by rewrite runHooks_raft. Qed.

(** [C33] The outcomes of a Put: an empty key and a node that is not leader are
    refused before anything is proposed, a refused proposal leaves the node as it
    was, and success is reported only by a node that was leader when the command
    was appended, after the index the command got has been applied. *)
Theorem put_outcomes key value gap ws late (s s' : Server) r :
  Put key value gap ws late s = (s', r) →
  let n := srv_raft (meanwhile gap s) in
  let body := marshalCommand (MkCommand opPut key value) in
  (key = ""%string → s' = s ∧ r = Some (inr ErrEmptyKey)) ∧
  (key ≠ ""%string → state (srv_raft s) ≠ Leader →
     s' = meanwhile late s ∧
     r = Some (inr (NotLeaderError (leaderID (srv_raft s)) (LeaderAddr (srv_raft s'))
                      (httpAddr (leaderID (srv_raft s)) s')))) ∧
  (r = Some (inl tt) →
     state (srv_raft s) = Leader ∧ state n = Leader ∧ stopped n = false ∧
     (Propose body n).2 = Ok (lastLogIndexLocked n + 1, currentTerm n) ∧
     lastLogIndexLocked n + 1 ≤ lastApplied (srv_raft s')).
Proof.
  unfold Put. generalize (marshalCommand (MkCommand opPut key value)). intros body H.
  cbn zeta. case_decide as Hk.
  { injection H as <- <-. done. }
  unfold IsLeader, srvNode in H. cbn [hostNode node_host] in H. destruct (bool_decide (state (srv_raft s) = Leader)) eqn:El; cbn [negb] in H.
  2:{ apply bool_decide_eq_false in El. unfold notLeader in H. injection H as <- <-. done. }
  apply bool_decide_eq_true in El.
  split_and!; [done..|]. intros ->. split; [done|]. revert H.
  pose proof (Propose_result body (srv_raft (meanwhile gap s))) as Hp.
  generalize (meanwhile gap s) Hp. clear Hp. intros s1 Hp. cbn [hostPropose node_host].
  destruct (Propose body (srv_raft s1)) as [n' r']. cbn [snd] in Hp. subst r'. cbn [snd].
  assert (Hf : ∀ e s2, raftFailure e late s2 ≠ (s', Some (inl ()))).
  { intros e s2. unfold raftFailure. case_decide; [|done]. by destruct (notLeader late s2). }
  destruct (stopped (srv_raft s1)); [by intros ?%Hf|]. case_decide as Hl; [by intros ?%Hf|].
  unfold callRaft. destruct (waitApplied _ ws _) as [n2 [[[]|e]|]] eqn:Ew; [|by intros ?%Hf|done].
  intros [= <-]. apply waitApplied_ok in Ew as [Hw _].
  rewrite runHooks_lastApplied. by destruct (state (srv_raft s1)).
Qed.

(** ** A concrete cluster of key-value servers *)

Definition putBlue : bytes := marshalCommand (MkCommand opPut "color" "blue").

(** Node a is elected and commits the Put with b. *)
Definition commitBlue : list Label :=
  electA ++ [LReplicate "a" "b"; LDeliver 3; LDeliver 4; LPropose "a" putBlue;
   LReplicate "a" "b"; LDeliver 5; LDeliver 6; LReplicate "a" "b"; LDeliver 7].

(** The node [i] of a world. *)
Definition kvNode (w : World Store) (i : string) : RaftNode Store :=
  default (boot (config3 0) NewStore i freshStorage []) (w_nodes w !! i).

(** The world after the labels [ls], with compaction off. *)
Definition kvWorld (ls : list Label) : World Store := worldAfter (config3 0) NewStore ls.

(** The same with compaction after two entries: c gets the Put in a snapshot. *)
Abbreviation kvWorld2 ls := (worldAfter (config3 2) NewStore ls).

Definition blueSnapshot : list Label := commitBlue ++ [LReplicate "a" "c"; LDeliver 9].

Lemma kv_fixed threshold : fixed_cluster (config3 threshold) NewStore.
Proof. split; [done..|]. apply map_Forall_empty. Qed.

Lemma blueSnapshot_c :
  w_nodes (kvWorld2 blueSnapshot) !! "c"%string = Some (kvNode (kvWorld2 blueSnapshot) "c").
Proof. vm_compute. reflexivity. Qed.

Lemma store_is_history_witness :
  ∃ L, explains NewStore L (kvWorld2 blueSnapshot) ∧
    lastWrite "color" (history (take 2 (tail L))) = Some "blue"%string.
Proof.
  destruct (store_is_history (config3 2) false blueSnapshot (kv_fixed 2)) as [L HL].
  { apply fixed_run_check; [repeat constructor|vm_compute; reflexivity]. }
  destruct (HL blueSnapshot ltac:(reflexivity)) as [Hex Hget]. exists L. split; [exact Hex|].
  refine (eq_trans (eq_sym (Hget "c"%string _ "color"%string blueSnapshot_c)) _).
  vm_compute. reflexivity.
Defined.

(** Node d joins and the change that makes it a member is committed. *)
Definition joinBlue : list Label :=
  commitBlue ++
  [LJoin "d" (addr "d") "" []; LAddServer "a" "d" (addr "d") ""; LReplicate "a" "b";
   LDeliver 9; LDeliver 10; LReplicate "a" "d"; LDeliver 11; LDeliver 12; LReplicate "a" "d";
   LDeliver 13; LDeliver 14; LReplicate "a" "d"; LDeliver 15; LDeliver 16; LReplicate "a" "d";
   LDeliver 17; LDeliver 18].

(** The Put of blue at a, which replicates it to b while it waits; a Get at a after
    d has joined, confirmed by b and d. *)
Definition beforeBlue : ServerOf (list Label) :=
  MkServer (electA ++ [LReplicate "a" "b"; LDeliver 3; LDeliver 4]) (3000 * Millisecond) ∅.

Definition blueWait : list (WakeOf (list Label)) :=
  [WakeTick [LReplicate "a" "b"; LDeliver 5; LDeliver 6]].

Definition afterBlue : ServerOf (list Label) :=
  MkServer (take (length commitBlue - 2) commitBlue) (3000 * Millisecond) ∅.

Definition joinedBlue : ServerOf (list Label) := MkServer joinBlue (3000 * Millisecond) ∅.

Definition blueRead : ReadScheduleOf (list Label) nat :=
  MkReadSchedule [] [] false []
    [ConfirmAnswer [LConfirm "a" "b" 1; LDeliver 19] 20%nat;
     ConfirmAnswer [LConfirm "a" "d" 1; LDeliver 21] 22%nat] false [WakeTick []] [].

Definition confirmedBlue : ServerOf (list Label) :=
  MkServer (joinBlue ++ [LWaitCommitted "a"; LConfirm "a" "b" 1; LDeliver 19;
    LDeliverConfirm 20 1; LConfirm "a" "d" 1; LDeliver 21; LDeliverConfirm 22 1; LTick "b"])
    (3000 * Millisecond) ∅.

Lemma get_sees_acknowledged_witness :
  ∃ L : list LogEntry,
    L !z 2 = Some (MkEntry 1 2 putBlue None) ∧
    (Get (HH := run_host (config3 0) NewStore "a") "color" blueRead [LTick "b"] joinedBlue).2 =
      Some (inl (Some (default "blue"%string (lastWrite "color" (history (drop 3 (take 4 L))))))).
Proof.
  destruct (get_sees_acknowledged (config3 0) true "color" "blue" [] blueWait [] beforeBlue afterBlue
    "a" blueRead [LTick "b"] joinedBlue confirmedBlue "a" (Some "blue"%string) (kv_fixed 0))
    as (L&_&HL&Hr).
  - apply safe_run_check; vm_compute; reflexivity.
  - vm_compute. reflexivity.
  - vm_compute. reflexivity.
  - exists (drop (length commitBlue - 2) joinBlue). vm_compute. reflexivity.
  - vm_compute. reflexivity.
  - split.
    + vm_compute. reflexivity.
    + apply (bool_decide_unpack _). vm_compute. exact I.
    + apply (bool_decide_unpack _). vm_compute. exact I.
  - repeat constructor.
  - exists L. split; [exact HL|]. refine (eq_trans _ (f_equal (λ r, Some (inl r)) Hr)).
    vm_compute. reflexivity.
Defined.

(** A server on a node that is a cluster of its own. *)
Definition soloServer : Server :=
  NewServer (runOps [OpEnv (200 * Millisecond) []; OpTick]
    (SetApply (NewNode (soloConfig 0) NewStore []))).

Lemma put_outcomes_witness :
  let '(s', r) := Put "color" "blue" [] [WakeTick []] [] soloServer in
  r = Some (inl tt) ∧ 2 ≤ lastApplied (srv_raft s') ∧
  KvStore.Get "color" (machine (srv_raft s')) = Some "blue"%string.
Proof.
  destruct (Put "color" "blue" [] [WakeTick []] [] soloServer) as [s' r] eqn:E.
  destruct (put_outcomes _ _ _ _ _ _ _ _ E) as (_&_&H).
  assert (Hr : (s', r).2 = Some (inl tt)) by (rewrite <- E; vm_compute; reflexivity).
  split; [exact Hr|]. destruct (H Hr) as (_&_&_&_&Hap). split.
  - revert Hap. apply Z.le_trans. vm_compute. done.
  - change s' with ((s', r).1). rewrite <- E. vm_compute. reflexivity.
Defined.
