(* ===== verification/KvFindings.v ===== *)
(** Behaviours of the key-value service that differ from what it documents: a
    linearizable read that returns an old value, and a Status that mixes two
    moments. *)
From S2P Require Import Prelude Types Utf8 Json JsonSpec Marshal KvStore Node Persist Membership Snapshot Log Election RaftOps Read Machine Client Kv NodeInv LogSpec Durable Spec SpecInv SpecSafety Network RefineBase RefineOps Refine Demo ClusterSafety Linearizable KvSpec Kept Accessors.
Open Scope Z_scope.
Open Scope go_scope.

(** ** A stale read

    ReadIndex waits until an entry of the current term is committed in one
    section, and reads the commit index and the term in another.  Node a, a
    leader of term 1 that c has already replaced, passes the wait; before it
    reads the commit index it follows c, stores what c sent before c had
    committed it, and is elected itself in term 3.  Its commit index is still the
    one of term 1, and a majority confirms it in term 3. *)

Definition putRed : bytes := marshalCommand (MkCommand opPut "color" "red").

(** a commits blue; c is elected, commits red with b and acknowledges it, with a
    request of c to a still under way. *)
Definition redAcknowledged : list Label :=
  (commitBlue ++ takeoverC) ++
  [LPropose "c" putRed; LReplicate "c" "a"; LReplicate "c" "b"; LDeliver 15; LDeliver 16].

(** The request arrives at a; a times out and is elected with the vote of b. *)
Definition leaderAgain : list Label :=
  [LDeliver 14; LEnv "a" (900 * Millisecond) []; LTick "a"; LDeliver 18; LDeliver 20].

(** a asks b to confirm its leadership. *)
Definition confirmAgain : list Label := [LConfirm "a" "b" 3; LDeliver 21].

(** The same on node a alone: what happens between the two sections. *)
Definition betweenSections : list NodeOp :=
  [OpHandleAppendEntries (MkAppendReq 2 "c" 2 1 [MkEntry 2 3 [] None; MkEntry 2 4 putRed None] 2);
   OpEnv (900 * Millisecond) []; OpTick;
   OpVoteReply "b" (MkVoteReq 3 "a" 4 2) (MkVoteResp 3 true)].

Definition staleSchedule : ReadSchedule :=
  MkReadSchedule [] betweenSections false [] [ConfirmAnswer [] (MkAppendResp 3 false)] false
    [WakeTick []] [].

(** The server of node a when the Get starts. *)
Definition staleServer : Server :=
  MkServer (kvNode (kvWorld redAcknowledged) "a") (3000 * Millisecond) ∅.

(** [C34] A read can miss an acknowledged write: in a run of a cluster of three
    with a fixed membership, the Put of red is accepted by c at index 4 and
    acknowledged; a Get that starts on a after that returns blue.  The steps
    between the sections of the Get are steps of the run, and so is the reply
    that confirms the leadership. *)
Theorem stale_read :
  Forall fixed_label (redAcknowledged ++ leaderAgain ++ confirmAgain) ∧
  (Propose putRed (kvNode (kvWorld (commitBlue ++ takeoverC)) "c")).2 = Ok (4, 2) ∧
  WaitApplied 4 [WaitTick (kvNode (kvWorld redAcknowledged) "c")] = Some (Ok tt) ∧
  (Get "color" staleSchedule [] staleServer).2 = Some (inl (Some "blue"%string)) ∧
  set_spawned [] (runOps betweenSections (kvNode (kvWorld redAcknowledged) "a")) =
    kvNode (kvWorld (redAcknowledged ++ leaderAgain)) "a" ∧
  last (w_net (kvWorld (redAcknowledged ++ leaderAgain ++ confirmAgain))) =
    Some (MAppendResp "a" "b" (MkAppendReq 3 "a" 5 3 [] 2) (MkAppendResp 3 false)).
Proof.
  split_and!.
  - repeat constructor.
  - vm_compute. reflexivity.
  - vm_compute. reflexivity.
  - vm_compute. reflexivity.
  - vm_compute. reflexivity.
  - vm_compute. reflexivity.
Qed.

(** ** A Status that is not a snapshot

    Status calls one accessor after the other.  Node a of the run above reports
    that it leads; before it reads its term it follows c in term 2. *)

Definition mixedReads (k : nat) : list NodeOp :=
  if decide (k = 1)%nat then take 1 betweenSections else [].

(** Two nodes can report that they lead the same term at the same time: a reports
    that it leads in term 2, in which c leads, and at no moment of the call did a
    lead in term 2. *)
Theorem status_not_snapshot :
  let st := (StatusCall mixedReads staleServer).2 in
  let c := MkServer (kvNode (kvWorld redAcknowledged) "c") (3000 * Millisecond) ∅ in
  let stc := (StatusCall (λ _, []) c).2 in
  (ss_ID st, ss_State st, ss_Term st) = ("a", "leader", 2)%string ∧
  (ss_ID stc, ss_State stc, ss_Term stc) = ("c", "leader", 2)%string ∧
  Forall (λ k, let n := srv_raft (moment mixedReads k staleServer) in
               ¬ (state n = Leader ∧ currentTerm n = 2)) (seq 0 12).
Proof.
  cbn zeta. split_and!.
  - vm_compute. reflexivity.
  - vm_compute. reflexivity.
  - apply (bool_decide_eq_true_1 _). vm_compute. reflexivity.
Qed.
