(* ===== verification/HttpSpec.v ===== *)
(** What the HTTP front end and the command line promise: a peer list is read as
    it is written, a request is forwarded at most once, and which key and value
    reach the leader when it is. *)
From Stdlib Require Import ZifyBool.
From S2P Require Import Prelude Types Utf8 Json JsonSpec Marshal KvStore Text Node Persist Membership Snapshot Log Election RaftOps Read Machine Client Kv Http.
Open Scope Z_scope.
Open Scope go_scope.

(** ** Peer lists *)

(** Visible ASCII characters. *)
Definition graphic (t : text) : Prop := Forall (λ c, 0x21 ≤ c < 0x7F) t.

Lemma chunks_ascii t : Forall (λ c, c < 0x80) t → chunks t = map (λ c, Rune [c]) t.
Proof.
  induction 1 as [|c t Hc _ IH]; [done|]. change (c :: t) with ([c] ++ t).
  rewrite chunks_rune by by constructor. cbn. by rewrite IH.
Qed.

Lemma graphic_trimmed t : graphic t → trimmed t.
Proof.
  intros Ht. unfold trimmed. rewrite chunks_ascii by (eapply Forall_impl; [exact Ht|cbn; lia]).
  assert (H : Forall (λ c, spaceChunk c = false) (map (λ c, Rune [c]) t)).
  { apply Forall_fmap. eapply Forall_impl; [exact Ht|]. cbn. lia. }
  split; intros c Hc; eapply Forall_forall in H; try done.
  - by apply head_Some_elem_of.
  - by apply last_Some_elem_of.
Qed.

Lemma TrimSpace_graphic t : graphic t → TrimSpace t = t.
Proof. intros. by apply TrimSpace_id, graphic_trimmed. Qed.

(** A peer of a list: the id has no separator in it, the address no comma. *)
Definition plainPeer (p : text * text) : Prop :=
  graphic (p.1) ∧ graphic (p.2) ∧ 0x2C ∉ p.1 ∧ 0x3D ∉ p.1 ∧ 0x2C ∉ p.2.

(** [id=addr], and such parts separated by commas. *)
Definition peerText (p : text * text) : text := p.1 ++ 0x3D :: p.2.
Definition joinPeers (ps : list (text * text)) : text := commas (map peerText ps).

Definition addPeer (m : gmap string string) (p : text * text) : gmap string string :=
  <[string_of_text (p.1) := string_of_text (p.2)]> m.

Lemma graphic_peer p : plainPeer p → graphic (peerText p) ∧ 0x2C ∉ peerText p.
Proof.
  intros (H1&H2&H3&_&H4). split.
  - apply Forall_app. split; [done|]. by constructor.
  - unfold peerText. rewrite not_elem_of_app, not_elem_of_cons. done.
Qed.

Lemma graphic_join ps : Forall plainPeer ps → graphic (joinPeers ps).
Proof.
  unfold joinPeers. induction 1 as [|p [|q ps] Hp _ IH]; [constructor|..];
    apply graphic_peer in Hp as [Hp _]; [done|].
  cbn [map commas] in *. apply Forall_app. split; [done|]. by constructor.
Qed.

Lemma parsePart_peer m p : plainPeer p → parsePart m (peerText p) = addPeer m p.
Proof.
  intros Hp. pose proof (graphic_peer p Hp) as [Hg _]. unfold parsePart.
  rewrite TrimSpace_graphic by done. destruct p as [pid ad], Hp as (H1&H2&_&H3&_).
  cbn zeta. unfold peerText. cbn [fst snd] in *. rewrite (Cut_at 0x3D) by done.
  rewrite !TrimSpace_graphic by done. unfold addPeer. cbn [fst snd]. by destruct pid.
Qed.

Lemma Split_join p ps : Forall plainPeer (p :: ps) →
  Split 0x2C (joinPeers (p :: ps)) = map peerText (p :: ps).
Proof.
  revert p. induction ps as [|q ps IH]; intros p [Hp Hps]%Forall_cons;
    apply graphic_peer in Hp as [_ Hc]; [by apply Split_none|].
  change (joinPeers (p :: q :: ps)) with (peerText p ++ 0x2C :: joinPeers (q :: ps)).
  rewrite Split_at by done. by rewrite IH.
Qed.

(** Peer lists: a list of ids and addresses in visible ASCII characters, put
    together with [=] and commas, is parsed to the map of its pairs, a later pair
    overriding an earlier one. *)
Theorem parse_peers_roundtrip ps :
  Forall plainPeer ps →
  parsePeers (string_of_text (joinPeers ps)) = foldl addPeer ∅ ps.
Proof.
  intros Hps. pose proof (graphic_join ps Hps) as Hg. unfold parsePeers.
  rewrite text_of_string_of_text by (eapply Forall_impl; [exact Hg|cbn; lia]).
  rewrite TrimSpace_graphic by done. destruct ps as [|p ps]; [done|].
  assert (Hne : joinPeers (p :: ps) ≠ []).
  { destruct ps as [|q ps]; unfold joinPeers, peerText; cbn [map commas]; by destruct (p.1). }
  destruct (joinPeers (p :: ps)) as [|c t] eqn:E; [done|]. rewrite <- E, Split_join by done.
  clear E Hne Hg. generalize (∅ : gmap string string).
  induction Hps as [|q qs Hq _ IH]; intros m; [done|]. cbn [map foldl].
  rewrite parsePart_peer by done. apply IH.
Qed.

Lemma parse_peers_roundtrip_witness :
  parsePeers "n1=127.0.0.1:19101,n2=127.0.0.1:19102" =
  {[ "n1"%string := "127.0.0.1:19101"%string; "n2"%string := "127.0.0.1:19102"%string ]}.
Proof.
  refine (eq_trans (parse_peers_roundtrip
    [(text_of_string "n1", text_of_string "127.0.0.1:19101");
     (text_of_string "n2", text_of_string "127.0.0.1:19102")] _) _).
  - repeat constructor; try (vm_compute; done); apply (bool_decide_unpack _); vm_compute; exact I.
  - vm_compute. reflexivity.
Defined.

(** ** Forwarding *)

(** A request is forwarded at most once and never to the node itself: what a
    node answers by forwarding was sent to another known address with the
    forwarding header, and a request with that header is not forwarded by any
    node, whatever its server and its error. *)
Theorem forward_once send r s e b reply :
  forwardToLeader send r s e b = Some reply →
  rq_Forwarded r = ""%string ∧
  ∃ fw, send fw = Some reply ∧ fw_Method fw = rq_Method r ∧ fw_Body fw = b ∧
    fw_Host fw ≠ ""%string ∧ fw_Host fw ≠ OwnHTTP s ∧
    ∀ send' r' s' e' b', rq_Forwarded r' = fw_Header fw → forwardToLeader send' r' s' e' b' = None.
Proof.
  unfold forwardToLeader. destruct (forwardAddr r s e) as [http|] eqn:E; [|done].
  destruct (parseURL (rq_Path r)) as [path|]; [|done]. intros Hs.
  unfold forwardAddr in E. destruct e as [|lid addr http'|]; try done.
  case_decide; [done|]. case_decide as Hf; [done|]. case_decide as Ho; [done|]. injection E as ->.
  split; [done|]. eexists. split; [exact Hs|]. cbn. split_and!; [done..| |].
  - intros ->. by destruct Ho.
  - intros send' r' s' e' b' Hr. unfold forwardAddr. destruct e'; try done.
    case_decide; [done|]. rewrite decide_True; [done|]. by rewrite Hr.
Qed.

(** A key whose characters mean themselves in a URL. *)
Definition plainKey (key : text) : Prop :=
  key ≠ [] ∧ key ≠ [0x2E] ∧ key ≠ [0x2E; 0x2E] ∧
  Forall (λ c, c ≠ 0x25 ∧ c ≠ 0x23 ∧ c ≠ 0x3F ∧ c ≠ 0x2F ∧ isControl c = false) key.

Lemma plainKey_lacks key c : plainKey key → c ∈ [0x25; 0x23; 0x3F; 0x2F] → c ∉ key.
Proof.
  intros (_&_&_&Hk) Hc Hin. eapply Forall_forall in Hk; [|exact Hin]. set_solver by lia.
Qed.

Lemma plainKey_control key : plainKey key → existsb isControl key = false.
Proof.
  intros (_&_&_&Hk). induction Hk as [|c key (_&_&_&_&Hc) _ IH]; [done|]. cbn. by rewrite Hc.
Qed.

Lemma stripPrefix_kv key : stripPrefix prefixKv (prefixKv ++ key) = Some key.
Proof. done. Qed.

Lemma routeKey_plain key : plainKey key → routeKey (prefixKv ++ key) = Some key.
Proof.
  intros Hk. unfold routeKey. rewrite stripPrefix_kv.
  assert (Hs := plainKey_lacks key 0x2F Hk). assert (Hp := plainKey_lacks key 0x25 Hk).
  pose proof Hk as (H1&H2&H3&_).
  rewrite bool_decide_false by (intros [?|[?|[?|?]]]; try done; apply Hs; [set_solver|done]).
  apply unescape_plain, Hp. set_solver.
Qed.

(** The path the forwarding request gets: what comes before a question mark. *)
Lemma parseURL_query key rest :
  plainKey key → existsb isControl rest = false → 0x23 ∉ rest →
  parseURL (prefixKv ++ key) = Some (prefixKv ++ key) ∧
  parseURL (prefixKv ++ key ++ 0x3F :: rest) = Some (prefixKv ++ key).
Proof.
  intros Hk Hc Hh. pose proof (plainKey_control key Hk) as Hkc.
  assert (H23 : 0x23 ∉ prefixKv ++ key).
  { rewrite not_elem_of_app. split; [apply (bool_decide_unpack _); by vm_compute|].
    apply (plainKey_lacks key); [done|set_solver]. }
  assert (H3F : 0x3F ∉ prefixKv ++ key).
  { rewrite not_elem_of_app. split; [apply (bool_decide_unpack _); by vm_compute|].
    apply (plainKey_lacks key); [done|set_solver]. }
  assert (Hu : unescape (prefixKv ++ key) = Some (prefixKv ++ key)).
  { apply unescape_plain. rewrite not_elem_of_app.
    split; [apply (bool_decide_unpack _); by vm_compute|].
    apply (plainKey_lacks key); [done|set_solver]. }
  unfold parseURL. split.
  - rewrite Cut_none by done. rewrite existsb_app, Hkc. cbn [existsb prefixKv orb].
    rewrite decide_False by done. by rewrite Cut_none, Hu.
  - rewrite app_assoc, Cut_none; [|rewrite not_elem_of_app, not_elem_of_cons; done].
    rewrite !existsb_app, Hkc. cbn [existsb]. rewrite Hc. rewrite decide_False by done.
    by rewrite Cut_at, Hu.
Qed.

(** The key that reaches the leader: a key whose characters mean themselves
    in a URL arrives as it is; of a key with a question mark only the part before
    it arrives, so a Put of one key through a follower writes another. *)
Theorem forwarded_key key rest :
  plainKey key → existsb isControl rest = false → 0x23 ∉ rest →
  forwardedKey key = Some key ∧ forwardedKey (key ++ 0x3F :: rest) = Some key.
Proof.
  intros Hk Hc Hh. unfold forwardedKey.
  destruct (parseURL_query key rest Hk Hc Hh) as [-> ->]. split; by apply routeKey_plain.
Qed.

Lemma forwarded_key_witness :
  forwardedKey (text_of_string "a?b") = Some (text_of_string "a").
Proof.
  refine (proj2 (forwarded_key (text_of_string "a") (text_of_string "b") _ _ _)).
  - split_and!; try done. repeat constructor; done.
  - reflexivity.
  - apply (bool_decide_unpack _). vm_compute. exact I.
Defined.

Lemma forward_once_witness :
  let s := SetHTTPAddrs {[ "b"%string := "b:2"%string ]}
    (NewServer (freshNode (MkConfig "a" {[ "a"%string := "a:1"%string ]} 0 0 0 None true 0 ∅ false)
      NewStore [])) in
  let r := MkRequest "GET" (text_of_string "/kv/x") "" "" in
  let ok := writeJSON StatusOK JNull in
  ∃ fw, (λ _ : Forwarded, Some ok) fw = Some ok ∧ fw_Host fw ≠ OwnHTTP s.
Proof.
  cbn zeta.
  destruct (forward_once (λ _, Some (writeJSON StatusOK JNull))
    (MkRequest "GET" (text_of_string "/kv/x") "" "")
    (SetHTTPAddrs {[ "b"%string := "b:2"%string ]}
      (NewServer (freshNode (MkConfig "a" {[ "a"%string := "a:1"%string ]} 0 0 0 None true 0 ∅ false)
        NewStore []))) (NotLeaderError "b" "b:1" "b:2") None (writeJSON StatusOK JNull))
    as (_&fw&H1&_&_&_&H2&_).
  - vm_compute. reflexivity.
  - exists fw. split; [exact H1|exact H2].
Defined.

(** ** Oversized values *)

(** A value over the limit is cut: the handler puts the first [maxBody]
    bytes of a longer body, another value than the one sent, and its reply to a
    successful Put does not depend on it. *)
Theorem oversized_put_cut send r key b s :
  maxBody < slen b →
  slen (limitBody b) = maxBody ∧ limitBody b ≠ b ∧
  rp_Status (putReply send r key b s (inl tt)) = StatusOK.
Proof.
  intros Hb. unfold limitBody, slen, maxBody in *.
  assert (Hl : length (take (Z.to_nat 1048576) b) = Z.to_nat 1048576) by (rewrite length_take; lia).
  split_and!; [rewrite Hl; lia| |done]. intros E. rewrite E in Hl. lia.
Qed.

Lemma oversized_put_cut_witness :
  let b := replicate (Z.to_nat 1048577) Byte.x00 in
  slen (limitBody b) = maxBody ∧ limitBody b ≠ b.
Proof.
  cbn zeta.
  destruct (oversized_put_cut (λ _, None) (MkRequest "PUT" [] "" "") "k"
    (replicate (Z.to_nat 1048577) Byte.x00)
    (NewServer (freshNode (MkConfig "a" ∅ 0 0 0 None true 0 ∅ false) NewStore [])))
    as (H1&H2&_); [|by split].
  unfold slen, maxBody. rewrite length_replicate. lia.
Defined.
