(* ===== verification/Faults.v ===== *)
(** raft/faults.go, and the in-process network of raft/rpc.go that uses it: the
    fault injector that isolates nodes and cuts pairs of them.  The abstract
    injector is a set of isolated nodes and a set of cut pairs. *)
From S2P Require Import Prelude Types Node Persist Membership Snapshot Log Election RaftOps.
Open Scope Z_scope.
Open Scope go_scope.

Record Faults := MkFaults {
  f_isolated : gmap string bool;
  f_blocked : gmap string (gmap string bool);
}.

Definition NewFaults : Faults := MkFaults ∅ ∅.

(** The methods take a pointer that may be nil: [None]. *)
Definition Allow (f : option Faults) (from to : string) : bool :=
  match f with
  | None => true
  | Some f =>
      if mapB (f_isolated f) from || mapB (f_isolated f) to then false
      else match f_blocked f !! from with
      | Some row => negb (mapB row to)
      | None => true
      end
  end.

Definition Isolate (id : string) (f : option Faults) : option Faults :=
  match f with
  | None => None
  | Some f => Some (MkFaults (<[id := true]> (f_isolated f)) (f_blocked f))
  end.

Definition Heal (id : string) (f : option Faults) : option Faults :=
  match f with
  | None => None
  | Some f => Some (MkFaults (delete id (f_isolated f)) (f_blocked f))
  end.

(** [if f.blocked[a] == nil { f.blocked[a] = make(...) }]. *)
Definition makeRow (a : string) (m : gmap string (gmap string bool)) :
    gmap string (gmap string bool) :=
  match m !! a with
  | None => <[a := ∅]> m
  | Some _ => m
  end.

(** [f.blocked[a][b] = true], when there is a row. *)
Definition block (a b : string) (m : gmap string (gmap string bool)) :
    gmap string (gmap string bool) :=
  match m !! a with
  | None => m
  | Some row => <[a := <[b := true]> row]> m
  end.

Definition Disconnect (a b : string) (f : option Faults) : option Faults :=
  match f with
  | None => None
  | Some f =>
      let m := makeRow a (f_blocked f) in
      let m := makeRow b m in
      let m := block a b m in
      let m := block b a m in
      Some (MkFaults (f_isolated f) m)
  end.

(** [if f.blocked[a] != nil { delete(f.blocked[a], b) }]. *)
Definition unblock (a b : string) (m : gmap string (gmap string bool)) :
    gmap string (gmap string bool) :=
  match m !! a with
  | None => m
  | Some row => <[a := delete b row]> m
  end.

Definition Reconnect (a b : string) (f : option Faults) : option Faults :=
  match f with
  | None => None
  | Some f => Some (MkFaults (f_isolated f) (unblock b a (unblock a b (f_blocked f))))
  end.

Definition HealAll (f : option Faults) : option Faults :=
  match f with
  | None => None
  | Some _ => Some (MkFaults ∅ ∅)
  end.

Definition Isolated (id : string) (f : option Faults) : bool :=
  match f with
  | None => false
  | Some f => mapB (f_isolated f) id
  end.

Inductive FaultOp :=
  | FIsolate (id : string) | FHeal (id : string)
  | FDisconnect (a b : string) | FReconnect (a b : string) | FHealAll.

Definition runFault (op : FaultOp) (f : option Faults) : option Faults :=
  match op with
  | FIsolate id => Isolate id f
  | FHeal id => Heal id f
  | FDisconnect a b => Disconnect a b f
  | FReconnect a b => Reconnect a b f
  | FHealAll => HealAll f
  end.

(** ** The abstract injector *)

Record AFaults := MkAFaults {
  af_isolated : gset string;
  af_cut : gset (string * string);
}.

Definition arunFault (op : FaultOp) (s : AFaults) : AFaults :=
  match op with
  | FIsolate id => MkAFaults ({[id]} ∪ af_isolated s) (af_cut s)
  | FHeal id => MkAFaults (af_isolated s ∖ {[id]}) (af_cut s)
  | FDisconnect a b => MkAFaults (af_isolated s) ({[(a, b); (b, a)]} ∪ af_cut s)
  | FReconnect a b => MkAFaults (af_isolated s) (af_cut s ∖ {[(a, b); (b, a)]})
  | FHealAll => MkAFaults ∅ ∅
  end.

(** ** The in-process network (raft/rpc.go) *)

Section memory.
Context {M : Type} `{!StateMachine M}.

Record MemoryNetwork := MkMemory {
  mn_nodes : gmap string (RaftNode M);
  mn_faults : option Faults;
}.

Definition NewMemoryNetwork : MemoryNetwork := MkMemory ∅ (Some NewFaults).

(** [Add]: registers a node and installs a memory transport on it. *)
Definition Add (n : RaftNode M) (net : MemoryNetwork) : MemoryNetwork :=
  MkMemory (<[nodeID n := SetTransport MemoryTransport n]> (mn_nodes net)) (mn_faults net).

Definition netIsolate (id : string) (net : MemoryNetwork) : MemoryNetwork :=
  MkMemory (mn_nodes net) (Isolate id (mn_faults net)).
Definition netHeal (id : string) (net : MemoryNetwork) : MemoryNetwork :=
  MkMemory (mn_nodes net) (Heal id (mn_faults net)).
Definition netDisconnect (a b : string) (net : MemoryNetwork) : MemoryNetwork :=
  MkMemory (mn_nodes net) (Disconnect a b (mn_faults net)).

(** The shared body of the three Send methods: [handle] is the handler of the
    peer, with its reply. *)
Definition memorySend {A} (from to : string) (handle : RaftNode M → RaftNode M * A)
    (net : MemoryNetwork) : MemoryNetwork * result A :=
  match mn_nodes net !! to with
  | Some peer =>
      if Allow (mn_faults net) from to then
        let '(peer', resp) := handle peer in
        (MkMemory (<[to := peer']> (mn_nodes net)) (mn_faults net), Ok resp)
      else (net, Err ErrUnreachable)
  | None => (net, Err ErrUnreachable)
  end.

Definition memorySendRequestVote from to req := memorySend from to (HandleRequestVote req).
Definition memorySendAppendEntries from to req := memorySend from to (HandleAppendEntries req).
Definition memorySendInstallSnapshot from to req := memorySend from to (HandleInstallSnapshot req).
End memory.

(** ** The programmable transport of raft/rpc.go *)

Record stubTransport := MkStub {
  stub_requestVote : option (string → RequestVoteRequest → result RequestVoteResponse);
  stub_appendEntries : option (string → AppendEntriesRequest → result AppendEntriesResponse);
  stub_installSnapshot : option (string → InstallSnapshotRequest → result InstallSnapshotResponse);
}.

(** A method whose function is nil reaches nobody. *)
Definition stubSend {A B} (f : option (string → A → result B)) (to : string) (req : A) : result B :=
  match f with
  | None => Err ErrUnreachable
  | Some f => f to req
  end.

Definition stubSendRequestVote (s : stubTransport) to req := stubSend (stub_requestVote s) to req.
Definition stubSendAppendEntries (s : stubTransport) to req := stubSend (stub_appendEntries s) to req.
Definition stubSendInstallSnapshot (s : stubTransport) to req :=
  stubSend (stub_installSnapshot s) to req.

(** A [FilterTransport] before its inner transport: [inner] is the call. *)
Definition filterSend {A} (from to : string) (faults : option Faults) (inner : result A) : result A :=
  if negb (Allow faults from to) then Err ErrUnreachable else inner.

(** ** Lemmas *)

(** The pair (a, b) is cut in a map of blocked rows. *)
Definition cutIn (m : gmap string (gmap string bool)) (a b : string) : bool :=
  mapB (default ∅ (m !! a)) b.

Lemma cutIn_makeRow x m a b : cutIn (makeRow x m) a b = cutIn m a b.
Proof.
  unfold cutIn, makeRow. destruct (m !! x) eqn:E; [done|].
  destruct (decide (x = a)) as [->|]; [by rewrite lookup_insert_eq, E|by rewrite lookup_insert_ne].
Qed.

Lemma row_makeRow x m a : is_Some (makeRow x m !! a) ↔ a = x ∨ is_Some (m !! a).
Proof.
  unfold makeRow. destruct (m !! x) eqn:E.
  - split; [by right|]. intros [->|?]; [by eexists|done].
  - destruct (decide (x = a)) as [->|].
    + rewrite lookup_insert_eq. split; [by left|by eexists].
    + rewrite lookup_insert_ne by done. split; [by right|]. intros [->|?]; done.
Qed.

Lemma cutIn_block x y m a b :
  is_Some (m !! x) →
  cutIn (block x y m) a b = bool_decide (a = x ∧ b = y) || cutIn m a b.
Proof.
  intros [row E]. unfold cutIn, block. rewrite E. destruct (decide (x = a)) as [->|Hx].
  - rewrite lookup_insert_eq, E. cbn. unfold mapB. destruct (decide (y = b)) as [->|Hy].
    + rewrite lookup_insert_eq. by rewrite bool_decide_eq_true_2.
    + rewrite lookup_insert_ne by done. rewrite bool_decide_eq_false_2; [done|]. naive_solver.
  - rewrite lookup_insert_ne by done. rewrite bool_decide_eq_false_2; [done|]. naive_solver.
Qed.

Lemma row_block x y m a : is_Some (block x y m !! a) ↔ is_Some (m !! a).
Proof.
  unfold block. destruct (m !! x) eqn:E; [|done]. destruct (decide (x = a)) as [->|].
  - rewrite lookup_insert_eq, E. split; by eexists.
  - by rewrite lookup_insert_ne.
Qed.

Lemma cutIn_unblock x y m a b :
  cutIn (unblock x y m) a b = negb (bool_decide (a = x ∧ b = y)) && cutIn m a b.
Proof.
  unfold cutIn, unblock. destruct (m !! x) as [row|] eqn:E.
  - destruct (decide (x = a)) as [->|Hx].
    + rewrite lookup_insert_eq, E. cbn. unfold mapB. destruct (decide (y = b)) as [->|Hy].
      * rewrite lookup_delete_eq. by rewrite bool_decide_eq_true_2.
      * rewrite lookup_delete_ne by done. rewrite bool_decide_eq_false_2; [done|]. naive_solver.
    + rewrite lookup_insert_ne by done. rewrite bool_decide_eq_false_2; [done|]. naive_solver.
  - destruct (decide (a = x ∧ b = y)) as [[-> ->]|Hn].
    + rewrite E. by rewrite bool_decide_eq_true_2.
    + by rewrite bool_decide_eq_false_2.
Qed.

(** The concrete injector represents the abstract one. *)
Definition frel (f : Faults) (s : AFaults) : Prop :=
  (∀ i, mapB (f_isolated f) i = bool_decide (i ∈ af_isolated s)) ∧
  (∀ a b, cutIn (f_blocked f) a b = bool_decide ((a, b) ∈ af_cut s)).

Lemma mapB_insert (m : gmap string bool) i j v :
  mapB (<[i := v]> m) j = if decide (i = j) then v else mapB m j.
Proof.
  unfold mapB. case_decide as Hd; [by rewrite Hd, lookup_insert_eq|by rewrite lookup_insert_ne].
Qed.

Lemma mapB_delete (m : gmap string bool) i j :
  mapB (delete i m) j = if decide (i = j) then false else mapB m j.
Proof.
  unfold mapB. case_decide as Hd; [by rewrite Hd, lookup_delete_eq|by rewrite lookup_delete_ne].
Qed.

Lemma frel_step op f s :
  frel f s → ∃ f', runFault op (Some f) = Some f' ∧ frel f' (arunFault op s).
Proof.
  intros [Hi Hc]. destruct op as [i|i|a b|a b|]; cbn; eexists; (split; [done|]); split; cbn;
    try done.
  - intros j. rewrite mapB_insert, Hi. case_decide; [rewrite bool_decide_eq_true_2; [done|set_solver]|].
    apply bool_decide_ext. set_solver.
  - intros j. rewrite mapB_delete, Hi. case_decide; [rewrite bool_decide_eq_false_2; [done|set_solver]|].
    apply bool_decide_ext. set_solver.
  - intros x y. rewrite !cutIn_block, !cutIn_makeRow, Hc.
    + destruct (decide (x = b ∧ y = a)) as [[-> ->]|H1].
      { rewrite (bool_decide_eq_true_2 (b = b ∧ a = a)) by done. symmetry.
        apply bool_decide_eq_true_2. set_solver. }
      destruct (decide (x = a ∧ y = b)) as [[-> ->]|H2].
      { rewrite (bool_decide_eq_true_2 (a = a ∧ b = b)) by done.
        rewrite orb_true_r. symmetry. apply bool_decide_eq_true_2. set_solver. }
      rewrite !(bool_decide_eq_false_2 (_ ∧ _)) by done. cbn. apply bool_decide_ext.
      rewrite elem_of_union, elem_of_union, !elem_of_singleton. naive_solver.
    + apply row_makeRow. right. apply row_makeRow. by left.
    + apply row_block, row_makeRow. by left.
  - intros x y. rewrite !cutIn_unblock, Hc.
    destruct (decide (x = b ∧ y = a)) as [[-> ->]|H1].
    { rewrite (bool_decide_eq_true_2 (b = b ∧ a = a)) by done. cbn. symmetry.
      apply bool_decide_eq_false_2. set_solver. }
    destruct (decide (x = a ∧ y = b)) as [[-> ->]|H2].
    { rewrite (bool_decide_eq_true_2 (a = a ∧ b = b)) by done. cbn. rewrite andb_false_r.
      symmetry. apply bool_decide_eq_false_2. set_solver. }
    rewrite !(bool_decide_eq_false_2 (_ ∧ _)) by done. cbn. apply bool_decide_ext.
    rewrite elem_of_difference, elem_of_union, !elem_of_singleton. naive_solver.
Qed.

Lemma frel_run ops f s :
  frel f s →
  ∃ f', foldl (λ f op, runFault op f) (Some f) ops = Some f' ∧
    frel f' (foldl (λ s op, arunFault op s) s ops).
Proof.
  revert f s. induction ops as [|op ops IH]; intros f s H; [by exists f|].
  destruct (frel_step op f s H) as (f'&E&H'). cbn [foldl]. rewrite E. by apply IH.
Qed.

Lemma frel_init : frel NewFaults (MkAFaults ∅ ∅).
Proof. split; [intros i|intros a b]; symmetry; apply bool_decide_eq_false_2; set_solver. Qed.

Lemma Allow_cutIn f from to :
  Allow (Some f) from to =
  negb (mapB (f_isolated f) from || mapB (f_isolated f) to) && negb (cutIn (f_blocked f) from to).
Proof.
  unfold Allow, cutIn. destruct (_ || _); [done|]. cbn. destruct (f_blocked f !! from); done.
Qed.

(** The fault injector: after any sequence of operations, an RPC is let
    through exactly when neither end is isolated and the pair is not cut, for the
    sets of isolated nodes and of cut pairs the operations describe. *)
Theorem faults_refine ops from to :
  let f := foldl (λ f op, runFault op f) (Some NewFaults) ops in
  let s := foldl (λ s op, arunFault op s) (MkAFaults ∅ ∅) ops in
  Allow f from to =
    bool_decide (from ∉ af_isolated s ∧ to ∉ af_isolated s ∧ (from, to) ∉ af_cut s) ∧
  Isolated from f = bool_decide (from ∈ af_isolated s).
Proof.
  cbn zeta. destruct (frel_run ops _ _ frel_init) as (f'&->&[Hi Hc]).
  generalize dependent (foldl (λ s op, arunFault op s) (MkAFaults ∅ ∅) ops). intros s Hi Hc.
  split; [|apply Hi]. rewrite Allow_cutIn, !Hi, Hc.
  destruct (decide (from ∈ af_isolated s)); [|destruct (decide (to ∈ af_isolated s));
    [|destruct (decide ((from, to) ∈ af_cut s))]];
    repeat first [rewrite (bool_decide_eq_true_2 (from ∈ _)) by done
      |rewrite (bool_decide_eq_false_2 (from ∈ _)) by done
      |rewrite (bool_decide_eq_true_2 (to ∈ _)) by done
      |rewrite (bool_decide_eq_false_2 (to ∈ _)) by done
      |rewrite (bool_decide_eq_true_2 ((from, to) ∈ _)) by done
      |rewrite (bool_decide_eq_false_2 ((from, to) ∈ _)) by done]; cbn;
    rewrite ?orb_true_r; cbn; symmetry;
    first [apply bool_decide_eq_true_2; done|apply bool_decide_eq_false_2; tauto].
Qed.

Lemma arun_symmetric ops a b :
  let s := foldl (λ s op, arunFault op s) (MkAFaults ∅ ∅) ops in
  (a, b) ∈ af_cut s ↔ (b, a) ∈ af_cut s.
Proof.
  cbn zeta. induction ops as [|op ops IH] using rev_ind; [set_solver|].
  rewrite foldl_snoc. generalize dependent (foldl (λ s op, arunFault op s) (MkAFaults ∅ ∅) ops).
  intros s IH. destruct op; cbn; try done.
  - rewrite !elem_of_union, !elem_of_singleton. naive_solver.
  - rewrite !elem_of_difference, !elem_of_union, !elem_of_singleton. naive_solver.
Qed.

Section memory_spec.
Context {M : Type} `{!StateMachine M}.

(** An RPC over the in-process network either fails and changes no node, or
    runs the handler of its target and changes that node only; it fails exactly
    when the target is not registered or the injector forbids the pair, in either
    direction alike. *)
Theorem memory_send_spec {A} ops from to (handle : RaftNode M → RaftNode M * A) nodes :
  let f := foldl (λ f op, runFault op f) (Some NewFaults) ops in
  let net := MkMemory nodes f in
  Allow f from to = Allow f to from ∧
  match memorySend from to handle net with
  | (net', Err e) => net' = net ∧ e = ErrUnreachable ∧
                     (nodes !! to = None ∨ Allow f from to = false)
  | (net', Ok resp) =>
      Allow f from to = true ∧ mn_faults net' = f ∧
      ∃ peer, nodes !! to = Some peer ∧ resp = (handle peer).2 ∧
        mn_nodes net' = <[to := (handle peer).1]> nodes
  end.
Proof.
  cbn zeta. split.
  - destruct (frel_run ops _ _ frel_init) as (f'&->&[Hi Hc]). rewrite !Allow_cutIn, !Hc.
    f_equal; [f_equal; apply orb_comm|]. f_equal. apply bool_decide_ext, arun_symmetric.
  - generalize (foldl (λ f op, runFault op f) (Some NewFaults) ops). intros f.
    unfold memorySend. cbn. destruct (nodes !! to) as [peer|] eqn:E; [|by auto].
    destruct (Allow f from to) eqn:Ea; [|by auto].
    destruct (handle peer) as [p' r] eqn:Eh. split_and!; [done..|].
    exists peer. by rewrite Eh.
Qed.
End memory_spec.
