(* ===== verification/Grpc.v ===== *)
(** raft/grpc.go: the conversions between the messages of the package and their
    wire form, the dial cache of the client, and the service methods.  The wire
    form has the fields of proto/raftkv.proto; its integers are 64 bits wide.
    What gRPC does between a client and a server (encoding, transport) delivers
    the wire message as it was sent or not at all, so it has no definition. *)
From S2P Require Import Prelude Types Node Persist Membership Snapshot Log Election RaftOps LogSpec Demo.
Open Scope Z_scope.
Open Scope go_scope.

(** ** Wire messages *)

Record PbLogEntry := MkPbEntry {
  pe_Term : Z; pe_Index : Z; pe_Command : bytes;
  pe_ChangeType : string; pe_ChangeId : string; pe_ChangeAddr : string;
  pe_ChangeHttp : string; pe_ChangePeers : gmap string string;
  pe_ChangeHttpAddrs : gmap string string;
}.

Record PbVoteRequest := MkPbVoteReq {
  pv_Term : Z; pv_CandidateId : string; pv_LastLogIndex : Z; pv_LastLogTerm : Z;
}.

Record PbVoteResponse := MkPbVoteResp { pvr_Term : Z; pvr_VoteGranted : bool }.

Record PbAppendRequest := MkPbAppendReq {
  pa_Term : Z; pa_LeaderId : string; pa_PrevLogIndex : Z; pa_PrevLogTerm : Z;
  pa_Entries : list PbLogEntry; pa_LeaderCommit : Z;
}.

Record PbAppendResponse := MkPbAppendResp { par_Term : Z; par_Success : bool }.

Record PbInstallRequest := MkPbInstallReq {
  pi_Term : Z; pi_LeaderId : string; pi_LastIncludedIndex : Z; pi_LastIncludedTerm : Z;
  pi_Data : bytes; pi_Peers : gmap string string; pi_HttpAddrs : gmap string string;
}.

Record PbInstallResponse := MkPbInstallResp { pir_Term : Z }.

(** ** Conversions *)

Definition voteReqToProto (r : RequestVoteRequest) : PbVoteRequest :=
  MkPbVoteReq (int64 (rv_Term r)) (rv_CandidateID r) (int64 (rv_LastLogIndex r))
    (int64 (rv_LastLogTerm r)).

Definition voteReqFromProto (r : PbVoteRequest) : RequestVoteRequest :=
  MkVoteReq (int64 (pv_Term r)) (pv_CandidateId r) (int64 (pv_LastLogIndex r))
    (int64 (pv_LastLogTerm r)).

Definition voteRespToProto (r : RequestVoteResponse) : PbVoteResponse :=
  MkPbVoteResp (int64 (rvr_Term r)) (rvr_VoteGranted r).

Definition voteRespFromProto (r : PbVoteResponse) : RequestVoteResponse :=
  MkVoteResp (int64 (pvr_Term r)) (pvr_VoteGranted r).

(** The loop body of [appendReqToProto]. *)
Definition entryToProto (e : LogEntry) : PbLogEntry :=
  match e_Change e with
  | None => MkPbEntry (int64 (e_Term e)) (int64 (e_Index e)) (e_Command e) "" "" "" "" ∅ ∅
  | Some ch =>
      MkPbEntry (int64 (e_Term e)) (int64 (e_Index e)) (e_Command e) (ch_Type ch) (ch_ID ch)
        (ch_Addr ch) (ch_HTTP ch) (ch_Peers ch) (ch_HTTPAddrs ch)
  end.

(** The loop body of [appendReqFromProto]. *)
Definition entryFromProto (e : PbLogEntry) : LogEntry :=
  MkEntry (int64 (pe_Term e)) (int64 (pe_Index e)) (pe_Command e)
    (if decide (pe_ChangeType e ≠ ""%string ∨ (0 < size (pe_ChangePeers e))%nat)
     then Some (MkChange (pe_ChangeType e) (pe_ChangeId e) (pe_ChangeAddr e) (pe_ChangeHttp e)
                  (pe_ChangePeers e) (pe_ChangeHttpAddrs e))
     else None).

Definition appendReqToProto (r : AppendEntriesRequest) : PbAppendRequest :=
  MkPbAppendReq (int64 (ae_Term r)) (ae_LeaderID r) (int64 (ae_PrevLogIndex r))
    (int64 (ae_PrevLogTerm r)) (entryToProto <$> ae_Entries r) (int64 (ae_LeaderCommit r)).

Definition appendReqFromProto (r : PbAppendRequest) : AppendEntriesRequest :=
  MkAppendReq (int64 (pa_Term r)) (pa_LeaderId r) (int64 (pa_PrevLogIndex r))
    (int64 (pa_PrevLogTerm r)) (entryFromProto <$> pa_Entries r) (int64 (pa_LeaderCommit r)).

Definition appendRespToProto (r : AppendEntriesResponse) : PbAppendResponse :=
  MkPbAppendResp (int64 (aer_Term r)) (aer_Success r).

Definition appendRespFromProto (r : PbAppendResponse) : AppendEntriesResponse :=
  MkAppendResp (int64 (par_Term r)) (par_Success r).

Definition installReqToProto (r : InstallSnapshotRequest) : PbInstallRequest :=
  MkPbInstallReq (int64 (is_Term r)) (is_LeaderID r) (int64 (is_LastIncludedIndex r))
    (int64 (is_LastIncludedTerm r)) (is_Data r) (is_Peers r) (is_HTTP r).

Definition installReqFromProto (r : PbInstallRequest) : InstallSnapshotRequest :=
  MkInstallReq (int64 (pi_Term r)) (pi_LeaderId r) (int64 (pi_LastIncludedIndex r))
    (int64 (pi_LastIncludedTerm r)) (pi_Data r) (pi_Peers r) (pi_HttpAddrs r).

Definition installRespToProto (r : InstallSnapshotResponse) : PbInstallResponse :=
  MkPbInstallResp (int64 (isr_Term r)).

Definition installRespFromProto (r : PbInstallResponse) : InstallSnapshotResponse :=
  MkInstallResp (int64 (pir_Term r)).

(** ** The client's dial cache *)

(** [client]: a cached connection, a new one, or an error; [dial] says whether
    [grpc.NewClient] accepts an address. *)
Definition client (dial : string → bool) (to : string)
    (addrs : gmap string string) (conns : gset string) : gset string * result string :=
  if decide (to ∈ conns) then (conns, Ok to)
  else match addrs !! to with
  | None => (conns, Err ErrUnreachable)
  | Some a =>
      if decide (a = ""%string) then (conns, Err ErrUnreachable)
      else if dial a then ({[to]} ∪ conns, Ok to)
      else (conns, Err (ErrNew "dial"))
  end.

(** ** RPCs end to end

    The service method of the server between the two conversions of the client:
    [sent] says that the request and the reply both arrived. *)
Section rpc.
Context {M : Type} `{!StateMachine M}.
Implicit Types n : RaftNode M.

Definition serveRequestVote (req : PbVoteRequest) n : RaftNode M * PbVoteResponse :=
  let '(n', resp) := HandleRequestVote (voteReqFromProto req) n in (n', voteRespToProto resp).

Definition serveAppendEntries (req : PbAppendRequest) n : RaftNode M * PbAppendResponse :=
  let '(n', resp) := HandleAppendEntries (appendReqFromProto req) n in
  (n', appendRespToProto resp).

Definition serveInstallSnapshot (req : PbInstallRequest) n : RaftNode M * PbInstallResponse :=
  let '(n', resp) := HandleInstallSnapshot (installReqFromProto req) n in
  (n', installRespToProto resp).

Definition grpcRequestVote (req : RequestVoteRequest) n : RaftNode M * RequestVoteResponse :=
  let '(n', resp) := serveRequestVote (voteReqToProto req) n in (n', voteRespFromProto resp).

Definition grpcAppendEntries (req : AppendEntriesRequest) n : RaftNode M * AppendEntriesResponse :=
  let '(n', resp) := serveAppendEntries (appendReqToProto req) n in
  (n', appendRespFromProto resp).

Definition grpcInstallSnapshot (req : InstallSnapshotRequest) n :
    RaftNode M * InstallSnapshotResponse :=
  let '(n', resp) := serveInstallSnapshot (installReqToProto req) n in
  (n', installRespFromProto resp).
End rpc.

(** ** Theorems *)

(** An entry whose integers fit and whose change, if any, can be told from none. *)
Definition entry_ok (e : LogEntry) : Prop :=
  in64 (e_Term e) ∧ in64 (e_Index e) ∧
  ∀ ch, e_Change e = Some ch → ch_Type ch ≠ ""%string ∨ ch_Peers ch ≠ ∅.

Definition vote_ok (r : RequestVoteRequest) : Prop :=
  in64 (rv_Term r) ∧ in64 (rv_LastLogIndex r) ∧ in64 (rv_LastLogTerm r).

Definition append_ok (r : AppendEntriesRequest) : Prop :=
  in64 (ae_Term r) ∧ in64 (ae_PrevLogIndex r) ∧ in64 (ae_PrevLogTerm r) ∧
  in64 (ae_LeaderCommit r) ∧ Forall entry_ok (ae_Entries r).

Definition install_ok (r : InstallSnapshotRequest) : Prop :=
  in64 (is_Term r) ∧ in64 (is_LastIncludedIndex r) ∧ in64 (is_LastIncludedTerm r).

Lemma entry_roundtrip e : entry_ok e → entryFromProto (entryToProto e) = e.
Proof.
  intros (Ht&Hi&Hc). unfold entryFromProto, entryToProto.
  destruct e as [t i c [ch|]]; cbn in *; rewrite !int64_twice by done.
  - rewrite decide_True; [by destruct ch|].
    destruct (Hc ch eq_refl) as [?|?]; [by left|right]. by apply map_size_pos.
  - rewrite decide_False; [done|]. rewrite map_size_empty. intros [?|?]; [done|lia].
Qed.

Lemma entries_roundtrip es :
  Forall entry_ok es → entryFromProto <$> (entryToProto <$> es) = es.
Proof.
  induction 1 as [|e es He _ IH]; [done|]. cbn. by rewrite entry_roundtrip, IH.
Qed.

(** [C21] The wire form loses nothing: requests and replies whose integers fit
    64 bits (and whose changes carry a type or a configuration) come back as they
    were from their wire form. *)
Theorem wire_roundtrip :
  (∀ r, vote_ok r → voteReqFromProto (voteReqToProto r) = r) ∧
  (∀ r, append_ok r → appendReqFromProto (appendReqToProto r) = r) ∧
  (∀ r, install_ok r → installReqFromProto (installReqToProto r) = r) ∧
  (∀ r, in64 (rvr_Term r) → voteRespFromProto (voteRespToProto r) = r) ∧
  (∀ r, in64 (aer_Term r) → appendRespFromProto (appendRespToProto r) = r) ∧
  (∀ r, in64 (isr_Term r) → installRespFromProto (installRespToProto r) = r).
Proof.
  split_and!.
  - intros [] (?&?&?). unfold voteReqFromProto, voteReqToProto. cbn in *. by rewrite !int64_twice.
  - intros [] (?&?&?&?&?). unfold appendReqFromProto, appendReqToProto. cbn in *.
    rewrite entries_roundtrip by done. by rewrite !int64_twice.
  - intros [] (?&?&?). unfold installReqFromProto, installReqToProto. cbn in *. by rewrite !int64_twice.
  - intros [] ?. unfold voteRespFromProto, voteRespToProto. cbn in *. by rewrite !int64_twice.
  - intros [] ?. unfold appendRespFromProto, appendRespToProto. cbn in *. by rewrite !int64_twice.
  - intros [] ?. unfold installRespFromProto, installRespToProto. cbn in *. by rewrite !int64_twice.
Qed.

Section transparency.
Context {M : Type} `{!StateMachine M}.
Implicit Types n : RaftNode M.

Lemma vote_resp_term req n :
  rvr_Term (HandleRequestVote req n).2 = Z.max (currentTerm n) (rv_Term req).
Proof.
  unfold HandleRequestVote. case_decide; [cbn; lia|].
  assert (E : currentTerm (if decide (rv_Term req > currentTerm n)
    then becomeFollowerLocked (rv_Term req) "" n else n) = rv_Term req).
  { case_decide; [|lia]. unfold becomeFollowerLocked. rewrite decide_True by done.
    destruct (persistLocked_shape (set_votedFor "" (set_currentTerm (rv_Term req) n))) as [s ->].
    done. }
  cbn zeta. rewrite E. destruct (bool_decide _ && _); cbn; lia.
Qed.

Lemma install_resp_term req n :
  isr_Term (HandleInstallSnapshot req n).2 = Z.max (currentTerm n) (is_Term req).
Proof.
  unfold HandleInstallSnapshot. case_decide; [cbn; lia|].
  pose proof (acceptLeader_term (is_Term req) (is_LeaderID req) n ltac:(lia)) as E.
  cbn zeta. rewrite E. case_decide; cbn; lia.
Qed.

(** [C22] gRPC is transparent: an RPC that arrives, through both conversions and
    the service method, does to the target node and answers what a direct call of
    the handler does, for terms and indexes that fit 64 bits. *)
Theorem grpc_transparent n :
  in64 (currentTerm n) →
  (∀ req, vote_ok req → grpcRequestVote req n = HandleRequestVote req n) ∧
  (∀ req, append_ok req → grpcAppendEntries req n = HandleAppendEntries req n) ∧
  (∀ req, install_ok req → grpcInstallSnapshot req n = HandleInstallSnapshot req n).
Proof.
  intros Hn. split_and!; intros req Hr.
  - unfold grpcRequestVote, serveRequestVote.
    assert (voteReqFromProto (voteReqToProto req) = req) as ->.
    { destruct req. destruct Hr as (?&?&?). unfold voteReqFromProto, voteReqToProto.
      cbn in *. by rewrite !int64_twice. }
    pose proof (vote_resp_term req n) as Ht. destruct (HandleRequestVote req n) as [n' [t g]].
    cbn in Ht. unfold voteRespFromProto, voteRespToProto. cbn. destruct Hr as (?&_).
    rewrite int64_twice; [done|]. subst t. unfold in64 in *. lia.
  - unfold grpcAppendEntries, serveAppendEntries.
    assert (appendReqFromProto (appendReqToProto req) = req) as ->.
    { destruct req. destruct Hr as (?&?&?&?&?). unfold appendReqFromProto, appendReqToProto.
      cbn in *. rewrite entries_roundtrip by done. by rewrite !int64_twice. }
    pose proof (append_resp_term req n) as Ht. destruct (HandleAppendEntries req n) as [n' [t g]].
    cbn in Ht. unfold appendRespFromProto, appendRespToProto. cbn. destruct Hr as (?&_).
    rewrite int64_twice; [done|]. subst t. unfold in64 in *. lia.
  - unfold grpcInstallSnapshot, serveInstallSnapshot.
    assert (installReqFromProto (installReqToProto req) = req) as ->.
    { destruct req. destruct Hr as (?&?&?). unfold installReqFromProto, installReqToProto.
      cbn in *. by rewrite !int64_twice. }
    pose proof (install_resp_term req n) as Ht. destruct (HandleInstallSnapshot req n) as [n' [t]].
    cbn in Ht. unfold installRespFromProto, installRespToProto. cbn. destruct Hr as (?&_).
    rewrite int64_twice; [done|]. subst t. unfold in64 in *. lia.
Qed.
End transparency.

(** ** Witnesses *)

Definition wireReq : AppendEntriesRequest :=
  MkAppendReq 3 "a" 7 2
    [MkEntry 3 8 [Byte.x78] None;
     MkEntry 3 9 [] (Some (MkChange ChangeAdd "d" "d:9000" "" {[ "d" := "d:9000" ]} ∅))] 7.

Lemma wireReq_ok : append_ok wireReq.
Proof.
  split_and!; [unfold in64; cbn; lia..|].
  apply Forall_cons. split; [split_and!; [unfold in64; cbn; lia..|done]|].
  apply Forall_cons. split; [|by apply Forall_nil].
  split_and!; [unfold in64; cbn; lia..|]. intros ch [= <-]. by left.
Qed.

Lemma wire_roundtrip_witness : appendReqFromProto (appendReqToProto wireReq) = wireReq.
Proof. destruct wire_roundtrip as (_&H&_). apply H. exact wireReq_ok. Defined.

Lemma grpc_transparent_witness :
  grpcAppendEntries wireReq (solo 0 soloOps) = HandleAppendEntries wireReq (solo 0 soloOps).
Proof.
  destruct (grpc_transparent (solo 0 soloOps)) as (_&H&_).
  - vm_compute. split; discriminate || reflexivity.
  - apply H. exact wireReq_ok.
Defined.
