(* ===== verification/Cluster.v ===== *)
(** cluster/cluster.go: the in-process cluster of [-dev] with its chaos and
    membership operations, and the replies of the control plane in
    cluster/http.go.

    A member holds the server of its node; what a node's data directory holds
    after the node has stopped is kept in [cl_disks].  The HTTP and gRPC servers
    and their sockets are not modelled: whether listening succeeds is a
    parameter, and the cause is left out of the text of its error.  Each method runs as one step, but for what others do to the nodes
    while Add and Remove wait, which is part of their schedule. *)
From S2P Require Import Prelude Types Utf8 Json JsonSpec Marshal DurableJson KvStore Text Node Persist Membership Snapshot Log Election RaftOps Read Machine Client Kv Faults Http.
Open Scope Z_scope.
Open Scope go_scope.

(** ** State *)

Record ClusterConfig := MkClusterConfig {
  cc_IDs : list string;
  cc_RaftAddrs : gmap string string;
  cc_HTTPAddrs : gmap string string;
  cc_DataDir : string;
}.

Definition DevConfig : ClusterConfig :=
  MkClusterConfig ["n1"; "n2"; "n3"]%string
    {[ "n1" := "127.0.0.1:19101"; "n2" := "127.0.0.1:19102"; "n3" := "127.0.0.1:19103" ]}%string
    {[ "n1" := "127.0.0.1:18101"; "n2" := "127.0.0.1:18102"; "n3" := "127.0.0.1:18103" ]}%string
    "data".

Record Member := MkMember { mb_KV : Server; mb_Crashed : bool }.

(** [cl_http] says whether an HTTP handler was given. *)
Record Cluster := MkCluster {
  cl_cfg : ClusterConfig;
  cl_faults : option Faults;
  cl_http : bool;
  cl_members : gmap string Member;
  cl_disks : gmap string Storage;
}.

Definition New (cfg : ClusterConfig) (http : bool) : Cluster :=
  MkCluster cfg (Some NewFaults) http ∅ ∅.

Definition set_faults (f : option Faults) (c : Cluster) : Cluster :=
  MkCluster (cl_cfg c) f (cl_http c) (cl_members c) (cl_disks c).
Definition set_members (m : gmap string Member) (c : Cluster) : Cluster :=
  MkCluster (cl_cfg c) (cl_faults c) (cl_http c) m (cl_disks c).
Definition set_cfg (cfg : ClusterConfig) (c : Cluster) : Cluster :=
  MkCluster cfg (cl_faults c) (cl_http c) (cl_members c) (cl_disks c).

(** A member that runs. *)
Definition running (id : string) (c : Cluster) : bool :=
  match cl_members c !! id with
  | Some m => negb (mb_Crashed m)
  | None => false
  end.

(** ** Starting members *)

(** The configuration of the node of a member, and its data directory. *)
Definition memberConfig (id : string) (join : bool) (raftAddr : string) (c : Cluster) : Config :=
  let cfg := cl_cfg c in
  let http := mapS (cc_HTTPAddrs cfg) id in
  let peerAddrs := if join then {[id := raftAddr]} else cc_RaftAddrs cfg in
  let httpAddrs := if join then (if decide (http = ""%string) then ∅ else {[id := http]})
                   else cc_HTTPAddrs cfg in
  let st := if decide (cc_DataDir cfg = ""%string) then None
            else Some (default (MkStorage zeroDurable false []) (cl_disks c !! id)) in
  let d := DefaultConfig id peerAddrs in
  MkConfig id peerAddrs (cfg_ElectionTimeoutMin d) (cfg_ElectionTimeoutMax d)
    (cfg_HeartbeatInterval d) st true (cfg_SnapshotThreshold d) httpAddrs join.

(** The server of a member that starts. *)
Definition memberServer (id : string) (join : bool) (raftAddr : string) (src : list Z)
    (c : Cluster) : Server :=
  let kvSrv := NewServer (NewNode (memberConfig id join raftAddr c) NewStore src) in
  let kvSrv := SetHTTPAddrs (cc_HTTPAddrs (cl_cfg c)) kvSrv in
  let node := SetTransport (FilterTransport id (NewGRPCTransport (cc_RaftAddrs (cl_cfg c))))
                (srv_raft kvSrv) in
  with_raft (Start (SetPeerHook node)) kvSrv.

(** [listens] says whether one of the attempts to listen succeeds. *)
Definition startMemberJoin (id : string) (join listens : bool) (src : list Z) (c : Cluster) :
    Cluster * result unit :=
  if running id c then (c, Err (ErrNew (id +:+ " is already running")))
  else if negb (cl_http c) then (c, Err (ErrNew "missing HTTP handler"))
  else match cc_RaftAddrs (cl_cfg c) !! id with
  | None => (c, Err (ErrNew ("no raft address for " +:+ id)))
  | Some raftAddr =>
      let srv := memberServer id join raftAddr src c in
      if negb listens then (c, Err (ErrNew ("grpc listen " +:+ raftAddr)))
      else (set_members (<[id := MkMember srv false]> (cl_members c)) c, Ok tt)
  end.

Definition startMember (id : string) (listens : bool) (src : list Z) (c : Cluster) :
    Cluster * result unit := startMemberJoin id false listens src c.

(** ** Chaos *)

Definition unknownNode (id : string) : Error := ErrNew ("unknown node " +:+ id).

Definition mustExist (id : string) (c : Cluster) : bool :=
  bool_decide (is_Some (cl_members c !! id)).

Definition Isolate (id : string) (c : Cluster) : Cluster * result unit :=
  if mustExist id c then (set_faults (Faults.Isolate id (cl_faults c)) c, Ok tt)
  else (c, Err (unknownNode id)).

Definition Heal (id : string) (c : Cluster) : Cluster * result unit :=
  if mustExist id c then (set_faults (Faults.Heal id (cl_faults c)) c, Ok tt)
  else (c, Err (unknownNode id)).

Definition Partition (a b : string) (c : Cluster) : Cluster * result unit :=
  if negb (mustExist a c) then (c, Err (unknownNode a))
  else if negb (mustExist b c) then (c, Err (unknownNode b))
  else (set_faults (Faults.Disconnect a b (cl_faults c)) c, Ok tt).

Definition HealAll (c : Cluster) : Cluster := set_faults (Faults.HealAll (cl_faults c)) c.

(** The member stops and its connections are closed; its data directory keeps what its node has saved. *)
Definition Crash (id : string) (c : Cluster) : Cluster * result unit :=
  match cl_members c !! id with
  | None => (c, Err (unknownNode id))
  | Some m =>
      if mb_Crashed m then (c, Ok tt)
      else
        let n := RaftOps.Stop (srv_raft (mb_KV m)) in
        let n := set_transport (Close <$> transport n) n in
        let m := MkMember (with_raft n (mb_KV m)) true in
        let disks := match storage n with
                     | Some st => <[id := st]> (cl_disks c)
                     | None => cl_disks c
                     end in
        (MkCluster (cl_cfg c) (cl_faults c) (cl_http c) (<[id := m]> (cl_members c)) disks, Ok tt)
  end.

Definition Restart (id : string) (listens : bool) (src : list Z) (c : Cluster) :
    Cluster * result unit :=
  match cl_members c !! id with
  | None => (c, Err (unknownNode id))
  | Some m =>
      if negb (mb_Crashed m)
      then (c, Err (ErrNew (id +:+ " is still running; crash it first")))
      else startMember id listens src (set_faults (Faults.Heal id (cl_faults c)) c)
  end.

(** [Stop] and [Start] of the whole cluster; [listens] is asked for each member. *)
Definition Stop (c : Cluster) : Cluster :=
  HealAll (foldl (λ c id, (Crash id c).1) c (cc_IDs (cl_cfg c))).

Fixpoint startAll (ids : list string) (listens : string → bool) (c : Cluster) :
    Cluster * result unit :=
  match ids with
  | [] => (c, Ok tt)
  | id :: ids' =>
      match startMember id (listens id) [] c with
      | (c, Ok _) => startAll ids' listens c
      | (c, Err e) => (Stop c, Err e)
      end
  end.

Definition Start (listens : string → bool) (c : Cluster) : Cluster * result unit :=
  startAll (cc_IDs (cl_cfg c)) listens c.

(** ** Views *)

Record View := MkView {
  v_ID : string; v_State : string; v_Term : Z; v_LeaderID : string; v_LeaderHTTP : string;
  v_CommitIndex : Z; v_SnapshotIndex : Z; v_LogLen : Z; v_KVSize : Z; v_Peers : list string;
  v_HTTP : string; v_Isolated : bool; v_Crashed : bool;
}.

(** One round of [Snapshot]. *)
Definition viewOf (c : Cluster) (id : string) : View :=
  let http := mapS (cc_HTTPAddrs (cl_cfg c)) id in
  let isolated := Faults.Isolated id (cl_faults c) in
  match cl_members c !! id with
  | Some (MkMember srv false) =>
      let st := getStatus srv in
      MkView id (ss_State st) (ss_Term st) (ss_LeaderID st) (ss_LeaderHTTP st)
        (ss_CommitIndex st) (ss_SnapshotIndex st) (ss_LogLen st) (ss_KVSize st) (ss_Peers st)
        http isolated false
  | _ => MkView id "crashed" 0 "" "" 0 0 0 0 [] http isolated true
  end.

Definition Snapshot (c : Cluster) : list View := map (viewOf c) (cc_IDs (cl_cfg c)).

(** The two loops of [LeaderHTTP], over one snapshot. *)
Definition LeaderHTTP (c : Cluster) : string :=
  let vs := Snapshot c in
  let leads v := bool_decide (v_State v = "leader"%string) && negb (v_Crashed v) in
  match find (λ v, leads v && negb (v_Isolated v)) vs with
  | Some v => v_HTTP v
  | None => match find leads vs with
            | Some v => v_HTTP v
            | None => ""
            end
  end.

(** The first id whose member runs and leads. *)
Definition leaderNode (c : Cluster) : option string :=
  find (λ id, match cl_members c !! id with
              | Some (MkMember srv false) => IsLeader (srv_raft srv)
              | _ => false
              end) (cc_IDs (cl_cfg c)).

(** ** Membership *)

Definition needAddrs (id : string) : Error := ErrNew ("need raft and http addresses for " +:+ id).

(** [fmt.Sprintf("127.0.0.1:%d", z)] for an [int]. *)
Definition localAddr (z : Z) : string :=
  "127.0.0.1:" +:+ string_of_text (printInt (int64 z)).

Definition defaultDevAddrs (id : string) : result (string * string) :=
  match text_of_string id with
  | 0x6E :: t =>
      match Atoi t with
      | Some n => if decide (n ≤ 0) then Err (needAddrs id)
                  else Ok (localAddr (19100 + n), localAddr (18100 + n))
      | None => Err (needAddrs id)
      end
  | _ => Err (needAddrs id)
  end.

(** The addresses [Add] uses. *)
Definition addAddrs (id raftAddr httpAddr : string) : result (string * string) :=
  if decide (raftAddr = ""%string ∨ httpAddr = ""%string) then
    match defaultDevAddrs id with
    | Err e => Err e
    | Ok (r, h) => Ok (if decide (raftAddr = ""%string) then r else raftAddr,
                       if decide (httpAddr = ""%string) then h else httpAddr)
    end
  else Ok (raftAddr, httpAddr).

(** The configuration with a member more. *)
Definition withMember (id raftAddr httpAddr : string) (cfg : ClusterConfig) : ClusterConfig :=
  MkClusterConfig (if decide (id ∈ cc_IDs cfg) then cc_IDs cfg else cc_IDs cfg ++ [id])
    (<[id := raftAddr]> (cc_RaftAddrs cfg)) (<[id := httpAddr]> (cc_HTTPAddrs cfg))
    (cc_DataDir cfg).

(** What other goroutines do to the nodes. *)
Definition onMember (id : string) (ops : list NodeOp) (c : Cluster) : Cluster :=
  match cl_members c !! id with
  | Some (MkMember srv false) =>
      set_members (<[id := MkMember (meanwhile ops srv) false]> (cl_members c)) c
  | _ => c
  end.

Definition cluster_meanwhile (l : list (string * list NodeOp)) (c : Cluster) : Cluster :=
  foldl (λ c x, onMember (x.1) (x.2) c) c l.

(** The loop of [Add] that looks for a leader until its deadline: one look per
    list of operations. *)
Fixpoint awaitLeader (polls : list (list (string * list NodeOp))) (c : Cluster) :
    Cluster * option string :=
  match polls with
  | [] => (c, None)
  | ops :: polls' =>
      let c := cluster_meanwhile ops c in
      match leaderNode c with
      | Some id => (c, Some id)
      | None => awaitLeader polls' c
      end
  end.

(** A call on the node of a member. *)
Definition callMember {A} (id : string) (call : Call A) (c : Cluster) :
    Cluster * option (result A) :=
  match cl_members c !! id with
  | None => (c, None)
  | Some m =>
      let '(srv, r) := callRaft call (mb_KV m) in
      (set_members (<[id := MkMember srv (mb_Crashed m)]> (cl_members c)) c, r)
  end.

(** [AddServer] or [RemoveServer] and [WaitApplied] on the leader. *)
Definition changeMembers (change : RaftNode Store → RaftNode Store * result Z) (ws : list Wake) :
    Call unit :=
  andThen (λ n, let '(n, r) := change n in (n, Some r)) (λ idx, waitApplied idx ws).

(** [None] is an Add that still waits. *)
Definition Add (id raftAddr httpAddr : string) (listens : bool) (src : list Z)
    (polls : list (list (string * list NodeOp))) (ws : list Wake) (c : Cluster) :
    Cluster * option (result unit) :=
  if decide (id = ""%string) then (c, Some (Err (ErrNew "id required")))
  else match addAddrs id raftAddr httpAddr with
  | Err e => (c, Some (Err e))
  | Ok (raftAddr, httpAddr) =>
      if running id c then (c, Some (Err (ErrNew (id +:+ " is already running"))))
      else
        let c := set_cfg (withMember id raftAddr httpAddr (cl_cfg c)) c in
        match startMemberJoin id true listens src c with
        | (c, Err e) => (c, Some (Err e))
        | (c, Ok _) =>
            match awaitLeader polls c with
            | (c, None) => ((Crash id c).1, Some (Err (ErrNew "no leader to add member")))
            | (c, Some leader) =>
                match callMember leader (changeMembers (AddServer id raftAddr httpAddr) ws) c with
                | (c, Some (Err e)) => ((Crash id c).1, Some (Err e))
                | cr => cr
                end
            end
        end
  end.

(** The configuration and the members without [id]. *)
Definition withoutMember (id : string) (c : Cluster) : Cluster :=
  let cfg := cl_cfg c in
  let cfg := MkClusterConfig (filter (λ x, x ≠ id) (cc_IDs cfg)) (delete id (cc_RaftAddrs cfg))
    (delete id (cc_HTTPAddrs cfg)) (cc_DataDir cfg) in
  set_members (delete id (cl_members c)) (set_cfg cfg c).

Definition Remove (id : string) (ws : list Wake) (c : Cluster) : Cluster * option (result unit) :=
  match leaderNode c with
  | None => (c, Some (Err (ErrNew "no leader to remove member")))
  | Some leader =>
      if decide (leader = id) then (c, Some (Err ErrRemoveLeader))
      else match callMember leader (changeMembers (RemoveServer id) ws) c with
      | (c, Some (Ok _)) => (withoutMember id (Crash id c).1, Some (Ok tt))
      | cr => cr
      end
  end.

(** ** The control plane: [chaos] of cluster/http.go *)

Definition jview (v : View) : json :=
  JObj ([jfield "id" (jstring (v_ID v)); jfield "state" (jstring (v_State v));
         jfield "term" (jint (v_Term v)); jfield "leader_id" (jstring (v_LeaderID v))] ++
    (if decide (v_LeaderHTTP v = ""%string) then []
     else [jfield "leader_http" (jstring (v_LeaderHTTP v))]) ++
    [jfield "commit_index" (jint (v_CommitIndex v));
     jfield "snapshot_index" (jint (v_SnapshotIndex v)); jfield "log_len" (jint (v_LogLen v));
     jfield "kv_size" (jint (v_KVSize v))] ++
    (if decide (v_Peers v = []) then [] else [jfield "peers" (JArr (map jstring (v_Peers v)))]) ++
    [jfield "http" (jstring (v_HTTP v)); jfield "isolated" (JBool (v_Isolated v));
     jfield "crashed" (JBool (v_Crashed v))]).

Definition chaos (r : result unit) (c : Cluster) : Reply :=
  match r with
  | Err e => writeJSON StatusBadRequest (JObj [
      jfield "error" (jstring (Error_Error e)); jfield "ok" (JBool false)])
  | Ok _ => writeJSON StatusOK (JObj [
      jfield "nodes" (JArr (map jview (Snapshot c))); jfield "ok" (JBool true)])
  end.

(** A call of the cluster that may still wait. *)
Definition chaosCall (x : Cluster * option (result unit)) : Cluster * option Reply :=
  let '(c, r) := x in (c, (λ r, chaos r c) <$> r).

Definition chaosDone (x : Cluster * result unit) : Cluster * option Reply :=
  let '(c, r) := x in (c, Some (chaos r c)).

(** ** The routes of [Handler], with the schedules of the calls that wait *)

Inductive Control :=
  | GetRoot (path : string)
  | GetCluster
  | PostIsolate (id : string)
  | PostHeal (id : string)
  | PostCrash (id : string)
  | PostRestart (id : string) (listens : bool) (src : list Z)
  | PostPartition (a b : string)
  | PostHealAll
  | PostAdd (id : string) (listens : bool) (src : list Z)
      (polls : list (list (string * list NodeOp))) (ws : list Wake)
  | PostRemove (id : string) (ws : list Wake).

Definition helpLines : list string := [
  "curl -s http://127.0.0.1:18280/cluster";
  "curl -s -X POST http://127.0.0.1:18280/chaos/crash/n2";
  "curl -s -X POST http://127.0.0.1:18280/chaos/isolate/n2";
  "curl -s -X POST http://127.0.0.1:18280/chaos/heal/n2";
  "curl -s -X POST http://127.0.0.1:18280/chaos/restart/n2";
  "curl -s -X POST http://127.0.0.1:18280/chaos/partition/n1/n2";
  "curl -s -X POST http://127.0.0.1:18280/chaos/heal-all";
  "curl -s -X POST http://127.0.0.1:18280/cluster/add/n4";
  "curl -s -X POST http://127.0.0.1:18280/cluster/remove/n4"]%string.

Definition Handler (req : Control) (c : Cluster) : Cluster * option Reply :=
  match req with
  | GetRoot path =>
      (c, Some (if decide (path ≠ "/"%string) then httpError StatusNotFound "404 page not found"
                else writeJSON StatusOK (JObj [
                  jfield "help" (jstring "chaos control plane for the -dev cluster");
                  jfield "try" (JArr (map jstring helpLines))])))
  | GetCluster =>
      (c, Some (writeJSON StatusOK (JObj [
        jfield "leader_http" (jstring (LeaderHTTP c));
        jfield "nodes" (JArr (map jview (Snapshot c))); jfield "ok" (JBool true)])))
  | PostIsolate id => chaosDone (Isolate id c)
  | PostHeal id => chaosDone (Heal id c)
  | PostCrash id => chaosDone (Crash id c)
  | PostRestart id listens src => chaosDone (Restart id listens src c)
  | PostPartition a b => chaosDone (Partition a b c)
  | PostHealAll =>
      let c := HealAll c in
      (c, Some (writeJSON StatusOK (JObj [
        jfield "nodes" (JArr (map jview (Snapshot c))); jfield "ok" (JBool true)])))
  | PostAdd id listens src polls ws => chaosCall (Add id "" "" listens src polls ws c)
  | PostRemove id ws => chaosCall (Remove id ws c)
  end.
