(* ===== verification/ClusterInv.v ===== *)
(** The invariant of the in-process cluster of cluster/cluster.go, and what a
    crashed member has when it is started again. *)
From S2P Require Import Prelude Types Utf8 Json JsonSpec Marshal KvStore Text Node Persist Membership Snapshot Log Election RaftOps Read Machine Client Kv NodeInv LogSpec Durable NodeId Network Demo NodeProps Faults Http Cluster.
Open Scope Z_scope.
Open Scope go_scope.

(** ** Starting a node from a disk *)

Section load.
Context {M : Type} `{!StateMachine M}.
Implicit Types n : RaftNode M.

(** A disk that a node can start from: never written, or with a log without
    gaps, the members the log starts from and, when the log does not start at
    the beginning, a snapshot. *)
Definition disk_sound (s : Storage) : Prop :=
  st_SaveErrs s = [] ∧ st_LoadErr s = false ∧
  (st_Disk s = zeroDurable ∨ contiguous (ds_Log (st_Disk s))).

Definition disk_complete (s : Storage) : Prop :=
  st_Disk s ≠ zeroDurable →
  ds_SnapshotPeers (st_Disk s) ≠ ∅ ∧
  (e_Index (default zeroEntry (head (ds_Log (st_Disk s)))) ≤ 0 ∨ ds_Snapshot (st_Disk s) ≠ []).

Lemma saved_sound ps hs n s : wf_node n → saved ps hs n → storage n = Some s → disk_sound s.
Proof.
  intros Hwf Hsv Hs. destruct (Hsv s Hs) as (He&Hl&Hd). split_and!; [done..|].
  destruct Hd as [->|[-> _]]; [right|by left]. apply (wf_node_log _ Hwf).
Qed.

Lemma restoreSnapshot_applied n :
  lastApplied n ≤ lastApplied (restoreSnapshotLocked n).
Proof.
  unfold restoreSnapshotLocked. destruct (_ || _); [done|].
  destruct (sm_restore _ _); [|done].
  case_decide; case_decide; cbn in *; lia.
Qed.

Lemma restoreDurable_applied st n :
  ds_Log st ≠ [] → ds_SnapshotPeers st ≠ ∅ → lastApplied n = 0 →
  (e_Index (default zeroEntry (head (ds_Log st))) ≤ 0 ∨ ds_Snapshot st ≠ []) →
  e_Index (default zeroEntry (head (ds_Log st))) ≤ lastApplied (restoreDurable st n).
Proof.
  intros Hl Hp Ha Hi. unfold restoreDurable. rewrite loadDurable_eq by done.
  match goal with |- context [startAtSnapshot ?x] =>
    assert (H1 : log x = ds_Log st ∧ snapshot x = ds_Snapshot st ∧ lastApplied x = 0)
      by (by destruct st); revert H1; generalize x end.
  intros n1 (H1&H2&H3).
  assert (H4 : e_Index (default zeroEntry (head (ds_Log st))) ≤ lastApplied (startAtSnapshot n1)).
  { unfold startAtSnapshot, firstEntry. rewrite H1, H2. case_bool_decide as H; [done|].
    rewrite H3. destruct Hi; [done|by destruct H]. }
  etrans; [exact H4|]. etrans; [apply restoreSnapshot_applied|].
  rewrite rebuildMembershipLocked_eq. cbn zeta. by case_decide.
Qed.

(** A node started from a disk is well formed, and its disk is current. *)
Lemma NewNode_loads cfg (m : M) src s :
  cfg_Storage cfg = Some s → disk_sound s → disk_complete s →
  let n := NewNode cfg m src in
  wf_node n ∧ saved (cfg_PeerAddrs cfg) (cfg_HTTPAddrs cfg) n ∧ storage n = Some s ∧
  nodeID n = cfg_ID cfg ∧ state n = Follower ∧
  (st_Disk s ≠ zeroDurable → durableOf n = st_Disk s).
Proof.
  intros Hc (He&Hle&Hd) Hcp n. unfold n, NewNode, Load. rewrite Hc, Hle.
  destruct Hd as [Hd|Hk].
  - rewrite Hd. change (durableUsed zeroDurable) with false. cbn iota.
    split_and!; [apply wf_fresh| |done..].
    intros s' Hs'. cbn in Hs'. rewrite Hc in Hs'. injection Hs' as <-.
    split_and!; [done..|]. by right.
  - assert (Hz : st_Disk s ≠ zeroDurable) by (intros Hz; rewrite Hz in Hk; by destruct Hk).
    destruct (Hcp Hz) as [Hp Hi]. destruct Hk as [Hne Hk].
    unfold durableUsed. rewrite bool_decide_eq_true_2 by (right; right; by left).
    destruct (restoreDurable_durable (st_Disk s) (freshNode cfg m src) Hne Hp)
      as (Hdur&Hm&Hst&Hid&Hsto).
    pose proof (restoreDurable_applied (st_Disk s) (freshNode cfg m src) Hne Hp eq_refl Hi) as Ha.
    revert Hdur Hm Hst Hid Hsto Ha. generalize (restoreDurable (st_Disk s) (freshNode cfg m src)).
    intros r Hdur Hm Hst Hid Hsto Ha. pose proof (f_equal ds_Log Hdur) as Hl. cbn in Hl.
    split_and!; [|intros s' Hs'|by rewrite Hsto|by rewrite Hid|by rewrite Hst|done].
    + split; [unfold wf_log; by rewrite Hl|done|].
      unfold lastIncludedIndexLocked, firstEntry. by rewrite Hl.
    + rewrite Hsto in Hs'. cbn in Hs'. rewrite Hc in Hs'. injection Hs' as <-.
      split_and!; [done..|]. by left.
Qed.
End load.

(** ** The nodes of a cluster *)

Abbreviation node := (RaftNode Store).

(** A node that a member may hold: it has the member's id, a storage exactly when
    there is a data directory, and on its disk what it must not forget. *)
Definition node_good (id dir : string) (n : node) : Prop :=
  wf_node n ∧ nodeID n = id ∧ (storage n = None ↔ dir = ""%string) ∧ ∃ ps hs, saved ps hs n.

Lemma node_good_same id dir (n n' : node) :
  wf_node n' → same_node n n' → (∀ ps hs, saved ps hs n → saved ps hs n') →
  node_good id dir n → node_good id dir n'.
Proof.
  intros Hwf [Hi Hn] Hsv (_&H1&H2&(ps&hs&H3)).
  split_and!; [done|by rewrite Hi|by rewrite Hn|]. exists ps, hs. by apply Hsv.
Qed.

Lemma node_good_runOps id dir ops (n : node) :
  Forall op_ok ops → node_good id dir n → node_good id dir (runOps ops n).
Proof.
  intros Hops H. destruct (H) as [Hwf _]. eapply node_good_same; [|apply same_runOps| |exact H].
  - by apply wf_runOps.
  - intros ps hs. by apply saved_runOps.
Qed.

Lemma node_good_runOp id dir op (n : node) :
  op_ok op → node_good id dir n → node_good id dir (runOp op n).
Proof. intros Hop. apply (node_good_runOps id dir [op]). by repeat constructor. Qed.

(** Fields that the invariant does not look at. *)
Lemma node_good_frame id dir (n n' : node) :
  durableOf n' = durableOf n → storage n' = storage n → nodeID n' = nodeID n →
  wf_node n' → node_good id dir n → node_good id dir n'.
Proof.
  intros Hd Hs Hi Hwf. apply node_good_same; [done|by apply same_node_frame|].
  intros ps hs. by apply saved_frame.
Qed.

Definition wake_ok (w : Wake) : Prop :=
  match w with WakeTick ops => Forall op_ok ops | _ => True end.

Lemma node_good_waitApplied id dir index ws (n : node) :
  Forall wake_ok ws → node_good id dir n → node_good id dir (waitApplied index ws n).1.
Proof.
  intros Hws. revert n. induction Hws as [|w ws Hw _ IH]; intros n H; [done|].
  destruct w as [| |ops]; [done..|]. cbn.
  pose proof (node_good_runOps id dir ops n Hw H) as H'.
  destruct (waitPoll index (runOps ops n)); [done|by apply IH].
Qed.

Lemma node_good_changeMembers id dir change ws (n : node) :
  (∀ n : node, ∃ op, op_ok op ∧ (change n).1 = runOp op n) → Forall wake_ok ws →
  node_good id dir n → node_good id dir (changeMembers change ws n).1.
Proof.
  intros Hch Hws H. unfold changeMembers, andThen. destruct (Hch n) as (op&Hop&E).
  pose proof (node_good_runOp id dir op n Hop H) as H1. rewrite <-E in H1.
  destruct (change n) as [n1 [idx|e]]; [|done]. by apply node_good_waitApplied.
Qed.

Lemma node_good_runHooks id dir (s : Server) :
  node_good id dir (srv_raft s) → node_good id dir (srv_raft (runHooks s)).
Proof.
  intros H. rewrite runHooks_raft. apply (node_good_frame _ _ (srv_raft s)); [done..| |done].
  destruct H as [Hwf _]. wf_frame Hwf.
Qed.

Lemma node_good_meanwhile id dir ops (s : Server) :
  Forall op_ok ops → node_good id dir (srv_raft s) → node_good id dir (srv_raft (meanwhile ops s)).
Proof. intros Hops H. by apply node_good_runHooks, node_good_runOps. Qed.

Lemma wf_restoreSnapshot (n : node) : wf_node n → wf_node (restoreSnapshotLocked n).
Proof.
  intros [H1 H2 H3]. pose proof (restoreSnapshot_applied n) as Ha. revert Ha.
  destruct (restoreSnapshot_shape n) as (m&a&c&->). cbn. intros Ha.
  split; [exact H1|exact H2|]. etrans; [exact H3|exact Ha].
Qed.

(** What [startMemberJoin] does to the new node before it runs. *)
Definition installed (t : Transport) (n : node) : node :=
  RaftOps.Start (SetPeerHook (SetTransport t (SetSnapshotter (SetApply n)))).

Lemma installed_good id dir t (n : node) :
  node_good id dir n → node_good id dir (installed t n).
Proof.
  intros H. destruct (H) as [Hwf _]. unfold installed, RaftOps.Start.
  assert (Hw : wf_node (SetPeerHook (SetTransport t (SetSnapshotter (SetApply n))))).
  { assert (H1 : wf_node (SetSnapshotter (SetApply n))).
    { unfold SetSnapshotter. apply wf_restoreSnapshot. wf_frame Hwf. }
    wf_frame H1. }
  eapply node_good_same; [by apply wf_reset|apply same_reset|intros ps hs; apply saved_reset|].
  apply (node_good_frame id dir n); [..|done|done]; unfold SetPeerHook, SetTransport, SetSnapshotter;
    destruct (restoreSnapshot_shape (set_snapshotterSet true (SetApply n))) as (m&a&c&->); done.
Qed.

Lemma installed_same t (n : node) :
  durableOf (installed t n) = durableOf n ∧ state (installed t n) = state n ∧
  peerAddrs (installed t n) = peerAddrs n ∧ peerHTTP (installed t n) = peerHTTP n ∧
  peerIDs (installed t n) = peerIDs n ∧ storage (installed t n) = storage n.
Proof.
  unfold installed, RaftOps.Start, SetSnapshotter.
  destruct (restoreSnapshot_shape (set_snapshotterSet true (SetApply n))) as (m&a&c&->).
  match goal with |- context [resetElectionTimerLocked ?x] =>
    destruct (resetElectionTimerLocked_shape x) as (d&r&->) end. done.
Qed.

(** ** The invariant of a cluster *)

Definition data_dir (c : Cluster) : string := cc_DataDir (cl_cfg c).

Definition member_ok (c : Cluster) (id : string) (m : Member) : Prop :=
  let n := srv_raft (mb_KV m) in
  id ∈ cc_IDs (cl_cfg c) ∧ is_Some (cc_RaftAddrs (cl_cfg c) !! id) ∧
  node_good id (data_dir c) n ∧
  (mb_Crashed m = true →
    stopped n = true ∧ ∀ s, storage n = Some s → cl_disks c !! id = Some s).

Definition cluster_ok (c : Cluster) : Prop :=
  NoDup (cc_IDs (cl_cfg c)) ∧
  (∀ id m, cl_members c !! id = Some m → member_ok c id m) ∧
  (∀ id s, cl_disks c !! id = Some s → disk_sound s).

(** A member is replaced, or added. *)
Lemma cluster_ok_insert c id m :
  cluster_ok c → member_ok c id m → cluster_ok (set_members (<[id := m]> (cl_members c)) c).
Proof.
  intros (H1&H2&H3) Hm. split_and!; [done| |done]. intros id' m' H.
  cbn in H. apply lookup_insert_Some in H as [[<- <-]|[_ H]]; [done|by apply H2].
Qed.

Lemma cluster_ok_faults f c : cluster_ok c → cluster_ok (set_faults f c).
Proof. done. Qed.

Lemma cluster_ok_onMember id ops c :
  Forall op_ok ops → cluster_ok c → cluster_ok (onMember id ops c).
Proof.
  intros Hops H. unfold onMember. destruct (cl_members c !! id) as [[srv []]|] eqn:E; [done| |done].
  apply cluster_ok_insert; [done|]. destruct H as (_&H&_).
  destruct (H id _ E) as (?&?&Hn&_). split_and!; [done|done| |done].
  by apply node_good_meanwhile.
Qed.

Definition ops_ok (l : list (string * list NodeOp)) : Prop := Forall (λ x, Forall op_ok (x.2)) l.

Lemma cluster_ok_meanwhile l c : ops_ok l → cluster_ok c → cluster_ok (cluster_meanwhile l c).
Proof.
  intros Hl. revert c. induction Hl as [|x l Hx _ IH]; intros c H; [done|].
  cbn. by apply IH, cluster_ok_onMember.
Qed.

Lemma leaderNode_running c id :
  leaderNode c = Some id →
  id ∈ cc_IDs (cl_cfg c) ∧
  ∃ srv, cl_members c !! id = Some (MkMember srv false) ∧ IsLeader (srv_raft srv) = true.
Proof.
  unfold leaderNode. intros [Hin H]%find_some. apply list_elem_of_In in Hin.
  split; [done|]. destruct (cl_members c !! id) as [[srv []]|]; [done| |done]. by exists srv.
Qed.

Lemma awaitLeader_ok polls c :
  Forall ops_ok polls → cluster_ok c →
  cluster_ok (awaitLeader polls c).1 ∧
  ∀ id, (awaitLeader polls c).2 = Some id → leaderNode (awaitLeader polls c).1 = Some id.
Proof.
  intros Hp. revert c. induction Hp as [|ops polls Hops _ IH]; intros c H; [done|].
  cbn. pose proof (cluster_ok_meanwhile ops c Hops H) as H'.
  destruct (leaderNode (cluster_meanwhile ops c)) eqn:E; [|by apply IH].
  cbn. split; [done|]. intros id [= <-]. done.
Qed.

(** A membership change through the leader. *)
Lemma cluster_ok_change change ws leader c :
  (∀ n : node, ∃ op, op_ok op ∧ (change n).1 = runOp op n) → Forall wake_ok ws →
  leaderNode c = Some leader → cluster_ok c →
  cluster_ok (callMember leader (changeMembers change ws) c).1.
Proof.
  intros Hch Hws Hl H. apply leaderNode_running in Hl as (_&srv&E&_).
  unfold callMember. rewrite E. cbn [mb_KV mb_Crashed]. unfold callRaft.
  destruct (H) as (_&Hm&_). destruct (Hm leader _ E) as (?&?&Hn&_).
  pose proof (node_good_changeMembers leader (data_dir c) change ws _ Hch Hws Hn) as Hn1.
  cbn [mb_KV] in Hn1. destruct (changeMembers change ws (srv_raft srv)) as [n1 r].
  cbn [fst]. apply cluster_ok_insert; [done|]. split_and!; [done|done| |done].
  by apply node_good_runHooks.
Qed.

Lemma cluster_ok_Crash id c : cluster_ok c → cluster_ok (Crash id c).1.
Proof.
  intros H. unfold Crash. destruct (cl_members c !! id) as [[srv cr]|] eqn:E; [|done].
  cbn [mb_Crashed]. destruct cr; [done|]. cbn [mb_KV].
  destruct (H) as (Hnd&Hm&Hd). destruct (Hm id _ E) as (Hi&Ha&Hn&_).
  pose proof (node_good_runOp id (data_dir c) OpStop (srv_raft srv) I Hn) as Hn'.
  cbn [mb_KV runOp] in Hn'. revert Hn'.
  assert (Hs : stopped (RaftOps.Stop (srv_raft srv)) = true)
    by (unfold RaftOps.Stop; by case_match).
  revert Hs. generalize (RaftOps.Stop (srv_raft srv)). intros n0 Hs0 Hn0. cbn zeta.
  assert (Hs : stopped (set_transport (Close <$> transport n0) n0) = true) by exact Hs0.
  assert (Hn' : node_good id (data_dir c) (set_transport (Close <$> transport n0) n0)).
  { apply (node_good_frame _ _ n0); [done..| |done]. destruct Hn0 as [Hwf _]. wf_frame Hwf. }
  revert Hs Hn'. generalize (set_transport (Close <$> transport n0) n0).
  clear n0 Hs0 Hn0. intros n Hs Hn'. cbn [fst].
  split_and!; [done| |].
  - intros id' m' H'. cbn in H'. apply lookup_insert_Some in H' as [[<- <-]|[Hne H']].
    + split_and!; [done..|]. intros _. split; [done|]. cbn. intros s ->. by rewrite lookup_insert_eq.
    + destruct (Hm id' m' H') as (?&?&?&Hc). split_and!; [done..|].
      intros Hcr. destruct (Hc Hcr) as [? Hdisk]. split; [done|].
      intros s Hst. cbn. destruct (storage n); [|by apply Hdisk].
      rewrite lookup_insert_ne by done. by apply Hdisk.
  - intros id' s H'. cbn in H'. destruct (storage n) as [st|] eqn:Est; [|by eapply Hd].
    apply lookup_insert_Some in H' as [[<- <-]|[_ H']]; [|by eapply Hd].
    destruct Hn' as (Hwf&_&_&(ps&hs&Hsv)). by eapply saved_sound.
Qed.

(** The node of a member that starts. *)
Lemma memberServer_raft id join raftAddr src c :
  srv_raft (memberServer id join raftAddr src c) =
  installed (FilterTransport id (NewGRPCTransport (cc_RaftAddrs (cl_cfg c))))
    (NewNode (memberConfig id join raftAddr c) NewStore src).
Proof.
  unfold memberServer, NewServer, SetHTTPAddrs, with_raft, installed. cbn zeta.
  cbn [srv_raft]. reflexivity.
Qed.

Definition disks_complete (c : Cluster) : Prop :=
  ∀ id s, cl_disks c !! id = Some s → disk_complete s.

Lemma memberServer_good id join raftAddr src c :
  cluster_ok c → disks_complete c →
  node_good id (data_dir c) (srv_raft (memberServer id join raftAddr src c)).
Proof.
  intros (_&_&Hd) Hcp. rewrite memberServer_raft. apply installed_good.
  destruct (decide (data_dir c = ""%string)) as [E|E].
  - assert (Es : cfg_Storage (memberConfig id join raftAddr c) = None)
      by (unfold memberConfig; cbn; by rewrite decide_True).
    assert (Ef : storage (freshNode (memberConfig id join raftAddr c) NewStore src) = None)
      by (rewrite <-Es; reflexivity).
    unfold NewNode. rewrite Es. split_and!; [apply wf_fresh|reflexivity|by rewrite Ef|].
    exists ∅, ∅. intros s Hs. congruence.
  - set (s := default (MkStorage zeroDurable false []) (cl_disks c !! id)).
    assert (Es : cfg_Storage (memberConfig id join raftAddr c) = Some s)
      by (unfold memberConfig; cbn; by rewrite decide_False).
    assert (Hs : disk_sound s ∧ disk_complete s).
    { unfold s. destruct (cl_disks c !! id) eqn:El; cbn; [split; by eauto|].
      split; [by split_and!; [..|left]|by intros []]. }
    destruct (NewNode_loads (memberConfig id join raftAddr c) NewStore src s Es
      (proj1 Hs) (proj2 Hs)) as (H1&H2&H3&H4&_).
    split_and!; [done|by rewrite H4|by rewrite H3|by eauto].
Qed.
