(* ===== verification/ClusterSpec.v ===== *)
(** What the in-process cluster of cluster/cluster.go guarantees whatever is
    asked of it, and what it does not: the invariant of its bookkeeping, the
    recovery of a crashed member, the leader it reports, and the members that a
    failed Add leaves behind. *)
From S2P Require Import Prelude Types Utf8 Json JsonSpec Marshal KvStore Text Node Persist Membership Snapshot Log Election RaftOps Read Machine Client Kv NodeInv LogSpec Durable NodeId Faults Http Cluster ClusterInv.
Open Scope Z_scope.
Open Scope go_scope.

(** ** The operations of a cluster *)

(** The methods of [Cluster], and what the goroutines of a member do. *)
Inductive ClusterOp :=
  | CStart (listens : string → bool)
  | CStop
  | CIsolate (id : string)
  | CHeal (id : string)
  | CPartition (a b : string)
  | CHealAll
  | CCrash (id : string)
  | CRestart (id : string) (listens : bool) (src : list Z)
  | CAdd (id raftAddr httpAddr : string) (listens : bool) (src : list Z)
      (polls : list (list (string * list NodeOp))) (ws : list Wake)
  | CRemove (id : string) (ws : list Wake)
  | CMember (id : string) (ops : list NodeOp).

Definition runClusterOp (op : ClusterOp) (c : Cluster) : Cluster :=
  match op with
  | CStart listens => (Start listens c).1
  | CStop => Stop c
  | CIsolate id => (Isolate id c).1
  | CHeal id => (Heal id c).1
  | CPartition a b => (Partition a b c).1
  | CHealAll => HealAll c
  | CCrash id => (Crash id c).1
  | CRestart id listens src => (Restart id listens src c).1
  | CAdd id r h listens src polls ws => (Add id r h listens src polls ws c).1
  | CRemove id ws => (Remove id ws c).1
  | CMember id ops => onMember id ops c
  end.

Definition cluster_op_ok (op : ClusterOp) : Prop :=
  match op with
  | CAdd _ _ _ _ _ polls ws => Forall ops_ok polls ∧ Forall wake_ok ws
  | CRemove _ ws => Forall wake_ok ws
  | CMember _ ops => Forall op_ok ops
  | _ => True
  end.

(** The clusters that can be reached.  An operation may start members, from
    disks that have what a start needs. *)
Inductive reachable (cfg : ClusterConfig) (http : bool) : Cluster → Prop :=
  | reachable_new : NoDup (cc_IDs cfg) → reachable cfg http (New cfg http)
  | reachable_step c op :
      reachable cfg http c → cluster_op_ok op → disks_complete c →
      reachable cfg http (runClusterOp op c).

(** ** Every operation keeps the invariant *)

Lemma cluster_ok_startMemberJoin id join listens src c :
  id ∈ cc_IDs (cl_cfg c) → cluster_ok c → disks_complete c →
  cluster_ok (startMemberJoin id join listens src c).1.
Proof.
  intros Hi H Hcp. unfold startMemberJoin. destruct (running id c); [done|].
  destruct (negb (cl_http c)); [done|]. destruct (cc_RaftAddrs (cl_cfg c) !! id) as [a|] eqn:E; [|done].
  cbn zeta. destruct (negb listens); [done|]. cbn [fst]. apply cluster_ok_insert; [done|].
  split_and!; [done|by eauto| |done]. cbn [mb_KV]. by apply memberServer_good.
Qed.

Lemma startMemberJoin_frame id join listens src c :
  cl_cfg (startMemberJoin id join listens src c).1 = cl_cfg c ∧
  cl_disks (startMemberJoin id join listens src c).1 = cl_disks c ∧
  cl_http (startMemberJoin id join listens src c).1 = cl_http c.
Proof.
  unfold startMemberJoin. destruct (running id c); [done|]. destruct (negb (cl_http c)); [done|].
  destruct (cc_RaftAddrs (cl_cfg c) !! id); [|done]. cbn zeta. by destruct (negb listens).
Qed.

Lemma Crash_cfg id c : cl_cfg (Crash id c).1 = cl_cfg c ∧ cl_http (Crash id c).1 = cl_http c.
Proof. unfold Crash. destruct (cl_members c !! id) as [m|]; [|done]. by destruct (mb_Crashed m). Qed.

Lemma cluster_ok_Stop c : cluster_ok c → cluster_ok (Stop c).
Proof.
  intros H. unfold Stop. apply cluster_ok_faults. revert H.
  generalize (cc_IDs (cl_cfg c)). intros l. revert c.
  induction l as [|id l IH]; intros c H; [done|]. cbn.
  by apply IH, cluster_ok_Crash.
Qed.

Lemma cluster_ok_startAll ids listens c :
  (∀ id, id ∈ ids → id ∈ cc_IDs (cl_cfg c)) → cluster_ok c → disks_complete c →
  cluster_ok (startAll ids listens c).1.
Proof.
  revert c. induction ids as [|id ids IH]; intros c Hi H Hcp; [done|]. cbn [startAll].
  assert (Hin : id ∈ cc_IDs (cl_cfg c)) by (apply Hi; by left).
  pose proof (cluster_ok_startMemberJoin id false (listens id) [] c Hin H Hcp) as H1.
  destruct (startMemberJoin_frame id false (listens id) [] c) as (Hc&Hd&_).
  unfold startMember. destruct (startMemberJoin id false (listens id) [] c) as [c1 [[]|e]];
    cbn [fst] in *; [|by apply cluster_ok_Stop].
  apply IH; [|done|by intros id' s; rewrite Hd; apply Hcp].
  intros id' Hid. rewrite Hc. apply Hi. by right.
Qed.

Lemma cluster_ok_Restart id listens src c :
  cluster_ok c → disks_complete c → cluster_ok (Restart id listens src c).1.
Proof.
  intros H Hcp. unfold Restart. destruct (cl_members c !! id) as [m|] eqn:E; [|done].
  destruct (negb (mb_Crashed m)); [done|]. destruct (H) as (_&Hm&_).
  destruct (Hm id m E) as [Hi _]. unfold startMember. by apply cluster_ok_startMemberJoin.
Qed.

Lemma cluster_ok_withMember id r h c :
  cluster_ok c → cluster_ok (set_cfg (withMember id r h (cl_cfg c)) c).
Proof.
  intros (H1&H2&H3). split_and!; [| |done].
  - cbn. case_decide; [done|]. apply NoDup_app. split_and!; [done| |apply NoDup_singleton].
    by intros x Hx ->%list_elem_of_singleton.
  - intros id' m' H. destruct (H2 id' m' H) as (Hi&Ha&Hn&Hc). split_and!; [|..|exact Hn|exact Hc].
    + cbn. case_decide; [done|]. apply elem_of_app. by left.
    + cbn. destruct (decide (id' = id)) as [->|]; [by rewrite lookup_insert_eq; eauto|].
      by rewrite lookup_insert_ne.
Qed.

Lemma withMember_in id r h cfg : id ∈ cc_IDs (withMember id r h cfg).
Proof. cbn. case_decide; [done|]. apply elem_of_app. right. by apply list_elem_of_singleton. Qed.

Lemma cluster_ok_Add id r h listens src polls ws c :
  Forall ops_ok polls → Forall wake_ok ws → cluster_ok c → disks_complete c →
  cluster_ok (Add id r h listens src polls ws c).1.
Proof.
  intros Hp Hws H Hcp. unfold Add. case_decide; [done|].
  destruct (addAddrs id r h) as [[ra ha]|e]; [|done]. destruct (running id c); [done|]. cbn zeta.
  pose proof (cluster_ok_withMember id ra ha c H) as H1.
  assert (Hcp1 : disks_complete (set_cfg (withMember id ra ha (cl_cfg c)) c)) by exact Hcp.
  assert (Hi : id ∈ cc_IDs (cl_cfg (set_cfg (withMember id ra ha (cl_cfg c)) c)))
    by apply withMember_in.
  revert H1 Hcp1 Hi. generalize (set_cfg (withMember id ra ha (cl_cfg c)) c). intros c1 H1 Hcp1 Hi.
  pose proof (cluster_ok_startMemberJoin id true listens src c1 Hi H1 Hcp1) as H2.
  destruct (startMemberJoin id true listens src c1) as [c2 [[]|e]]; cbn [fst] in H2; [|done].
  destruct (awaitLeader_ok polls c2 Hp H2) as [H3 Hl].
  destruct (awaitLeader polls c2) as [c3 [leader|]]; cbn [fst snd] in *; [|by apply cluster_ok_Crash].
  assert (H4 : cluster_ok (callMember leader (changeMembers (AddServer id ra ha) ws) c3).1).
  { apply cluster_ok_change; [|done|by apply Hl|done].
    intros n. by exists (OpAddServer id ra ha). }
  destruct (callMember leader _ c3) as [c4 [[u|e]|]]; cbn [fst] in *; [done|by apply cluster_ok_Crash|done].
Qed.

Lemma cluster_ok_without id c : cluster_ok c → cluster_ok (withoutMember id c).
Proof.
  intros (H1&H2&H3). split_and!; [by apply NoDup_filter| |done].
  intros id' m' H. cbn in H. apply lookup_delete_Some in H as [Hne H].
  destruct (H2 id' m' H) as (Hi&Ha&Hn&Hc). split_and!; [|..|exact Hn|exact Hc]; cbn.
  - by apply list_elem_of_filter.
  - by rewrite lookup_delete_ne.
Qed.

Lemma cluster_ok_Remove id ws c :
  Forall wake_ok ws → cluster_ok c → cluster_ok (Remove id ws c).1.
Proof.
  intros Hws H. unfold Remove. destruct (leaderNode c) as [leader|] eqn:El; [|done].
  case_decide; [done|].
  assert (H1 : cluster_ok (callMember leader (changeMembers (RemoveServer id) ws) c).1).
  { apply cluster_ok_change; [|done..]. intros n. by exists (OpRemoveServer id). }
  destruct (callMember leader _ c) as [c1 [[u|e]|]]; cbn [fst] in *; [|done..].
  by apply cluster_ok_without, cluster_ok_Crash.
Qed.

Lemma cluster_ok_run op c :
  cluster_op_ok op → disks_complete c → cluster_ok c → cluster_ok (runClusterOp op c).
Proof.
  intros Hop Hcp H. destruct op; cbn [runClusterOp cluster_op_ok] in *.
  - by apply cluster_ok_startAll.
  - by apply cluster_ok_Stop.
  - unfold Isolate. by destruct (mustExist id c).
  - unfold Heal. by destruct (mustExist id c).
  - unfold Partition. destruct (negb (mustExist a c)); [done|]. by destruct (negb (mustExist b c)).
  - done.
  - by apply cluster_ok_Crash.
  - by apply cluster_ok_Restart.
  - destruct Hop. by apply cluster_ok_Add.
  - by apply cluster_ok_Remove.
  - by apply cluster_ok_onMember.
Qed.

Lemma reachable_ok cfg http c : reachable cfg http c → cluster_ok c.
Proof.
  induction 1 as [Hnd|c op _ IH Hop Hcp]; [by split_and!|]. by apply cluster_ok_run.
Qed.

(** ** The invariant *)

(** [C26] The bookkeeping of a cluster whose configuration lists each id once stays
    consistent, whatever operations are asked of it in whatever order, and whether they
    succeed, as long as the InstallSnapshot requests that reach its nodes name members
    and the disks that were written have, when an operation starts, members and, for
    a compacted log, a snapshot ([reachable]): ids are listed once, every member is listed with a Raft address and holds the node of its own id,
    whose log is numbered without gaps; a crashed member's node is stopped, and
    its data directory holds exactly what that node last saved. *)
Theorem cluster_invariant cfg http c :
  reachable cfg http c →
  NoDup (cc_IDs (cl_cfg c)) ∧
  ∀ id srv crashed, cl_members c !! id = Some (MkMember srv crashed) →
    let n := srv_raft srv in
    id ∈ cc_IDs (cl_cfg c) ∧ is_Some (cc_RaftAddrs (cl_cfg c) !! id) ∧ nodeID n = id ∧
    (log n ≠ [] ∧ ∀ k e, log n !! k = Some e → e_Index e = e_Index (firstEntry n) + Z.of_nat k) ∧
    (storage n = None ↔ cc_DataDir (cl_cfg c) = ""%string) ∧
    (crashed = true → stopped n = true ∧ ∀ s, storage n = Some s → cl_disks c !! id = Some s).
Proof.
  intros (Hnd&Hm&_)%reachable_ok. split; [done|]. intros id srv crashed E n.
  destruct (Hm id _ E) as (Hi&Ha&(Hwf&Hid&Hs&_)&Hc). destruct (wf_node_log _ Hwf). by split_and!.
Qed.

(** ** Crash and restart *)

(** A disk that is current and was written makes a node that has what it had. *)
Lemma load_same dir (n : node) s cfg (m : Store) src :
  node_good (nodeID n) dir n → storage n = Some s → st_Disk s ≠ zeroDurable →
  disk_complete s → cfg_Storage cfg = Some s →
  let n' := NewNode cfg m src in
  durableOf n' = durableOf n ∧ peerAddrs n' = peerAddrs n ∧ peerHTTP n' = peerHTTP n ∧
  peerIDs n' = peerIDs n ∧ state n' = Follower.
Proof.
  intros (Hwf&_&_&(ps&hs&Hsv)) Hs Hz Hcp Hc n'.
  pose proof (saved_sound ps hs n s Hwf Hsv Hs) as Hso.
  destruct (Hsv s Hs) as (_&_&[Hd|[Hd _]]); [|done].
  destruct (NewNode_loads cfg m src s Hc Hso Hcp) as (Hwf'&_&_&_&Hst&Hdur).
  specialize (Hdur Hz). rewrite Hd in Hdur. fold n' in Hdur, Hst, Hwf'. clearbody n'.
  destruct (wf_node_members _ Hwf) as [Hm Hids]. destruct (wf_node_members _ Hwf') as [Hm' Hids'].
  assert ((peerAddrs n', peerHTTP n') = (peerAddrs n, peerHTTP n)) as [= Hpa Hph].
  { rewrite Hm', Hm. pose proof (f_equal ds_Log Hdur) as Hl.
    pose proof (f_equal ds_SnapshotPeers Hdur) as Hp.
    pose proof (f_equal ds_SnapshotHTTP Hdur) as Hh. cbn in Hl, Hp, Hh.
    by rewrite Hl, Hp, Hh. }
  split_and!; [done..|by rewrite Hids', Hids, Hpa|done].
Qed.

(** [C27] A member of a [reachable] cluster that has saved its state, with members and,
    for a compacted log, a snapshot ([disk_complete]), is crashed and then restarted:
    it succeeds in starting when its port is free, is again a running member, and
    has the term, vote, log, snapshot and membership it had, as a follower; no
    other member changes and its partitions are healed. *)
Theorem crash_restart cfg http c id srv s src :
  reachable cfg http c → cl_http c = true →
  cl_members c !! id = Some (MkMember srv false) →
  storage (srv_raft srv) = Some s → st_Disk s ≠ zeroDurable → disk_complete s →
  let '(c', r) := Restart id true src (Crash id c).1 in
  r = Ok tt ∧
  cl_faults c' = Faults.Heal id (cl_faults c) ∧
  (∀ id', id' ≠ id → cl_members c' !! id' = cl_members c !! id') ∧
  ∃ srv', cl_members c' !! id = Some (MkMember srv' false) ∧
    let n := srv_raft srv in let n' := srv_raft srv' in
    durableOf n' = durableOf n ∧ peerAddrs n' = peerAddrs n ∧ peerHTTP n' = peerHTTP n ∧
    peerIDs n' = peerIDs n ∧ state n' = Follower.
Proof.
  intros (_&Hm&_)%reachable_ok Hh E Hs Hz Hcp. destruct (Hm id _ E) as (Hi&[a Ha]&Hn&_).
  assert (Hdir : cc_DataDir (cl_cfg c) ≠ ""%string).
  { intros Hd. destruct Hn as (_&_&[_ H]&_). cbn in H. rewrite H in Hs by done. done. }
  unfold Crash. rewrite E. cbn [mb_Crashed mb_KV]. cbn zeta.
  assert (Est : storage (RaftOps.Stop (srv_raft srv)) = Some s)
    by (rewrite <-Hs; unfold RaftOps.Stop; by case_match).
  match goal with |- context [set_transport ?t ?x] =>
    change (storage (set_transport t x)) with (storage x) end.
  rewrite Est. cbn [fst]. unfold Restart. cbn [cl_members]. rewrite lookup_insert_eq.
  cbn [mb_Crashed negb]. unfold startMember, set_faults. cbn [cl_cfg cl_faults cl_http cl_members cl_disks].
  set (c1 := MkCluster _ _ _ _ _).
  assert (Hr : running id c1 = false) by (unfold running; cbn [cl_members c1]; by rewrite lookup_insert_eq).
  unfold startMemberJoin. rewrite Hr. cbn [cl_http c1 cl_cfg]. rewrite Hh, Ha. cbn [negb].
  split_and!; [done|done| |].
  - intros id' Hne. cbn. by rewrite !lookup_insert_ne by done.
  - eexists. cbn [set_members cl_members]. rewrite lookup_insert_eq. split; [done|]. cbn zeta.
    rewrite memberServer_raft.
    match goal with |- context [installed ?t ?x] =>
      destruct (installed_same t x) as (->&->&->&->&->&_) end.
    assert (Hg : node_good (nodeID (srv_raft srv)) (data_dir c) (srv_raft srv))
      by (destruct Hn as (?&?&?&?); by split_and!).
    apply (load_same (data_dir c) (srv_raft srv) s); [done..|].
    unfold memberConfig. cbn. rewrite decide_False by done. by rewrite lookup_insert_eq.
Qed.
