(* ===== verification/ClusterDemo.v ===== *)
(** Runs of the in-process cluster: a member that is crashed and restarted, and
    the members that failed Adds leave behind. *)
From S2P Require Import Prelude Types Utf8 Json JsonSpec Marshal KvStore Text Node Persist Membership Snapshot Log Election RaftOps Read Machine Client Kv NodeInv LogSpec Durable NodeId Faults Http Cluster ClusterInv ClusterSpec.
Open Scope Z_scope.
Open Scope go_scope.

(** ** Messages between members *)

#[global] Instance RequestVoteRequest_eq_dec : EqDecision RequestVoteRequest.
Proof. solve_decision. Defined.
#[global] Instance Goroutine_eq_dec : EqDecision Goroutine.
Proof. solve_decision. Defined.

Definition raftOf (id : string) (c : Cluster) : option node :=
  match cl_members c !! id with
  | Some (MkMember srv false) => Some (srv_raft srv)
  | _ => None
  end.

(** The vote request that the candidate [from] has sent to [to], when nothing is
    cut between them, and its reply. *)
Definition deliverVote (from to : string) (c : Cluster) : Cluster :=
  match raftOf from c, raftOf to c with
  | Some src, Some dst =>
      let req := voteRequest src in
      if bool_decide (GoSendRequestVote to req ∈ spawned src) && Allow (cl_faults c) from to
      then onMember from [OpVoteReply to req (HandleRequestVote req dst).2]
             (onMember to [OpHandleRequestVote req] c)
      else c
  | _, _ => c
  end.

(** One round of replication from [from] to [to]. *)
Definition deliverAppend (from to : string) (c : Cluster) : Cluster :=
  match raftOf from c, raftOf to c with
  | Some src, Some dst =>
      match replicateHead to src with
      | (_, ReplicateAppend req term) =>
          if bool_decide (GoReplicateTo to ∈ spawned src) && Allow (cl_faults c) from to
          then onMember from [OpReplicateHead to; OpAppendReply to req term (HandleAppendEntries req dst).2]
                 (onMember to [OpHandleAppendEntries req] c)
          else c
      | _ => c
      end
  | _, _ => c
  end.

(** The ticker of a member at the time [now]. *)
Definition tickAt (now : Z) : list NodeOp := [OpEnv (now * Millisecond) []; OpTick].

Definition after (ops : list (Cluster → Cluster)) (c : Cluster) : Cluster :=
  foldl (λ c f, f c) c ops.

(** ** Two failed Adds *)

Definition devCluster : Cluster := (Start (λ _, true) (New DevConfig true)).1.

(** Every node is cut off and has campaigned once. *)
Definition cutOff : Cluster :=
  after [λ c, (Isolate "n1" c).1; λ c, (Isolate "n2" c).1; λ c, (Isolate "n3" c).1;
         onMember "n1" (tickAt 500); onMember "n2" (tickAt 500); onMember "n3" (tickAt 500)] devCluster.

Definition add4 := Add "n4" "" "" true [] [[]; []] [] cutOff.
Definition add5 := Add "n5" "" "" true [] [[]; []] [] (add4.1).
Definition restart4 := Restart "n4" true [] (HealAll (add5.1)).
Definition restart5 := Restart "n5" true [] (restart4.1).

Definition putOps (value : string) : list NodeOp :=
  [OpPropose (marshalCommand (MkCommand opPut "x" value))].

Definition divided : Cluster :=
  after [onMember "n2" (tickAt 1000); deliverVote "n2" "n3";
         onMember "n4" (tickAt 1000); onMember "n4" (tickAt 2000);
         deliverVote "n4" "n5"; deliverVote "n4" "n1";
         onMember "n2" (putOps "two"); deliverAppend "n2" "n3";
         onMember "n4" (putOps "four"); deliverAppend "n4" "n5"; deliverAppend "n4" "n1"] (restart5.1).

(** What a member says of itself: whether it leads, its term, its commit index
    and the value of [x] in its store. *)
Definition report (id : string) (c : Cluster) : option (bool * Z * Z * option string) :=
  n ← raftOf id c; Some (IsLeader n, currentTerm n, commitIndex n, machine n !! "x"%string).

(** [C37] A cluster can be divided by its control plane.  An Add that finds no
    leader crashes the member it has started and reports the error, but leaves
    the member and its addresses in the configuration; Restart then starts it as
    an ordinary member of a cluster that the others do not know.  After two such
    Adds, n2 is elected by two of the three members it knows and n4 by three of
    the five it knows, in the same term, and each commits and applies its own
    value of the same key at the same index. *)
Theorem failed_adds_divide :
  add4.2 = Some (Err (ErrNew "no leader to add member")) ∧
  add5.2 = Some (Err (ErrNew "no leader to add member")) ∧
  restart4.2 = Ok tt ∧ restart5.2 = Ok tt ∧
  report "n2" divided = Some (true, 2, 2, Some "two"%string) ∧
  report "n4" divided = Some (true, 2, 2, Some "four"%string).
Proof. vm_compute. by split_and!. Qed.

(** ** A member that is crashed and restarted *)

Definition voted : Cluster := onMember "n1" (tickAt 500) devCluster.

Lemma voted_reachable : reachable DevConfig true voted.
Proof.
  assert (H0 : ∀ c, cl_disks c = ∅ → disks_complete c).
  { intros c E id s. by rewrite E, lookup_empty. }
  apply (reachable_step _ _ devCluster (CMember "n1" (tickAt 500)));
    [|by repeat constructor|apply H0; by vm_compute].
  apply (reachable_step _ _ (New DevConfig true) (CStart (λ _, true)));
    [|done|by apply H0].
  apply reachable_new. apply (bool_decide_unpack _). by vm_compute.
Qed.

Definition votedMember : Member :=
  default (MkMember (NewServer (NewNode (DefaultConfig "" ∅) NewStore [])) true)
    (cl_members voted !! "n1"%string).
Definition votedDisk : Storage :=
  default (MkStorage zeroDurable false []) (storage (srv_raft (mb_KV votedMember))).

Lemma cluster_invariant_witness :
  nodeID (srv_raft (mb_KV votedMember)) = "n1"%string ∧ NoDup (cc_IDs (cl_cfg voted)).
Proof.
  destruct (cluster_invariant DevConfig true voted voted_reachable) as [H1 H2].
  split; [|exact H1].
  apply (H2 "n1"%string (mb_KV votedMember) false). by vm_compute.
Defined.

Lemma crash_restart_witness :
  (Restart "n1" true [] (Crash "n1" voted).1).2 = Ok tt.
Proof.
  pose proof (crash_restart DevConfig true voted "n1" (mb_KV votedMember) votedDisk []
    voted_reachable) as H.
  assert (E1 : cl_http voted = true) by (by vm_compute).
  assert (E2 : cl_members voted !! "n1"%string = Some (MkMember (mb_KV votedMember) false))
    by (by vm_compute).
  assert (E3 : storage (srv_raft (mb_KV votedMember)) = Some votedDisk) by (by vm_compute).
  assert (E5 : ds_VotedFor (st_Disk votedDisk) = "n1"%string) by (by vm_compute).
  assert (E6 : st_Disk votedDisk ≠ zeroDurable) 
    by (intros E%(f_equal ds_VotedFor); rewrite E5 in E; vm_compute in E; discriminate E).
  assert (E7 : disk_complete votedDisk).
  { intros _. split; [|left; by vm_compute]. apply (bool_decide_unpack _). by vm_compute. }
  specialize (H E1 E2 E3 E6 E7).
  destruct (Restart "n1" true [] (Crash "n1" voted).1) as [c' r]. apply H.
Defined.
