(* ===== verification/Process.v ===== *)
(** cmd/main.go: the process.  [main] reads the flags and runs one node, or the
    in-process cluster with its control plane, until a signal; the gRPC server is
    that of raft/grpc.go.  Whether an address can be listened on is a parameter.
    The shutdown of a node runs in a goroutine of its own, and the process does
    not wait longer than its timer for it. *)
From S2P Require Import Prelude Types Utf8 Json JsonSpec Marshal KvStore Text Node Persist Membership Snapshot Log Election RaftOps Read Machine Client Kv NodeInv LogSpec Durable NodeId Network Demo NodeProps Faults Grpc Http Cluster ClusterInv ClusterSpec Kept Accessors.
Open Scope Z_scope.
Open Scope go_scope.

(** ** The gRPC server (raft/grpc.go, kv/grpc.go) *)

Inductive Service := RaftService | KVService.

Record GrpcServer := MkGrpcServer { gs_Addr : string; gs_Services : list Service }.

Definition RegisterRaftServer (gs : GrpcServer) : GrpcServer :=
  MkGrpcServer (gs_Addr gs) (gs_Services gs ++ [RaftService]).

Definition RegisterGRPC (gs : GrpcServer) : GrpcServer :=
  MkGrpcServer (gs_Addr gs) (gs_Services gs ++ [KVService]).

(** [listen] is [net.Listen]: the error for an address, if there is one. *)
Definition ListenAndServeGRPC (listen : string → option string) (addr : string)
    (extra : option (GrpcServer → GrpcServer)) : result GrpcServer :=
  match listen addr with
  | Some err => Err (ErrNew err)
  | None =>
      let gs := RegisterRaftServer (MkGrpcServer addr []) in
      Ok (match extra with Some f => f gs | None => gs end)
  end.

(** ** One node *)

(** A process that runs a node: its server, its gRPC server, whether HTTP and gRPC
    accept requests, whether the signal has come, how many actions of the
    shutdown goroutine are done, and whether [runNode] has returned. *)
Record Process := MkProcess {
  ps_kv : Server;
  ps_grpc : GrpcServer;
  ps_httpOpen : bool;
  ps_grpcOpen : bool;
  ps_signal : bool;
  ps_down : nat;
  ps_returned : bool;
}.

(** [startNode] with its listening: an error of the gRPC address is returned and
    the node is not started; one of the HTTP address is only logged. *)
Definition startProcess (listen : string → option string) (fl : Flags) (st : Storage)
    (src : list Z) : result Process :=
  match ListenAndServeGRPC listen (fl_raftAddr fl) (Some RegisterGRPC) with
  | Err (ErrNew err) => Err (ErrNew ("grpc listen " +:+ fl_raftAddr fl +:+ ": " +:+ err))
  | Err e => Err e
  | Ok gs =>
      Ok (MkProcess (startNode fl st src) gs (bool_decide (listen (fl_httpAddr fl) = None)) true
            false 0 false)
  end.

(** What happens in the life of the process: sections of its node, the signal,
    the next action of the shutdown goroutine, and the return of [runNode],
    through the timer or not. *)
Inductive ProcessEvent :=
  | PNode (ops : list NodeOp)
  | PSignal
  | PShutdown
  | PReturn (timer : bool).

(** The actions of the shutdown goroutine, in order: [httpSrv.Close],
    [gs.GracefulStop], [node.Stop], [close(ctxDone)]. *)
Definition shutdown (p : Process) : Process :=
  match ps_down p with
  | 0%nat => MkProcess (ps_kv p) (ps_grpc p) false (ps_grpcOpen p) true 1 (ps_returned p)
  | 1%nat => MkProcess (ps_kv p) (ps_grpc p) (ps_httpOpen p) false true 2 (ps_returned p)
  | 2%nat => MkProcess (with_raft (RaftOps.Stop (srv_raft (ps_kv p))) (ps_kv p)) (ps_grpc p)
               (ps_httpOpen p) (ps_grpcOpen p) true 3 (ps_returned p)
  | 3%nat => MkProcess (ps_kv p) (ps_grpc p) (ps_httpOpen p) (ps_grpcOpen p) true 4 (ps_returned p)
  | _ => p
  end.

Definition stepProcess (p : Process) (ev : ProcessEvent) : Process :=
  if ps_returned p then p
  else match ev with
  | PNode ops =>
      MkProcess (meanwhile ops (ps_kv p)) (ps_grpc p) (ps_httpOpen p) (ps_grpcOpen p)
        (ps_signal p) (ps_down p) false
  | PSignal =>
      MkProcess (ps_kv p) (ps_grpc p) (ps_httpOpen p) (ps_grpcOpen p) true (ps_down p) false
  | PShutdown => if ps_signal p then shutdown p else p
  | PReturn timer =>
      if ps_signal p && (timer || (ps_down p =? 4)%nat)
      then MkProcess (ps_kv p) (ps_grpc p) (ps_httpOpen p) (ps_grpcOpen p) true (ps_down p) true
      else p
  end.

(** [runNode], up to the last of the events: an error, or the process. *)
Definition runNode (listen : string → option string) (fl : Flags) (st : Storage) (src : list Z)
    (evs : list ProcessEvent) : result Process :=
  match startProcess listen fl st src with
  | Err e => Err e
  | Ok p => Ok (foldl stepProcess p evs)
  end.

(** ** The cluster *)

(** Requests to the control plane, and what the nodes do between them. *)
Inductive DevEvent :=
  | DControl (req : Control)
  | DMember (id : string) (ops : list NodeOp).

Definition devStep (c : Cluster) (ev : DevEvent) : Cluster :=
  match ev with
  | DControl req => (Handler req c).1
  | DMember id ops => onMember id ops c
  end.

(** [runDevCluster]: [life] is what happens before the signal. *)
Definition runDevCluster (cfg : ClusterConfig) (listens : string → bool) (life : list DevEvent) :
    Cluster * result unit :=
  match Cluster.Start listens (New cfg true) with
  | (c, Err e) => (c, Err e)
  | (c, Ok _) => (Cluster.Stop (foldl devStep c life), Ok tt)
  end.

(** ** main *)

(** What a process is given: the addresses that can be listened on, the data
    directory, the random source and what happens. *)
Record Env := MkEnv {
  ev_listen : string → option string;
  ev_members : string → bool;
  ev_storage : Storage;
  ev_src : list Z;
  ev_node : list ProcessEvent;
  ev_dev : list DevEvent;
}.

(** The exit code: 1 for an error, 0 when [runNode] or [runDevCluster] has
    returned nil, none while the process runs. *)
Definition main (fl : Flags) (env : Env) : option Z :=
  if fl_dev fl then
    let cfg := MkClusterConfig (cc_IDs DevConfig) (cc_RaftAddrs DevConfig) (cc_HTTPAddrs DevConfig)
                 (fl_dataRoot fl) in
    match (runDevCluster cfg (ev_members env) (ev_dev env)).2 with
    | Err _ => Some 1
    | Ok _ => Some 0
    end
  else
    match runNode (ev_listen env) fl (ev_storage env) (ev_src env) (ev_node env) with
    | Err _ => Some 1
    | Ok p => if ps_returned p then Some 0 else None
    end.

(** ** Exit *)

(** A node process exits with 1 exactly when its gRPC address is taken; a taken
    HTTP address leaves it running without HTTP. *)
Theorem exit_code fl env :
  fl_dev fl = false →
  (main fl env = Some 1 ↔ is_Some (ev_listen env (fl_raftAddr fl))) ∧
  (main fl env = Some 0 → PSignal ∈ ev_node env).
Proof.
  intros Hd. unfold main. rewrite Hd. unfold runNode, startProcess, ListenAndServeGRPC.
  destruct (ev_listen env (fl_raftAddr fl)) as [err|]; [by split|].
  split; [case_match; split; try done; by intros [? ?]|].
  set (p := MkProcess _ _ _ _ _ _ _).
  assert (Hp : ps_signal p = false ∧ ps_returned p = false) by done.
  clearbody p. revert p Hp. induction (ev_node env) as [|ev evs IH]; intros p [H1 H2]; cbn [foldl].
  { by rewrite H2. }
  assert (Hev : ev = PSignal ∨ ev ≠ PSignal) by (destruct ev; auto).
  destruct Hev as [->|Hne]; [intros _; by left|].
  intros H. right. apply (IH (stepProcess p ev)); [|done]. unfold stepProcess. rewrite H2, H1.
  by destruct ev.
Qed.

(** ** Shutdown *)

(** What the actions that are done have closed. *)
Definition shutdown_ok (p : Process) : Prop :=
  ((1 ≤ ps_down p)%nat → ps_httpOpen p = false) ∧
  ((2 ≤ ps_down p)%nat → ps_grpcOpen p = false) ∧
  ((3 ≤ ps_down p)%nat → stopped (srv_raft (ps_kv p)) = true).

Lemma stopped_meanwhile ops s :
  stopped (srv_raft s) = true → stopped (srv_raft (meanwhile ops s)) = true.
Proof.
  intros H. unfold meanwhile. rewrite runHooks_raft.
  by apply runOps_kept.
Qed.

Lemma shutdown_ok_step p ev : shutdown_ok p → shutdown_ok (stepProcess p ev).
Proof.
  intros (H1&H2&H3). unfold stepProcess. destruct (ps_returned p); [done|]. destruct ev.
  - split_and!; [done..|]. cbn. intros. by apply stopped_meanwhile, H3.
  - done.
  - destruct (ps_signal p); [|done]. unfold shutdown.
    destruct (ps_down p) as [|[|[|[|d]]]] eqn:E; split_and!; cbn; intros; try lia; auto with lia.
    unfold RaftOps.Stop. by destruct (stopped (srv_raft (ps_kv p))) eqn:Es.
  - by destruct (_ && _).
Qed.

(** A process that has returned before its timer has closed its HTTP and gRPC
    servers and stopped its node, in this order. *)
Theorem shutdown_complete listen fl st src evs p :
  runNode listen fl st src evs = Ok p → ps_down p = 4%nat →
  ps_httpOpen p = false ∧ ps_grpcOpen p = false ∧ stopped (srv_raft (ps_kv p)) = true.
Proof.
  unfold runNode. destruct (startProcess listen fl st src) as [p0|e] eqn:E; [|done].
  intros [= <-] Hd. assert (H0 : shutdown_ok p0).
  { unfold startProcess in E. repeat case_match; try done. injection E as <-.
    split_and!; cbn; lia. }
  assert (H : shutdown_ok (foldl stepProcess p0 evs)).
  { clear -H0. revert p0 H0. induction evs as [|ev evs IH]; intros p0 H0; [done|].
    apply IH. by apply shutdown_ok_step. }
  destruct H as (H1&H2&H3). rewrite Hd in *. split_and!; auto with lia.
Qed.

(** ** The next process *)

Definition event_ok (ev : ProcessEvent) : Prop :=
  match ev with PNode ops => Forall op_ok ops | _ => True end.

Lemma dataDir_some fl : dataDir fl ≠ ""%string.
Proof. unfold dataDir. by case_decide. Qed.

(** The configuration that [startNode] gives to its node. *)
Definition flagsConfig (fl : Flags) (st : Storage) : Config :=
  let cfg := DefaultConfig (fl_id fl) (mainPeers fl) in
  MkConfig (cfg_ID cfg) (cfg_PeerAddrs cfg) (cfg_ElectionTimeoutMin cfg)
    (cfg_ElectionTimeoutMax cfg) (cfg_HeartbeatInterval cfg) (Some st) true
    (cfg_SnapshotThreshold cfg) (mainHTTP fl) (fl_join fl).

Lemma startNode_raft fl st src :
  srv_raft (startNode fl st src) =
  installed (NewGRPCTransport (mainPeers fl)) (NewNode (flagsConfig fl st) NewStore src).
Proof.
  unfold startNode, NewServer, SetHTTPAddrs, with_raft, installed. cbn zeta. cbn [srv_raft]. reflexivity.
Qed.

Lemma startNode_good fl st src :
  disk_sound st → disk_complete st →
  node_good (fl_id fl) (dataDir fl) (srv_raft (startNode fl st src)).
Proof.
  intros Hs Hc. rewrite startNode_raft. apply installed_good.
  destruct (NewNode_loads (flagsConfig fl st) NewStore src st eq_refl Hs Hc) as (H1&H2&H3&H4&_).
  split_and!; [done|done|rewrite H3; split; [done|by intros ?%dataDir_some]|by eauto].
Qed.

Lemma process_good id dir p ev :
  event_ok ev → node_good id dir (srv_raft (ps_kv p)) →
  node_good id dir (srv_raft (ps_kv (stepProcess p ev))).
Proof.
  intros Hev H. unfold stepProcess. destruct (ps_returned p); [done|]. destruct ev.
  - by apply node_good_meanwhile.
  - done.
  - destruct (ps_signal p); [|done]. unfold shutdown.
    destruct (ps_down p) as [|[|[|[|d]]]]; try done.
    change (RaftOps.Stop (srv_raft (ps_kv p))) with (runOp OpStop (srv_raft (ps_kv p))).
    by apply (node_good_runOp id dir OpStop).
  - by destruct (_ && _).
Qed.

(** A process that is killed or ends at any point, in the middle of its shutdown
    or not, and is started again with the same flags is a follower with the term,
    vote, log, snapshot and membership its node had. *)
Theorem process_restart listen fl st src evs p s src' :
  disk_sound st → disk_complete st → Forall event_ok evs →
  runNode listen fl st src evs = Ok p →
  storage (srv_raft (ps_kv p)) = Some s → st_Disk s ≠ zeroDurable → disk_complete s →
  ∃ p', startProcess listen fl s src' = Ok p' ∧
    let n := srv_raft (ps_kv p) in let n' := srv_raft (ps_kv p') in
    durableOf n' = durableOf n ∧ peerAddrs n' = peerAddrs n ∧ peerHTTP n' = peerHTTP n ∧
    peerIDs n' = peerIDs n ∧ state n' = Follower.
Proof.
  intros Hs Hc Hevs Hrun Hst Hz Hcp.
  assert (Hg : node_good (fl_id fl) (dataDir fl) (srv_raft (ps_kv p)) ∧ listen (fl_raftAddr fl) = None).
  { unfold runNode, startProcess, ListenAndServeGRPC in Hrun.
    destruct (listen (fl_raftAddr fl)) as [err|]; [done|]. split; [|done]. injection Hrun as <-.
    match goal with |- context [foldl stepProcess ?x evs] =>
      assert (H0 : node_good (fl_id fl) (dataDir fl) (srv_raft (ps_kv x)))
        by (by apply startNode_good); revert H0; generalize x end.
    clear -Hevs. induction Hevs as [|ev evs Hev _ IH]; intros x H0; [done|].
    apply IH. by apply process_good. }
  destruct Hg as [Hg Hl].
  eexists. unfold startProcess, ListenAndServeGRPC. rewrite Hl. split; [reflexivity|].
  cbn [ps_kv]. cbn zeta. rewrite startNode_raft.
  match goal with |- context [installed ?t ?x] =>
    destruct (installed_same t x) as (->&->&->&->&->&_) end.
  pose proof Hg as (_&Hid&_). rewrite <- Hid in Hg.
  by apply (load_same (dataDir fl) (srv_raft (ps_kv p)) s).
Qed.

(** ** The end of the cluster *)

(** A member that has crashed stays so while others crash. *)
Lemma crash_marks id c id' m :
  cl_members (Crash id c).1 !! id' = Some m →
  ∃ m0, cl_members c !! id' = Some m0 ∧ (id' = id ∨ mb_Crashed m0 = true → mb_Crashed m = true).
Proof.
  unfold Crash. destruct (cl_members c !! id) as [x|] eqn:E.
  - destruct (mb_Crashed x) eqn:Ex; cbn.
    + intros H. exists m. split; [done|]. intros [->|?]; [|done]. rewrite E in H. by injection H as <-.
    + intros [[<- <-]|[Hne H]]%lookup_insert_Some; [by eauto|].
      exists m. split; [done|]. intros [?|?]; [by subst|done].
  - cbn. intros H. exists m. split; [done|]. intros [->|?]; [|done]. by rewrite E in H.
Qed.

Lemma crashes_mark ids c id m :
  cl_members (foldl (λ c id, (Crash id c).1) c ids) !! id = Some m →
  ∃ m0, cl_members c !! id = Some m0 ∧ (id ∈ ids ∨ mb_Crashed m0 = true → mb_Crashed m = true).
Proof.
  revert c. induction ids as [|x ids IH]; intros c H; cbn [foldl] in H.
  { exists m. split; [done|]. by intros [?%elem_of_nil|?]. }
  destruct (IH _ H) as (m1&H1&Hm1). destruct (crash_marks x c id m1 H1) as (m0&H0&Hm0).
  exists m0. split; [done|]. rewrite elem_of_cons. tauto.
Qed.

(** When the dev cluster ends after a signal, every member is stopped and what it
    must not forget is on its disk. *)
Theorem stop_crashes_all cfg http c id m :
  reachable cfg http c → cl_members (Cluster.Stop c) !! id = Some m →
  mb_Crashed m = true ∧ stopped (srv_raft (mb_KV m)) = true ∧
  ∀ s, storage (srv_raft (mb_KV m)) = Some s → cl_disks (Cluster.Stop c) !! id = Some s.
Proof.
  intros Hok%reachable_ok Hm. pose proof (cluster_ok_Stop c Hok) as (_&Hs&_).
  destruct (Hs id m Hm) as (_&_&_&Hc).
  assert (Hcr : mb_Crashed m = true).
  { destruct (crashes_mark _ c id m Hm) as (m0&H0&H). apply H. left.
    destruct Hok as (_&Hk&_). by destruct (Hk id m0 H0). }
  by split; [|apply Hc].
Qed.
