(* ===== verification/Findings.v ===== *)
(** Behaviours of the program that differ from what its documentation says, each
    proved on the model: a write that is acknowledged and lost, a joining phase
    that ends with a refused request, and votes granted without being on disk. *)
From S2P Require Import Prelude Types Node Persist Membership Snapshot Log Election RaftOps Read Machine NodeInv LogSpec Durable Network Demo SnapshotSpec.
Open Scope Z_scope.
Open Scope go_scope.

(** ** A lost write that is acknowledged

    WaitApplied looks only at the index, not at the term of the proposal.  Node a
    proposes a command that reaches nobody; b, elected in the next term, commits
    another command at that index and tells a, which follows, overwrites its entry,
    commits and applies in one call of HandleAppendEntries. *)
Definition proposeLost : list Label := electA ++ [LPropose "a" cmdX].

Definition overwrite : list Label :=
  [LEnv "b" (500 * Millisecond) []; LTick "b"; LDeliver 4; LDeliver 5; LPropose "b" cmdY;
   LReplicate "b" "c"; LDeliver 6; LDeliver 7; LReplicate "b" "a"; LDeliver 8].

Definition nodeAt (ls : list Label) (i : string) : RaftNode (list bytes) :=
  default (boot (config3 0) [] i freshStorage [])
    (w_nodes (runW (config3 0) [] ls (initWorld (config3 0) [])) !! i).

(** The commands in the log of a node. *)
Definition commandsOf (n : RaftNode (list bytes)) : list bytes := e_Command <$> log n.

(** [C39] A write can be acknowledged and lost: in a run of a cluster of three
    with a fixed membership, the leader a accepts a command at index 2, the wait
    for that index looks at a twice and returns success, and at that moment no
    node of the cluster has the command in its log or its state machine. *)
Theorem lost_write_acknowledged :
  Forall fixed_label (proposeLost ++ overwrite) ∧
  (Propose cmdX (nodeAt electA "a")).2 = Ok (2, 1) ∧
  WaitApplied 2 [WaitTick (nodeAt proposeLost "a");
                 WaitTick (nodeAt (proposeLost ++ overwrite) "a")] = Some (Ok tt) ∧
  Forall (λ i, cmdX ∉ commandsOf (nodeAt (proposeLost ++ overwrite) i) ∧
               cmdX ∉ machine (nodeAt (proposeLost ++ overwrite) i)) ["a"; "b"; "c"]%string.
Proof.
  split_and!.
  - repeat constructor.
  - vm_compute. reflexivity.
  - vm_compute. reflexivity.
  - apply (bool_decide_eq_true_1 _). vm_compute. reflexivity.
Qed.

(** ** The end of the joining phase

    [Divergence.joiner_elects_itself] shows what it leads to. *)

Section joining.
Context {M : Type} `{!StateMachine M}.

(** HandleAppendEntries ends the joining phase of a node on any request of a
    term that is not old, also on one it refuses, so before any leader has
    replicated the membership to it. *)
Theorem refused_append_ends_joining req (n : RaftNode M) :
  currentTerm n ≤ ae_Term req → termAtLocked n (ae_PrevLogIndex req) = None →
  aer_Success (HandleAppendEntries req n).2 = false ∧
  joining (HandleAppendEntries req n).1 = false ∧
  log (HandleAppendEntries req n).1 = log n ∧
  peerAddrs (HandleAppendEntries req n).1 = peerAddrs n.
Proof.
  intros Hle Hno. unfold HandleAppendEntries. rewrite decide_False by lia.
  destruct (acceptLeader_shape (ae_Term req) (ae_LeaderID req) n Hle) as (s&v&d&r&E).
  assert (H0 : log (acceptLeader (ae_Term req) (ae_LeaderID req) n) = log n ∧
    joining (acceptLeader (ae_Term req) (ae_LeaderID req) n) = false ∧
    peerAddrs (acceptLeader (ae_Term req) (ae_LeaderID req) n) = peerAddrs n) by (by rewrite E).
  revert H0. clear E. generalize (acceptLeader (ae_Term req) (ae_LeaderID req) n).
  intros n0 (E1&E2&E3). cbn zeta.
  assert (entryAtLocked n0 (ae_PrevLogIndex req) = None) as ->.
  { rewrite entryAtLocked_eq. unfold lastIncludedIndexLocked, firstEntry. rewrite E1.
    unfold termAtLocked in Hno. rewrite entryAtLocked_eq in Hno.
    unfold lastIncludedIndexLocked, firstEntry in Hno. by destruct (log n !z _). }
  case_decide; by split_and!.
Qed.
End joining.

(** ** A vote that is not on disk *)

Section failing_disk.
Context {M : Type} `{!StateMachine M}.

(** A failed save is only logged: a node that can vote for the candidate of
    its own term grants the vote although the save fails, and the disk does not
    have it. *)
Theorem vote_granted_unsaved req (n : RaftNode M) s errs :
  storage n = Some s → st_SaveErrs s = true :: errs →
  rv_Term req = currentTerm n → votedFor n = ""%string →
  isLogUpToDateLocked (rv_LastLogIndex req) (rv_LastLogTerm req) n = true →
  let '(n', resp) := HandleRequestVote req n in
  rvr_VoteGranted resp = true ∧ votedFor n' = rv_CandidateID req ∧
  ∃ s', storage n' = Some s' ∧ st_Disk s' = st_Disk s.
Proof.
  intros Hs He Ht Hv Hup. unfold HandleRequestVote. rewrite decide_False by lia.
  rewrite (decide_False (P := rv_Term req > currentTerm n)) by lia. cbn zeta.
  rewrite Hup, bool_decide_eq_true_2 by (by left). cbn [andb].
  destruct (resetElectionTimerLocked_shape (set_votedFor (rv_CandidateID req) n)) as (d&r&->).
  unfold persistLocked. cbn [storage set_electionDeadline set_rng set_votedFor]. rewrite Hs.
  unfold Save. rewrite He. split_and!; [done..|]. eexists. done.
Qed.
End failing_disk.

(** ** Witnesses *)

(** A node started to join a cluster knows only itself. *)
Definition joiner : RaftNode (list bytes) :=
  NewNode (joinConfig (config3 0) "d" (addr "d") "" freshStorage) [] [].

(** The first heartbeat of a leader whose log ends at index 7. *)
Definition firstContact : AppendEntriesRequest := MkAppendReq 1 "a" 7 1 [] 7.

Lemma refused_append_ends_joining_witness :
  joining (HandleAppendEntries firstContact joiner).1 = false.
Proof.
  apply (refused_append_ends_joining firstContact joiner);
    [vm_compute; discriminate|vm_compute; reflexivity].
Defined.

(** A node whose next save fails. *)
Definition failing : RaftNode (list bytes) :=
  set_storage (Some (MkStorage zeroDurable false [true])) (NewNode (soloConfig 0) [] []).

Lemma vote_granted_unsaved_witness :
  rvr_VoteGranted (HandleRequestVote (MkVoteReq 0 "b" 0 0) failing).2 = true.
Proof.
  pose proof (vote_granted_unsaved (MkVoteReq 0 "b" 0 0) failing
    (MkStorage zeroDurable false [true]) [] eq_refl eq_refl eq_refl eq_refl
    ltac:(vm_compute; reflexivity)) as H.
  destruct (HandleRequestVote (MkVoteReq 0 "b" 0 0) failing) as [n' resp]. apply H.
Defined.
